(** * Lavalink track and playlist encoder: a shallow embedding

    The development follows the TypeScript sources
    [src/encoders/TrackEncoder.ts], [src/encoders/PlaylistEncoder.ts],
    [src/discord/DiscordTrackEncoder.ts], [src/LavalinkEncoder.ts] and
    [src/utils/index.ts].  JavaScript strings are sequences of UTF-16 code
    units, numbers of the track model are integers, exceptions are an error
    result and [console.warn] is a log threaded through the playlist
    encoder.  Sums, differences and products of integers are exact, as
    those of JavaScript are while operands and result are safe integers
    (at most 2^53 - 1 in absolute value).

    The platform pieces the encoder calls are embedded as executable
    functions: [fromByteArray] and [toByteArray] after the [index.js] of the
    [base64-js] package, [TextEncoder] and [TextDecoder] after the UTF-8
    encoder and decoder of the WHATWG Encoding standard, [JSON.stringify]
    and [JSON.parse] after ECMA-262 (2019 and later, where lone surrogates
    are escaped).  A number that is not an integer stands as the exact
    decimal of its literal instead of the nearest double, and the property
    order of an object is insertion order (a key that is an array index
    would come first in ECMA-262; the track payload has none). *)

From Stdlib Require Import ZArith List String Ascii Bool Lia.
From Stdlib Require Import Permutation Sorted.
Import ListNotations.
Local Open Scope Z_scope.

(** ** JavaScript strings, exceptions and results *)

Module JS.

(** A string is its sequence of UTF-16 code units. *)
Definition jsstring := list Z.

Definition code_unit (c : Z) : Prop := 0 <= c < 65536.

Definition wf_string (s : jsstring) : Prop := Forall code_unit s.

(** String literals of the source, written as Rocq strings. *)
Definition lit (s : string) : jsstring :=
  map (fun a => Z.of_N (N_of_ascii a)) (list_ascii_of_string s).

(** [!s] on a string: only the empty string is falsy. *)
Definition falsy (s : jsstring) : bool :=
  match s with [] => true | _ :: _ => false end.

Definition string_eqb (s t : jsstring) : bool :=
  if list_eq_dec Z.eq_dec s t then true else false.

(** No string occurs twice. *)
Fixpoint distinct (l : list jsstring) : bool :=
  match l with
  | [] => true
  | x :: l' => negb (existsb (string_eqb x) l') && distinct l'
  end.

(** [s.indexOf(c)] for a single code unit; [None] stands for [-1]. *)
Fixpoint indexOf (s : jsstring) (c : Z) : option Z :=
  match s with
  | [] => None
  | x :: s' =>
      if x =? c then Some 0
      else match indexOf s' c with
           | Some i => Some (i + 1)
           | None => None
           end
  end.

(** The [message] of an error: a known text, the engine's own text for a
    [RangeError] or for the [SyntaxError] of [JSON.parse], or a known
    prefix put in front of another message. *)
Inductive message : Type :=
| Text (s : jsstring)
| EngineRangeText
| EngineSyntaxText
| Append (prefix : jsstring) (m : message).

(** Thrown values: an instance of [Error] with its message, or anything
    else. *)
Inductive exn : Type :=
| Error (m : message)
| NotAnError.

Definition RangeError : exn := Error EngineRangeText.
Definition SyntaxError : exn := Error EngineSyntaxText.

(** [error instanceof Error ? error.message : 'Unknown error'] *)
Definition messageOf (e : exn) : message :=
  match e with
  | Error m => m
  | NotAnError => Text (lit "Unknown error")
  end.

Inductive result (A : Type) : Type :=
| Ok (a : A)
| Throw (e : exn).
Arguments Ok {A} a.
Arguments Throw {A} e.

Definition bind {A B} (r : result A) (k : A -> result B) : result B :=
  match r with
  | Ok a => k a
  | Throw e => Throw e
  end.

Definition fmap {A B} (f : A -> B) (r : result A) : result B :=
  match r with
  | Ok a => Ok (f a)
  | Throw e => Throw e
  end.

Definition is_ok {A} (r : result A) : bool :=
  match r with Ok _ => true | Throw _ => false end.

(** [s.startsWith(p)] and [s.includes(p)] *)
Fixpoint startsWith (s p : jsstring) : bool :=
  match p, s with
  | [], _ => true
  | _ :: _, [] => false
  | x :: p', y :: s' => (x =? y) && startsWith s' p'
  end.

Fixpoint includes (s p : jsstring) : bool :=
  startsWith s p
  || match s with
     | [] => false
     | _ :: s' => includes s' p
     end.

(** [xs.map(f)] where the callback may throw: the first exception, in
    index order, aborts the whole map. *)
Fixpoint mapM {A B} (f : A -> result B) (xs : list A) : result (list B) :=
  match xs with
  | [] => Ok []
  | x :: xs' =>
      bind (f x) (fun y => bind (mapM f xs') (fun ys => Ok (y :: ys)))
  end.

End JS.
Export JS.

Notation "'do' x <- r ; k" := (bind r (fun x => k))
  (at level 10, x name, r at level 100, k at level 200).
Notation "'check' r ; k" := (bind r (fun _ => k))
  (at level 10, r at level 100, k at level 200).

(** ** The [base64-js] dependency ([fromByteArray], [toByteArray])

    [TrackEncoder.ts] imports the package as [base64]; the functions below
    follow its [index.js] statement by statement.  Bytes are integers,
    those of a [Uint8Array] lie in [0, 256). *)

Module Base64.

Definition code : jsstring :=
  lit "ABCDEFGHIJKLMNOPQRSTUVWXYZabcdefghijklmnopqrstuvwxyz0123456789+/".

(** [lookup[i]] *)
Definition lookup (i : Z) : Z := nth (Z.to_nat i) code 0.

(** [revLookup[c]]: the table is filled from [code], then the URL-safe
    [-] and [_] are added; other entries are [undefined]. *)
Definition revLookup (c : Z) : option Z :=
  if c =? 45 then Some 62
  else if c =? 95 then Some 63
  else indexOf code c.

(** [revLookup[b64.charCodeAt(i + k)]] as an operand of [<<], [>>] or [|],
    where [rest] is the string from index [i] on: [undefined] and a read
    past the end both act as [0]. *)
Definition revAt (rest : jsstring) (k : nat) : Z :=
  match nth_error rest k with
  | Some c => match revLookup c with Some v => v | None => 0 end
  | None => 0
  end.

Definition invalid_length : exn :=
  Error (Text (lit "Invalid string. Length must be a multiple of 4")).

Definition getLens (b64 : jsstring) : result (Z * Z) :=
  let len := Z.of_nat (List.length b64) in
  if len mod 4 >? 0 then Throw invalid_length
  else
    let validLen := match indexOf b64 61 with Some i => i | None => len end in
    let placeHoldersLen :=
      if validLen =? len then 0 else 4 - validLen mod 4 in
    Ok (validLen, placeHoldersLen).

Definition _byteLength (validLen placeHoldersLen : Z) : Z :=
  (validLen + placeHoldersLen) * 3 / 4 - placeHoldersLen.

(** The main loop [for (i = 0; i < len; i += 4)]; [rest] is the string
    from index [i] on.  Returns the bytes written and the string from the
    final [i] on. *)
Fixpoint decodeLoop (rest : jsstring) (i len : Z) {struct rest}
  : list Z * jsstring :=
  if i <? len then
    let tmp :=
      Z.lor (Z.lor (Z.lor (Z.shiftl (revAt rest 0) 18)
                          (Z.shiftl (revAt rest 1) 12))
                   (Z.shiftl (revAt rest 2) 6))
            (revAt rest 3) in
    let bytes := [Z.land (Z.shiftr tmp 16) 255;
                  Z.land (Z.shiftr tmp 8) 255;
                  Z.land tmp 255] in
    match rest with
    | _ :: _ :: _ :: _ :: rest' =>
        let (out, r) := decodeLoop rest' (i + 4) len in (bytes ++ out, r)
    | _ => (bytes, [])
    end
  else ([], rest).

(** A zero-filled [Uint8Array] of length [n] after the sequential writes
    [arr[curByte++] = b]: writes past the end are dropped. *)
Definition fill (n : nat) (written : list Z) : list Z :=
  firstn n (written ++ repeat 0 n).

Definition toByteArray (b64 : jsstring) : result (list Z) :=
  do lens <- getLens b64;
  let (validLen, placeHoldersLen) := lens : Z * Z in
  let n := _byteLength validLen placeHoldersLen in
  if n <? 0 then Throw RangeError
  else
    let len := if placeHoldersLen >? 0 then validLen - 4 else validLen in
    let (main, rest) := decodeLoop b64 0 len in
    let two :=
      if placeHoldersLen =? 2 then
        let tmp := Z.lor (Z.shiftl (revAt rest 0) 2)
                         (Z.shiftr (revAt rest 1) 4) in
        [Z.land tmp 255]
      else [] in
    let one :=
      if placeHoldersLen =? 1 then
        let tmp := Z.lor (Z.lor (Z.shiftl (revAt rest 0) 10)
                                (Z.shiftl (revAt rest 1) 4))
                         (Z.shiftr (revAt rest 2) 2) in
        [Z.land (Z.shiftr tmp 8) 255; Z.land tmp 255]
      else [] in
    Ok (fill (Z.to_nat n) (main ++ two ++ one)).

Definition tripletToBase64 (num : Z) : jsstring :=
  [lookup (Z.land (Z.shiftr num 18) 63);
   lookup (Z.land (Z.shiftr num 12) 63);
   lookup (Z.land (Z.shiftr num 6) 63);
   lookup (Z.land num 63)].

(** [encodeChunk] over whole triplets.  The source cuts the input into
    chunks of 16383 bytes (a multiple of 3) and joins the pieces, which is
    the encoding of the whole run. *)
Fixpoint encodeChunk (uint8 : list Z) : jsstring :=
  match uint8 with
  | a :: b :: c :: rest =>
      tripletToBase64
        (Z.land (Z.shiftl a 16) 16711680 + Z.land (Z.shiftl b 8) 65280
         + Z.land c 255)
      ++ encodeChunk rest
  | _ => []
  end.

Definition fromByteArray (uint8 : list Z) : jsstring :=
  let len := List.length uint8 in
  let extraBytes := (len mod 3)%nat in
  let len2 := (len - extraBytes)%nat in
  encodeChunk (firstn len2 uint8)
  ++ match skipn len2 uint8 with
     | [tmp] =>
         [lookup (Z.shiftr tmp 2); lookup (Z.land (Z.shiftl tmp 4) 63);
          61; 61]
     | [hi; lo] =>
         let tmp := Z.shiftl hi 8 + lo in
         [lookup (Z.shiftr tmp 10); lookup (Z.land (Z.shiftr tmp 4) 63);
          lookup (Z.land (Z.shiftl tmp 2) 63); 61]
     | _ => []
     end.

Definition byte (b : Z) : Prop := 0 <= b < 256.

End Base64.

(** ** [TextEncoder] and [TextDecoder] (UTF-8, WHATWG Encoding) *)

Module Text.

Definition is_high (c : Z) : bool := (55296 <=? c) && (c <=? 56319).
Definition is_low (c : Z) : bool := (56320 <=? c) && (c <=? 57343).

(** Conversion of a string to scalar values: a surrogate pair is one code
    point, a lone surrogate becomes U+FFFD. *)
Fixpoint scalarValues (s : jsstring) : list Z :=
  match s with
  | [] => []
  | c :: s' =>
      if is_high c then
        match s' with
        | d :: s'' =>
            if is_low d
            then (65536 + Z.shiftl (c - 55296) 10 + (d - 56320))
                 :: scalarValues s''
            else 65533 :: scalarValues s'
        | [] => [65533]
        end
      else if is_low c then 65533 :: scalarValues s'
      else c :: scalarValues s'
  end.

(** The continuation bytes [0x80 | ((cp >> (6 * (count - 1))) & 0x3F)]. *)
Fixpoint continuation (cp : Z) (count : nat) : list Z :=
  match count with
  | O => []
  | S k =>
      Z.lor 128 (Z.land (Z.shiftr cp (6 * Z.of_nat k)) 63)
      :: continuation cp k
  end.

Definition encodeCodePoint (cp : Z) : list Z :=
  if cp <=? 127 then [cp]
  else
    let '(count, offset) :=
      if cp <=? 2047 then (1%nat, 192)
      else if cp <=? 65535 then (2%nat, 224)
      else (3%nat, 240) in
    (Z.shiftr cp (6 * Z.of_nat count) + offset) :: continuation cp count.

(** [new TextEncoder().encode(s)] *)
Definition encode (s : jsstring) : list Z :=
  flat_map encodeCodePoint (scalarValues s).

(** State of the UTF-8 decoder. *)
Record decoder : Type := mkDecoder {
  code_point : Z;
  bytes_seen : Z;
  bytes_needed : Z;
  lower_boundary : Z;
  upper_boundary : Z
}.

Definition initial : decoder := mkDecoder 0 0 0 128 191.

Definition between (lo x hi : Z) : bool := (lo <=? x) && (x <=? hi).

(** The handler when no byte is pending: the new state and the code points
    emitted (U+FFFD for an error). *)
Definition start (b : Z) : decoder * list Z :=
  if between 0 b 127 then (initial, [b])
  else if between 194 b 223 then
    (mkDecoder (Z.land b 31) 0 1 128 191, [])
  else if between 224 b 239 then
    (mkDecoder (Z.land b 15) 0 2
       (if b =? 224 then 160 else 128) (if b =? 237 then 159 else 191), [])
  else if between 240 b 244 then
    (mkDecoder (Z.land b 7) 0 3
       (if b =? 240 then 144 else 128) (if b =? 244 then 143 else 191), [])
  else (initial, [65533]).

(** The handler.  A byte outside the boundaries resets the decoder, is
    put back in front of the input and reports an error; the put-back
    byte is then handled by the reset decoder. *)
Definition handler (st : decoder) (b : Z) : decoder * list Z :=
  if bytes_needed st =? 0 then start b
  else if negb (between (lower_boundary st) b (upper_boundary st)) then
    let (st', out) := start b in (st', 65533 :: out)
  else
    let cp := Z.lor (Z.shiftl (code_point st) 6) (Z.land b 63) in
    let seen := bytes_seen st + 1 in
    if seen =? bytes_needed st then (initial, [cp])
    else (mkDecoder cp seen (bytes_needed st) 128 191, []).

Fixpoint run (st : decoder) (bytes : list Z) : list Z :=
  match bytes with
  | [] => if bytes_needed st =? 0 then [] else [65533]
  | b :: bytes' =>
      let (st', out) := handler st b in out ++ run st' bytes'
  end.

(** A leading U+FEFF is dropped ([ignoreBOM] is false by default). *)
Definition stripBOM (cps : list Z) : list Z :=
  match cps with
  | c :: cps' => if c =? 65279 then cps' else cps
  | [] => []
  end.

Definition codeUnits (cp : Z) : jsstring :=
  if cp <=? 65535 then [cp]
  else [55296 + Z.shiftr (cp - 65536) 10; 56320 + Z.land (cp - 65536) 1023].

(** [new TextDecoder().decode(bytes)] *)
Definition decode (bytes : list Z) : jsstring :=
  flat_map codeUnits (stripBOM (run initial bytes)).

(** Strings in which every surrogate is half of a pair. *)
Inductive paired : jsstring -> Prop :=
| paired_nil : paired []
| paired_unit c s :
    code_unit c -> is_high c = false -> is_low c = false ->
    paired s -> paired (c :: s)
| paired_pair c d s :
    is_high c = true -> is_low d = true -> paired s ->
    paired (c :: d :: s).

(** Unicode scalar values. *)
Definition scalar (cp : Z) : Prop :=
  0 <= cp < 1114112 /\ ~ (55296 <= cp <= 57343).

(** The code point of a surrogate pair. *)
Definition pairValue (c d : Z) : Z :=
  65536 + Z.shiftl (c - 55296) 10 + (d - 56320).

End Text.

(** ** [JSON.stringify] and [JSON.parse] *)

Module JSON.

(** JavaScript values that JSON text denotes.  Integers are [JNumber];
    a number that is not an integer stands as the exact decimal
    [m * 10 ^ e] with [e < 0] and [m] not a multiple of ten.  An object is
    its list of properties in property order. *)
#[warnings="-register-all"]
Inductive value : Type :=
| JNull
| JBool (b : bool)
| JNumber (n : Z)
| JFraction (m e : Z)
| JString (s : jsstring)
| JArray (xs : list value)
| JObject (props : list (jsstring * value)).

(** *** Number to string *)

Fixpoint digitsAux (fuel : nat) (n : Z) (acc : jsstring) : jsstring :=
  match fuel with
  | O => acc
  | S fuel' =>
      let acc' := (48 + n mod 10) :: acc in
      if n <? 10 then acc' else digitsAux fuel' (n / 10) acc'
  end.

(** Decimal digits of [n >= 0]; a number has at most [log2 n + 1] of
    them. *)
Definition digits (n : Z) : jsstring :=
  digitsAux (S (Z.to_nat (Z.log2 n))) n [].

(** Removes the zeros at the end of a digit string. *)
Fixpoint stripZeros (ds : jsstring) : jsstring :=
  match ds with
  | [] => []
  | d :: ds' =>
      match stripZeros ds' with
      | [] => if d =? 48 then [] else [d]
      | t => d :: t
      end
  end.

(** [Number::toString] of the number with significant digits [ds]
    ([k] of them) and decimal exponent [n], that is [0.ds * 10 ^ n]. *)
Definition formatNumber (ds : jsstring) (n : Z) : jsstring :=
  let k := Z.of_nat (List.length ds) in
  if (k <=? n) && (n <=? 21) then ds ++ repeat 48 (Z.to_nat (n - k))
  else if (0 <? n) && (n <=? 21) then
    firstn (Z.to_nat n) ds ++ 46 :: skipn (Z.to_nat n) ds
  else if (-6 <? n) && (n <=? 0) then
    48 :: 46 :: repeat 48 (Z.to_nat (- n)) ++ ds
  else
    let e := n - 1 in
    let exponent :=
      101 :: (if e <? 0 then 45 else 43) :: digits (Z.abs e) in
    match ds with
    | [d] => d :: exponent
    | d :: ds' => d :: 46 :: ds' ++ exponent
    | [] => exponent
    end.

Definition numberToString (n : Z) : jsstring :=
  if n =? 0 then [48]
  else
    let ds := digits (Z.abs n) in
    let body :=
      formatNumber (match stripZeros ds with [] => [48] | t => t end)
                   (Z.of_nat (List.length ds)) in
    if n <? 0 then 45 :: body else body.

Definition fractionToString (m e : Z) : jsstring :=
  let ds := digits (Z.abs m) in
  let body := formatNumber ds (Z.of_nat (List.length ds) + e) in
  if m <? 0 then 45 :: body else body.

(** *** String quoting *)

Definition hexDigit (d : Z) : Z := if d <? 10 then 48 + d else 87 + d.

(** [UnicodeEscape]: a backslash, [u] and four lowercase hex digits. *)
Definition unicodeEscape (c : Z) : jsstring :=
  [92; 117;
   hexDigit (Z.land (Z.shiftr c 12) 15); hexDigit (Z.land (Z.shiftr c 8) 15);
   hexDigit (Z.land (Z.shiftr c 4) 15); hexDigit (Z.land c 15)].

Definition escapeUnit (c : Z) : jsstring :=
  if c =? 8 then [92; 98]
  else if c =? 9 then [92; 116]
  else if c =? 10 then [92; 110]
  else if c =? 12 then [92; 102]
  else if c =? 13 then [92; 114]
  else if c =? 34 then [92; 34]
  else if c =? 92 then [92; 92]
  else if c <? 32 then unicodeEscape c
  else [c].

(** [QuoteJSONString] between the quotes: surrogate pairs are kept, lone
    surrogates are escaped. *)
Fixpoint quoteBody (s : jsstring) : jsstring :=
  match s with
  | [] => []
  | c :: s' =>
      if Text.is_high c then
        match s' with
        | d :: s'' =>
            if Text.is_low d then c :: d :: quoteBody s''
            else unicodeEscape c ++ quoteBody s'
        | [] => unicodeEscape c
        end
      else if Text.is_low c then unicodeEscape c ++ quoteBody s'
      else escapeUnit c ++ quoteBody s'
  end.

Definition quote (s : jsstring) : jsstring := 34 :: quoteBody s ++ [34].

(** *** [JSON.stringify] *)

(** The elements of an array and the members of an object, separated by
    commas; [f] serialises one value. *)
Definition joinElements (f : value -> jsstring)
  : list value -> jsstring :=
  fix elements (xs : list value) : jsstring :=
    match xs with
    | [] => []
    | [x] => f x
    | x :: xs' => f x ++ 44 :: elements xs'
    end.

Definition joinMembers (f : value -> jsstring)
  : list (jsstring * value) -> jsstring :=
  fix members (ps : list (jsstring * value)) : jsstring :=
    match ps with
    | [] => []
    | [(k, x)] => quote k ++ 58 :: f x
    | (k, x) :: ps' => quote k ++ 58 :: f x ++ 44 :: members ps'
    end.

Fixpoint stringify (v : value) : jsstring :=
  match v with
  | JNull => lit "null"
  | JBool true => lit "true"
  | JBool false => lit "false"
  | JNumber n => numberToString n
  | JFraction m e => fractionToString m e
  | JString s => quote s
  | JArray xs => 91 :: joinElements stringify xs ++ [93]
  | JObject props => 123 :: joinMembers stringify props ++ [125]
  end.

(** *** [JSON.parse] *)

Definition isWs (c : Z) : bool :=
  (c =? 32) || (c =? 9) || (c =? 10) || (c =? 13).

Fixpoint skipWs (s : jsstring) : jsstring :=
  match s with
  | c :: s' => if isWs c then skipWs s' else s
  | [] => []
  end.

Definition isDigit (c : Z) : bool := (48 <=? c) && (c <=? 57).

Definition hexValue (c : Z) : option Z :=
  if isDigit c then Some (c - 48)
  else if (97 <=? c) && (c <=? 102) then Some (c - 87)
  else if (65 <=? c) && (c <=? 70) then Some (c - 55)
  else None.

Definition hex4 (a b c d : Z) : option Z :=
  match hexValue a, hexValue b, hexValue c, hexValue d with
  | Some x, Some y, Some z, Some w => Some (((x * 16 + y) * 16 + z) * 16 + w)
  | _, _, _, _ => None
  end.

Definition unescape (e : Z) : option Z :=
  if e =? 34 then Some 34
  else if e =? 92 then Some 92
  else if e =? 47 then Some 47
  else if e =? 98 then Some 8
  else if e =? 102 then Some 12
  else if e =? 110 then Some 10
  else if e =? 114 then Some 13
  else if e =? 116 then Some 9
  else None.

Definition consTo (c : Z) (r : option (jsstring * jsstring))
  : option (jsstring * jsstring) :=
  match r with
  | Some (str, rest) => Some (c :: str, rest)
  | None => None
  end.

(** The characters of a string literal after its opening quote: the
    string denoted and the text after the closing quote. *)
Fixpoint parseStringBody (s : jsstring) : option (jsstring * jsstring) :=
  match s with
  | [] => None
  | c :: s' =>
      if c =? 34 then Some ([], s')
      else if c =? 92 then
        match s' with
        | [] => None
        | e :: s'' =>
            if e =? 117 then
              match s'' with
              | h1 :: h2 :: h3 :: h4 :: s3 =>
                  match hex4 h1 h2 h3 h4 with
                  | Some u => consTo u (parseStringBody s3)
                  | None => None
                  end
              | _ => None
              end
            else
              match unescape e with
              | Some u => consTo u (parseStringBody s'')
              | None => None
              end
        end
      else if c <? 32 then None
      else consTo c (parseStringBody s')
  end.

(** The longest run of digits in front of [s]. *)
Fixpoint spanDigits (s : jsstring) : jsstring * jsstring :=
  match s with
  | c :: s' =>
      if isDigit c then let (ds, rest) := spanDigits s' in (c :: ds, rest)
      else ([], s)
  | [] => ([], [])
  end.

Definition digitsValue (ds : jsstring) : Z :=
  fold_left (fun acc d => acc * 10 + (d - 48)) ds 0.

(** Strips factors of ten from [m] while the exponent is negative. *)
Fixpoint normalize (fuel : nat) (m e : Z) : value :=
  if 0 <=? e then JNumber (m * 10 ^ e)
  else
    match fuel with
    | O => JFraction m e
    | S fuel' =>
        if m mod 10 =? 0 then normalize fuel' (m / 10) (e + 1)
        else JFraction m e
    end.

(** The number [sign * m * 10 ^ e]. *)
Definition mkNumber (negative : bool) (m e : Z) : value :=
  if m =? 0 then JNumber 0
  else normalize (Z.to_nat (- e)) (if negative then - m else m) e.

Definition parseExponent (s : jsstring) : option (Z * jsstring) :=
  match s with
  | c :: s' =>
      if (c =? 101) || (c =? 69) then
        let '(negative, s'') :=
          match s' with
          | g :: t =>
              if g =? 45 then (true, t)
              else if g =? 43 then (false, t)
              else (false, s')
          | [] => (false, s')
          end in
        match spanDigits s'' with
        | ([], _) => None
        | (ds, rest) =>
            Some (if negative then - digitsValue ds else digitsValue ds,
                  rest)
        end
      else Some (0, s)
  | [] => Some (0, s)
  end.

Definition parseFraction (s : jsstring) : option (jsstring * jsstring) :=
  match s with
  | c :: s' =>
      if c =? 46 then
        match spanDigits s' with
        | ([], _) => None
        | (ds, rest) => Some (ds, rest)
        end
      else Some ([], s)
  | [] => Some ([], s)
  end.

(** A number literal: an optional minus sign, [0] or a run of digits not
    starting with [0], an optional fraction and an optional exponent. *)
Definition parseUnsigned (negative : bool) (s1 : jsstring)
  : option (value * jsstring) :=
  let integer :=
    match s1 with
    | c :: s' =>
        if c =? 48 then Some ([48], s')
        else if isDigit c then Some (spanDigits s1)
        else None
    | [] => None
    end in
  match integer with
  | None => None
  | Some (ids, s2) =>
      match parseFraction s2 with
      | None => None
      | Some (fds, s3) =>
          match parseExponent s3 with
          | None => None
          | Some (e, s4) =>
              Some (mkNumber negative (digitsValue (ids ++ fds))
                      (e - Z.of_nat (List.length fds)), s4)
          end
      end
  end.

Definition parseNumber (s : jsstring) : option (value * jsstring) :=
  match s with
  | c :: s' =>
      if c =? 45 then parseUnsigned true s' else parseUnsigned false s
  | [] => None
  end.

(** [s] with the literal [word] taken off its front. *)
Fixpoint expect (word s : jsstring) : option jsstring :=
  match word with
  | [] => Some s
  | w :: word' =>
      match s with
      | c :: s' => if c =? w then expect word' s' else None
      | [] => None
      end
  end.

(** [CreateDataProperty]: an existing key keeps its place and takes the
    new value, a new key goes last. *)
Fixpoint setProperty (props : list (jsstring * value)) (k : jsstring)
  (v : value) : list (jsstring * value) :=
  match props with
  | [] => [(k, v)]
  | (k', v') :: props' =>
      if string_eqb k' k then (k', v) :: props'
      else (k', v') :: setProperty props' k v
  end.

Fixpoint parseValue (fuel : nat) (s : jsstring) {struct fuel}
  : option (value * jsstring) :=
  match fuel with
  | O => None
  | S fuel' =>
      match skipWs s with
      | [] => None
      | c :: s' =>
          if c =? 123 then
            match skipWs s' with
            | [] => None
            | c' :: s'' =>
                if c' =? 125 then Some (JObject [], s'')
                else parseMembers fuel' [] (c' :: s'')
            end
          else if c =? 91 then
            match skipWs s' with
            | [] => None
            | c' :: s'' =>
                if c' =? 93 then Some (JArray [], s'')
                else parseElements fuel' [] (c' :: s'')
            end
          else if c =? 34 then
            match parseStringBody s' with
            | Some (str, rest) => Some (JString str, rest)
            | None => None
            end
          else if c =? 116 then
            option_map (pair (JBool true)) (expect (lit "rue") s')
          else if c =? 102 then
            option_map (pair (JBool false)) (expect (lit "alse") s')
          else if c =? 110 then
            option_map (pair JNull) (expect (lit "ull") s')
          else parseNumber (c :: s')
      end
  end

with parseMembers (fuel : nat) (acc : list (jsstring * value))
       (s : jsstring) {struct fuel} : option (value * jsstring) :=
  match fuel with
  | O => None
  | S fuel' =>
      match s with
      | [] => None
      | c :: s1 =>
          if c =? 34 then
            match parseStringBody s1 with
            | None => None
            | Some (key, s2) =>
                match skipWs s2 with
                | [] => None
                | c2 :: s3 =>
                    if c2 =? 58 then
                      match parseValue fuel' s3 with
                      | None => None
                      | Some (v, s4) =>
                          let acc' := setProperty acc key v in
                          match skipWs s4 with
                          | [] => None
                          | c3 :: s5 =>
                              if c3 =? 44
                              then parseMembers fuel' acc' (skipWs s5)
                              else if c3 =? 125
                              then Some (JObject acc', s5)
                              else None
                          end
                      end
                    else None
                end
            end
          else None
      end
  end

with parseElements (fuel : nat) (acc : list value) (s : jsstring)
       {struct fuel} : option (value * jsstring) :=
  match fuel with
  | O => None
  | S fuel' =>
      match parseValue fuel' s with
      | None => None
      | Some (v, s1) =>
          match skipWs s1 with
          | [] => None
          | c :: s2 =>
              if c =? 44 then parseElements fuel' (acc ++ [v]) s2
              else if c =? 93 then Some (JArray (acc ++ [v]), s2)
              else None
          end
      end
  end.

(** [JSON.parse(text)]: one value, surrounded by white space only.  Every
    step of the parser consumes input, so the length of the text bounds
    its depth. *)
Definition parse (text : jsstring) : result value :=
  match parseValue (S (List.length text)) text with
  | Some (v, rest) =>
      match skipWs rest with
      | [] => Ok v
      | _ :: _ => Throw SyntaxError
      end
  | None => Throw SyntaxError
  end.

(** [obj[key]]; [None] is [undefined]. *)
Fixpoint get (props : list (jsstring * value)) (key : jsstring)
  : option value :=
  match props with
  | [] => None
  | (k, v) :: props' => if string_eqb k key then Some v else get props' key
  end.

(** Text that cannot continue a number literal. *)
Definition delimited (rest : jsstring) : bool :=
  match rest with
  | [] => true
  | c :: _ => negb (isDigit c || (c =? 46) || (c =? 101) || (c =? 69))
  end.

(** The values of a track payload: strings, integers, booleans, null. *)
Definition primitive (v : value) : Prop :=
  match v with
  | JNull | JBool _ | JNumber _ => True
  | JString s => wf_string s
  | JFraction _ _ | JArray _ | JObject _ => False
  end.

Definition plainMember (kv : jsstring * value) : Prop :=
  wf_string (fst kv) /\ primitive (snd kv).

Definition ascii (c : Z) : Prop := 0 <= c < 128.

End JSON.

(** ** Types ([src/types]) *)

Module TrackInfo.
Record t : Type := mk {
  identifier : jsstring;
  isSeekable : bool;
  author : jsstring;
  length : Z;
  isStream : bool;
  position : Z;
  title : jsstring;
  uri : jsstring;
  sourceName : jsstring;
  artworkUrl : option jsstring;
  isrc : option jsstring
}.

(** [Partial<TrackInfo>] *)
Record partial : Type := mkPartial {
  identifier_ : option jsstring;
  isSeekable_ : option bool;
  author_ : option jsstring;
  length_ : option Z;
  isStream_ : option bool;
  position_ : option Z;
  title_ : option jsstring;
  uri_ : option jsstring;
  sourceName_ : option jsstring;
  artworkUrl_ : option jsstring;
  isrc_ : option jsstring
}.

(** [{}] *)
Definition none : partial :=
  mkPartial None None None None None None None None None None None.

Definition wf (r : t) : Prop :=
  wf_string (identifier r) /\ wf_string (author r) /\
  wf_string (title r) /\ wf_string (uri r) /\ wf_string (sourceName r) /\
  (forall a, artworkUrl r = Some a -> wf_string a) /\
  (forall c, isrc r = Some c -> wf_string c).
End TrackInfo.

(** [Track] and [LavalinkTrack] have the same shape. *)
Module Track.
Record t : Type := mk {
  track : jsstring;
  info : TrackInfo.t
}.
End Track.

Module PlaylistInfo.
Record t : Type := mk {
  name : jsstring;
  selectedTrack : Z
}.
End PlaylistInfo.

Module LavalinkPlaylist.
Record t : Type := mk {
  info : PlaylistInfo.t;
  pluginInfo : list (jsstring * JSON.value);
  tracks : list Track.t
}.
End LavalinkPlaylist.

(** [EncoderOptions & PlaylistEncoderOptions], every option optional. *)
Module EncoderOptions.
Record t : Type := mk {
  includeArtwork : option bool;
  includeISRC : option bool;
  sourceName : option jsstring;
  validate : option bool;
  maxTracks : option Z;
  includeMetadata : option bool
}.

(** [{}] *)
Definition none : t := mk None None None None None None.
End EncoderOptions.

(** [a ?? b] *)
Definition orDefault {A : Type} (a : option A) (b : A) : A :=
  match a with
  | Some x => x
  | None => b
  end.

(** [xs.slice(start, stop)] *)
Definition slice {A : Type} (xs : list A) (start stop : Z) : list A :=
  let len := Z.of_nat (List.length xs) in
  let k := if start <? 0 then Z.max (len + start) 0 else Z.min start len in
  let final := if stop <? 0 then Z.max (len + stop) 0 else Z.min stop len in
  firstn (Z.to_nat (final - k)) (skipn (Z.to_nat k) xs).

(** The value of a key in [{ ...base, ...over }] when the key is optional
    on both sides: the one of [over] when it has the key. *)
Definition orElse {A : Type} (over base : option A) : option A :=
  match over with
  | Some x => Some x
  | None => base
  end.

(** [{ ...base, ...over }] on two [Partial<TrackInfo>] objects. *)
Definition spread (base over : TrackInfo.partial) : TrackInfo.partial :=
  TrackInfo.mkPartial
    (orElse (TrackInfo.identifier_ over) (TrackInfo.identifier_ base))
    (orElse (TrackInfo.isSeekable_ over) (TrackInfo.isSeekable_ base))
    (orElse (TrackInfo.author_ over) (TrackInfo.author_ base))
    (orElse (TrackInfo.length_ over) (TrackInfo.length_ base))
    (orElse (TrackInfo.isStream_ over) (TrackInfo.isStream_ base))
    (orElse (TrackInfo.position_ over) (TrackInfo.position_ base))
    (orElse (TrackInfo.title_ over) (TrackInfo.title_ base))
    (orElse (TrackInfo.uri_ over) (TrackInfo.uri_ base))
    (orElse (TrackInfo.sourceName_ over) (TrackInfo.sourceName_ base))
    (orElse (TrackInfo.artworkUrl_ over) (TrackInfo.artworkUrl_ base))
    (orElse (TrackInfo.isrc_ over) (TrackInfo.isrc_ base)).

(** [{ ...trackInfo, ...over }] *)
Definition override (trackInfo : TrackInfo.t) (over : TrackInfo.partial)
  : TrackInfo.t :=
  TrackInfo.mk
    (orDefault (TrackInfo.identifier_ over) (TrackInfo.identifier trackInfo))
    (orDefault (TrackInfo.isSeekable_ over) (TrackInfo.isSeekable trackInfo))
    (orDefault (TrackInfo.author_ over) (TrackInfo.author trackInfo))
    (orDefault (TrackInfo.length_ over) (TrackInfo.length trackInfo))
    (orDefault (TrackInfo.isStream_ over) (TrackInfo.isStream trackInfo))
    (orDefault (TrackInfo.position_ over) (TrackInfo.position trackInfo))
    (orDefault (TrackInfo.title_ over) (TrackInfo.title trackInfo))
    (orDefault (TrackInfo.uri_ over) (TrackInfo.uri trackInfo))
    (orDefault (TrackInfo.sourceName_ over) (TrackInfo.sourceName trackInfo))
    (orElse (TrackInfo.artworkUrl_ over) (TrackInfo.artworkUrl trackInfo))
    (orElse (TrackInfo.isrc_ over) (TrackInfo.isrc trackInfo)).

(** [{ sourceName: source }] *)
Definition sourceOnly (source : jsstring) : TrackInfo.partial :=
  TrackInfo.mkPartial None None None None None None None None (Some source)
    None None.

(** The elements of the [videoData] and [trackData] arrays of the playlist
    factories: [{ videoId | trackId, title, author, duration }]. *)
Module Item.
Record t : Type := mk {
  id : jsstring;
  title : jsstring;
  author : jsstring;
  duration : Z
}.
End Item.

(** The URI templates of the three catalogues. *)
Definition youtubeUri (videoId : jsstring) : jsstring :=
  lit "https://www.youtube.com/watch?v=" ++ videoId.

Definition spotifyUri (trackId : jsstring) : jsstring :=
  lit "https://open.spotify.com/track/" ++ trackId.

Definition soundcloudUri (author title : jsstring) : jsstring :=
  lit "https://soundcloud.com/" ++ author ++ lit "/" ++ title.

(** ** [src/encoders/TrackEncoder.ts] *)

Module TrackEncoder.

(** [Required<EncoderOptions>] *)
Record options : Type := mkOptions {
  includeArtwork : bool;
  includeISRC : bool;
  sourceName : jsstring;
  validate : bool
}.

Record t : Type := mk { opts : options }.

(** The configured default source is a string. *)
Definition wf (this : t) : Prop := wf_string (sourceName (opts this)).

Definition new (o : EncoderOptions.t) : t :=
  mk (mkOptions
        (orDefault (EncoderOptions.includeArtwork o) true)
        (orDefault (EncoderOptions.includeISRC o) true)
        (orDefault (EncoderOptions.sourceName o) (lit "unknown"))
        (orDefault (EncoderOptions.validate o) true)).

Definition validateTrackInfo (trackInfo : TrackInfo.t) : result unit :=
  if falsy (TrackInfo.identifier trackInfo) then
    Throw (Error (Text (lit "Track identifier is required")))
  else if falsy (TrackInfo.title trackInfo) then
    Throw (Error (Text (lit "Track title is required")))
  else if falsy (TrackInfo.author trackInfo) then
    Throw (Error (Text (lit "Track author is required")))
  else if TrackInfo.length trackInfo <? 0 then
    Throw (Error (Text (lit "Track length must be a non-negative number")))
  else if falsy (TrackInfo.uri trackInfo) then
    Throw (Error (Text (lit "Track URI is required")))
  else Ok tt.

(** [...(flag && field && { key: field })] *)
Definition optionalField (flag : bool) (key : string)
  (field : option jsstring) : list (jsstring * JSON.value) :=
  if flag then
    match field with
    | Some x => if falsy x then [] else [(lit key, JSON.JString x)]
    | None => []
    end
  else [].

(** The object literal [trackData] of [encodeTrack]. *)
Definition trackData (this : t) (trackInfo : TrackInfo.t)
  : list (jsstring * JSON.value) :=
  [ (lit "identifier", JSON.JString (TrackInfo.identifier trackInfo));
    (lit "isSeekable", JSON.JBool (TrackInfo.isSeekable trackInfo));
    (lit "author", JSON.JString (TrackInfo.author trackInfo));
    (lit "length", JSON.JNumber (TrackInfo.length trackInfo));
    (lit "isStream", JSON.JBool (TrackInfo.isStream trackInfo));
    (lit "position", JSON.JNumber (TrackInfo.position trackInfo));
    (lit "title", JSON.JString (TrackInfo.title trackInfo));
    (lit "uri", JSON.JString (TrackInfo.uri trackInfo));
    (lit "sourceName",
      JSON.JString (if falsy (TrackInfo.sourceName trackInfo)
                    then sourceName (opts this)
                    else TrackInfo.sourceName trackInfo)) ]
  ++ optionalField (includeArtwork (opts this)) "artworkUrl"
       (TrackInfo.artworkUrl trackInfo)
  ++ optionalField (includeISRC (opts this)) "isrc"
       (TrackInfo.isrc trackInfo).

Definition encodeTrackData (data : JSON.value) : jsstring :=
  let jsonString := JSON.stringify data in
  let bytes := Text.encode jsonString in
  Base64.fromByteArray bytes.

Definition decodeTrackData (encoded : jsstring) : result JSON.value :=
  do bytes <- Base64.toByteArray encoded;
  let jsonString := Text.decode bytes in
  JSON.parse jsonString.

Definition encodeTrack (this : t) (trackInfo : TrackInfo.t)
  : result Track.t :=
  check (if validate (opts this) then validateTrackInfo trackInfo
         else Ok tt);
  let encodedTrack :=
    encodeTrackData (JSON.JObject (trackData this trackInfo)) in
  Ok (Track.mk encodedTrack trackInfo).

(** [new Error(`Failed to decode track: ${...}`)] *)
Definition decodeFailure (error : exn) : exn :=
  Error (Append (lit "Failed to decode track: ") (messageOf error)).

(** The decoded value is returned under a cast to [TrackInfo]; it is
    whatever [JSON.parse] produced. *)
Definition decodeTrack (encodedTrack : jsstring) : result JSON.value :=
  match decodeTrackData encodedTrack with
  | Ok decoded => Ok decoded
  | Throw error => Throw (decodeFailure error)
  end.

(** [{ ...defaults, ...additionalInfo }] on the record built by
    [createTrack]. *)
Definition createTrackInfo (this : t) (identifier title author : jsstring)
  (length : Z) (uri : jsstring) (additionalInfo : TrackInfo.partial)
  : TrackInfo.t :=
  TrackInfo.mk
    (orDefault (TrackInfo.identifier_ additionalInfo) identifier)
    (orDefault (TrackInfo.isSeekable_ additionalInfo) (length >? 0))
    (orDefault (TrackInfo.author_ additionalInfo) author)
    (orDefault (TrackInfo.length_ additionalInfo) length)
    (orDefault (TrackInfo.isStream_ additionalInfo) (length =? 0))
    (orDefault (TrackInfo.position_ additionalInfo) 0)
    (orDefault (TrackInfo.title_ additionalInfo) title)
    (orDefault (TrackInfo.uri_ additionalInfo) uri)
    (orDefault (TrackInfo.sourceName_ additionalInfo)
               (sourceName (opts this)))
    (TrackInfo.artworkUrl_ additionalInfo)
    (TrackInfo.isrc_ additionalInfo).

Definition createTrack (this : t) (identifier title author : jsstring)
  (length : Z) (uri : jsstring) (additionalInfo : TrackInfo.partial)
  : result Track.t :=
  encodeTrack this
    (createTrackInfo this identifier title author length uri
       additionalInfo).

(** [{ ...this.options, ...options }] *)
Definition updateOptions (this : t) (o : EncoderOptions.t) : t :=
  mk (mkOptions
        (orDefault (EncoderOptions.includeArtwork o)
                   (includeArtwork (opts this)))
        (orDefault (EncoderOptions.includeISRC o) (includeISRC (opts this)))
        (orDefault (EncoderOptions.sourceName o) (sourceName (opts this)))
        (orDefault (EncoderOptions.validate o) (validate (opts this)))).

Definition createYouTubeTrack (this : t) (videoId title author : jsstring)
  (duration : Z) (additionalInfo : TrackInfo.partial) : result Track.t :=
  createTrack this videoId title author (duration * 1000)
    (youtubeUri videoId)
    (spread (sourceOnly (lit "youtube")) additionalInfo).

Definition createSpotifyTrack (this : t) (trackId title author : jsstring)
  (duration : Z) (additionalInfo : TrackInfo.partial) : result Track.t :=
  createTrack this trackId title author duration (spotifyUri trackId)
    (spread (sourceOnly (lit "spotify")) additionalInfo).

Definition createSoundCloudTrack (this : t)
  (trackId title author : jsstring) (duration : Z)
  (additionalInfo : TrackInfo.partial) : result Track.t :=
  createTrack this trackId title author duration
    (soundcloudUri author title)
    (spread (sourceOnly (lit "soundcloud")) additionalInfo).

Definition getOptions (this : t) : options := opts this.

End TrackEncoder.

(** ** [src/encoders/PlaylistEncoder.ts] *)

(** The lines written by [console.warn], oldest first. *)
Definition console : Type := list jsstring.

(** A computation that may log and may throw. *)
Definition IO (A : Type) : Type := console -> result A * console.

Definition ret {A : Type} (a : A) : IO A := fun c => (Ok a, c).

Definition lift {A : Type} (r : result A) : IO A := fun c => (r, c).

Definition bindIO {A B : Type} (m : IO A) (k : A -> IO B) : IO B :=
  fun c =>
    match m c with
    | (Ok a, c') => k a c'
    | (Throw e, c') => (Throw e, c')
    end.

Definition warn (line : jsstring) : IO unit := fun c => (Ok tt, c ++ [line]).

Notation "'doIO' x <- m ; k" := (bindIO m (fun x => k))
  (at level 10, x name, m at level 100, k at level 200).
Notation "'stepIO' m ; k" := (bindIO m (fun _ => k))
  (at level 10, m at level 100, k at level 200).

Module PlaylistEncoder.

(** [Required<PlaylistEncoderOptions>] *)
Record options : Type := mkOptions {
  includeArtwork : bool;
  includeISRC : bool;
  sourceName : jsstring;
  validate : bool;
  maxTracks : Z;
  includeMetadata : bool
}.

Record t : Type := mk {
  trackEncoder : TrackEncoder.t;
  opts : options
}.

Definition trackOptions (o : options) : EncoderOptions.t :=
  EncoderOptions.mk (Some (includeArtwork o)) (Some (includeISRC o))
    (Some (sourceName o)) (Some (validate o)) None None.

Definition new (o : EncoderOptions.t) : t :=
  let resolved :=
    mkOptions
      (orDefault (EncoderOptions.includeArtwork o) true)
      (orDefault (EncoderOptions.includeISRC o) true)
      (orDefault (EncoderOptions.sourceName o) (lit "unknown"))
      (orDefault (EncoderOptions.validate o) true)
      (orDefault (EncoderOptions.maxTracks o) 1000)
      (orDefault (EncoderOptions.includeMetadata o) true) in
  mk (TrackEncoder.new (trackOptions resolved)) resolved.

Definition validatePlaylistInfo (playlistInfo : PlaylistInfo.t)
  : result unit :=
  if falsy (PlaylistInfo.name playlistInfo) then
    Throw (Error (Text (lit "Playlist name is required")))
  else if PlaylistInfo.selectedTrack playlistInfo <? 0 then
    Throw (Error (Text (lit "Selected track must be a non-negative number")))
  else Ok tt.

Definition warning (count limit : Z) : jsstring :=
  lit "Playlist contains " ++ JSON.numberToString count
  ++ lit " tracks, but maxTracks is set to " ++ JSON.numberToString limit.

Definition validateTracks (this : t) (tracks : list Track.t) : IO unit :=
  let count := Z.of_nat (List.length tracks) in
  if count =? 0 then
    lift (Throw (Error (Text (lit "Playlist must contain at least one track"))))
  else if (maxTracks (opts this) >? 0) && (count >? maxTracks (opts this))
  then warn (warning count (maxTracks (opts this)))
  else ret tt.

(** The callback of [limitedTracks.map]. *)
Definition encodeIfNeeded (this : t) (track : Track.t) : result Track.t :=
  if negb (falsy (Track.track track)) then Ok track
  else TrackEncoder.encodeTrack (trackEncoder this) (Track.info track).

Definition encodePlaylist (this : t) (playlistInfo : PlaylistInfo.t)
  (tracks : list Track.t) : IO LavalinkPlaylist.t :=
  stepIO (if validate (opts this) then
            stepIO (lift (validatePlaylistInfo playlistInfo));
            validateTracks this tracks
          else ret tt);
  let limitedTracks :=
    if maxTracks (opts this) >? 0
    then slice tracks 0 (maxTracks (opts this))
    else tracks in
  doIO encodedTracks <- lift (mapM (encodeIfNeeded this) limitedTracks);
  ret (LavalinkPlaylist.mk
         (PlaylistInfo.mk
            (PlaylistInfo.name playlistInfo)
            (Z.min (PlaylistInfo.selectedTrack playlistInfo)
                   (Z.of_nat (List.length encodedTracks) - 1)))
         []
         encodedTracks).

Definition createPlaylist (this : t) (name : jsstring)
  (trackInfos : list TrackInfo.t) (selectedTrack : Z)
  : IO LavalinkPlaylist.t :=
  let tracks := map (fun trackInfo => Track.mk [] trackInfo) trackInfos in
  encodePlaylist this (PlaylistInfo.mk name selectedTrack) tracks.

Definition mergedName (count : nat) : jsstring :=
  lit "Merged Playlist (" ++ JSON.numberToString (Z.of_nat count)
  ++ lit " playlists)".

Definition mergePlaylists (this : t) (playlists : list LavalinkPlaylist.t)
  (newName : option jsstring) : IO LavalinkPlaylist.t :=
  let allTracks := List.concat (map LavalinkPlaylist.tracks playlists) in
  let totalSelectedTrack :=
    match playlists with
    | first :: _ => PlaylistInfo.selectedTrack (LavalinkPlaylist.info first)
    | [] => 0
    end in
  let name :=
    match newName with
    | Some n => if falsy n then mergedName (List.length playlists) else n
    | None => mergedName (List.length playlists)
    end in
  encodePlaylist this (PlaylistInfo.mk name totalSelectedTrack) allTracks.

Definition chunkName (name : jsstring) (i chunkSize : Z) : jsstring :=
  name ++ lit " (Part " ++ JSON.numberToString (i / chunkSize + 1)
  ++ lit ")".

(** The loop [for (let i = 0; i < tracks.length; i += chunkSize)] from
    index [i] on; [None] when the loop has not finished after [fuel]
    passes. *)
Fixpoint splitLoop (fuel : nat) (this : t) (playlist : LavalinkPlaylist.t)
  (chunkSize i : Z) (c : console)
  : option (result (list LavalinkPlaylist.t) * console) :=
  let tracks := LavalinkPlaylist.tracks playlist in
  if i <? Z.of_nat (List.length tracks) then
    match fuel with
    | O => None
    | S fuel' =>
        let chunkTracks := slice tracks i (i + chunkSize) in
        let name :=
          chunkName (PlaylistInfo.name (LavalinkPlaylist.info playlist))
                    i chunkSize in
        let selectedTrack :=
          if i =? 0
          then PlaylistInfo.selectedTrack (LavalinkPlaylist.info playlist)
          else 0 in
        match encodePlaylist this (PlaylistInfo.mk name selectedTrack)
                chunkTracks c with
        | (Throw e, c') => Some (Throw e, c')
        | (Ok chunk, c') =>
            match splitLoop fuel' this playlist chunkSize (i + chunkSize)
                    c' with
            | Some (Ok chunks, c'') => Some (Ok (chunk :: chunks), c'')
            | other => other
            end
        end
    end
  else Some (Ok [], c).

(** With [chunkSize >= 1] the loop makes at most [tracks.length] passes. *)
Definition splitPlaylist (this : t) (playlist : LavalinkPlaylist.t)
  (chunkSize : Z) (c : console)
  : option (result (list LavalinkPlaylist.t) * console) :=
  splitLoop (List.length (LavalinkPlaylist.tracks playlist)) this playlist
    chunkSize 0 c.

Definition updateOptions (this : t) (o : EncoderOptions.t) : t :=
  let merged :=
    mkOptions
      (orDefault (EncoderOptions.includeArtwork o)
                 (includeArtwork (opts this)))
      (orDefault (EncoderOptions.includeISRC o) (includeISRC (opts this)))
      (orDefault (EncoderOptions.sourceName o) (sourceName (opts this)))
      (orDefault (EncoderOptions.validate o) (validate (opts this)))
      (orDefault (EncoderOptions.maxTracks o) (maxTracks (opts this)))
      (orDefault (EncoderOptions.includeMetadata o)
                 (includeMetadata (opts this))) in
  mk (TrackEncoder.updateOptions (trackEncoder this) (trackOptions merged))
     merged.

(** The record that the playlist factories build for one item. *)
Definition youtubeInfo (video : Item.t) : TrackInfo.t :=
  TrackInfo.mk (Item.id video) (Item.duration video >? 0)
    (Item.author video) (Item.duration video * 1000)
    (Item.duration video =? 0) 0 (Item.title video)
    (youtubeUri (Item.id video)) (lit "youtube") None None.

Definition spotifyInfo (track : Item.t) : TrackInfo.t :=
  TrackInfo.mk (Item.id track) (Item.duration track >? 0)
    (Item.author track) (Item.duration track)
    (Item.duration track =? 0) 0 (Item.title track)
    (spotifyUri (Item.id track)) (lit "spotify") None None.

Definition soundcloudInfo (track : Item.t) : TrackInfo.t :=
  TrackInfo.mk (Item.id track) (Item.duration track >? 0)
    (Item.author track) (Item.duration track)
    (Item.duration track =? 0) 0 (Item.title track)
    (soundcloudUri (Item.author track) (Item.title track))
    (lit "soundcloud") None None.

Definition createYouTubePlaylist (this : t) (playlistId name : jsstring)
  (videoData : list Item.t) (selectedTrack : Z) : IO LavalinkPlaylist.t :=
  let trackInfos := map youtubeInfo videoData in
  createPlaylist this name trackInfos selectedTrack.

Definition createSpotifyPlaylist (this : t) (playlistId name : jsstring)
  (trackData : list Item.t) (selectedTrack : Z) : IO LavalinkPlaylist.t :=
  let trackInfos := map spotifyInfo trackData in
  createPlaylist this name trackInfos selectedTrack.

Definition createSoundCloudPlaylist (this : t) (playlistId name : jsstring)
  (trackData : list Item.t) (selectedTrack : Z) : IO LavalinkPlaylist.t :=
  let trackInfos := map soundcloudInfo trackData in
  createPlaylist this name trackInfos selectedTrack.

Definition getOptions (this : t) : options := opts this.

(** The track encoder of a playlist encoder holds the four track options
    of the playlist encoder. *)
Definition coherent (this : t) : Prop :=
  TrackEncoder.opts (trackEncoder this) =
  TrackEncoder.mkOptions (includeArtwork (opts this))
    (includeISRC (opts this)) (sourceName (opts this))
    (validate (opts this)).

End PlaylistEncoder.

(** ** [src/discord/DiscordTrackEncoder.ts] *)

Module Requester.
Record t : Type := mk {
  id : jsstring;
  username : jsstring;
  discriminator : option jsstring
}.
End Requester.

(** [DiscordTrackInfo extends TrackInfo] *)
Module DiscordTrackInfo.
Record t : Type := mk {
  base : TrackInfo.t;
  requester : option Requester.t;
  guildId : option jsstring;
  channelId : option jsstring
}.
End DiscordTrackInfo.

Module DiscordTrack.
Record t : Type := mk {
  track : jsstring;
  info : DiscordTrackInfo.t
}.
End DiscordTrack.

Module DiscordPlaylist.
Record t : Type := mk {
  info : PlaylistInfo.t;
  pluginInfo : list (jsstring * JSON.value);
  tracks : list DiscordTrack.t
}.
End DiscordPlaylist.

(** [{ guildId, channelId }] *)
Module GuildInfo.
Record t : Type := mk {
  guildId : jsstring;
  channelId : jsstring
}.
End GuildInfo.

(** [{ totalTracks, totalDuration, sources }]; [sources] lists the counted
    names in the order in which they were first counted (a name that is an
    array index would come first in ECMA-262). *)
Module TrackStats.
Record t : Type := mk {
  totalTracks : Z;
  totalDuration : Z;
  sources : list (jsstring * Z)
}.
End TrackStats.

(** [obj[key]] and [obj[key] = v] on an object used as a map from strings;
    [None] is [undefined]. *)
Fixpoint lookup {A : Type} (obj : list (jsstring * A)) (key : jsstring)
  : option A :=
  match obj with
  | [] => None
  | (k, v) :: obj' => if string_eqb k key then Some v else lookup obj' key
  end.

Fixpoint assign {A : Type} (obj : list (jsstring * A)) (key : jsstring)
  (v : A) : list (jsstring * A) :=
  match obj with
  | [] => [(key, v)]
  | (k, v') :: obj' =>
      if string_eqb k key then (k, v) :: obj'
      else (k, v') :: assign obj' key v
  end.

(** The property names that every object inherits from [Object.prototype]
    (ECMA-262, with Annex B). *)
Definition inheritedKeys : list jsstring :=
  [lit "constructor"; lit "hasOwnProperty"; lit "isPrototypeOf";
   lit "propertyIsEnumerable"; lit "toLocaleString"; lit "toString";
   lit "valueOf"; lit "__proto__"; lit "__defineGetter__";
   lit "__defineSetter__"; lit "__lookupGetter__"; lit "__lookupSetter__"].

Definition inherited (key : jsstring) : bool :=
  existsb (string_eqb key) inheritedKeys.

Module DiscordTrackEncoder.

Record t : Type := mk {
  trackEncoder : TrackEncoder.t;
  playlistEncoder : PlaylistEncoder.t
}.

(** The constructor takes no options. *)
Definition new : t :=
  mk (TrackEncoder.new EncoderOptions.none)
     (PlaylistEncoder.new EncoderOptions.none).

(** [{ ...trackInfo, requester, guildId, channelId }] *)
Definition annotate (trackInfo : TrackInfo.t) (requester : Requester.t)
  (guildId channelId : jsstring) : DiscordTrackInfo.t :=
  DiscordTrackInfo.mk trackInfo (Some requester) (Some guildId)
    (Some channelId).

Definition encodeDiscordTrack (this : t) (trackInfo : TrackInfo.t)
  (requester : Requester.t) (guildId channelId : jsstring)
  : result DiscordTrack.t :=
  let discordTrackInfo := annotate trackInfo requester guildId channelId in
  do encodedTrack <- TrackEncoder.encodeTrack (trackEncoder this) trackInfo;
  Ok (DiscordTrack.mk (Track.track encodedTrack) discordTrackInfo).

Definition encodeDiscordPlaylist (this : t) (playlistInfo : PlaylistInfo.t)
  (tracks : list Track.t) (requester : Requester.t)
  (guildId channelId : jsstring) : IO DiscordPlaylist.t :=
  let discordTracks :=
    map (fun track =>
           DiscordTrack.mk (Track.track track)
             (annotate (Track.info track) requester guildId channelId))
        tracks in
  doIO encodedPlaylist <-
    PlaylistEncoder.encodePlaylist (playlistEncoder this) playlistInfo
      tracks;
  ret (DiscordPlaylist.mk
         (LavalinkPlaylist.info encodedPlaylist)
         (LavalinkPlaylist.pluginInfo encodedPlaylist)
         discordTracks).

Definition updateOptions (this : t) (o : EncoderOptions.t) : t :=
  mk (TrackEncoder.updateOptions (trackEncoder this) o)
     (PlaylistEncoder.updateOptions (playlistEncoder this) o).

Definition createDiscordYouTubeTrack (this : t)
  (videoId title author : jsstring) (duration : Z)
  (requester : Requester.t) (guildId channelId : jsstring)
  (additionalInfo : TrackInfo.partial) : result DiscordTrack.t :=
  let trackInfo :=
    override
      (TrackInfo.mk videoId (duration >? 0) author (duration * 1000)
         (duration =? 0) 0 title (youtubeUri videoId) (lit "youtube")
         None None)
      additionalInfo in
  encodeDiscordTrack this trackInfo requester guildId channelId.

Definition createDiscordSpotifyTrack (this : t)
  (trackId title author : jsstring) (duration : Z)
  (requester : Requester.t) (guildId channelId : jsstring)
  (additionalInfo : TrackInfo.partial) : result DiscordTrack.t :=
  let trackInfo :=
    override
      (TrackInfo.mk trackId (duration >? 0) author duration
         (duration =? 0) 0 title (spotifyUri trackId) (lit "spotify")
         None None)
      additionalInfo in
  encodeDiscordTrack this trackInfo requester guildId channelId.

Definition createDiscordSoundCloudTrack (this : t)
  (trackId title author : jsstring) (duration : Z)
  (requester : Requester.t) (guildId channelId : jsstring)
  (additionalInfo : TrackInfo.partial) : result DiscordTrack.t :=
  let trackInfo :=
    override
      (TrackInfo.mk trackId (duration >? 0) author duration
         (duration =? 0) 0 title (soundcloudUri author title)
         (lit "soundcloud") None None)
      additionalInfo in
  encodeDiscordTrack this trackInfo requester guildId channelId.

Definition createDiscordYouTubePlaylist (this : t)
  (playlistId name : jsstring) (videoData : list Item.t)
  (requester : Requester.t) (guildId channelId : jsstring)
  (selectedTrack : Z) : IO DiscordPlaylist.t :=
  let tracks :=
    map (fun video =>
           let trackInfo :=
             TrackInfo.mk (Item.id video) (Item.duration video >? 0)
               (Item.author video) (Item.duration video * 1000)
               (Item.duration video =? 0) 0 (Item.title video)
               (youtubeUri (Item.id video)) (lit "youtube") None None in
           Track.mk [] trackInfo)
        videoData in
  encodeDiscordPlaylist this (PlaylistInfo.mk name selectedTrack) tracks
    requester guildId channelId.

Definition createDiscordSpotifyPlaylist (this : t)
  (playlistId name : jsstring) (trackData : list Item.t)
  (requester : Requester.t) (guildId channelId : jsstring)
  (selectedTrack : Z) : IO DiscordPlaylist.t :=
  let tracks :=
    map (fun track =>
           let trackInfo :=
             TrackInfo.mk (Item.id track) (Item.duration track >? 0)
               (Item.author track) (Item.duration track)
               (Item.duration track =? 0) 0 (Item.title track)
               (spotifyUri (Item.id track)) (lit "spotify") None None in
           Track.mk [] trackInfo)
        trackData in
  encodeDiscordPlaylist this (PlaylistInfo.mk name selectedTrack) tracks
    requester guildId channelId.

(** [track.info.requester || null]: an object is never falsy. *)
Definition getRequester (this : t) (track : DiscordTrack.t)
  : option Requester.t :=
  DiscordTrackInfo.requester (DiscordTrack.info track).

Definition getGuildInfo (this : t) (track : DiscordTrack.t)
  : option GuildInfo.t :=
  match DiscordTrackInfo.guildId (DiscordTrack.info track),
        DiscordTrackInfo.channelId (DiscordTrack.info track) with
  | Some guildId, Some channelId =>
      if falsy guildId || falsy channelId then None
      else Some (GuildInfo.mk guildId channelId)
  | _, _ => None
  end.

(** [track.info.requester?.id === requesterId] *)
Definition requestedBy (requesterId : jsstring) (track : DiscordTrack.t)
  : bool :=
  match DiscordTrackInfo.requester (DiscordTrack.info track) with
  | Some requester => string_eqb (Requester.id requester) requesterId
  | None => false
  end.

Definition filterTracksByRequester (this : t) (tracks : list DiscordTrack.t)
  (requesterId : jsstring) : list DiscordTrack.t :=
  filter (requestedBy requesterId) tracks.

(** [track.info.guildId === guildId] *)
Definition inGuild (guildId : jsstring) (track : DiscordTrack.t) : bool :=
  match DiscordTrackInfo.guildId (DiscordTrack.info track) with
  | Some g => string_eqb g guildId
  | None => false
  end.

Definition filterTracksByGuild (this : t) (tracks : list DiscordTrack.t)
  (guildId : jsstring) : list DiscordTrack.t :=
  filter (inGuild guildId) tracks.

(** One pass of the [forEach] of [getTrackStats].  The counter of a
    source starts from [stats.sources[source] || 0]; for a name that
    [Object.prototype] defines this is the inherited member, the sum is
    no number any more, and the pass gives no statistics ([None]). *)
Definition countTrack (stats : option TrackStats.t) (track : DiscordTrack.t)
  : option TrackStats.t :=
  match stats with
  | None => None
  | Some stats =>
      let info := DiscordTrackInfo.base (DiscordTrack.info track) in
      let source := TrackInfo.sourceName info in
      if inherited source then None
      else
        Some (TrackStats.mk
                (TrackStats.totalTracks stats)
                (TrackStats.totalDuration stats + TrackInfo.length info)
                (assign (TrackStats.sources stats) source
                   (orDefault (lookup (TrackStats.sources stats) source) 0
                    + 1)))
  end.

Definition getTrackStats (this : t) (tracks : list DiscordTrack.t)
  (requesterId : jsstring) : option TrackStats.t :=
  let userTracks := filterTracksByRequester this tracks requesterId in
  let stats :=
    TrackStats.mk (Z.of_nat (List.length userTracks)) 0 [] in
  fold_left countTrack userTracks (Some stats).

End DiscordTrackEncoder.

(** ** [src/LavalinkEncoder.ts] *)

Module LavalinkEncoder.

Record t : Type := mk {
  trackEncoder : TrackEncoder.t;
  playlistEncoder : PlaylistEncoder.t;
  discordEncoder : DiscordTrackEncoder.t
}.

Definition new (o : EncoderOptions.t) : t :=
  mk (TrackEncoder.new o) (PlaylistEncoder.new o) DiscordTrackEncoder.new.

Definition encodeTrack (this : t) (trackInfo : TrackInfo.t)
  : result Track.t :=
  TrackEncoder.encodeTrack (trackEncoder this) trackInfo.

Definition decodeTrack (this : t) (encodedTrack : jsstring)
  : result JSON.value :=
  TrackEncoder.decodeTrack encodedTrack.

Definition createTrack (this : t) (identifier title author : jsstring)
  (length : Z) (uri : jsstring) (additionalInfo : TrackInfo.partial)
  : result Track.t :=
  TrackEncoder.createTrack (trackEncoder this) identifier title author
    length uri additionalInfo.

Definition encodePlaylist (this : t) (playlistInfo : PlaylistInfo.t)
  (tracks : list Track.t) : IO LavalinkPlaylist.t :=
  PlaylistEncoder.encodePlaylist (playlistEncoder this) playlistInfo tracks.

Definition mergePlaylists (this : t) (playlists : list LavalinkPlaylist.t)
  (newName : option jsstring) : IO LavalinkPlaylist.t :=
  PlaylistEncoder.mergePlaylists (playlistEncoder this) playlists newName.

Definition splitPlaylist (this : t) (playlist : LavalinkPlaylist.t)
  (chunkSize : Z) (c : console)
  : option (result (list LavalinkPlaylist.t) * console) :=
  PlaylistEncoder.splitPlaylist (playlistEncoder this) playlist chunkSize c.

Definition encodeDiscordTrack (this : t) (trackInfo : TrackInfo.t)
  (requester : Requester.t) (guildId channelId : jsstring)
  : result DiscordTrack.t :=
  DiscordTrackEncoder.encodeDiscordTrack (discordEncoder this) trackInfo
    requester guildId channelId.

Definition encodeDiscordPlaylist (this : t) (playlistInfo : PlaylistInfo.t)
  (tracks : list Track.t) (requester : Requester.t)
  (guildId channelId : jsstring) : IO DiscordPlaylist.t :=
  DiscordTrackEncoder.encodeDiscordPlaylist (discordEncoder this)
    playlistInfo tracks requester guildId channelId.

Definition updateOptions (this : t) (o : EncoderOptions.t) : t :=
  mk (TrackEncoder.updateOptions (trackEncoder this) o)
     (PlaylistEncoder.updateOptions (playlistEncoder this) o)
     (DiscordTrackEncoder.updateOptions (discordEncoder this) o).

Definition createYouTubeTrack (this : t) (videoId title author : jsstring)
  (duration : Z) (additionalInfo : TrackInfo.partial) : result Track.t :=
  TrackEncoder.createYouTubeTrack (trackEncoder this) videoId title author
    duration additionalInfo.

Definition createSpotifyTrack (this : t) (trackId title author : jsstring)
  (duration : Z) (additionalInfo : TrackInfo.partial) : result Track.t :=
  TrackEncoder.createSpotifyTrack (trackEncoder this) trackId title author
    duration additionalInfo.

Definition createSoundCloudTrack (this : t)
  (trackId title author : jsstring) (duration : Z)
  (additionalInfo : TrackInfo.partial) : result Track.t :=
  TrackEncoder.createSoundCloudTrack (trackEncoder this) trackId title
    author duration additionalInfo.

Definition createPlaylist (this : t) (name : jsstring)
  (trackInfos : list TrackInfo.t) (selectedTrack : Z)
  : IO LavalinkPlaylist.t :=
  PlaylistEncoder.createPlaylist (playlistEncoder this) name trackInfos
    selectedTrack.

Definition createYouTubePlaylist (this : t) (playlistId name : jsstring)
  (videoData : list Item.t) (selectedTrack : Z) : IO LavalinkPlaylist.t :=
  PlaylistEncoder.createYouTubePlaylist (playlistEncoder this) playlistId
    name videoData selectedTrack.

Definition createSpotifyPlaylist (this : t) (playlistId name : jsstring)
  (trackData : list Item.t) (selectedTrack : Z) : IO LavalinkPlaylist.t :=
  PlaylistEncoder.createSpotifyPlaylist (playlistEncoder this) playlistId
    name trackData selectedTrack.

Definition createSoundCloudPlaylist (this : t) (playlistId name : jsstring)
  (trackData : list Item.t) (selectedTrack : Z) : IO LavalinkPlaylist.t :=
  PlaylistEncoder.createSoundCloudPlaylist (playlistEncoder this)
    playlistId name trackData selectedTrack.

Definition createDiscordYouTubeTrack (this : t)
  (videoId title author : jsstring) (duration : Z)
  (requester : Requester.t) (guildId channelId : jsstring)
  (additionalInfo : TrackInfo.partial) : result DiscordTrack.t :=
  DiscordTrackEncoder.createDiscordYouTubeTrack (discordEncoder this)
    videoId title author duration requester guildId channelId
    additionalInfo.

Definition createDiscordSpotifyTrack (this : t)
  (trackId title author : jsstring) (duration : Z)
  (requester : Requester.t) (guildId channelId : jsstring)
  (additionalInfo : TrackInfo.partial) : result DiscordTrack.t :=
  DiscordTrackEncoder.createDiscordSpotifyTrack (discordEncoder this)
    trackId title author duration requester guildId channelId
    additionalInfo.

Definition createDiscordSoundCloudTrack (this : t)
  (trackId title author : jsstring) (duration : Z)
  (requester : Requester.t) (guildId channelId : jsstring)
  (additionalInfo : TrackInfo.partial) : result DiscordTrack.t :=
  DiscordTrackEncoder.createDiscordSoundCloudTrack (discordEncoder this)
    trackId title author duration requester guildId channelId
    additionalInfo.

Definition createDiscordYouTubePlaylist (this : t)
  (playlistId name : jsstring) (videoData : list Item.t)
  (requester : Requester.t) (guildId channelId : jsstring)
  (selectedTrack : Z) : IO DiscordPlaylist.t :=
  DiscordTrackEncoder.createDiscordYouTubePlaylist (discordEncoder this)
    playlistId name videoData requester guildId channelId selectedTrack.

Definition createDiscordSpotifyPlaylist (this : t)
  (playlistId name : jsstring) (trackData : list Item.t)
  (requester : Requester.t) (guildId channelId : jsstring)
  (selectedTrack : Z) : IO DiscordPlaylist.t :=
  DiscordTrackEncoder.createDiscordSpotifyPlaylist (discordEncoder this)
    playlistId name trackData requester guildId channelId selectedTrack.

Definition getRequester (this : t) (track : DiscordTrack.t)
  : option Requester.t :=
  DiscordTrackEncoder.getRequester (discordEncoder this) track.

Definition getGuildInfo (this : t) (track : DiscordTrack.t)
  : option GuildInfo.t :=
  DiscordTrackEncoder.getGuildInfo (discordEncoder this) track.

Definition filterTracksByRequester (this : t) (tracks : list DiscordTrack.t)
  (requesterId : jsstring) : list DiscordTrack.t :=
  DiscordTrackEncoder.filterTracksByRequester (discordEncoder this) tracks
    requesterId.

Definition filterTracksByGuild (this : t) (tracks : list DiscordTrack.t)
  (guildId : jsstring) : list DiscordTrack.t :=
  DiscordTrackEncoder.filterTracksByGuild (discordEncoder this) tracks
    guildId.

Definition getTrackStats (this : t) (tracks : list DiscordTrack.t)
  (requesterId : jsstring) : option TrackStats.t :=
  DiscordTrackEncoder.getTrackStats (discordEncoder this) tracks
    requesterId.

(** [{ ...this.trackEncoder.getOptions(),
       ...this.playlistEncoder.getOptions() }]: the playlist encoder has
    every key of the track encoder, so each key takes its value there. *)
Definition getOptions (this : t) : PlaylistEncoder.options :=
  PlaylistEncoder.getOptions (playlistEncoder this).

(** The track encoder of the facade, the playlist encoder and the track
    encoder inside the playlist encoder hold the same track options. *)
Definition aligned (this : t) : Prop :=
  PlaylistEncoder.coherent (playlistEncoder this) /\
  TrackEncoder.opts (trackEncoder this) =
  TrackEncoder.opts (PlaylistEncoder.trackEncoder (playlistEncoder this)).

End LavalinkEncoder.

(** ** Regular expressions

    The fragment of the regular expressions of ECMA-262 that the utilities
    use, without flags, on code units: a literal text, a class of code
    units or its complement repeated once or more ([[...]+], greedy), a
    sequence, an alternative and a capturing group.  Matching backtracks:
    an alternative tries its left side first, a repetition its longest run
    first, and the search starts at the leftmost position that matches. *)

Module RegExp.

Inductive t : Type :=
| Lit (text : jsstring)
| Plus (negated : bool) (ranges : list (Z * Z))
| Seq (r1 r2 : t)
| Alt (r1 r2 : t)
| Group (index : nat) (r : t).

Definition inClass (negated : bool) (ranges : list (Z * Z)) (c : Z)
  : bool :=
  xorb negated
    (existsb (fun range => (fst range <=? c) && (c <=? snd range)) ranges).

(** The captures of a match: group index and captured text, the latest
    first. *)
Definition captures : Type := list (nat * jsstring).

Fixpoint capture (caps : captures) (index : nat) : option jsstring :=
  match caps with
  | [] => None
  | (i, text) :: caps' =>
      if Nat.eqb i index then Some text else capture caps' index
  end.

(** [s] with [text] taken off its front. *)
Fixpoint literal (text s : jsstring) : option jsstring :=
  match text with
  | [] => Some s
  | w :: text' =>
      match s with
      | c :: s' => if c =? w then literal text' s' else None
      | [] => None
      end
  end.

(** Zero or more code units of a class, the longest run first, followed
    by what the continuation [k] matches. *)
Fixpoint many {A : Type} (member : Z -> bool) (s : jsstring)
  (k : jsstring -> option A) : option A :=
  match s with
  | c :: s' =>
      if member c then
        match many member s' k with
        | Some a => Some a
        | None => k s
        end
      else k s
  | [] => k s
  end.

(** [r] at the front of [s], followed by what [k] matches. *)
Fixpoint run {A : Type} (r : t) (s : jsstring) (caps : captures)
  (k : jsstring -> captures -> option A) : option A :=
  match r with
  | Lit text =>
      match literal text s with
      | Some s' => k s' caps
      | None => None
      end
  | Plus negated ranges =>
      match s with
      | c :: s' =>
          if inClass negated ranges c
          then many (inClass negated ranges) s' (fun s'' => k s'' caps)
          else None
      | [] => None
      end
  | Seq r1 r2 => run r1 s caps (fun s' caps' => run r2 s' caps' k)
  | Alt r1 r2 =>
      match run r1 s caps k with
      | Some a => Some a
      | None => run r2 s caps k
      end
  | Group index r' =>
      run r' s caps
        (fun s' caps' =>
           k s' ((index,
                  firstn (List.length s - List.length s') s) :: caps'))
  end.

(** [s.match(r)] for a pattern without the [g] flag: the captures of the
    leftmost match, [None] for [null]. *)
Fixpoint exec (r : t) (s : jsstring) : option captures :=
  match run r s [] (fun _ caps => Some caps) with
  | Some caps => Some caps
  | None =>
      match s with
      | _ :: s' => exec r s'
      | [] => None
      end
  end.

End RegExp.

(** ** [src/utils/index.ts] *)

Module Utils.

(** [{ success: true, track } | { success: false, error, index }] *)
Inductive decoded (A : Type) : Type :=
| Success (track : A)
| Failure (error : message) (index : Z).
Arguments Success {A} track.
Arguments Failure {A} error index.

(** [encodedTracks.map((encodedTrack, index) => ...)] from [index] on. *)
Fixpoint decodeFrom {A : Type} (decoder : jsstring -> result A)
  (index : Z) (encodedTracks : list jsstring) : list (decoded A) :=
  match encodedTracks with
  | [] => []
  | encodedTrack :: rest =>
      match decoder encodedTrack with
      | Ok track => Success track
      | Throw error => Failure (messageOf error) index
      end :: decodeFrom decoder (index + 1) rest
  end.

Definition decodeMultipleTracks {A : Type} (encodedTracks : list jsstring)
  (decoder : jsstring -> result A) : list (decoded A) :=
  decodeFrom decoder 0 encodedTracks.

(** [s.padStart(targetLength, fill)] for a filler of one code unit. *)
Definition padStart (s : jsstring) (targetLength : nat) (fill : Z)
  : jsstring :=
  repeat fill (targetLength - List.length s) ++ s.

(** [n.toString().padStart(2, '0')] *)
Definition twoDigits (n : Z) : jsstring :=
  padStart (JSON.numberToString n) 2 48.

(** [Math.floor(milliseconds / 1000)] and so on are the quotients rounded
    down; [%] is the remainder with the sign of the dividend. *)
Definition formatDuration (milliseconds : Z) : jsstring :=
  let seconds := milliseconds / 1000 in
  let minutes := seconds / 60 in
  let hours := minutes / 60 in
  if hours >? 0 then
    JSON.numberToString hours ++ lit ":" ++ twoDigits (Z.rem minutes 60)
    ++ lit ":" ++ twoDigits (Z.rem seconds 60)
  else
    JSON.numberToString minutes ++ lit ":" ++ twoDigits (Z.rem seconds 60).

Definition formatDurationFromSeconds (seconds : Z) : jsstring :=
  formatDuration (seconds * 1000).

Definition secondsToMilliseconds (seconds : Z) : Z := seconds * 1000.

Definition millisecondsToSeconds (milliseconds : Z) : Z :=
  milliseconds / 1000.

Definition detectTrackSource (uri : jsstring) : jsstring :=
  if includes uri (lit "youtube.com") || includes uri (lit "youtu.be") then
    lit "youtube"
  else if includes uri (lit "spotify.com") then lit "spotify"
  else if includes uri (lit "soundcloud.com") then lit "soundcloud"
  else if includes uri (lit "twitch.tv") then lit "twitch"
  else if includes uri (lit "bandcamp.com") then lit "bandcamp"
  else lit "unknown".

(** [tracks.reduce((total, track) => total + track.info.length, 0)] *)
Definition calculateTotalDuration (tracks : list Track.t) : Z :=
  fold_left (fun total track => total + TrackInfo.length (Track.info track))
    tracks 0.

Definition calculatePlaylistDuration (playlist : LavalinkPlaylist.t) : Z :=
  calculateTotalDuration (LavalinkPlaylist.tracks playlist).

(** [xs.sort(compare)] for a comparator that orders the elements
    consistently: the sort is stable, so the result is the one
    arrangement in which [compare] never decreases and elements that
    compare equal keep their order. *)
Fixpoint insertSorted {A : Type} (compare : A -> A -> Z) (x : A)
  (sorted : list A) : list A :=
  match sorted with
  | [] => [x]
  | y :: sorted' =>
      if compare x y <=? 0 then x :: sorted
      else y :: insertSorted compare x sorted'
  end.

Definition sort {A : Type} (compare : A -> A -> Z) (xs : list A) : list A :=
  fold_right (insertSorted compare) [] xs.

Definition byDuration (ascending : bool) (a b : Track.t) : Z :=
  let comparison :=
    TrackInfo.length (Track.info a) - TrackInfo.length (Track.info b) in
  if ascending then comparison else - comparison.

Definition sortTracksByDuration (tracks : list Track.t) (ascending : bool)
  : list Track.t :=
  sort (byDuration ascending) tracks.

Definition filterTracksBySource (tracks : list Track.t) (source : jsstring)
  : list Track.t :=
  filter (fun track =>
            string_eqb (TrackInfo.sourceName (Track.info track)) source)
         tracks.

Definition filterTracksByDuration (tracks : list Track.t)
  (minDuration maxDuration : Z) : list Track.t :=
  filter (fun track =>
            (TrackInfo.length (Track.info track) >=? minDuration)
            && (TrackInfo.length (Track.info track) <=? maxDuration))
         tracks.

(** [Array.from(new Set(xs))]: the strings in the order of their first
    occurrence. *)
Definition setAdd (set : list jsstring) (x : jsstring) : list jsstring :=
  if existsb (string_eqb x) set then set else set ++ [x].

Definition unique (xs : list jsstring) : list jsstring :=
  fold_left setAdd xs [].

Definition getUniqueAuthors (tracks : list Track.t) : list jsstring :=
  unique (map (fun track => TrackInfo.author (Track.info track)) tracks).

Definition getUniqueSources (tracks : list Track.t) : list jsstring :=
  unique (map (fun track => TrackInfo.sourceName (Track.info track)) tracks).

Definition createTrackSummary (track : Track.t) : jsstring :=
  let duration := formatDuration (TrackInfo.length (Track.info track)) in
  TrackInfo.title (Track.info track) ++ lit " by "
  ++ TrackInfo.author (Track.info track) ++ lit " (" ++ duration ++ lit ")".

Definition createPlaylistSummary (playlist : LavalinkPlaylist.t)
  : jsstring :=
  let totalDuration := formatDuration (calculatePlaylistDuration playlist) in
  let trackCount :=
    Z.of_nat (List.length (LavalinkPlaylist.tracks playlist)) in
  PlaylistInfo.name (LavalinkPlaylist.info playlist) ++ lit " - "
  ++ JSON.numberToString trackCount ++ lit " tracks (" ++ totalDuration
  ++ lit ")".

(** The validator that collects every violation.  [isValidUrl] wraps the
    [URL] constructor of the platform and stands as a parameter. *)
Section Url.
Variable isValidUrl : jsstring -> bool.

Definition validateTrackInfo (trackInfo : TrackInfo.t) : list jsstring :=
  (if falsy (TrackInfo.identifier trackInfo)
   then [lit "Track identifier is required"] else [])
  ++ (if falsy (TrackInfo.title trackInfo)
      then [lit "Track title is required"] else [])
  ++ (if falsy (TrackInfo.author trackInfo)
      then [lit "Track author is required"] else [])
  ++ (if TrackInfo.length trackInfo <? 0
      then [lit "Track length must be a non-negative number"] else [])
  ++ (if falsy (TrackInfo.uri trackInfo)
      then [lit "Track URI is required"] else [])
  ++ (if negb (isValidUrl (TrackInfo.uri trackInfo))
      then [lit "Track URI must be a valid URL"] else []).
End Url.

(** [s.substring(start, stop)] *)
Definition substring (s : jsstring) (start stop : Z) : jsstring :=
  let len := Z.of_nat (List.length s) in
  let finalStart := Z.min (Z.max start 0) len in
  let finalEnd := Z.min (Z.max stop 0) len in
  let from := Z.min finalStart finalEnd in
  let to := Z.max finalStart finalEnd in
  firstn (Z.to_nat (to - from)) (skipn (Z.to_nat from) s).

Definition sanitizeTrackTitle (title : jsstring) (maxLength : Z)
  : jsstring :=
  if Z.of_nat (List.length title) <=? maxLength then title
  else substring title 0 (maxLength - 3) ++ lit "...".

Definition sanitizeAuthorName (author : jsstring) (maxLength : Z)
  : jsstring :=
  if Z.of_nat (List.length author) <=? maxLength then author
  else substring author 0 (maxLength - 3) ++ lit "...".

(** *** Helpers on decoded tracks

    A decoded track is the value that [JSON.parse] gave ([any] in the
    source). *)

(** [!v] is false. *)
Definition truthy (v : JSON.value) : bool :=
  match v with
  | JSON.JNull => false
  | JSON.JBool b => b
  | JSON.JNumber n => negb (n =? 0)
  | JSON.JFraction m _ => negb (m =? 0)
  | JSON.JString s => negb (falsy s)
  | JSON.JArray _ | JSON.JObject _ => true
  end.

(** [track[key]] for the keys that the helpers read ([identifier],
    [title], [author], [length], [uri], [sourceName], [isSeekable],
    [isStream], [position]) on a value that is not [null]: an own
    property of an object, the [length] of a string or an array, and
    [undefined] ([None]) otherwise, no prototype having a member of one of
    these names. *)
Definition member (track : JSON.value) (key : string) : option JSON.value :=
  match track with
  | JSON.JObject props => JSON.get props (lit key)
  | JSON.JString s =>
      if String.eqb key "length"
      then Some (JSON.JNumber (Z.of_nat (List.length s))) else None
  | JSON.JArray xs =>
      if String.eqb key "length"
      then Some (JSON.JNumber (Z.of_nat (List.length xs))) else None
  | _ => None
  end.

(** [!x] for a member. *)
Definition missing (x : option JSON.value) : bool :=
  match x with
  | Some v => negb (truthy v)
  | None => true
  end.

(** [typeof x !== 'number' || x < 0] *)
Definition notNonNegative (x : option JSON.value) : bool :=
  match x with
  | Some (JSON.JNumber n) => n <? 0
  | Some (JSON.JFraction m _) => m <? 0
  | _ => true
  end.

(** [typeof x !== 'boolean'] *)
Definition notBoolean (x : option JSON.value) : bool :=
  match x with
  | Some (JSON.JBool _) => false
  | _ => true
  end.

Module Validation.
Record t : Type := mk {
  valid : bool;
  errors : list jsstring
}.
End Validation.

Definition validateDecodedTrack (track : JSON.value) : Validation.t :=
  if negb (truthy track) then
    Validation.mk false [lit "Track is null or undefined"]
  else
    let errors :=
      (if missing (member track "identifier")
       then [lit "Missing identifier"] else [])
      ++ (if missing (member track "title")
          then [lit "Missing title"] else [])
      ++ (if missing (member track "author")
          then [lit "Missing author"] else [])
      ++ (if notNonNegative (member track "length")
          then [lit "Invalid length (must be non-negative number)"]
          else [])
      ++ (if missing (member track "uri") then [lit "Missing URI"] else [])
      ++ (if missing (member track "sourceName")
          then [lit "Missing source name"] else [])
      ++ (if notBoolean (member track "isSeekable")
          then [lit "isSeekable must be boolean"] else [])
      ++ (if notBoolean (member track "isStream")
          then [lit "isStream must be boolean"] else [])
      ++ (if notNonNegative (member track "position")
          then [lit "Invalid position (must be non-negative number)"]
          else []) in
    Validation.mk (Z.of_nat (List.length errors) =? 0) errors.

(** The integers that a number holds exactly
    ([Number.MAX_SAFE_INTEGER] and its opposite). *)
Definition safeInteger (n : Z) : bool :=
  (-9007199254740991 <=? n) && (n <=? 9007199254740991).

(** [a === b] on two members.  Two strings, booleans or safe integers
    are compared by value and values of two types differ; the answer is
    open ([None]) for two objects or arrays, which are compared by
    identity, and for numbers that are no safe integers, which the
    embedding does not round. *)
Definition strictEquals (a b : option JSON.value) : option bool :=
  match a, b with
  | None, None => Some true
  | Some JSON.JNull, Some JSON.JNull => Some true
  | Some (JSON.JBool x), Some (JSON.JBool y) => Some (Bool.eqb x y)
  | Some (JSON.JString s), Some (JSON.JString t) => Some (string_eqb s t)
  | Some (JSON.JNumber x), Some (JSON.JNumber y) =>
      if safeInteger x && safeInteger y then Some (x =? y) else None
  | Some (JSON.JNumber _), Some (JSON.JFraction _ _)
  | Some (JSON.JFraction _ _), Some (JSON.JNumber _)
  | Some (JSON.JFraction _ _), Some (JSON.JFraction _ _) => None
  | Some (JSON.JArray _ | JSON.JObject _),
    Some (JSON.JArray _ | JSON.JObject _) => None
  | _, _ => Some false
  end.

(** [fields.every(field => track1[field] === track2[field])] on two
    objects, given by their properties. *)
Fixpoint everyEqual (fields : list jsstring)
  (track1 track2 : list (jsstring * JSON.value)) : option bool :=
  match fields with
  | [] => Some true
  | field :: fields' =>
      match strictEquals (JSON.get track1 field) (JSON.get track2 field)
      with
      | Some true => everyEqual fields' track1 track2
      | other => other
      end
  end.

Definition compareTracks (track1 track2 : list (jsstring * JSON.value))
  : option bool :=
  let fields :=
    [lit "identifier"; lit "title"; lit "author"; lit "length"; lit "uri";
     lit "sourceName"] in
  everyEqual fields track1 track2.

(** [/(?:youtube\.com\/watch\?v=|youtu\.be\/|youtube\.com\/embed\/)([^&\n?#]+)/]
    and [/youtube\.com\/v\/([^&\n?#]+)/] *)
Definition youtubePatterns : list RegExp.t :=
  let id :=
    RegExp.Group 1
      (RegExp.Plus true [(38, 38); (10, 10); (63, 63); (35, 35)]) in
  [RegExp.Seq
     (RegExp.Alt (RegExp.Lit (lit "youtube.com/watch?v="))
        (RegExp.Alt (RegExp.Lit (lit "youtu.be/"))
           (RegExp.Lit (lit "youtube.com/embed/"))))
     id;
   RegExp.Seq (RegExp.Lit (lit "youtube.com/v/")) id].

(** The loop over the patterns: the first one that matches gives the
    identifier. *)
Fixpoint firstMatch (patterns : list RegExp.t) (url : jsstring)
  : option jsstring :=
  match patterns with
  | [] => None
  | pattern :: patterns' =>
      match RegExp.exec pattern url with
      | Some caps => RegExp.capture caps 1
      | None => firstMatch patterns' url
      end
  end.

Definition extractYouTubeVideoId (url : jsstring) : option jsstring :=
  firstMatch youtubePatterns url.

(** [/spotify\.com\/track\/([a-zA-Z0-9]+)/] *)
Definition spotifyPattern : RegExp.t :=
  RegExp.Seq (RegExp.Lit (lit "spotify.com/track/"))
    (RegExp.Group 1 (RegExp.Plus false [(97, 122); (65, 90); (48, 57)])).

Definition extractSpotifyTrackId (url : jsstring) : option jsstring :=
  match RegExp.exec spotifyPattern url with
  | Some caps => RegExp.capture caps 1
  | None => None
  end.

(** [/soundcloud\.com\/([^\/]+)\/([^\/\?]+)/] *)
Definition soundcloudPattern : RegExp.t :=
  RegExp.Seq (RegExp.Lit (lit "soundcloud.com/"))
    (RegExp.Seq (RegExp.Group 1 (RegExp.Plus true [(47, 47)]))
       (RegExp.Seq (RegExp.Lit (lit "/"))
          (RegExp.Group 2 (RegExp.Plus true [(47, 47); (63, 63)])))).

Definition extractSoundCloudTrackId (url : jsstring) : option jsstring :=
  match RegExp.exec soundcloudPattern url with
  | Some caps =>
      match RegExp.capture caps 1, RegExp.capture caps 2 with
      | Some user, Some track => Some (user ++ lit "/" ++ track)
      | _, _ => None
      end
  | None => None
  end.

End Utils.

(** ** The properties under verification, in the specification's words *)

Module Spec.

(** [decode(encode(r).token)] *)
Definition decodeOfEncode (this : TrackEncoder.t) (r : TrackInfo.t)
  : result JSON.value :=
  do encoded <- TrackEncoder.encodeTrack this r;
  TrackEncoder.decodeTrack (Track.track encoded).

(** The [sourceName] that decoding a token gives. *)
Definition sourceOfToken (token : result jsstring)
  : result (option JSON.value) :=
  do encoded <- token;
  do decoded <- TrackEncoder.decodeTrack encoded;
  Ok (match decoded with
      | JSON.JObject fields => JSON.get fields (lit "sourceName")
      | _ => None
      end).

(** An optional field is part of the projection when its option is on
    and the record holds a non-empty value for it. *)
Definition included (flag : bool) (field : option jsstring)
  : option JSON.value :=
  if flag then
    match field with
    | Some x => if falsy x then None else Some (JSON.JString x)
    | None => None
    end
  else None.

(** The projected field set: the value of each field name, [None] for a
    name that is not part of the projection. *)
Definition projected (this : TrackEncoder.t) (r : TrackInfo.t)
  (key : jsstring) : option JSON.value :=
  let o := TrackEncoder.opts this in
  if string_eqb (lit "identifier") key then
    Some (JSON.JString (TrackInfo.identifier r))
  else if string_eqb (lit "isSeekable") key then
    Some (JSON.JBool (TrackInfo.isSeekable r))
  else if string_eqb (lit "author") key then
    Some (JSON.JString (TrackInfo.author r))
  else if string_eqb (lit "length") key then
    Some (JSON.JNumber (TrackInfo.length r))
  else if string_eqb (lit "isStream") key then
    Some (JSON.JBool (TrackInfo.isStream r))
  else if string_eqb (lit "position") key then
    Some (JSON.JNumber (TrackInfo.position r))
  else if string_eqb (lit "title") key then
    Some (JSON.JString (TrackInfo.title r))
  else if string_eqb (lit "uri") key then
    Some (JSON.JString (TrackInfo.uri r))
  else if string_eqb (lit "sourceName") key then
    Some (JSON.JString (if falsy (TrackInfo.sourceName r)
                        then TrackEncoder.sourceName o
                        else TrackInfo.sourceName r))
  else if string_eqb (lit "artworkUrl") key then
    included (TrackEncoder.includeArtwork o) (TrackInfo.artworkUrl r)
  else if string_eqb (lit "isrc") key then
    included (TrackEncoder.includeISRC o) (TrackInfo.isrc r)
  else None.

(** The optional field as the round-trip property words it: part of the
    projection when the option is on and the field is present. *)
Definition includedWhenPresent (flag : bool) (field : option jsstring)
  : option JSON.value :=
  if flag then option_map JSON.JString field else None.

(** A track that [encodePlaylist] can take: it carries a token, or its
    record passes the track encoder. *)
Definition encodable (this : PlaylistEncoder.t) (track : Track.t) : Prop :=
  falsy (Track.track track) = false \/
  TrackEncoder.validate
    (TrackEncoder.opts (PlaylistEncoder.trackEncoder this)) = false \/
  TrackEncoder.validateTrackInfo (Track.info track) = Ok tt.

(** The track as it stands in an encoded playlist: a token is kept, a
    missing token is computed. *)
Definition encoded (this : PlaylistEncoder.t) (track : Track.t) : Track.t :=
  if falsy (Track.track track) then
    Track.mk
      (TrackEncoder.encodeTrackData
         (JSON.JObject
            (TrackEncoder.trackData (PlaylistEncoder.trackEncoder this)
               (Track.info track))))
      (Track.info track)
  else track.

(** Every track of the sequence carries a token. *)
Definition tokened (tracks : list Track.t) : Prop :=
  Forall (fun track => falsy (Track.track track) = false) tracks.

(** The tracks of part [k] (counted from 0) of a playlist cut into
    chunks of [chunkSize]. *)
Definition partTracks (p : LavalinkPlaylist.t) (chunkSize : Z) (k : nat)
  : list Track.t :=
  firstn (Z.to_nat chunkSize)
    (skipn (k * Z.to_nat chunkSize) (LavalinkPlaylist.tracks p)).

(** The name of part [k]: the parent name with the 1-based part suffix. *)
Definition partName (p : LavalinkPlaylist.t) (k : nat) : jsstring :=
  PlaylistInfo.name (LavalinkPlaylist.info p)
  ++ lit " (Part " ++ JSON.numberToString (Z.of_nat k + 1) ++ lit ")".

(** The selected index of part [k]: the parent's, held inside the chunk,
    for the first part and 0 after it. *)
Definition partSelected (p : LavalinkPlaylist.t) (chunkSize : Z) (k : nat)
  : Z :=
  match k with
  | O =>
      Z.min (PlaylistInfo.selectedTrack (LavalinkPlaylist.info p))
            (Z.of_nat (List.length (partTracks p chunkSize 0)) - 1)
  | S _ => 0
  end.

Definition part (p : LavalinkPlaylist.t) (chunkSize : Z) (k : nat)
  : LavalinkPlaylist.t :=
  LavalinkPlaylist.mk
    (PlaylistInfo.mk (partName p k) (partSelected p chunkSize k))
    []
    (partTracks p chunkSize k).

(** The loop of [splitPlaylist], entered at part [k] with [fuel] passes
    left, returns the remaining parts and logs nothing. *)
Definition splitsFrom (this : PlaylistEncoder.t) (p : LavalinkPlaylist.t)
  (chunkSize : Z) (fuel k : nat) (c : console) : Prop :=
  let size := Z.to_nat chunkSize in
  let tracks := LavalinkPlaylist.tracks p in
  exists chunks,
    PlaylistEncoder.splitLoop fuel this p chunkSize (Z.of_nat (k * size)) c
    = Some (Ok chunks, c) /\
    List.concat (map LavalinkPlaylist.tracks chunks) =
    skipn (k * size) tracks /\
    (List.length chunks * size < List.length tracks - k * size + size)%nat /\
    (List.length tracks - k * size <= List.length chunks * size)%nat /\
    forall j, (j < List.length chunks)%nat ->
              nth_error chunks j = Some (part p chunkSize (k + j)).

(** The required fields, in the order in which they are checked. *)
Inductive Field : Type := Identifier | Title | Author | Length | Uri.

Definition checkOrder : list Field :=
  [Identifier; Title; Author; Length; Uri].

Definition invalid (r : TrackInfo.t) (f : Field) : bool :=
  match f with
  | Identifier => falsy (TrackInfo.identifier r)
  | Title => falsy (TrackInfo.title r)
  | Author => falsy (TrackInfo.author r)
  | Length => TrackInfo.length r <? 0
  | Uri => falsy (TrackInfo.uri r)
  end.

(** The fields of [r] that fail their check, in check order. *)
Definition failing (r : TrackInfo.t) : list Field :=
  filter (invalid r) checkOrder.

(** The word by which an error message names a field. *)
Definition fieldWord (f : Field) : jsstring :=
  match f with
  | Identifier => lit "identifier"
  | Title => lit "title"
  | Author => lit "author"
  | Length => lit "length"
  | Uri => lit "URI"
  end.

Definition names (e : exn) (f : Field) : bool :=
  match e with
  | Error (Text m) => includes m (fieldWord f)
  | _ => false
  end.

(** The error of a failed check. *)
Definition violation (f : Field) : exn :=
  Error (Text (match f with
               | Identifier => lit "Track identifier is required"
               | Title => lit "Track title is required"
               | Author => lit "Track author is required"
               | Length => lit "Track length must be a non-negative number"
               | Uri => lit "Track URI is required"
               end)).

Definition Field_eqb (f g : Field) : bool :=
  match f, g with
  | Identifier, Identifier | Title, Title | Author, Author
  | Length, Length | Uri, Uri => true
  | _, _ => false
  end.

(** A playlist record of the data model: a selected index that is not
    negative and a token on every track. *)
Definition playlistRecord (p : LavalinkPlaylist.t) : Prop :=
  0 <= PlaylistInfo.selectedTrack (LavalinkPlaylist.info p) /\
  tokened (LavalinkPlaylist.tracks p).

End Spec.

(** ** Sample data *)

Module Sample.

(** [new LavalinkEncoder()] *)
Definition encoder : LavalinkEncoder.t :=
  LavalinkEncoder.new EncoderOptions.none.

Definition trackEncoder : TrackEncoder.t :=
  LavalinkEncoder.trackEncoder encoder.

Definition playlistEncoder : PlaylistEncoder.t :=
  LavalinkEncoder.playlistEncoder encoder.

(** The record of the end-to-end example. *)
Definition rick : TrackInfo.t :=
  TrackInfo.mk (lit "dQw4w9WgXcQ") true (lit "Rick Astley") 212000 false 0
    (lit "Never Gonna Give You Up")
    (lit "https://www.youtube.com/watch?v=dQw4w9WgXcQ")
    (lit "youtube") None None.

(** The same record with an artwork and an ISRC. *)
Definition rickFull : TrackInfo.t :=
  TrackInfo.mk (lit "dQw4w9WgXcQ") true (lit "Rick Astley") 212000 false 0
    (lit "Never Gonna Give You Up")
    (lit "https://www.youtube.com/watch?v=dQw4w9WgXcQ")
    [] (Some (lit "https://i.ytimg.com/vi/dQw4w9WgXcQ/maxresdefault.jpg"))
    (Some (lit "GBARL9300135")).

(** The same record with [artworkUrl: ''] (the empty string). *)
Definition rickBlankArtwork : TrackInfo.t :=
  TrackInfo.mk (lit "dQw4w9WgXcQ") true (lit "Rick Astley") 212000 false 0
    (lit "Never Gonna Give You Up")
    (lit "https://www.youtube.com/watch?v=dQw4w9WgXcQ")
    (lit "youtube") (Some []) None.

(** A record whose [identifier] and [title] are both empty. *)
Definition unnamed : TrackInfo.t :=
  TrackInfo.mk [] true (lit "Rick Astley") 212000 false 0 []
    (lit "https://www.youtube.com/watch?v=dQw4w9WgXcQ")
    (lit "youtube") None None.

(** A record without a source of its own. *)
Definition sourceless : TrackInfo.t :=
  TrackInfo.mk (lit "dQw4w9WgXcQ") true (lit "Rick Astley") 212000 false 0
    (lit "Never Gonna Give You Up")
    (lit "https://www.youtube.com/watch?v=dQw4w9WgXcQ")
    [] None None.

Definition tokenedTrack (token : string) : Track.t :=
  Track.mk (lit token) rick.

Definition fourTracks : list Track.t :=
  [tokenedTrack "dG9rZW4x"; tokenedTrack "dG9rZW4y";
   tokenedTrack "dG9rZW4z"; tokenedTrack "dG9rZW40"].

(** Four tokened tracks, the last one selected. *)
Definition playlist : LavalinkPlaylist.t :=
  LavalinkPlaylist.mk (PlaylistInfo.mk (lit "Mix") 3) [] fourTracks.

Definition threeTracks : LavalinkPlaylist.t :=
  LavalinkPlaylist.mk (PlaylistInfo.mk (lit "Mix") 0) []
    [tokenedTrack "dG9rZW4x"; tokenedTrack "dG9rZW4y";
     tokenedTrack "dG9rZW4z"].

(** Three tracks, the second one without token. *)
Definition gapped : LavalinkPlaylist.t :=
  LavalinkPlaylist.mk (PlaylistInfo.mk (lit "Mix") 0) []
    [tokenedTrack "dG9rZW4x"; Track.mk [] rick; tokenedTrack "dG9rZW4y"].

(** Four tokened tracks and the selected index -1. *)
Definition unselected : LavalinkPlaylist.t :=
  LavalinkPlaylist.mk (PlaylistInfo.mk (lit "Mix") (-1)) [] fourTracks.

Definition requester : Requester.t :=
  Requester.mk (lit "123456789012345678") (lit "MusicLover")
    (Some (lit "1234")).

Definition guildId : jsstring := lit "987654321098765432".
Definition channelId : jsstring := lit "111111111111111111".

(** [{ sourceName: 'custom' }] *)
Definition customOptions : EncoderOptions.t :=
  EncoderOptions.mk None None (Some (lit "custom")) None None None.

(** [new LavalinkEncoder({ sourceName: 'custom' })] *)
Definition custom : LavalinkEncoder.t := LavalinkEncoder.new customOptions.

(** [new LavalinkEncoder({ validate: false, maxTracks: 1 })] *)
Definition lax : LavalinkEncoder.t :=
  LavalinkEncoder.new
    (EncoderOptions.mk None None None (Some false) (Some 1) None).

End Sample.

(** ** Auxiliary notions for the properties of the remaining code *)

Module Shape.

(** The tracks that [encodePlaylist] keeps: the first [maxTracks] when
    the cap is positive, all of them otherwise. *)
Definition kept (this : PlaylistEncoder.t) (tracks : list Track.t)
  : list Track.t :=
  if PlaylistEncoder.maxTracks (PlaylistEncoder.opts this) >? 0
  then firstn (Z.to_nat (PlaylistEncoder.maxTracks (PlaylistEncoder.opts this)))
         tracks
  else tracks.

(** The console after the track check of a validated call with at least
    one track. *)
Definition warned (this : PlaylistEncoder.t) (tracks : list Track.t)
  (c : console) : console :=
  let n := Z.of_nat (List.length tracks) in
  let limit := PlaylistEncoder.maxTracks (PlaylistEncoder.opts this) in
  if (limit >? 0) && (n >? limit)
  then c ++ [PlaylistEncoder.warning n limit] else c.

(** The playlist that [encodePlaylist] builds from the encoded tracks. *)
Definition built (playlistInfo : PlaylistInfo.t) (encodedTracks : list Track.t)
  : LavalinkPlaylist.t :=
  LavalinkPlaylist.mk
    (PlaylistInfo.mk (PlaylistInfo.name playlistInfo)
       (Z.min (PlaylistInfo.selectedTrack playlistInfo)
              (Z.of_nat (List.length encodedTracks) - 1)))
    [] encodedTracks.

(** The steps of [encodePlaylist] after validation. *)
Definition finish (this : PlaylistEncoder.t) (playlistInfo : PlaylistInfo.t)
  (tracks : list Track.t) (c : console)
  : result LavalinkPlaylist.t * console :=
  match mapM (PlaylistEncoder.encodeIfNeeded this) (kept this tracks) with
  | Ok encodedTracks => (Ok (built playlistInfo encodedTracks), c)
  | Throw e => (Throw e, c)
  end.
(** The items that a playlist factory keeps under the cap. *)
Definition keptItems (this : PlaylistEncoder.t) (items : list Item.t)
  : list Item.t :=
  if PlaylistEncoder.maxTracks (PlaylistEncoder.opts this) >? 0
  then firstn (Z.to_nat (PlaylistEncoder.maxTracks
                           (PlaylistEncoder.opts this))) items
  else items.

(** An item from which the factories build a record that passes the
    track encoder. *)
Definition validItem (item : Item.t) : Prop :=
  falsy (Item.id item) = false /\ falsy (Item.title item) = false /\
  falsy (Item.author item) = false /\ 0 <= Item.duration item.

(** The sum of a list of integers. *)
Definition total (xs : list Z) : Z := fold_right Z.add 0 xs.

(** Numbers that add up exactly in whatever order and grouping they are
    added: their absolute values add up to a safe integer. *)
Definition exactSum (xs : list Z) : Prop :=
  Utils.safeInteger (total (map Z.abs xs)) = true.

(** The source name and the length of an annotated track. *)
Definition sourceOf (d : DiscordTrack.t) : jsstring :=
  TrackInfo.sourceName (DiscordTrackInfo.base (DiscordTrack.info d)).

Definition lengthOf (d : DiscordTrack.t) : Z :=
  TrackInfo.length (DiscordTrackInfo.base (DiscordTrack.info d)).

(** How many of the tracks have the source name [source]. *)
Definition countOf (source : jsstring) (tracks : list DiscordTrack.t) : Z :=
  Z.of_nat
    (List.length
       (filter (fun d => string_eqb (sourceOf d) source) tracks)).

(** The order that [sortTracksByDuration] establishes. *)
Definition inOrder (ascending : bool) (a b : Track.t) : Prop :=
  if ascending
  then TrackInfo.length (Track.info a) <= TrackInfo.length (Track.info b)
  else TrackInfo.length (Track.info b) <= TrackInfo.length (Track.info a).

(** The tracks of a given length. *)
Definition ofLength (d : Z) (tracks : list Track.t) : list Track.t :=
  filter (fun track => TrackInfo.length (Track.info track) =? d) tracks.

(** The source name that [encodeTrack] writes. *)
Definition effectiveSource (this : TrackEncoder.t) (r : TrackInfo.t)
  : jsstring :=
  if falsy (TrackInfo.sourceName r)
  then TrackEncoder.sourceName (TrackEncoder.opts this)
  else TrackInfo.sourceName r.

(** The text [word ++ rest] has [word] as its longest front in the class:
    every code unit of [word] is in the class and [rest] is empty or
    starts outside of it. *)
Definition longestRun (member : Z -> bool) (word rest : jsstring) : Prop :=
  word <> [] /\ Forall (fun c => member c = true) word /\
  match rest with
  | [] => True
  | c :: _ => member c = false
  end.

(** The classes of the three patterns. *)
Definition youtubeIdUnit : Z -> bool :=
  RegExp.inClass true [(38, 38); (10, 10); (63, 63); (35, 35)].

Definition spotifyIdUnit : Z -> bool :=
  RegExp.inClass false [(97, 122); (65, 90); (48, 57)].

Definition soundcloudUserUnit : Z -> bool := RegExp.inClass true [(47, 47)].

Definition soundcloudTrackUnit : Z -> bool :=
  RegExp.inClass true [(47, 47); (63, 63)].
End Shape.

(** ** Further sample data *)

Module Examples.

(** The identifier, title and author of the sample record. *)
Definition videoId : jsstring := lit "dQw4w9WgXcQ".
Definition title : jsstring := lit "Never Gonna Give You Up".
Definition author : jsstring := lit "Rick Astley".

(** Two items of a catalogue listing, the second one a live stream. *)
Definition items : list Item.t :=
  [Item.mk videoId title author 212;
   Item.mk (lit "jfKfPfyJRdk") (lit "lofi hip hop radio") (lit "Lofi Girl")
     0].

(** One token, one record without a name and one more token. *)
Definition mixed : list Track.t :=
  [Sample.tokenedTrack "dG9rZW4x"; Track.mk [] Sample.unnamed;
   Sample.tokenedTrack "dG9rZW4y"].

(** The sample record under two tokens. *)
Definition twoTracks : list Track.t :=
  [Sample.tokenedTrack "dG9rZW4x"; Sample.tokenedTrack "dG9rZW4y"].

Definition twoPlaylists : list LavalinkPlaylist.t :=
  [LavalinkPlaylist.mk (PlaylistInfo.mk (lit "A") 1) [] twoTracks;
   LavalinkPlaylist.mk (PlaylistInfo.mk (lit "B") 0) []
     [Sample.tokenedTrack "dG9rZW4z"]].

(** An annotated track of the sample requester. *)
Definition annotated : DiscordTrack.t :=
  DiscordTrack.mk (lit "dG9rZW4x")
    (DiscordTrackEncoder.annotate Sample.rick Sample.requester
       Sample.guildId Sample.channelId).

(** The same record with a position before the start. *)
Definition rewound : TrackInfo.t :=
  TrackInfo.mk videoId true author 212000 false (-5) title
    (youtubeUri videoId) (lit "youtube") None None.

End Examples.

(** ** Bit operations as arithmetic *)

Module Bits.

Lemma land_disjoint (x y k : Z) :
  0 <= k -> 0 <= y < 2 ^ k -> Z.land (Z.shiftl x k) y = 0.
Proof.
  intros Hk Hy. apply Z.bits_inj'. intros n Hn.
  rewrite Z.land_spec, Z.bits_0.
  destruct (Z.lt_ge_cases n k) as [Hlt | Hge].
  - rewrite Z.shiftl_spec_low by lia. reflexivity.
  - replace y with (y mod 2 ^ k) by (apply Z.mod_small; lia).
    rewrite Z.mod_pow2_bits_high by lia. apply andb_false_r.
Qed.

Lemma lor_shiftl (x y k : Z) :
  0 <= k -> 0 <= y < 2 ^ k -> Z.lor (Z.shiftl x k) y = x * 2 ^ k + y.
Proof.
  intros Hk Hy.
  rewrite <- Z.lxor_lor by (apply land_disjoint; lia).
  rewrite <- Z.add_nocarry_lxor by (apply land_disjoint; lia).
  rewrite Z.shiftl_mul_pow2 by lia. reflexivity.
Qed.

(** [x | y] is [x + y] when [x] has no bit below [k] and [y] none from
    [k] on. *)
Lemma lor_add (x y k : Z) :
  0 <= k -> x mod 2 ^ k = 0 -> 0 <= y < 2 ^ k -> Z.lor x y = x + y.
Proof.
  intros Hk Hx Hy.
  assert (Hp : 0 < 2 ^ k) by (apply Z.pow_pos_nonneg; lia).
  rewrite (Z.div_mod x (2 ^ k)) by lia.
  rewrite Hx, Z.add_0_r, (Z.mul_comm (2 ^ k)).
  rewrite <- (lor_shiftl (x / 2 ^ k) y k) by lia.
  rewrite Z.shiftl_mul_pow2 by lia. reflexivity.
Qed.

Lemma land_low (x k : Z) : 0 <= k -> Z.land x (2 ^ k - 1) = x mod 2 ^ k.
Proof.
  intros Hk. rewrite <- Z.land_ones by lia.
  rewrite Z.ones_equiv, <- Z.sub_1_r. reflexivity.
Qed.

Lemma land_63 x : Z.land x 63 = x mod 64.
Proof. exact (land_low x 6 ltac:(lia)). Qed.

Lemma land_255 x : Z.land x 255 = x mod 256.
Proof. exact (land_low x 8 ltac:(lia)). Qed.

(** [x & (m << k)] for a mask [m] of low bits. *)
Lemma land_shifted_mask (x j k : Z) :
  0 <= j -> 0 <= k ->
  Z.land (Z.shiftl x k) ((2 ^ j - 1) * 2 ^ k) = (x mod 2 ^ j) * 2 ^ k.
Proof.
  intros Hj Hk.
  rewrite <- (Z.shiftl_mul_pow2 (2 ^ j - 1)) by lia.
  rewrite <- Z.shiftl_land, land_low by lia.
  apply Z.shiftl_mul_pow2; lia.
Qed.

Lemma shiftr_div (x k : Z) : 0 <= k -> Z.shiftr x k = x / 2 ^ k.
Proof. apply Z.shiftr_div_pow2. Qed.

Lemma shiftl_mul (x k : Z) : 0 <= k -> Z.shiftl x k = x * 2 ^ k.
Proof. apply Z.shiftl_mul_pow2. Qed.

End Bits.

(** Rewrites the shifts and masks of a goal into [*], [/] and [mod] by
    constants. *)
Ltac bits_to_arith :=
  repeat first
    [ rewrite Bits.land_63
    | rewrite Bits.land_255
    | rewrite Bits.shiftr_div by lia
    | rewrite Bits.shiftl_mul by lia ];
  change (2 ^ 2) with 4 in *; change (2 ^ 4) with 16 in *;
  change (2 ^ 6) with 64 in *; change (2 ^ 8) with 256 in *;
  change (2 ^ 10) with 1024 in *; change (2 ^ 12) with 4096 in *;
  change (2 ^ 16) with 65536 in *; change (2 ^ 18) with 262144 in *.

(** ** [base64-js]: decoding inverts encoding *)

Module Base64Facts.
Import Base64.

Lemma revLookup_lookup (i : Z) :
  0 <= i < 64 -> revLookup (lookup i) = Some i.
Proof.
  intros Hi. rewrite <- (Z2Nat.id i) by lia.
  assert (Hn : (Z.to_nat i < 64)%nat) by lia.
  revert Hn. generalize (Z.to_nat i). clear. intros n Hn.
  do 64 (destruct n as [| n]; [reflexivity |]). lia.
Qed.

Lemma lookup_not_pad (i : Z) : 0 <= i < 64 -> lookup i <> 61.
Proof.
  intros Hi. rewrite <- (Z2Nat.id i) by lia.
  assert (Hn : (Z.to_nat i < 64)%nat) by lia.
  revert Hn. generalize (Z.to_nat i). clear. intros n Hn.
  do 64 (destruct n as [| n]; [discriminate |]). lia.
Qed.

(** The number assembled from three bytes. *)
Lemma triple_value (a b c : Z) :
  byte a -> byte b -> byte c ->
  Z.land (Z.shiftl a 16) 16711680 + Z.land (Z.shiftl b 8) 65280
  + Z.land c 255 = a * 65536 + b * 256 + c.
Proof.
  unfold byte. intros Ha Hb Hc.
  change 16711680 with ((2 ^ 8 - 1) * 2 ^ 16).
  change 65280 with ((2 ^ 8 - 1) * 2 ^ 8).
  rewrite !Bits.land_shifted_mask, Bits.land_255 by lia.
  rewrite !Z.mod_small by lia. reflexivity.
Qed.

(** Reassembling four sextets gives the number back. *)
Lemma quad_value (num : Z) :
  0 <= num < 16777216 ->
  Z.lor (Z.lor (Z.lor (Z.shiftl (Z.land (Z.shiftr num 18) 63) 18)
                      (Z.shiftl (Z.land (Z.shiftr num 12) 63) 12))
               (Z.shiftl (Z.land (Z.shiftr num 6) 63) 6))
        (Z.land num 63) = num.
Proof.
  intros Hnum. bits_to_arith.
  rewrite (Bits.lor_add (_ * 262144) (_ * 4096) 18),
    (Bits.lor_add (_ + _) (_ * 64) 12), (Bits.lor_add _ _ 6);
    change (2 ^ 18) with 262144; change (2 ^ 12) with 4096;
    change (2 ^ 6) with 64; try lia;
    Z.div_mod_to_equations; lia.
Qed.

Lemma sextet_range (num k : Z) :
  0 <= k -> 0 <= Z.land (Z.shiftr num k) 63 < 64.
Proof.
  intros Hk. rewrite Bits.land_63. apply Z.mod_pos_bound. lia.
Qed.

Lemma triple_range (a b c : Z) :
  byte a -> byte b -> byte c ->
  0 <= a * 65536 + b * 256 + c < 16777216.
Proof. unfold byte. lia. Qed.

Lemma revAt_lookup (i : Z) (pre rest : jsstring) :
  0 <= i < 64 ->
  revAt (pre ++ lookup i :: rest) (List.length pre) = i.
Proof.
  intros Hi. unfold revAt.
  rewrite nth_error_app2, Nat.sub_diag by lia. simpl.
  rewrite revLookup_lookup by lia. reflexivity.
Qed.

Lemma revAt_0 (i : Z) (rest : jsstring) :
  0 <= i < 64 -> revAt (lookup i :: rest) 0 = i.
Proof. exact (revAt_lookup i [] rest). Qed.

Lemma revAt_1 (i x : Z) (rest : jsstring) :
  0 <= i < 64 -> revAt (x :: lookup i :: rest) 1 = i.
Proof. exact (revAt_lookup i [x] rest). Qed.

Lemma revAt_2 (i x y : Z) (rest : jsstring) :
  0 <= i < 64 -> revAt (x :: y :: lookup i :: rest) 2 = i.
Proof. exact (revAt_lookup i [x; y] rest). Qed.

Lemma revAt_3 (i x y z : Z) (rest : jsstring) :
  0 <= i < 64 -> revAt (x :: y :: z :: lookup i :: rest) 3 = i.
Proof. exact (revAt_lookup i [x; y; z] rest). Qed.

(** One pass of the decoding loop over the four characters of a triplet. *)
Lemma decode_quad (a b c : Z) (rest : jsstring) :
  byte a -> byte b -> byte c ->
  let s := tripletToBase64
             (Z.land (Z.shiftl a 16) 16711680 + Z.land (Z.shiftl b 8) 65280
              + Z.land c 255) ++ rest in
  let tmp :=
    Z.lor (Z.lor (Z.lor (Z.shiftl (revAt s 0) 18) (Z.shiftl (revAt s 1) 12))
                 (Z.shiftl (revAt s 2) 6))
          (revAt s 3) in
  [Z.land (Z.shiftr tmp 16) 255; Z.land (Z.shiftr tmp 8) 255;
   Z.land tmp 255] = [a; b; c].
Proof.
  intros Ha Hb Hc s tmp. subst tmp s.
  rewrite triple_value by assumption.
  pose proof (triple_range a b c Ha Hb Hc) as Hr.
  set (num := a * 65536 + b * 256 + c) in *.
  unfold tripletToBase64. cbn [app].
  rewrite revAt_0, revAt_1, revAt_2, revAt_3;
    try (apply sextet_range; lia);
    try (rewrite Bits.land_63; apply Z.mod_pos_bound; lia).
  rewrite quad_value by exact Hr.
  unfold num, byte in *. bits_to_arith.
  repeat f_equal; Z.div_mod_to_equations; lia.
Qed.

Lemma encodeChunk_length (m : nat) : forall ts,
  List.length ts = (3 * m)%nat ->
  List.length (encodeChunk ts) = (4 * m)%nat.
Proof.
  induction m as [| m IH]; intros ts Hlen.
  - destruct ts; [reflexivity | discriminate].
  - destruct ts as [| a [| b [| c ts]]]; simpl in Hlen; try lia.
    cbn [encodeChunk tripletToBase64 app List.length].
    rewrite (IH ts) by lia. lia.
Qed.

Lemma encodeChunk_no_pad (m : nat) : forall ts,
  List.length ts = (3 * m)%nat ->
  Forall (fun c => c <> 61) (encodeChunk ts).
Proof.
  induction m as [| m IH]; intros ts Hlen.
  - destruct ts; [constructor | discriminate].
  - destruct ts as [| a [| b [| c ts]]]; simpl in Hlen; try lia.
    cbn [encodeChunk tripletToBase64 app].
    repeat constructor;
      try (apply lookup_not_pad; first
             [ apply sextet_range; lia
             | rewrite Bits.land_63; apply Z.mod_pos_bound; lia ]).
    apply IH. lia.
Qed.

Lemma indexOf_app_absent (c : Z) (s t : jsstring) :
  Forall (fun x => x <> c) s ->
  indexOf (s ++ t) c =
  match indexOf t c with
  | Some j => Some (Z.of_nat (List.length s) + j)
  | None => None
  end.
Proof.
  induction 1 as [| x s Hx _ IH]; cbn [app indexOf List.length].
  - destruct (indexOf t c); reflexivity.
  - apply Z.eqb_neq in Hx. rewrite Hx, IH.
    destruct (indexOf t c); [f_equal; lia | reflexivity].
Qed.

(** The loop decodes a run of whole triplets and stops in front of the
    tail, provided [len] ends inside the last quadruple. *)
Lemma decodeLoop_encodeChunk (m : nat) : forall ts tail i len,
  List.length ts = (3 * m)%nat ->
  Forall byte ts ->
  len <= i + 4 * Z.of_nat m ->
  ((0 < m)%nat -> i + 4 * Z.of_nat m - 4 < len) ->
  decodeLoop (encodeChunk ts ++ tail) i len = (ts, tail).
Proof.
  induction m as [| m IH]; intros ts tail i len Hlen Hb Hhi Hlo.
  - destruct ts; [| discriminate]. cbn [encodeChunk app].
    destruct tail; cbn [decodeLoop];
      replace (i <? len) with false by (symmetry; apply Z.ltb_ge; lia);
      reflexivity.
  - destruct ts as [| a [| b [| c ts]]]; simpl in Hlen; try lia.
    inversion Hb as [| ? ? Ha Hb1]; subst.
    inversion Hb1 as [| ? ? Hb' Hb2]; subst.
    inversion Hb2 as [| ? ? Hc Hb3]; subst.
    pose proof (decode_quad a b c (encodeChunk ts ++ tail) Ha Hb' Hc) as Hq.
    cbn zeta in Hq.
    cbn [encodeChunk]. rewrite <- app_assoc.
    remember (Z.land (Z.shiftl a 16) 16711680 + Z.land (Z.shiftl b 8) 65280
              + Z.land c 255) as num.
    unfold tripletToBase64 in *. cbn [app] in *.
    cbn [decodeLoop].
    replace (i <? len) with true by (symmetry; apply Z.ltb_lt; lia).
    rewrite Hq. rewrite (IH ts tail (i + 4) len); try assumption; try lia.
    reflexivity.
Qed.

Lemma getLens_padded (m : nat) (body tail : jsstring) (k : Z) :
  List.length body = (4 * m)%nat ->
  Forall (fun c => c <> 61) body ->
  List.length tail = 4%nat ->
  indexOf tail 61 = Some k -> 0 < k < 4 ->
  getLens (body ++ tail) = Ok (4 * Z.of_nat m + k, 4 - k).
Proof.
  intros Hlen Hpad Htl Hidx Hk. unfold getLens.
  rewrite indexOf_app_absent, Hidx, length_app, Hlen, Htl by assumption.
  replace (Z.of_nat (4 * m + 4)) with ((Z.of_nat m + 1) * 4) by lia.
  rewrite Z.mod_mul by lia. cbn [Z.gtb Z.compare].
  replace (Z.of_nat (4 * m) + k =? (Z.of_nat m + 1) * 4) with false
    by (symmetry; apply Z.eqb_neq; lia).
  do 3 f_equal; [lia |].
  replace (Z.of_nat (4 * m) + k) with (k + Z.of_nat m * 4) by lia.
  rewrite Z.mod_add, Z.mod_small by lia. reflexivity.
Qed.

Lemma fill_exact (l : list Z) : fill (List.length l) l = l.
Proof.
  unfold fill. rewrite firstn_app, Nat.sub_diag, firstn_all.
  cbn [firstn]. apply app_nil_r.
Qed.

Lemma split_tail (bs : list Z) :
  let len2 := (List.length bs - List.length bs mod 3)%nat in
  exists m,
    List.length (firstn len2 bs) = (3 * m)%nat /\
    List.length (skipn len2 bs) = (List.length bs mod 3)%nat.
Proof.
  intros len2. exists (List.length bs / 3)%nat.
  pose proof (Nat.div_mod_eq (List.length bs) 3) as Hdm.
  rewrite length_firstn, length_skipn. subst len2. lia.
Qed.

(** Decoding a string produced by [fromByteArray] gives the bytes back. *)
Theorem toByteArray_fromByteArray (bs : list Z) :
  Forall byte bs -> toByteArray (fromByteArray bs) = Ok bs.
Proof.
  intros Hb. unfold fromByteArray.
  destruct (split_tail bs) as [m [Hts Htl]]. cbn zeta in Hts, Htl.
  pose proof (firstn_skipn
    (List.length bs - List.length bs mod 3) bs) as Hsplit.
  assert (Hmod : (List.length bs mod 3 < 3)%nat)
    by (apply Nat.mod_upper_bound; lia).
  remember (firstn _ bs) as ts eqn:Ets.
  remember (skipn _ bs) as tl eqn:Etl. clear Ets Etl.
  assert (Hbts : Forall byte ts)
    by (rewrite <- Hsplit in Hb; apply Forall_app in Hb; tauto).
  assert (Hbtl : Forall byte tl)
    by (rewrite <- Hsplit in Hb; apply Forall_app in Hb; tauto).
  pose proof (encodeChunk_length m ts Hts) as Hlen.
  pose proof (encodeChunk_no_pad m ts Hts) as Hpad.
  assert (Htl3 : (List.length tl < 3)%nat) by lia.
  subst bs. clear Htl Hmod.
  destruct tl as [| t [| lo [| x tl]]]; simpl in Htl3; try lia.
  - (* no trailing bytes *)
    unfold toByteArray, getLens.
    rewrite indexOf_app_absent by assumption. cbn [indexOf].
    rewrite !length_app, Hlen. cbn [List.length].
    replace (Z.of_nat (4 * m + 0)) with (4 * Z.of_nat m) by lia.
    replace ((4 * Z.of_nat m) mod 4) with 0
      by (symmetry; rewrite Z.mul_comm; apply Z.mod_mul; lia).
    cbn [Z.gtb Z.compare bind]. rewrite Z.eqb_refl.
    unfold _byteLength. rewrite Z.add_0_r, Z.sub_0_r.
    replace (4 * Z.of_nat m * 3 / 4) with (3 * Z.of_nat m)
      by (symmetry; replace (4 * Z.of_nat m * 3)
            with (3 * Z.of_nat m * 4) by lia; apply Z.div_mul; lia).
    replace (3 * Z.of_nat m <? 0) with false
      by (symmetry; apply Z.ltb_ge; lia).
    cbn [Z.gtb Z.compare Z.eqb].
    rewrite (decodeLoop_encodeChunk m) by (assumption || lia).
    rewrite !app_nil_r.
    replace (Z.to_nat (3 * Z.of_nat m)) with (List.length ts) by lia.
    rewrite fill_exact. reflexivity.
  - (* one trailing byte *)
    inversion Hbtl as [| ? ? Ht _]; subst. unfold byte in Ht.
    assert (H0 : 0 <= Z.shiftr t 2 < 64)
      by (bits_to_arith; Z.div_mod_to_equations; lia).
    assert (H1 : 0 <= Z.land (Z.shiftl t 4) 63 < 64)
      by (bits_to_arith; Z.div_mod_to_equations; lia).
    pose proof (lookup_not_pad _ H0) as N0.
    pose proof (lookup_not_pad _ H1) as N1.
    apply Z.eqb_neq in N0, N1.
    unfold toByteArray.
    rewrite (getLens_padded m _ _ 2); try assumption; try lia;
      [| reflexivity | cbn [indexOf]; rewrite N0, N1; reflexivity].
    cbn [bind]. unfold _byteLength. change (4 - 2) with 2.
    replace ((4 * Z.of_nat m + 2 + 2) * 3 / 4 - 2)
      with (3 * Z.of_nat m + 1) by (Z.div_mod_to_equations; lia).
    replace (3 * Z.of_nat m + 1 <? 0) with false
      by (symmetry; apply Z.ltb_ge; lia).
    change (2 >? 0) with true. change (2 =? 2) with true.
    change (2 =? 1) with false. cbv iota.
    rewrite (decodeLoop_encodeChunk m) by (assumption || lia).
    rewrite revAt_0, revAt_1 by assumption.
    replace (Z.land (Z.lor (Z.shiftl (Z.shiftr t 2) 2)
               (Z.shiftr (Z.land (Z.shiftl t 4) 63) 4)) 255) with t.
    + replace (Z.to_nat (3 * Z.of_nat m + 1))
        with (List.length (ts ++ [t] ++ []))
        by (rewrite length_app; cbn [List.length app]; lia).
      rewrite fill_exact, app_nil_r. reflexivity.
    + bits_to_arith.
      rewrite (Bits.lor_add _ _ 2); change (2 ^ 2) with 4; try lia;
        Z.div_mod_to_equations; lia.
  - (* two trailing bytes *)
    inversion Hbtl as [| ? ? Ht Hbtl']; subst.
    inversion Hbtl' as [| ? ? Hlo _]; subst. unfold byte in Ht, Hlo.
    set (tmp := Z.shiftl t 8 + lo).
    assert (Htmp : tmp = t * 256 + lo)
      by (unfold tmp; bits_to_arith; reflexivity).
    assert (H0 : 0 <= Z.shiftr tmp 10 < 64)
      by (rewrite Htmp; bits_to_arith; Z.div_mod_to_equations; lia).
    assert (H1 : 0 <= Z.land (Z.shiftr tmp 4) 63 < 64)
      by (apply sextet_range; lia).
    assert (H2 : 0 <= Z.land (Z.shiftl tmp 2) 63 < 64)
      by (rewrite Bits.land_63; apply Z.mod_pos_bound; lia).
    pose proof (lookup_not_pad _ H0) as N0.
    pose proof (lookup_not_pad _ H1) as N1.
    pose proof (lookup_not_pad _ H2) as N2.
    apply Z.eqb_neq in N0, N1, N2.
    unfold toByteArray.
    rewrite (getLens_padded m _ _ 3); try assumption; try lia;
      [| reflexivity | cbn [indexOf]; rewrite N0, N1, N2; reflexivity].
    cbn [bind]. unfold _byteLength. change (4 - 3) with 1.
    replace ((4 * Z.of_nat m + 3 + 1) * 3 / 4 - 1)
      with (3 * Z.of_nat m + 2) by (Z.div_mod_to_equations; lia).
    replace (3 * Z.of_nat m + 2 <? 0) with false
      by (symmetry; apply Z.ltb_ge; lia).
    change (1 >? 0) with true. change (1 =? 2) with false.
    change (1 =? 1) with true. cbv iota.
    rewrite (decodeLoop_encodeChunk m) by (assumption || lia).
    rewrite revAt_0, revAt_1, revAt_2 by assumption.
    set (back := Z.lor (Z.lor (Z.shiftl (Z.shiftr tmp 10) 10)
                              (Z.shiftl (Z.land (Z.shiftr tmp 4) 63) 4))
                       (Z.shiftr (Z.land (Z.shiftl tmp 2) 63) 2)).
    assert (Hback : back = tmp).
    { unfold back. rewrite Htmp. bits_to_arith.
      rewrite (Bits.lor_add (_ * 1024) (_ * 16) 10),
        (Bits.lor_add _ _ 4);
        change (2 ^ 10) with 1024; change (2 ^ 4) with 16; try lia;
        Z.div_mod_to_equations; lia. }
    rewrite Hback, Htmp.
    replace (Z.land (Z.shiftr (t * 256 + lo) 8) 255) with t
      by (bits_to_arith; Z.div_mod_to_equations; lia).
    replace (Z.land (t * 256 + lo) 255) with lo
      by (bits_to_arith; Z.div_mod_to_equations; lia).
    replace (Z.to_nat (3 * Z.of_nat m + 2))
      with (List.length (ts ++ [] ++ [t; lo]))
      by (rewrite length_app; cbn [List.length app]; lia).
    rewrite fill_exact. reflexivity.
Qed.

Lemma indexOf_range (s : jsstring) (c i : Z) :
  indexOf s c = Some i ->
  0 <= i < Z.of_nat (List.length s) /\ (i = 0 <-> hd 0 s = c).
Proof.
  revert i. induction s as [| x s IH]; intros i H; [discriminate |].
  cbn [indexOf] in H. cbn [List.length hd].
  destruct (Z.eqb_spec x c) as [-> | Hx].
  - inversion H. subst. split; [lia | tauto].
  - destruct (indexOf s c) as [j |]; [| discriminate].
    inversion H. subst. destruct (IH j eq_refl) as [Hj _].
    split; [lia |]. split; [lia | congruence].
Qed.

Lemma indexOf_absent (s : jsstring) (c : Z) :
  indexOf s c = None -> hd 0 s <> c \/ s = [].
Proof.
  destruct s as [| x s]; [right; reflexivity |]. cbn [indexOf hd].
  destruct (Z.eqb_spec x c); [discriminate | left; assumption].
Qed.

(** [toByteArray] throws exactly on a length that is not a multiple of
    four and on a string that begins with the padding character. *)
Lemma toByteArray_rejects (b64 : jsstring) :
  is_ok (toByteArray b64) = false <->
  Z.of_nat (List.length b64) mod 4 <> 0 \/ hd 0 b64 = 61.
Proof.
  unfold toByteArray, getLens.
  pose proof (Z.mod_pos_bound (Z.of_nat (List.length b64)) 4
                ltac:(lia)) as Hmod.
  destruct (Z.gtb_spec (Z.of_nat (List.length b64) mod 4) 0)
    as [Hbad | Hgood]; cbn [bind is_ok].
  - split; [left; lia | reflexivity].
  - assert (Hlen : Z.of_nat (List.length b64) mod 4 = 0) by lia.
    set (len := Z.of_nat (List.length b64)) in *.
    destruct (indexOf b64 61) as [i |] eqn:Hidx.
    + destruct (indexOf_range _ _ _ Hidx) as [Hi Hzero].
      fold len in Hi.
      replace (i =? len) with false by (symmetry; apply Z.eqb_neq; lia).
      destruct (decodeLoop b64 0 _) as [main rest].
      destruct (Z.ltb_spec (_byteLength i (4 - i mod 4)) 0) as [Hn | Hn];
        cbn [is_ok]; unfold _byteLength in Hn.
      * split; [intros _ | reflexivity]. right. apply Hzero.
        Z.div_mod_to_equations. lia.
      * split; [discriminate |]. intros [Hcontra | Hhd]; [lia |].
        apply Hzero in Hhd. subst i. cbn in Hn. lia.
    + rewrite Z.eqb_refl.
      destruct (decodeLoop b64 0 _) as [main rest].
      destruct (Z.ltb_spec (_byteLength len 0) 0) as [Hn | Hn];
        cbn [is_ok]; unfold _byteLength in Hn.
      * exfalso. Z.div_mod_to_equations. lia.
      * split; [discriminate |]. intros [Hcontra | Hhd]; [lia |].
        destruct (indexOf_absent _ _ Hidx) as [Hne | ->];
          [contradiction | discriminate Hhd].
Qed.

End Base64Facts.

(** ** UTF-8: decoding inverts encoding on paired strings *)

Ltac arith := Z.div_mod_to_equations; lia.

(** Decides the integer comparisons of the goal by arithmetic. *)
Ltac decide_cmp :=
  repeat match goal with
  | |- context [?a <=? ?b] =>
      first [ replace (a <=? b) with true by (symmetry; apply Z.leb_le; arith)
            | replace (a <=? b) with false
                by (symmetry; apply Z.leb_gt; arith) ]
  | |- context [?a =? ?b] =>
      first [ replace (a =? b) with true by (symmetry; apply Z.eqb_eq; arith)
            | replace (a =? b) with false
                by (symmetry; apply Z.eqb_neq; arith) ]
  end.

Module TextFacts.
Import Text.

Lemma cont_byte (x : Z) : Z.lor 128 (Z.land x 63) = 128 + x mod 64.
Proof.
  rewrite Bits.land_63. apply (Bits.lor_add 128 _ 7); try lia.
  - reflexivity.
  - change (2 ^ 7) with 128. arith.
Qed.

Lemma encode_1 (cp : Z) : 0 <= cp <= 127 -> encodeCodePoint cp = [cp].
Proof. intros H. unfold encodeCodePoint. decide_cmp. reflexivity. Qed.

Lemma encode_2 (cp : Z) :
  128 <= cp <= 2047 ->
  encodeCodePoint cp = [cp / 64 + 192; 128 + cp mod 64].
Proof.
  intros H. unfold encodeCodePoint. decide_cmp.
  cbn [continuation]. change (6 * Z.of_nat 1) with 6.
  change (6 * Z.of_nat 0) with 0.
  rewrite Z.shiftr_0_r, cont_byte. bits_to_arith. reflexivity.
Qed.

Lemma encode_3 (cp : Z) :
  2048 <= cp <= 65535 ->
  encodeCodePoint cp =
  [cp / 4096 + 224; 128 + (cp / 64) mod 64; 128 + cp mod 64].
Proof.
  intros H. unfold encodeCodePoint. decide_cmp.
  cbn [continuation]. change (6 * Z.of_nat 2) with 12.
  change (6 * Z.of_nat 1) with 6. change (6 * Z.of_nat 0) with 0.
  rewrite Z.shiftr_0_r, !cont_byte. bits_to_arith. reflexivity.
Qed.

Lemma encode_4 (cp : Z) :
  65536 <= cp ->
  encodeCodePoint cp =
  [cp / 262144 + 240; 128 + (cp / 4096) mod 64; 128 + (cp / 64) mod 64;
   128 + cp mod 64].
Proof.
  intros H. unfold encodeCodePoint. decide_cmp.
  cbn [continuation]. change (6 * Z.of_nat 3) with 18.
  change (6 * Z.of_nat 2) with 12.
  change (6 * Z.of_nat 1) with 6. change (6 * Z.of_nat 0) with 0.
  rewrite Z.shiftr_0_r, !cont_byte. bits_to_arith. reflexivity.
Qed.

(** A continuation byte inside the boundaries shifts six bits in. *)
Lemma handler_continue (cp seen needed lo hi x : Z) :
  needed <> 0 -> 0 <= x < 64 -> lo <= 128 + x <= hi -> 0 <= cp ->
  handler (mkDecoder cp seen needed lo hi) (128 + x) =
  if seen + 1 =? needed then (initial, [cp * 64 + x])
  else (mkDecoder (cp * 64 + x) (seen + 1) needed 128 191, []).
Proof.
  intros Hn Hx Hb Hcp. unfold handler, between.
  cbn [bytes_needed bytes_seen code_point lower_boundary upper_boundary].
  replace (needed =? 0) with false by (symmetry; apply Z.eqb_neq; lia).
  replace (lo <=? 128 + x) with true by (symmetry; apply Z.leb_le; lia).
  replace (128 + x <=? hi) with true by (symmetry; apply Z.leb_le; lia).
  cbn [andb negb].
  replace (Z.lor (Z.shiftl cp 6) (Z.land (128 + x) 63)) with (cp * 64 + x).
  - reflexivity.
  - rewrite Bits.land_63, Bits.lor_shiftl; change (2 ^ 6) with 64;
      try lia; arith.
Qed.

Lemma land_31 x : Z.land x 31 = x mod 32.
Proof. exact (Bits.land_low x 5 ltac:(lia)). Qed.

Lemma land_15 x : Z.land x 15 = x mod 16.
Proof. exact (Bits.land_low x 4 ltac:(lia)). Qed.

Lemma land_7 x : Z.land x 7 = x mod 8.
Proof. exact (Bits.land_low x 3 ltac:(lia)). Qed.

Lemma land_1023 x : Z.land x 1023 = x mod 1024.
Proof. exact (Bits.land_low x 10 ltac:(lia)). Qed.

Lemma start_1 (b : Z) : 0 <= b <= 127 -> start b = (initial, [b]).
Proof. intros H. unfold start, between. decide_cmp. reflexivity. Qed.

Lemma start_2 (b : Z) :
  194 <= b <= 223 -> start b = (mkDecoder (b mod 32) 0 1 128 191, []).
Proof.
  intros H. unfold start, between. decide_cmp. cbn [andb].
  rewrite land_31. reflexivity.
Qed.

Lemma start_3 (b : Z) :
  224 <= b <= 239 ->
  start b = (mkDecoder (b mod 16) 0 2 (if b =? 224 then 160 else 128)
               (if b =? 237 then 159 else 191), []).
Proof.
  intros H. unfold start, between.
  replace (b <=? 127) with false by (symmetry; apply Z.leb_gt; lia).
  replace (b <=? 223) with false by (symmetry; apply Z.leb_gt; lia).
  replace (224 <=? b) with true by (symmetry; apply Z.leb_le; lia).
  replace (b <=? 239) with true by (symmetry; apply Z.leb_le; lia).
  rewrite !andb_false_r, land_15. reflexivity.
Qed.

Lemma start_4 (b : Z) :
  240 <= b <= 244 ->
  start b = (mkDecoder (b mod 8) 0 3 (if b =? 240 then 144 else 128)
               (if b =? 244 then 143 else 191), []).
Proof.
  intros H. unfold start, between.
  replace (b <=? 127) with false by (symmetry; apply Z.leb_gt; lia).
  replace (b <=? 223) with false by (symmetry; apply Z.leb_gt; lia).
  replace (b <=? 239) with false by (symmetry; apply Z.leb_gt; lia).
  replace (240 <=? b) with true by (symmetry; apply Z.leb_le; lia).
  replace (b <=? 244) with true by (symmetry; apply Z.leb_le; lia).
  rewrite !andb_false_r, land_7. reflexivity.
Qed.

Lemma run_start (b : Z) (bytes : list Z) :
  run initial (b :: bytes) = snd (start b) ++ run (fst (start b)) bytes.
Proof.
  cbn [run]. change (handler initial b) with (start b).
  destruct (start b). reflexivity.
Qed.

Lemma run_step (st : decoder) (b : Z) (bytes : list Z) :
  run st (b :: bytes) = snd (handler st b) ++ run (fst (handler st b)) bytes.
Proof. cbn [run]. destruct (handler st b). reflexivity. Qed.

Lemma run_encode_1 (cp : Z) (rest : list Z) :
  0 <= cp <= 127 ->
  run initial (encodeCodePoint cp ++ rest) = cp :: run initial rest.
Proof.
  intros H. rewrite encode_1 by lia. cbn [app].
  rewrite run_start, start_1 by lia. reflexivity.
Qed.

Lemma run_encode_2 (cp : Z) (rest : list Z) :
  128 <= cp <= 2047 ->
  run initial (encodeCodePoint cp ++ rest) = cp :: run initial rest.
Proof.
  intros H. rewrite encode_2 by lia. cbn [app].
  rewrite run_start, start_2 by arith. cbn [fst snd app].
  rewrite run_step, handler_continue by arith.
  change (0 + 1 =? 1) with true. cbn [fst snd app]. f_equal. arith.
Qed.

Lemma run_encode_3 (cp : Z) (rest : list Z) :
  2048 <= cp <= 65535 -> ~ (55296 <= cp <= 57343) ->
  run initial (encodeCodePoint cp ++ rest) = cp :: run initial rest.
Proof.
  intros H Hs. rewrite encode_3 by lia. cbn [app].
  rewrite run_start, start_3 by arith. cbn [fst snd app].
  rewrite run_step, handler_continue; try arith.
  - change (0 + 1 =? 2) with false. cbn [fst snd app].
    rewrite run_step, handler_continue by arith.
    change (0 + 1 + 1 =? 2) with true. cbn [fst snd app]. f_equal. arith.
  - destruct (Z.eqb_spec (cp / 4096 + 224) 224);
      destruct (Z.eqb_spec (cp / 4096 + 224) 237); arith.
Qed.

Lemma run_encode_4 (cp : Z) (rest : list Z) :
  65536 <= cp < 1114112 ->
  run initial (encodeCodePoint cp ++ rest) = cp :: run initial rest.
Proof.
  intros H. rewrite encode_4 by lia. cbn [app].
  rewrite run_start, start_4 by arith. cbn [fst snd app].
  rewrite run_step, handler_continue; try arith.
  - change (0 + 1 =? 3) with false. cbn [fst snd app].
    rewrite run_step, handler_continue by arith.
    change (0 + 1 + 1 =? 3) with false. cbn [fst snd app].
    rewrite run_step, handler_continue by arith.
    change (0 + 1 + 1 + 1 =? 3) with true. cbn [fst snd app].
    f_equal. arith.
  - destruct (Z.eqb_spec (cp / 262144 + 240) 240);
      destruct (Z.eqb_spec (cp / 262144 + 240) 244); arith.
Qed.

Lemma run_encodeCodePoint (cp : Z) (rest : list Z) :
  scalar cp ->
  run initial (encodeCodePoint cp ++ rest) = cp :: run initial rest.
Proof.
  intros [Hr Hs].
  destruct (Z.le_gt_cases cp 127);
    [apply run_encode_1; lia |].
  destruct (Z.le_gt_cases cp 2047);
    [apply run_encode_2; lia |].
  destruct (Z.le_gt_cases cp 65535);
    [apply run_encode_3; lia | apply run_encode_4; lia].
Qed.

Lemma scalar_unit (c : Z) :
  code_unit c -> is_high c = false -> is_low c = false -> scalar c.
Proof.
  unfold code_unit, is_high, is_low, scalar. intros Hc Hh Hl.
  apply andb_false_iff in Hh, Hl. rewrite !Z.leb_gt in Hh, Hl. lia.
Qed.

Lemma pairValue_range (c d : Z) :
  is_high c = true -> is_low d = true ->
  65536 <= pairValue c d < 1114112 /\
  pairValue c d = 65536 + (c - 55296) * 1024 + (d - 56320).
Proof.
  unfold is_high, is_low, pairValue. intros Hc Hd.
  apply andb_true_iff in Hc, Hd. rewrite !Z.leb_le in Hc, Hd.
  bits_to_arith. lia.
Qed.

Lemma codeUnits_pair (c d : Z) :
  is_high c = true -> is_low d = true ->
  codeUnits (pairValue c d) = [c; d].
Proof.
  intros Hc Hd. destruct (pairValue_range c d Hc Hd) as [Hr Hv].
  unfold is_high, is_low in Hc, Hd.
  apply andb_true_iff in Hc, Hd. rewrite !Z.leb_le in Hc, Hd.
  unfold codeUnits. decide_cmp. rewrite land_1023, Hv. bits_to_arith.
  f_equal; [arith | f_equal; arith].
Qed.

Lemma scalarValues_unit (c : Z) (s : jsstring) :
  is_high c = false -> is_low c = false ->
  scalarValues (c :: s) = c :: scalarValues s.
Proof. intros Hh Hl. cbn [scalarValues]. rewrite Hh, Hl. reflexivity. Qed.

Lemma scalarValues_pair (c d : Z) (s : jsstring) :
  is_high c = true -> is_low d = true ->
  scalarValues (c :: d :: s) = pairValue c d :: scalarValues s.
Proof. intros Hh Hl. cbn [scalarValues]. rewrite Hh, Hl. reflexivity. Qed.

Lemma run_encode (s : jsstring) :
  paired s -> flat_map codeUnits (run initial (encode s)) = s.
Proof.
  unfold encode.
  induction 1 as [| c s Hc Hh Hl Hp IH | c d s Hh Hl Hp IH].
  - reflexivity.
  - rewrite scalarValues_unit by assumption. cbn [flat_map].
    rewrite run_encodeCodePoint by (apply scalar_unit; assumption).
    cbn [flat_map]. rewrite IH. unfold codeUnits, code_unit in *.
    decide_cmp. reflexivity.
  - rewrite scalarValues_pair by assumption. cbn [flat_map].
    destruct (pairValue_range c d Hh Hl) as [Hr _].
    rewrite run_encodeCodePoint by (unfold scalar; lia).
    cbn [flat_map]. rewrite IH, codeUnits_pair by assumption. reflexivity.
Qed.

Lemma stripBOM_encode (s : jsstring) :
  paired s -> hd 0 s <> 65279 ->
  stripBOM (run initial (encode s)) = run initial (encode s).
Proof.
  unfold encode. intros Hp Hhd.
  destruct Hp as [| c s Hc Hh Hl Hp | c d s Hh Hl Hp].
  - reflexivity.
  - rewrite scalarValues_unit by assumption. cbn [flat_map].
    rewrite run_encodeCodePoint by (apply scalar_unit; assumption).
    cbn [stripBOM hd] in *. apply Z.eqb_neq in Hhd. rewrite Hhd.
    reflexivity.
  - rewrite scalarValues_pair by assumption. cbn [flat_map].
    destruct (pairValue_range c d Hh Hl) as [Hr _].
    rewrite run_encodeCodePoint by (unfold scalar; lia).
    cbn [stripBOM]. decide_cmp. reflexivity.
Qed.

(** [TextDecoder] inverts [TextEncoder] on strings without lone
    surrogates that do not begin with a byte order mark. *)
Theorem decode_encode (s : jsstring) :
  paired s -> hd 0 s <> 65279 -> decode (encode s) = s.
Proof.
  intros Hp Hhd. unfold decode.
  rewrite stripBOM_encode by assumption. apply run_encode. exact Hp.
Qed.

Lemma encodeCodePoint_bytes (cp : Z) :
  0 <= cp < 1114112 -> Forall Base64.byte (encodeCodePoint cp).
Proof.
  intros Hr. unfold Base64.byte.
  destruct (Z.le_gt_cases cp 127);
    [rewrite encode_1 by lia; repeat constructor; lia |].
  destruct (Z.le_gt_cases cp 2047);
    [rewrite encode_2 by lia; repeat constructor; arith |].
  destruct (Z.le_gt_cases cp 65535);
    [rewrite encode_3 by lia | rewrite encode_4 by lia];
    repeat constructor; arith.
Qed.

Lemma encode_bytes (s : jsstring) :
  paired s -> Forall Base64.byte (encode s).
Proof.
  unfold encode.
  induction 1 as [| c s Hc Hh Hl Hp IH | c d s Hh Hl Hp IH].
  - constructor.
  - rewrite scalarValues_unit by assumption. cbn [flat_map].
    apply Forall_app. split; [| exact IH].
    apply encodeCodePoint_bytes. unfold code_unit in Hc. lia.
  - rewrite scalarValues_pair by assumption. cbn [flat_map].
    apply Forall_app. split; [| exact IH].
    apply encodeCodePoint_bytes.
    destruct (pairValue_range c d Hh Hl) as [Hr _]. lia.
Qed.

Lemma paired_app (s t : jsstring) :
  paired s -> paired t -> paired (s ++ t).
Proof.
  induction 1; intros Ht; cbn [app];
    [assumption | apply paired_unit | apply paired_pair]; auto.
Qed.

End TextFacts.

(** ** JSON: parsing inverts serialisation *)

Module JSONFacts.
Import JSON.

(** *** Strings *)

Lemma hexValue_hexDigit (d : Z) :
  0 <= d < 16 -> hexValue (hexDigit d) = Some d.
Proof.
  intros Hd.
  assert (Hcases : d = 0 \/ d = 1 \/ d = 2 \/ d = 3 \/ d = 4 \/ d = 5 \/
                   d = 6 \/ d = 7 \/ d = 8 \/ d = 9 \/ d = 10 \/ d = 11 \/
                   d = 12 \/ d = 13 \/ d = 14 \/ d = 15) by lia.
  repeat (destruct Hcases as [-> | Hcases]; [reflexivity |]).
  subst d. reflexivity.
Qed.

Lemma hex4_unicodeEscape (c : Z) (rest : jsstring) :
  code_unit c ->
  exists h1 h2 h3 h4,
    unicodeEscape c = [92; 117; h1; h2; h3; h4] /\
    hex4 h1 h2 h3 h4 = Some c.
Proof.
  unfold code_unit. intros Hc. unfold unicodeEscape.
  do 4 eexists. split; [reflexivity |].
  unfold hex4. rewrite !TextFacts.land_15. bits_to_arith.
  change (2 ^ 12) with 4096.
  rewrite !hexValue_hexDigit by arith. f_equal. arith.
Qed.

Lemma parse_unicodeEscape (c : Z) (t : jsstring) :
  code_unit c ->
  parseStringBody (unicodeEscape c ++ t) = consTo c (parseStringBody t).
Proof.
  intros Hc. destruct (hex4_unicodeEscape c t Hc)
    as (h1 & h2 & h3 & h4 & -> & Hhex).
  cbn [app parseStringBody]. cbn [Z.eqb Pos.eqb]. rewrite Hhex.
  reflexivity.
Qed.

Lemma parse_plain (c : Z) (t : jsstring) :
  32 <= c -> c <> 34 -> c <> 92 ->
  parseStringBody (c :: t) = consTo c (parseStringBody t).
Proof.
  intros H32 H34 H92. cbn [parseStringBody].
  apply Z.eqb_neq in H34, H92. rewrite H34, H92.
  replace (c <? 32) with false by (symmetry; apply Z.ltb_ge; lia).
  reflexivity.
Qed.

Lemma parse_escapeUnit (c : Z) (t : jsstring) :
  code_unit c ->
  parseStringBody (escapeUnit c ++ t) = consTo c (parseStringBody t).
Proof.
  intros Hc. unfold escapeUnit.
  destruct (Z.eqb_spec c 8) as [-> | N8]; [reflexivity |].
  destruct (Z.eqb_spec c 9) as [-> | N9]; [reflexivity |].
  destruct (Z.eqb_spec c 10) as [-> | N10]; [reflexivity |].
  destruct (Z.eqb_spec c 12) as [-> | N12]; [reflexivity |].
  destruct (Z.eqb_spec c 13) as [-> | N13]; [reflexivity |].
  destruct (Z.eqb_spec c 34) as [-> | N34]; [reflexivity |].
  destruct (Z.eqb_spec c 92) as [-> | N92]; [reflexivity |].
  destruct (Z.ltb_spec c 32) as [Hlt | Hge].
  - apply parse_unicodeEscape. exact Hc.
  - apply parse_plain; assumption.
Qed.

Lemma surrogate_plain (c : Z) :
  Text.is_high c = true \/ Text.is_low c = true ->
  32 <= c /\ c <> 34 /\ c <> 92 /\ code_unit c.
Proof.
  unfold Text.is_high, Text.is_low, code_unit.
  intros [H | H]; apply andb_true_iff in H; rewrite !Z.leb_le in H; lia.
Qed.

Lemma parse_quoteBody_bounded (n : nat) : forall (s rest : jsstring),
  (List.length s <= n)%nat -> wf_string s ->
  parseStringBody (quoteBody s ++ 34 :: rest) = Some (s, rest).
Proof.
  induction n as [| n IH]; intros s rest Hlen Hwf.
  - destruct s; [reflexivity | simpl in Hlen; lia].
  - destruct s as [| c s]; [reflexivity |].
    inversion Hwf as [| ? ? Hc Hwf']; subst. simpl in Hlen.
    cbn [quoteBody].
    destruct (Text.is_high c) eqn:Hh.
    + destruct (surrogate_plain c (or_introl Hh)) as (P1 & P2 & P3 & _).
      destruct s as [| d s].
      * rewrite parse_unicodeEscape by assumption. reflexivity.
      * destruct (Text.is_low d) eqn:Hl.
        -- destruct (surrogate_plain d (or_intror Hl))
             as (Q1 & Q2 & Q3 & _).
           inversion Hwf' as [| ? ? Hd Hwf'']; subst. simpl in Hlen.
           cbn [app]. rewrite !parse_plain by assumption.
           rewrite IH by (assumption || lia). reflexivity.
        -- rewrite <- app_assoc, parse_unicodeEscape by assumption.
           rewrite IH by (assumption || lia). reflexivity.
    + destruct (Text.is_low c) eqn:Hl.
      * rewrite <- app_assoc, parse_unicodeEscape by assumption.
        rewrite IH by (assumption || lia). reflexivity.
      * rewrite <- app_assoc, parse_escapeUnit by assumption.
        rewrite IH by (assumption || lia). reflexivity.
Qed.

(** Reading a quoted string gives the string back. *)
Lemma parse_quoteBody (s rest : jsstring) :
  wf_string s ->
  parseStringBody (quoteBody s ++ 34 :: rest) = Some (s, rest).
Proof. apply (parse_quoteBody_bounded (List.length s)). lia. Qed.

(** *** Numbers *)

Lemma digitsAux_acc (fuel : nat) : forall n acc,
  digitsAux fuel n acc = digitsAux fuel n [] ++ acc.
Proof.
  induction fuel as [| fuel IH]; intros n acc; cbn [digitsAux].
  - reflexivity.
  - destruct (n <? 10); [reflexivity |].
    rewrite IH, (IH _ [_]), <- app_assoc. reflexivity.
Qed.

Lemma digitsAux_small (fuel : nat) (n : Z) :
  n < 10 -> digitsAux (S fuel) n [] = [48 + n mod 10].
Proof.
  intros H. cbn [digitsAux].
  replace (n <? 10) with true by (symmetry; apply Z.ltb_lt; lia).
  reflexivity.
Qed.

Lemma digitsAux_step (fuel : nat) (n : Z) :
  10 <= n ->
  digitsAux (S fuel) n [] = digitsAux fuel (n / 10) [] ++ [48 + n mod 10].
Proof.
  intros H. cbn [digitsAux].
  replace (n <? 10) with false by (symmetry; apply Z.ltb_ge; lia).
  apply digitsAux_acc.
Qed.

Lemma digitsValue_snoc (ds : jsstring) (d : Z) :
  digitsValue (ds ++ [d]) = digitsValue ds * 10 + (d - 48).
Proof. unfold digitsValue. rewrite fold_left_app. reflexivity. Qed.

Lemma pow2_S (fuel : nat) : 2 ^ Z.of_nat (S fuel) = 2 * 2 ^ Z.of_nat fuel.
Proof. rewrite Nat2Z.inj_succ, Z.pow_succ_r by lia. reflexivity. Qed.

Lemma digitsAux_value (fuel : nat) : forall n,
  0 <= n < 2 ^ Z.of_nat fuel -> digitsValue (digitsAux fuel n []) = n.
Proof.
  induction fuel as [| fuel IH]; intros n Hn.
  - change (2 ^ Z.of_nat 0) with 1 in Hn.
    assert (n = 0) by lia. subst. reflexivity.
  - rewrite pow2_S in Hn. destruct (Z.lt_ge_cases n 10) as [Hlt | Hge].
    + rewrite digitsAux_small by lia.
      unfold digitsValue. cbn [fold_left]. arith.
    + rewrite digitsAux_step, digitsValue_snoc, IH by arith. arith.
Qed.

Lemma digitsAux_isDigit (fuel : nat) : forall n,
  0 <= n -> Forall (fun c => isDigit c = true) (digitsAux fuel n []).
Proof.
  assert (Hd : forall n, 0 <= n -> isDigit (48 + n mod 10) = true).
  { intros n Hn. unfold isDigit. apply andb_true_iff.
    rewrite !Z.leb_le. arith. }
  induction fuel as [| fuel IH]; intros n Hn.
  - constructor.
  - destruct (Z.lt_ge_cases n 10) as [Hlt | Hge].
    + rewrite digitsAux_small by lia. repeat constructor. auto.
    + rewrite digitsAux_step by lia. apply Forall_app. split.
      * apply IH. arith.
      * repeat constructor. auto.
Qed.

Lemma digitsAux_head (fuel : nat) : forall n,
  0 < n < 2 ^ Z.of_nat fuel ->
  exists d t, digitsAux fuel n [] = d :: t /\ d <> 48.
Proof.
  induction fuel as [| fuel IH]; intros n Hn.
  - change (2 ^ Z.of_nat 0) with 1 in Hn. lia.
  - rewrite pow2_S in Hn. destruct (Z.lt_ge_cases n 10) as [Hlt | Hge].
    + rewrite digitsAux_small by lia. do 2 eexists.
      split; [reflexivity | arith].
    + rewrite digitsAux_step by lia.
      destruct (IH (n / 10)) as (d & t & -> & Hd); [arith |].
      exists d, (t ++ [48 + n mod 10]). split; [reflexivity | exact Hd].
Qed.

Lemma fuel_enough (n : Z) :
  0 <= n -> n < 2 ^ Z.of_nat (S (Z.to_nat (Z.log2 n))).
Proof.
  intros Hn. rewrite Nat2Z.inj_succ, Z2Nat.id by apply Z.log2_nonneg.
  destruct (Z.eq_dec n 0) as [-> | Hnz]; [reflexivity |].
  apply Z.log2_spec. lia.
Qed.

Lemma digits_value (n : Z) : 0 <= n -> digitsValue (digits n) = n.
Proof.
  intros Hn. apply digitsAux_value. split; [lia | apply fuel_enough; lia].
Qed.

Lemma digits_isDigit (n : Z) :
  0 <= n -> Forall (fun c => isDigit c = true) (digits n).
Proof. apply digitsAux_isDigit. Qed.

Lemma digits_head (n : Z) :
  0 < n -> exists d t, digits n = d :: t /\ d <> 48.
Proof.
  intros Hn. apply digitsAux_head. split; [lia | apply fuel_enough; lia].
Qed.

Lemma digits_nonempty (n : Z) : 0 <= n -> digits n <> [].
Proof.
  intros Hn. unfold digits. cbn [digitsAux].
  destruct (n <? 10); [discriminate |].
  rewrite digitsAux_acc. intros H. apply app_eq_nil in H.
  destruct H; discriminate.
Qed.

Lemma spanDigits_app (ds rest : jsstring) :
  Forall (fun c => isDigit c = true) ds ->
  match rest with [] => True | c :: _ => isDigit c = false end ->
  spanDigits (ds ++ rest) = (ds, rest).
Proof.
  intros Hds Hrest. induction Hds as [| d ds Hd _ IH]; cbn [app].
  - destruct rest as [| c rest]; [reflexivity |].
    cbn [spanDigits]. rewrite Hrest. reflexivity.
  - cbn [spanDigits]. rewrite Hd, IH. reflexivity.
Qed.

Lemma digitsValue_zeros (ds : jsstring) (j : nat) :
  digitsValue (ds ++ repeat 48 j) = digitsValue ds * 10 ^ Z.of_nat j.
Proof.
  induction j as [| j IH].
  - cbn [repeat]. rewrite app_nil_r. change (10 ^ Z.of_nat 0) with 1. lia.
  - replace (repeat 48 (S j)) with (repeat 48 j ++ [48])
      by (symmetry; apply (repeat_cons j 48)).
    rewrite app_assoc, digitsValue_snoc, IH, Nat2Z.inj_succ,
      Z.pow_succ_r by lia. lia.
Qed.

(** The digits are the stripped digits followed by the stripped zeros. *)
Lemma stripZeros_zeros (ds : jsstring) :
  exists j, ds = stripZeros ds ++ repeat 48 j /\
            List.length ds = (List.length (stripZeros ds) + j)%nat.
Proof.
  induction ds as [| d ds [j [IH Hlen]]].
  - exists 0%nat. split; reflexivity.
  - cbn [stripZeros]. destruct (stripZeros ds) as [| t ts] eqn:Hstrip.
    + destruct (Z.eqb_spec d 48) as [-> | Hd].
      * exists (S j). cbn [app repeat List.length] in *.
        rewrite Hlen. split; [f_equal; exact IH | reflexivity].
      * exists j. cbn [app List.length] in *.
        rewrite Hlen. split; [f_equal; exact IH | reflexivity].
    + exists j. cbn [app List.length] in *. rewrite Hlen.
      split; [f_equal; exact IH | reflexivity].
Qed.

Lemma stripZeros_head (d : Z) (t : jsstring) :
  d <> 48 -> exists t', stripZeros (d :: t) = d :: t'.
Proof.
  intros Hd. cbn [stripZeros]. apply Z.eqb_neq in Hd.
  destruct (stripZeros t); rewrite ?Hd; eauto.
Qed.

Lemma stripZeros_isDigit (ds : jsstring) :
  Forall (fun c => isDigit c = true) ds ->
  Forall (fun c => isDigit c = true) (stripZeros ds).
Proof.
  intros H. destruct (stripZeros_zeros ds) as [j [Heq _]].
  rewrite Heq in H. apply Forall_app in H. tauto.
Qed.

Lemma delimited_head (rest : jsstring) :
  delimited rest = true ->
  match rest with [] => True | c :: _ => isDigit c = false end.
Proof.
  destruct rest as [| c rest]; [trivial |]. cbn [delimited].
  intros H. apply negb_true_iff in H.
  apply orb_false_iff in H. destruct H as [H _].
  apply orb_false_iff in H. destruct H as [H _].
  apply orb_false_iff in H. tauto.
Qed.

Lemma parseFraction_delimited (rest : jsstring) :
  delimited rest = true -> parseFraction rest = Some ([], rest).
Proof.
  destruct rest as [| c rest]; [reflexivity |]. cbn [delimited].
  intros H. apply negb_true_iff in H.
  apply orb_false_iff in H. destruct H as [H _].
  apply orb_false_iff in H. destruct H as [H _].
  apply orb_false_iff in H. destruct H as [_ H].
  cbn [parseFraction]. rewrite H. reflexivity.
Qed.

Lemma parseExponent_delimited (rest : jsstring) :
  delimited rest = true -> parseExponent rest = Some (0, rest).
Proof.
  destruct rest as [| c rest]; [reflexivity |]. cbn [delimited].
  intros H. apply negb_true_iff in H.
  apply orb_false_iff in H. destruct H as [H H69].
  apply orb_false_iff in H. destruct H as [_ H101].
  cbn [parseExponent]. rewrite H101, H69. reflexivity.
Qed.

Lemma normalize_nonneg (fuel : nat) (m e : Z) :
  0 <= e -> normalize fuel m e = JNumber (m * 10 ^ e).
Proof.
  intros He. destruct fuel; cbn [normalize];
    replace (0 <=? e) with true by (symmetry; apply Z.leb_le; lia);
    reflexivity.
Qed.

Lemma mkNumber_integer (negative : bool) (m e : Z) :
  0 <= e ->
  mkNumber negative m e =
  JNumber ((if negative then - m else m) * 10 ^ e).
Proof.
  intros He. unfold mkNumber. destruct (Z.eqb_spec m 0) as [-> | Hm].
  - destruct negative; reflexivity.
  - apply normalize_nonneg. exact He.
Qed.

Lemma parseExponent_plus (e : Z) (rest : jsstring) :
  0 <= e -> delimited rest = true ->
  parseExponent (101 :: 43 :: digits e ++ rest) = Some (e, rest).
Proof.
  intros He Hrest. cbn [parseExponent]. cbn [Z.eqb Pos.eqb orb].
  rewrite spanDigits_app
    by (apply digits_isDigit || apply delimited_head; assumption).
  pose proof (digits_nonempty e He) as Hne.
  pose proof (digits_value e He) as Hv.
  destruct (digits e); [congruence |]. rewrite Hv. reflexivity.
Qed.

(** The text of a positive integer reads back as that integer. *)
Lemma parseUnsigned_format (negative : bool) (m : Z) (rest : jsstring) :
  0 < m -> delimited rest = true ->
  let ds := digits m in
  parseUnsigned negative
    (formatNumber (match stripZeros ds with [] => [48] | t => t end)
                  (Z.of_nat (List.length ds)) ++ rest)
  = Some (JNumber (if negative then - m else m), rest).
Proof.
  intros Hm Hrest ds.
  destruct (digits_head m Hm) as (d & t & Hds & Hd).
  pose proof (digits_isDigit m ltac:(lia)) as Hdig.
  pose proof (digits_value m ltac:(lia)) as Hval.
  fold ds in Hds, Hdig, Hval.
  destruct (stripZeros_zeros ds) as [j [Hsplit Hlen]].
  pose proof (stripZeros_isDigit ds Hdig) as Hsdig.
  rewrite Hds in Hsplit, Hlen, Hsdig.
  destruct (stripZeros_head d t Hd) as [t' Hstrip].
  rewrite Hstrip in Hsplit, Hlen, Hsdig. rewrite Hds, Hstrip.
  assert (Hd9 : isDigit d = true) by (inversion Hsdig; assumption).
  assert (Hd48 : (d =? 48) = false) by (apply Z.eqb_neq; exact Hd).
  unfold formatNumber.
  replace (Z.of_nat (List.length (d :: t'))
           <=? Z.of_nat (List.length (d :: t))) with true
    by (symmetry; apply Z.leb_le; lia).
  cbn [andb].
  destruct (Z.leb_spec (Z.of_nat (List.length (d :: t))) 21) as [Hk | Hk].
  - (* plain digits *)
    replace (Z.to_nat (Z.of_nat (List.length (d :: t))
                       - Z.of_nat (List.length (d :: t'))))
      with j by lia.
    rewrite <- Hsplit, <- Hds. unfold parseUnsigned.
    rewrite Hds at 1. cbn [app]. rewrite Hd48, Hd9.
    rewrite spanDigits_app by (assumption || apply delimited_head;
                               assumption).
    rewrite parseFraction_delimited, parseExponent_delimited
      by assumption.
    rewrite app_nil_r, Hval. cbn [List.length Z.of_nat].
    rewrite mkNumber_integer by lia.
    change (10 ^ (0 - 0)) with 1. rewrite Z.mul_1_r. reflexivity.
  - (* exponent notation *)
    replace (0 <? Z.of_nat (List.length (d :: t))) with true
      by (symmetry; apply Z.ltb_lt; lia).
    replace (Z.of_nat (List.length (d :: t)) <=? 0) with false
      by (symmetry; apply Z.leb_gt; lia).
    rewrite !andb_false_r. cbv iota.
    set (e := Z.of_nat (List.length (d :: t)) - 1).
    replace (e <? 0) with false
      by (symmetry; apply Z.ltb_ge; unfold e; lia).
    rewrite Z.abs_eq by (unfold e; lia).
    assert (Hm' : digitsValue (d :: t') * 10 ^ Z.of_nat j = m).
    { rewrite <- digitsValue_zeros, <- Hsplit, <- Hds. exact Hval. }
    assert (He : e - Z.of_nat (List.length t') = Z.of_nat j)
      by (unfold e; cbn [List.length] in *; lia).
    destruct t' as [| d' t'].
    + cbn [app]. unfold parseUnsigned. rewrite Hd48, Hd9.
      cbn [spanDigits]. rewrite Hd9. cbn [isDigit Z.leb Z.compare andb
        Pos.compare Pos.compare_cont spanDigits].
      cbn [parseFraction Z.eqb Pos.eqb].
      rewrite parseExponent_plus by (assumption || unfold e; lia).
      cbn [app List.length Z.of_nat] in *. rewrite Z.sub_0_r in *.
      rewrite He, mkNumber_integer by lia.
      rewrite <- Hm'.
      destruct negative; [rewrite Z.mul_opp_l |]; reflexivity.
    + apply Forall_inv_tail in Hsdig.
      replace ((d :: 46 :: (d' :: t') ++ 101 :: 43 :: digits e) ++ rest)
        with (d :: 46 :: (d' :: t') ++ 101 :: 43 :: digits e ++ rest)
        by (cbn [app]; rewrite <- app_assoc; reflexivity).
      unfold parseUnsigned. rewrite Hd48, Hd9.
      change (spanDigits (d :: 46 :: ?x)) with (spanDigits ([d] ++ 46 :: x)).
      rewrite spanDigits_app by (repeat constructor; assumption).
      unfold parseFraction. cbn [Z.eqb Pos.eqb].
      rewrite spanDigits_app by (assumption || reflexivity).
      rewrite parseExponent_plus by (assumption || unfold e; lia).
      rewrite He, mkNumber_integer by lia.
      cbn [app]. rewrite <- Hm'.
      destruct negative; [rewrite Z.mul_opp_l |]; reflexivity.
Qed.

Lemma parse_numberToString (n : Z) (rest : jsstring) :
  delimited rest = true ->
  parseNumber (numberToString n ++ rest) = Some (JNumber n, rest).
Proof.
  intros Hrest. unfold numberToString.
  destruct (Z.eqb_spec n 0) as [-> | Hn].
  - cbn [app parseNumber Z.eqb Pos.eqb]. unfold parseUnsigned.
    cbn [Z.eqb Pos.eqb].
    rewrite parseFraction_delimited, parseExponent_delimited
      by assumption.
    reflexivity.
  - destruct (Z.ltb_spec n 0) as [Hneg | Hpos].
    + cbn [app parseNumber Z.eqb Pos.eqb].
      rewrite (parseUnsigned_format true (Z.abs n)) by (assumption || lia).
      rewrite Z.abs_neq by lia. rewrite Z.opp_involutive. reflexivity.
    + pose proof (parseUnsigned_format false (Z.abs n) rest
                    ltac:(lia) Hrest) as Hfmt.
      cbn zeta in Hfmt. rewrite Z.abs_eq in * by lia.
      remember (formatNumber _ _ ++ rest) as s eqn:Es. clear Es.
      destruct s as [| c s]; [discriminate Hfmt |].
      cbn [parseNumber].
      destruct (Z.eqb_spec c 45) as [-> | _];
        [discriminate Hfmt | exact Hfmt].
Qed.

(** *** Values *)

Lemma parseNumber_head (s : jsstring) (r : value * jsstring) :
  parseNumber s = Some r ->
  exists c s', s = c :: s' /\ (c = 45 \/ isDigit c = true).
Proof.
  destruct s as [| c s]; [discriminate |]. intros H.
  exists c, s. split; [reflexivity |].
  cbn [parseNumber] in H.
  destruct (Z.eqb_spec c 45) as [-> | _]; [left; reflexivity |].
  right. unfold parseUnsigned in H.
  destruct (Z.eqb_spec c 48) as [-> | _]; [reflexivity |].
  destruct (isDigit c); [reflexivity | discriminate].
Qed.

Lemma parseValue_number_head (fuel : nat) (c : Z) (s : jsstring) :
  c = 45 \/ isDigit c = true ->
  parseValue (S fuel) (c :: s) = parseNumber (c :: s).
Proof.
  intros [-> | Hd]; [reflexivity |].
  unfold isDigit in Hd. apply andb_true_iff in Hd.
  rewrite !Z.leb_le in Hd.
  cbn [parseValue skipWs]. unfold isWs.
  replace (c =? 32) with false by (symmetry; apply Z.eqb_neq; lia).
  replace (c =? 9) with false by (symmetry; apply Z.eqb_neq; lia).
  replace (c =? 10) with false by (symmetry; apply Z.eqb_neq; lia).
  replace (c =? 13) with false by (symmetry; apply Z.eqb_neq; lia).
  cbn [orb].
  replace (c =? 123) with false by (symmetry; apply Z.eqb_neq; lia).
  replace (c =? 91) with false by (symmetry; apply Z.eqb_neq; lia).
  replace (c =? 34) with false by (symmetry; apply Z.eqb_neq; lia).
  replace (c =? 116) with false by (symmetry; apply Z.eqb_neq; lia).
  replace (c =? 102) with false by (symmetry; apply Z.eqb_neq; lia).
  replace (c =? 110) with false by (symmetry; apply Z.eqb_neq; lia).
  reflexivity.
Qed.

Lemma parseValue_primitive (fuel : nat) (v : value) (rest : jsstring) :
  primitive v -> delimited rest = true ->
  parseValue (S fuel) (stringify v ++ rest) = Some (v, rest).
Proof.
  intros Hv Hrest. destruct v as [| [|] | n | | s | |];
    try contradiction; try reflexivity.
  - cbn [stringify].
    pose proof (parse_numberToString n rest Hrest) as Hp.
    destruct (parseNumber_head _ _ Hp) as (c & s' & Heq & Hc).
    rewrite Heq in *. rewrite parseValue_number_head by exact Hc.
    exact Hp.
  - cbn [stringify primitive] in *. unfold quote.
    cbn [app parseValue skipWs isWs Z.eqb Pos.eqb orb].
    rewrite <- app_assoc. cbn [app].
    rewrite parse_quoteBody by exact Hv. reflexivity.
Qed.

(** *** Objects *)

Lemma string_eqb_eq (s t : jsstring) : string_eqb s t = true <-> s = t.
Proof.
  unfold string_eqb. destruct (list_eq_dec Z.eq_dec s t); split;
    congruence.
Qed.

Lemma string_eqb_refl (s : jsstring) : string_eqb s s = true.
Proof. apply string_eqb_eq. reflexivity. Qed.

Lemma string_eqb_neq (s t : jsstring) : s <> t -> string_eqb s t = false.
Proof.
  intros H. destruct (string_eqb s t) eqn:E; [| reflexivity].
  apply string_eqb_eq in E. contradiction.
Qed.

Lemma setProperty_fresh (props : list (jsstring * value)) (k : jsstring)
  (v : value) :
  ~ In k (map fst props) -> setProperty props k v = props ++ [(k, v)].
Proof.
  induction props as [| [k' v'] props IH]; intros Hk; cbn [setProperty app].
  - reflexivity.
  - cbn [map fst In] in Hk.
    rewrite string_eqb_neq by tauto. rewrite IH by tauto. reflexivity.
Qed.

Lemma joinMembers_cons (f : value -> jsstring) (k : jsstring) (v : value)
  (p : jsstring * value) (ps : list (jsstring * value)) :
  joinMembers f ((k, v) :: p :: ps) =
  quote k ++ 58 :: f v ++ 44 :: joinMembers f (p :: ps).
Proof. reflexivity. Qed.

Lemma joinMembers_head (f : value -> jsstring) (p : jsstring * value)
  (ps : list (jsstring * value)) :
  exists t, joinMembers f (p :: ps) = 34 :: t.
Proof.
  destruct p as [k v]. destruct ps as [| p' ps]; cbn [joinMembers];
    unfold quote; cbn [app]; eauto.
Qed.

Lemma parseMembers_member (fuel : nat) (acc : list (jsstring * value))
  (k : jsstring) (v : value) (t : jsstring) :
  wf_string k -> primitive v -> delimited t = true ->
  ~ In k (map fst acc) ->
  parseMembers (S (S fuel)) acc (quote k ++ 58 :: stringify v ++ t) =
  match skipWs t with
  | [] => None
  | c3 :: s5 =>
      if c3 =? 44
      then parseMembers (S fuel) (acc ++ [(k, v)]) (skipWs s5)
      else if c3 =? 125 then Some (JObject (acc ++ [(k, v)]), s5)
      else None
  end.
Proof.
  intros Hk Hv Ht Hfresh. unfold quote.
  cbn [app parseMembers Z.eqb Pos.eqb]. rewrite <- app_assoc. cbn [app].
  rewrite parse_quoteBody by exact Hk.
  cbn [skipWs isWs Z.eqb Pos.eqb orb].
  rewrite parseValue_primitive by assumption.
  rewrite setProperty_fresh by exact Hfresh. reflexivity.
Qed.

Lemma parseMembers_joinMembers (props : list (jsstring * value)) :
  forall (acc : list (jsstring * value)) (fuel : nat) (rest : jsstring),
  props <> [] -> Forall plainMember props ->
  NoDup (map fst (acc ++ props)) ->
  (List.length props < fuel)%nat ->
  parseMembers fuel acc (joinMembers stringify props ++ 125 :: rest) =
  Some (JObject (acc ++ props), rest).
Proof.
  induction props as [| [k v] props IH]; intros acc fuel rest Hne Hall Hnd Hf.
  - contradiction.
  - inversion Hall as [| ? ? [Hk Hv] Hall']; subst. cbn [fst snd] in *.
    assert (Hfresh : ~ In k (map fst acc)).
    { rewrite map_app in Hnd. cbn [map fst] in Hnd.
      apply NoDup_remove_2 in Hnd. intros Hin. apply Hnd.
      apply in_or_app. left. exact Hin. }
    destruct fuel as [| [| fuel]]; cbn [List.length] in Hf; try lia.
    destruct props as [| p props].
    + cbn [joinMembers]. rewrite <- app_assoc. cbn [app].
      rewrite parseMembers_member by (assumption || reflexivity).
      reflexivity.
    + rewrite joinMembers_cons. rewrite <- app_assoc. cbn [app].
      rewrite <- !app_assoc. cbn [app].
      rewrite parseMembers_member by (assumption || reflexivity).
      destruct (joinMembers_head stringify p props) as [t Ht].
      cbn [skipWs isWs Z.eqb Pos.eqb orb]. rewrite Ht at 1.
      cbn [app skipWs isWs Z.eqb Pos.eqb orb].
      change (34 :: t ++ 125 :: rest) with ((34 :: t) ++ 125 :: rest).
      rewrite <- Ht.
      rewrite IH; try assumption.
      * rewrite <- app_assoc. reflexivity.
      * discriminate.
      * rewrite <- app_assoc. exact Hnd.
      * cbn [List.length] in *. lia.
Qed.

Lemma joinMembers_length (f : value -> jsstring)
  (props : list (jsstring * value)) :
  (List.length props <= List.length (joinMembers f props))%nat.
Proof.
  induction props as [| [k v] props IH]; [apply Nat.le_refl |].
  destruct props as [| p props].
  - cbn [joinMembers quote List.length app]. lia.
  - rewrite joinMembers_cons. unfold quote.
    cbn [app List.length]. rewrite !length_app. cbn [List.length] in *.
    rewrite length_app. cbn [List.length]. lia.
Qed.

(** [JSON.parse] gives back an object of primitive values with distinct
    keys from its [JSON.stringify] text. *)
Theorem parse_stringify_object (props : list (jsstring * value)) :
  Forall plainMember props -> NoDup (map fst props) ->
  parse (stringify (JObject props)) = Ok (JObject props).
Proof.
  intros Hall Hnd. unfold parse. cbn [stringify].
  destruct props as [| p props].
  - reflexivity.
  - pose proof (joinMembers_length stringify (p :: props)) as Hlen.
    destruct (joinMembers_head stringify p props) as [t Ht].
    cbn [List.length parseValue skipWs isWs Z.eqb Pos.eqb orb].
    rewrite Ht at 1.
    cbn [app skipWs isWs Z.eqb Pos.eqb orb].
    change (34 :: t ++ [125]) with ((34 :: t) ++ [125]). rewrite <- Ht.
    rewrite (parseMembers_joinMembers (p :: props) []);
      try assumption; try discriminate.
    + reflexivity.
    + rewrite length_app. cbn [List.length] in *. lia.
Qed.

(** *** The text is well-formed UTF-16 *)

Lemma ascii_paired (s : jsstring) : Forall ascii s -> Text.paired s.
Proof.
  induction 1 as [| c s Hc _ IH]; [constructor |].
  unfold ascii in Hc. apply Text.paired_unit; try assumption.
  - unfold code_unit. lia.
  - unfold Text.is_high. apply andb_false_iff. left. apply Z.leb_gt. lia.
  - unfold Text.is_low. apply andb_false_iff. left. apply Z.leb_gt. lia.
Qed.

Lemma hexDigit_ascii (d : Z) : 0 <= d < 16 -> ascii (hexDigit d).
Proof.
  intros Hd. unfold hexDigit, ascii. destruct (d <? 10); lia.
Qed.

Lemma unicodeEscape_ascii (c : Z) : Forall ascii (unicodeEscape c).
Proof.
  unfold unicodeEscape.
  repeat constructor; try (unfold ascii; lia);
    apply hexDigit_ascii; rewrite TextFacts.land_15;
    apply Z.mod_pos_bound; lia.
Qed.

Lemma escapeUnit_paired (c : Z) :
  code_unit c -> Text.is_high c = false -> Text.is_low c = false ->
  Text.paired (escapeUnit c).
Proof.
  intros Hc Hh Hl. unfold escapeUnit.
  repeat match goal with
  | |- context [if ?b then _ else _] =>
      destruct b;
      [first [ apply ascii_paired; repeat constructor; unfold ascii; lia
             | apply ascii_paired; apply unicodeEscape_ascii ] |]
  end.
  apply Text.paired_unit; try assumption. constructor.
Qed.

Lemma quoteBody_paired_bounded (n : nat) : forall s,
  (List.length s <= n)%nat -> wf_string s -> Text.paired (quoteBody s).
Proof.
  induction n as [| n IH]; intros s Hlen Hwf.
  - destruct s; [constructor | simpl in Hlen; lia].
  - destruct s as [| c s]; [constructor |].
    inversion Hwf as [| ? ? Hc Hwf']; subst. simpl in Hlen.
    cbn [quoteBody].
    destruct (Text.is_high c) eqn:Hh.
    + destruct s as [| d s].
      * apply ascii_paired, unicodeEscape_ascii.
      * destruct (Text.is_low d) eqn:Hl.
        -- inversion Hwf' as [| ? ? Hd Hwf'']; subst. simpl in Hlen.
           apply Text.paired_pair; try assumption. apply IH; [lia | assumption].
        -- apply TextFacts.paired_app.
           ++ apply ascii_paired, unicodeEscape_ascii.
           ++ apply IH; [lia | assumption].
    + destruct (Text.is_low c) eqn:Hl.
      * apply TextFacts.paired_app.
        -- apply ascii_paired, unicodeEscape_ascii.
        -- apply IH; [lia | assumption].
      * apply TextFacts.paired_app.
        -- apply escapeUnit_paired; assumption.
        -- apply IH; [lia | assumption].
Qed.

Lemma quote_paired (s : jsstring) : wf_string s -> Text.paired (quote s).
Proof.
  intros Hwf. unfold quote.
  apply (TextFacts.paired_app [34]).
  - apply ascii_paired. repeat constructor; unfold ascii; lia.
  - apply TextFacts.paired_app.
    + apply (quoteBody_paired_bounded (List.length s)); [lia | exact Hwf].
    + apply ascii_paired. repeat constructor; unfold ascii; lia.
Qed.

Lemma isDigit_ascii (ds : jsstring) :
  Forall (fun c => isDigit c = true) ds -> Forall ascii ds.
Proof.
  apply Forall_impl. intros c Hc. unfold isDigit in Hc.
  apply andb_true_iff in Hc. rewrite !Z.leb_le in Hc. unfold ascii. lia.
Qed.

Lemma repeat_ascii (j : nat) : Forall ascii (repeat 48 j).
Proof.
  induction j; cbn [repeat]; constructor; [unfold ascii; lia | assumption].
Qed.

Lemma firstn_ascii (j : nat) (ds : jsstring) :
  Forall ascii ds -> Forall ascii (firstn j ds).
Proof.
  intros H. rewrite <- (firstn_skipn j ds) in H.
  apply Forall_app in H. tauto.
Qed.

Lemma skipn_ascii (j : nat) (ds : jsstring) :
  Forall ascii ds -> Forall ascii (skipn j ds).
Proof.
  intros H. rewrite <- (firstn_skipn j ds) in H.
  apply Forall_app in H. tauto.
Qed.

Lemma formatNumber_ascii (ds : jsstring) (n : Z) :
  Forall ascii ds -> Forall ascii (formatNumber ds n).
Proof.
  intros Hds. unfold formatNumber.
  assert (Hexp : Forall ascii
            (101 :: (if n - 1 <? 0 then 45 else 43)
                 :: digits (Z.abs (n - 1)))).
  { constructor; [unfold ascii; lia |].
    constructor; [destruct (n - 1 <? 0); unfold ascii; lia |].
    apply isDigit_ascii, digits_isDigit. lia. }
  repeat match goal with
  | |- context [if ?b then _ else _] => destruct b
  end.
  - apply Forall_app. split; [assumption | apply repeat_ascii].
  - apply Forall_app. split; [apply firstn_ascii; assumption |].
    constructor; [unfold ascii; lia | apply skipn_ascii; assumption].
  - constructor; [unfold ascii; lia |].
    constructor; [unfold ascii; lia |].
    apply Forall_app. split; [apply repeat_ascii | assumption].
  - destruct ds as [| d [| d' ds]]; [exact Hexp | |].
    + constructor; [apply (Forall_inv Hds) | exact Hexp].
    + constructor; [apply (Forall_inv Hds) |].
      constructor; [unfold ascii; lia |].
      apply Forall_app. split; [apply (Forall_inv_tail Hds) | exact Hexp].
  - destruct ds as [| d [| d' ds]]; [exact Hexp | |].
    + constructor; [apply (Forall_inv Hds) | exact Hexp].
    + constructor; [apply (Forall_inv Hds) |].
      constructor; [unfold ascii; lia |].
      apply Forall_app. split; [apply (Forall_inv_tail Hds) | exact Hexp].
Qed.

Lemma numberToString_ascii (n : Z) : Forall ascii (numberToString n).
Proof.
  unfold numberToString.
  destruct (n =? 0); [repeat constructor; unfold ascii; lia |].
  assert (Hbody : Forall ascii
    (formatNumber
       (match stripZeros (digits (Z.abs n)) with [] => [48] | t => t end)
       (Z.of_nat (List.length (digits (Z.abs n)))))).
  { apply formatNumber_ascii.
    pose proof (stripZeros_isDigit _ (digits_isDigit (Z.abs n)
                  ltac:(lia))) as Hs.
    destruct (stripZeros (digits (Z.abs n)));
      [repeat constructor; unfold ascii; lia | apply isDigit_ascii, Hs]. }
  destruct (n <? 0); [constructor; [unfold ascii; lia |] |]; exact Hbody.
Qed.

Lemma stringify_primitive_paired (v : value) :
  primitive v -> Text.paired (stringify v).
Proof.
  destruct v as [| [|] | n | | s | |]; try contradiction; intros Hv;
    cbn [stringify].
  - apply ascii_paired. repeat constructor; unfold ascii; lia.
  - apply ascii_paired. repeat constructor; unfold ascii; lia.
  - apply ascii_paired. repeat constructor; unfold ascii; lia.
  - apply ascii_paired, numberToString_ascii.
  - apply quote_paired. exact Hv.
Qed.

Lemma joinMembers_paired (props : list (jsstring * value)) :
  Forall plainMember props -> Text.paired (joinMembers stringify props).
Proof.
  induction 1 as [| [k v] props [Hk Hv] Hall IH]; [constructor |].
  cbn [fst snd] in *.
  assert (Hone : Text.paired (quote k ++ 58 :: stringify v)).
  { apply TextFacts.paired_app; [apply quote_paired; exact Hk |].
    apply (TextFacts.paired_app [58]);
      [apply ascii_paired; repeat constructor; unfold ascii; lia |].
    apply stringify_primitive_paired. exact Hv. }
  destruct props as [| p props]; [exact Hone |].
  rewrite joinMembers_cons.
  replace (quote k ++ 58 :: stringify v ++ 44 :: joinMembers stringify (p :: props))
    with ((quote k ++ 58 :: stringify v) ++
          [44] ++ joinMembers stringify (p :: props))
    by (rewrite <- app_assoc; reflexivity).
  apply TextFacts.paired_app; [exact Hone |].
  apply TextFacts.paired_app; [| exact IH].
  apply ascii_paired. repeat constructor; unfold ascii; lia.
Qed.

Lemma stringify_object_paired (props : list (jsstring * value)) :
  Forall plainMember props -> Text.paired (stringify (JObject props)).
Proof.
  intros Hall. cbn [stringify].
  apply (TextFacts.paired_app [123]);
    [apply ascii_paired; repeat constructor; unfold ascii; lia |].
  apply TextFacts.paired_app; [apply joinMembers_paired; exact Hall |].
  apply ascii_paired. repeat constructor; unfold ascii; lia.
Qed.

End JSONFacts.

(** ** The track transcoder *)

Module TrackEncoderFacts.
Import TrackEncoder.

Lemma wf_lit (s : string) : wf_string (lit s).
Proof.
  unfold wf_string, lit. apply Forall_forall. intros c Hc.
  apply in_map_iff in Hc. destruct Hc as [a [<- _]].
  pose proof (N_ascii_bounded a). unfold code_unit. lia.
Qed.

Lemma optionalField_plain (flag : bool) (key : string)
  (field : option jsstring) :
  (forall x, field = Some x -> wf_string x) ->
  Forall JSON.plainMember (optionalField flag key field).
Proof.
  intros Hwf. unfold optionalField.
  destruct flag; [| constructor].
  destruct field as [x |]; [| constructor].
  destruct (falsy x); constructor; [| constructor].
  split; [apply wf_lit | apply Hwf; reflexivity].
Qed.

Lemma trackData_plain (this : t) (r : TrackInfo.t) :
  wf this -> TrackInfo.wf r -> Forall JSON.plainMember (trackData this r).
Proof.
  intros Hthis (Hid & Hau & Hti & Huri & Hsrc & Hart & Hisrc).
  assert (Hdef : wf_string (if falsy (TrackInfo.sourceName r)
                            then sourceName (opts this)
                            else TrackInfo.sourceName r))
    by (destruct (falsy (TrackInfo.sourceName r)); assumption).
  unfold trackData.
  apply Forall_app; split; [| apply Forall_app; split].
  - repeat (apply Forall_cons;
            [split; [apply wf_lit | cbn [snd JSON.primitive]; auto] |]).
    apply Forall_nil.
  - apply optionalField_plain. exact Hart.
  - apply optionalField_plain. exact Hisrc.
Qed.

Lemma distinct_NoDup (l : list jsstring) : distinct l = true -> NoDup l.
Proof.
  induction l as [| x l IH]; intros H; [constructor |].
  cbn [distinct] in H. apply andb_true_iff in H. destruct H as [Hx Hl].
  constructor; [| apply IH; exact Hl].
  intros Hin. apply negb_true_iff in Hx.
  assert (Hex : existsb (string_eqb x) l = true).
  { apply existsb_exists. exists x. split; [exact Hin |].
    apply JSONFacts.string_eqb_refl. }
  congruence.
Qed.

Lemma trackData_keys (this : t) (r : TrackInfo.t) :
  NoDup (map fst (trackData this r)).
Proof.
  unfold trackData, optionalField.
  destruct (includeArtwork (opts this)), (includeISRC (opts this)),
    (TrackInfo.artworkUrl r) as [a |], (TrackInfo.isrc r) as [c |];
    try destruct (falsy a); try destruct (falsy c);
    apply distinct_NoDup; reflexivity.
Qed.

Lemma stringify_head (props : list (jsstring * JSON.value)) :
  hd 0 (JSON.stringify (JSON.JObject props)) <> 65279.
Proof. cbn [JSON.stringify hd]. discriminate. Qed.

(** Decoding the token of an object of primitive values with distinct
    keys gives the object back. *)
Lemma decodeTrackData_encodeTrackData (props : list (jsstring * JSON.value)) :
  Forall JSON.plainMember props -> NoDup (map fst props) ->
  decodeTrackData (encodeTrackData (JSON.JObject props)) =
  Ok (JSON.JObject props).
Proof.
  intros Hplain Hkeys. unfold decodeTrackData, encodeTrackData.
  pose proof (JSONFacts.stringify_object_paired props Hplain) as Hpaired.
  rewrite Base64Facts.toByteArray_fromByteArray
    by (apply TextFacts.encode_bytes; exact Hpaired).
  cbn [bind].
  rewrite TextFacts.decode_encode
    by (exact Hpaired || apply stringify_head).
  apply JSONFacts.parse_stringify_object; assumption.
Qed.

Lemma get_optionalField (flag : bool) (key : string)
  (field : option jsstring) (rest : list (jsstring * JSON.value))
  (k : jsstring) :
  JSON.get (optionalField flag key field ++ rest) k =
  if string_eqb (lit key) k
  then match Spec.included flag field with
       | Some v => Some v
       | None => JSON.get rest k
       end
  else JSON.get rest k.
Proof.
  unfold optionalField, Spec.included.
  destruct flag; [| destruct (string_eqb (lit key) k); reflexivity].
  destruct field as [x |];
    [| destruct (string_eqb (lit key) k); reflexivity].
  destruct (falsy x); cbn [app JSON.get];
    destruct (string_eqb (lit key) k); reflexivity.
Qed.

(** The object literal holds exactly the projected fields. *)
Lemma get_trackData (this : t) (r : TrackInfo.t) (key : jsstring) :
  JSON.get (trackData this r) key = Spec.projected this r key.
Proof.
  unfold trackData, Spec.projected. cbn [app JSON.get].
  repeat match goal with
  | |- context [if string_eqb (lit ?k) key then _ else _] =>
      destruct (string_eqb (lit k) key) eqn:?; [reflexivity |]
  end.
  rewrite get_optionalField.
  rewrite <- (app_nil_r (optionalField _ "isrc" _)), get_optionalField.
  cbn [JSON.get].
  destruct (string_eqb (lit "artworkUrl") key) eqn:Eart.
  - apply JSONFacts.string_eqb_eq in Eart. subst key.
    change (string_eqb (lit "isrc") (lit "artworkUrl")) with false.
    cbv iota. destruct (Spec.included _ (TrackInfo.artworkUrl r));
      reflexivity.
  - destruct (string_eqb (lit "isrc") key); [| reflexivity].
    destruct (Spec.included _ (TrackInfo.isrc r)); reflexivity.
Qed.

Lemma fromByteArray_truthy (b : Z) (bytes : list Z) :
  falsy (Base64.fromByteArray (b :: bytes)) = false.
Proof.
  unfold Base64.fromByteArray.
  set (len := List.length (b :: bytes)).
  assert (Hmod : (len mod 3 < 3)%nat) by (apply Nat.mod_upper_bound; lia).
  pose proof (Nat.div_mod_eq len 3) as Hdm.
  assert (Hlen : (1 <= len)%nat) by (unfold len; cbn [List.length]; lia).
  destruct (Nat.eq_dec (len / 3) 0) as [Hq | Hq].
  - (* fewer than three bytes: the padded tail is not empty *)
    replace (len - len mod 3)%nat with 0%nat by lia.
    cbn [firstn skipn Base64.encodeChunk app].
    destruct bytes as [| b' [| b'' bytes]]; try reflexivity.
    unfold len in *. cbn [List.length] in *. lia.
  - (* at least one whole triplet *)
    assert (H3 : (3 <= len - len mod 3)%nat) by lia.
    destruct (len - len mod 3)%nat as [| [| [| m]]]; try lia.
    destruct bytes as [| b' [| b'' bytes]];
      try (unfold len in *; cbn [List.length] in *;
           rewrite ?Nat.div_small in Hq by lia; lia).
    reflexivity.
Qed.

Lemma encodeTrackData_truthy (props : list (jsstring * JSON.value)) :
  falsy (encodeTrackData (JSON.JObject props)) = false.
Proof.
  unfold encodeTrackData. cbn [JSON.stringify].
  unfold Text.encode. cbn [Text.scalarValues].
  change (Text.is_high 123) with false. change (Text.is_low 123) with false.
  cbv iota. cbn [flat_map]. change (Text.encodeCodePoint 123) with [123].
  cbn [app]. apply fromByteArray_truthy.
Qed.

Lemma encodeTrack_ok (this : t) (r : TrackInfo.t) :
  validate (opts this) = false \/ validateTrackInfo r = Ok tt ->
  encodeTrack this r =
  Ok (Track.mk (encodeTrackData (JSON.JObject (trackData this r))) r).
Proof.
  intros H. unfold encodeTrack.
  destruct H as [-> | H]; [reflexivity |].
  rewrite H. destruct (validate (opts this)); reflexivity.
Qed.

End TrackEncoderFacts.

(** ** The playlist encoder *)

Module PlaylistEncoderFacts.
Import PlaylistEncoder.

Lemma slice_from (A : Type) (xs : list A) (i j : Z) :
  0 <= i -> 0 <= j ->
  slice xs i (i + j) = firstn (Z.to_nat j) (skipn (Z.to_nat i) xs).
Proof.
  intros Hi Hj. unfold slice.
  replace (i <? 0) with false by (symmetry; apply Z.ltb_ge; lia).
  replace (i + j <? 0) with false by (symmetry; apply Z.ltb_ge; lia).
  destruct (Z.le_gt_cases i (Z.of_nat (List.length xs))) as [Hle | Hgt].
  - rewrite (Z.min_l i) by lia.
    destruct (Z.le_gt_cases (i + j) (Z.of_nat (List.length xs))).
    + rewrite Z.min_l by lia. f_equal. lia.
    + rewrite Z.min_r by lia.
      rewrite (firstn_all2 (n := Z.to_nat j));
        [| rewrite length_skipn; lia].
      apply firstn_all2. rewrite length_skipn. lia.
  - rewrite !Z.min_r by lia. rewrite Z.sub_diag. cbn [Z.to_nat firstn].
    rewrite (skipn_all2 (n := Z.to_nat i)) by lia.
    symmetry. apply firstn_nil.
Qed.

Lemma slice_prefix (A : Type) (xs : list A) (j : Z) :
  0 <= j -> slice xs 0 j = firstn (Z.to_nat j) xs.
Proof.
  intros Hj. rewrite <- (Z.add_0_l j) at 1.
  rewrite slice_from by lia. reflexivity.
Qed.

Lemma mapM_encodeIfNeeded (this : t) (tracks : list Track.t) :
  Forall (Spec.encodable this) tracks ->
  mapM (encodeIfNeeded this) tracks = Ok (map (Spec.encoded this) tracks).
Proof.
  induction 1 as [| track tracks Htrack _ IH]; [reflexivity |].
  cbn [mapM map]. rewrite IH.
  replace (encodeIfNeeded this track) with (Ok (Spec.encoded this track));
    [reflexivity |].
  unfold encodeIfNeeded, Spec.encoded.
  destruct (falsy (Track.track track)) eqn:Hfalsy; cbn [negb];
    [| reflexivity].
  symmetry. apply TrackEncoderFacts.encodeTrack_ok.
  destruct Htrack as [H | [H | H]]; [congruence | tauto | tauto].
Qed.

Lemma encoded_tokened (this : t) (tracks : list Track.t) :
  Spec.tokened tracks -> map (Spec.encoded this) tracks = tracks.
Proof.
  induction 1 as [| track tracks Htrack _ IH]; [reflexivity |].
  cbn [map]. rewrite IH. unfold Spec.encoded. rewrite Htrack. reflexivity.
Qed.

Lemma tokened_encodable (this : t) (tracks : list Track.t) :
  Spec.tokened tracks -> Forall (Spec.encodable this) tracks.
Proof. apply Forall_impl. intros track H. left. exact H. Qed.

(** What [encodePlaylist] returns and logs when validation lets the call
    through and the kept tracks can be encoded. *)
Lemma encodePlaylist_spec (this : t) (playlistInfo : PlaylistInfo.t)
  (tracks : list Track.t) (c : console) :
  let n := Z.of_nat (List.length tracks) in
  let limit := maxTracks (opts this) in
  let kept :=
    if limit >? 0 then firstn (Z.to_nat limit) tracks else tracks in
  (validate (opts this) = true ->
   falsy (PlaylistInfo.name playlistInfo) = false /\
   0 <= PlaylistInfo.selectedTrack playlistInfo /\ tracks <> []) ->
  Forall (Spec.encodable this) kept ->
  encodePlaylist this playlistInfo tracks c =
  (Ok (LavalinkPlaylist.mk
         (PlaylistInfo.mk
            (PlaylistInfo.name playlistInfo)
            (Z.min (PlaylistInfo.selectedTrack playlistInfo)
                   (Z.of_nat (List.length kept) - 1)))
         []
         (map (Spec.encoded this) kept)),
   c ++ (if validate (opts this) && (limit >? 0) && (n >? limit)
         then [warning n limit] else [])).
Proof.
  intros n limit kept Hvalid Henc.
  unfold encodePlaylist, bindIO.
  assert (Hlimited :
    (if maxTracks (opts this) >? 0
     then slice tracks 0 (maxTracks (opts this)) else tracks) = kept).
  { unfold kept, limit. destruct (Z.gtb_spec (maxTracks (opts this)) 0);
      [apply slice_prefix; lia | reflexivity]. }
  rewrite Hlimited. unfold lift at 2.
  rewrite mapM_encodeIfNeeded by exact Henc. unfold ret.
  rewrite length_map.
  destruct (validate (opts this)) eqn:Hval; cbn [andb].
  - destruct (Hvalid eq_refl) as (Hname & Hsel & Hne).
    unfold lift, validatePlaylistInfo. rewrite Hname.
    replace (PlaylistInfo.selectedTrack playlistInfo <? 0) with false
      by (symmetry; apply Z.ltb_ge; lia).
    unfold validateTracks. fold n. fold limit.
    replace (n =? 0) with false
      by (symmetry; apply Z.eqb_neq; unfold n;
          destruct tracks; [congruence | cbn [List.length]; lia]).
    destruct ((limit >? 0) && (n >? limit)); unfold ret, warn;
      rewrite ?app_nil_r; reflexivity.
  - rewrite app_nil_r. unfold ret. reflexivity.
Qed.

Lemma tokened_firstn (j : nat) (tracks : list Track.t) :
  Spec.tokened tracks -> Spec.tokened (firstn j tracks).
Proof.
  unfold Spec.tokened. intros H.
  rewrite <- (firstn_skipn j tracks) in H. apply Forall_app in H. tauto.
Qed.

Lemma tokened_skipn (j : nat) (tracks : list Track.t) :
  Spec.tokened tracks -> Spec.tokened (skipn j tracks).
Proof.
  unfold Spec.tokened. intros H.
  rewrite <- (firstn_skipn j tracks) in H. apply Forall_app in H. tauto.
Qed.

(** A playlist of tokened tracks within the cap is taken as it is. *)
Lemma encodePlaylist_tokened (this : t) (playlistInfo : PlaylistInfo.t)
  (tracks : list Track.t) (c : console) :
  Spec.tokened tracks ->
  (validate (opts this) = true ->
   falsy (PlaylistInfo.name playlistInfo) = false /\
   0 <= PlaylistInfo.selectedTrack playlistInfo /\ tracks <> []) ->
  maxTracks (opts this) <= 0 \/
  Z.of_nat (List.length tracks) <= maxTracks (opts this) ->
  encodePlaylist this playlistInfo tracks c =
  (Ok (LavalinkPlaylist.mk
         (PlaylistInfo.mk
            (PlaylistInfo.name playlistInfo)
            (Z.min (PlaylistInfo.selectedTrack playlistInfo)
                   (Z.of_nat (List.length tracks) - 1)))
         []
         tracks),
   c).
Proof.
  intros Htok Hvalid Hcap.
  assert (Hkept :
    (if maxTracks (opts this) >? 0
     then firstn (Z.to_nat (maxTracks (opts this))) tracks
     else tracks) = tracks).
  { destruct (Z.gtb_spec (maxTracks (opts this)) 0); [| reflexivity].
    apply firstn_all2. lia. }
  pose proof (encodePlaylist_spec this playlistInfo tracks c) as Hspec.
  cbn zeta in Hspec. rewrite Hkept in Hspec.
  rewrite Hspec; [| exact Hvalid | apply tokened_encodable; exact Htok].
  rewrite encoded_tokened by exact Htok.
  rewrite <- andb_assoc.
  replace ((maxTracks (opts this) >? 0)
           && (Z.of_nat (List.length tracks) >? maxTracks (opts this)))
    with false.
  - rewrite andb_false_r, app_nil_r. reflexivity.
  - symmetry. apply andb_false_iff.
    destruct Hcap; [left | right]; rewrite Z.gtb_ltb; apply Z.ltb_ge; lia.
Qed.

Lemma falsy_app (s t : jsstring) : falsy t = false -> falsy (s ++ t) = false.
Proof. destruct s, t; try discriminate; reflexivity. Qed.

Lemma chunkName_truthy (name : jsstring) (i chunkSize : Z) :
  falsy (chunkName name i chunkSize) = false.
Proof. unfold chunkName. apply falsy_app. reflexivity. Qed.

Section Split.
Variable this : t.
Variable p : LavalinkPlaylist.t.
Variable chunkSize : Z.

Let tracks := LavalinkPlaylist.tracks p.
Let size := Z.to_nat chunkSize.

Hypothesis chunkSize_pos : 1 <= chunkSize.
Hypothesis tokens : Spec.tokened tracks.
Hypothesis selected :
  validate (opts this) = true ->
  0 <= PlaylistInfo.selectedTrack (LavalinkPlaylist.info p).
Hypothesis cap :
  maxTracks (opts this) <= 0 \/
  Z.min chunkSize (Z.of_nat (List.length tracks))
  <= maxTracks (opts this).

(** One pass of the loop at index [k * chunkSize]. *)
Lemma splitLoop_pass (k : nat) (c : console) :
  (k * size < List.length tracks)%nat ->
  encodePlaylist this
    (PlaylistInfo.mk
       (chunkName (PlaylistInfo.name (LavalinkPlaylist.info p))
                  (Z.of_nat (k * size)) chunkSize)
       (if Z.of_nat (k * size) =? 0
        then PlaylistInfo.selectedTrack (LavalinkPlaylist.info p)
        else 0))
    (slice tracks (Z.of_nat (k * size))
           (Z.of_nat (k * size) + chunkSize)) c =
  (Ok (Spec.part p chunkSize k), c) /\
  Spec.partTracks p chunkSize k <> [].
Proof.
  intros Hlt.
  rewrite slice_from, Nat2Z.id by lia.
  fold size. change (firstn size (skipn (k * size) tracks))
    with (Spec.partTracks p chunkSize k).
  assert (Hlen : List.length (Spec.partTracks p chunkSize k) =
                 Nat.min size (List.length tracks - k * size)).
  { unfold Spec.partTracks. fold size. fold tracks.
    rewrite length_firstn, length_skipn. reflexivity. }
  assert (Hne : Spec.partTracks p chunkSize k <> []).
  { intros Hnil. rewrite Hnil in Hlen. cbn [List.length] in Hlen.
    unfold size in *. lia. }
  split; [| exact Hne].
  rewrite encodePlaylist_tokened.
  - unfold Spec.part, Spec.partName, Spec.partSelected, chunkName.
    cbn [PlaylistInfo.name PlaylistInfo.selectedTrack].
    replace (Z.of_nat (k * size) / chunkSize + 1) with (Z.of_nat k + 1)
      by (unfold size; rewrite Nat2Z.inj_mul, Z2Nat.id by lia;
          rewrite Z.div_mul by lia; reflexivity).
    destruct k as [| k].
    + reflexivity.
    + replace (Z.of_nat (S k * size) =? 0) with false
        by (symmetry; apply Z.eqb_neq; unfold size; nia).
      rewrite Z.min_l by lia. reflexivity.
  - apply tokened_firstn, tokened_skipn. exact tokens.
  - intros Hval. cbn [PlaylistInfo.name PlaylistInfo.selectedTrack].
    split; [apply chunkName_truthy |]. split; [| exact Hne].
    destruct (Z.of_nat (k * size) =? 0); [auto | lia].
  - destruct cap as [Hcap | Hcap]; [left; exact Hcap | right].
    rewrite Hlen. unfold size in *. lia.
Qed.

Let splitsFrom := Spec.splitsFrom this p chunkSize.

Lemma splitLoop_done (fuel k : nat) (c : console) :
  (List.length tracks <= k * size)%nat -> splitsFrom fuel k c.
Proof.
  intros Hge. unfold splitsFrom, Spec.splitsFrom. cbn zeta.
  fold size. fold tracks. exists [].
  assert (Hsize : (1 <= size)%nat) by (unfold size; lia).
  assert (Hloop : splitLoop fuel this p chunkSize (Z.of_nat (k * size)) c
                  = Some (Ok [], c)).
  { destruct fuel; cbn [splitLoop]; fold tracks;
      replace (Z.of_nat (k * size) <? Z.of_nat (List.length tracks))
        with false by (symmetry; apply Z.ltb_ge; lia);
      reflexivity. }
  split; [exact Hloop |].
  split; [cbn [map List.concat]; symmetry; apply skipn_all2; lia |].
  split; [cbn [List.length]; lia |].
  split; [cbn [List.length]; lia |].
  cbn [List.length]. intros j Hj. lia.
Qed.

Lemma splitLoop_spec (fuel : nat) : forall (k : nat) (c : console),
  (List.length tracks - k * size <= fuel)%nat -> splitsFrom fuel k c.
Proof.
  assert (Hsize : (1 <= size)%nat) by (unfold size; lia).
  induction fuel as [| fuel IH]; intros k c Hfuel.
  - apply splitLoop_done. lia.
  - destruct (Nat.lt_ge_cases (k * size) (List.length tracks))
      as [Hlt | Hge]; [| apply splitLoop_done; exact Hge].
    destruct (splitLoop_pass k c Hlt) as [Hpass Hne].
    destruct (IH (S k) c) as (chunks & Hloop & Hcat & Hhi & Hlo & Hnth).
    { cbn [Nat.mul]. lia. }
    fold size in Hloop, Hcat, Hhi, Hlo. fold tracks in Hcat, Hhi, Hlo.
    unfold splitsFrom, Spec.splitsFrom. cbn zeta. fold size. fold tracks.
    exists (Spec.part p chunkSize k :: chunks).
    split.
    { cbn [splitLoop]. fold tracks.
      replace (Z.of_nat (k * size) <? Z.of_nat (List.length tracks))
        with true by (symmetry; apply Z.ltb_lt; lia).
      rewrite Hpass.
      replace (Z.of_nat (k * size) + chunkSize)
        with (Z.of_nat (S k * size))
        by (cbn [Nat.mul]; unfold size; lia).
      rewrite Hloop. reflexivity. }
    split.
    { cbn [map List.concat Spec.part LavalinkPlaylist.tracks].
      rewrite Hcat. unfold Spec.partTracks. fold size. fold tracks.
      replace (S k * size)%nat with (size + k * size)%nat
        by (cbn [Nat.mul]; lia).
      rewrite <- skipn_skipn. apply firstn_skipn. }
    assert (Hmul : List.length chunks = 0%nat \/
                   (size <= List.length chunks * size)%nat)
      by (destruct (List.length chunks); [left; reflexivity | right];
          cbn [Nat.mul]; lia).
    split; [cbn [List.length Nat.mul] in *;
            destruct Hmul as [E | Hmul]; [rewrite E in *|]; lia |].
    split; [cbn [List.length Nat.mul] in *; lia |].
    intros [| j] Hj.
    + rewrite Nat.add_0_r. reflexivity.
    + cbn [nth_error List.length] in *.
      rewrite Hnth by lia. do 2 f_equal. lia.
Qed.

End Split.

Lemma part_length (p : LavalinkPlaylist.t) (chunkSize : Z) (k : nat) :
  List.length (Spec.partTracks p chunkSize k) =
  Nat.min (Z.to_nat chunkSize)
          (List.length (LavalinkPlaylist.tracks p) - k * Z.to_nat chunkSize).
Proof.
  unfold Spec.partTracks. rewrite length_firstn, length_skipn. reflexivity.
Qed.

(** [splitPlaylist] returns the parts of the playlist, in order. *)
Lemma splitPlaylist_spec (this : t) (p : LavalinkPlaylist.t)
  (chunkSize : Z) (c : console) :
  1 <= chunkSize ->
  Spec.tokened (LavalinkPlaylist.tracks p) ->
  (validate (opts this) = true ->
   0 <= PlaylistInfo.selectedTrack (LavalinkPlaylist.info p)) ->
  maxTracks (opts this) <= 0 \/
  Z.min chunkSize (Z.of_nat (List.length (LavalinkPlaylist.tracks p)))
  <= maxTracks (opts this) ->
  exists chunks,
    splitPlaylist this p chunkSize c = Some (Ok chunks, c) /\
    List.concat (map LavalinkPlaylist.tracks chunks) =
    LavalinkPlaylist.tracks p /\
    (LavalinkPlaylist.tracks p <> [] -> chunks <> []) /\
    forall k, (k < List.length chunks)%nat ->
      nth_error chunks k = Some (Spec.part p chunkSize k) /\
      (1 <= List.length (Spec.partTracks p chunkSize k)
       <= Z.to_nat chunkSize)%nat /\
      ((S k < List.length chunks)%nat ->
       List.length (Spec.partTracks p chunkSize k) = Z.to_nat chunkSize).
Proof.
  intros Hsize Htok Hsel Hcap.
  destruct (splitLoop_spec this p chunkSize Hsize Htok Hsel Hcap
              (List.length (LavalinkPlaylist.tracks p)) 0 c)
    as (chunks & Hloop & Hcat & Hhi & Hlo & Hnth); [lia |].
  cbn [Nat.mul Z.of_nat] in *. rewrite Nat.sub_0_r in *.
  exists chunks. split; [exact Hloop |]. split; [exact Hcat |].
  split.
  { intros Hne Hnil. subst chunks. cbn [List.length Nat.mul] in Hlo.
    destruct (LavalinkPlaylist.tracks p); [congruence |].
    cbn [List.length] in Hlo. lia. }
  intros k Hk. split; [apply (Hnth k Hk) |].
  rewrite part_length.
  assert (Hmul : (S k * Z.to_nat chunkSize
                  <= List.length chunks * Z.to_nat chunkSize)%nat)
    by (apply Nat.mul_le_mono_r; lia).
  cbn [Nat.mul] in Hmul.
  split; [lia |]. intros Hnext.
  assert (Hmul' : (S (S k) * Z.to_nat chunkSize
                   <= List.length chunks * Z.to_nat chunkSize)%nat)
    by (apply Nat.mul_le_mono_r; lia).
  cbn [Nat.mul] in Hmul'. lia.
Qed.

(** A playlist returned by [encodePlaylist] under validation is a
    playlist record. *)
Lemma encodePlaylist_record (this : t) (playlistInfo : PlaylistInfo.t)
  (tracks : list Track.t) (c c' : console) (playlist : LavalinkPlaylist.t) :
  validate (opts this) = true ->
  encodePlaylist this playlistInfo tracks c = (Ok playlist, c') ->
  Spec.playlistRecord playlist.
Proof.
  intros Hval Hcall. unfold encodePlaylist, bindIO in Hcall.
  rewrite Hval in Hcall. unfold lift at 1 in Hcall.
  unfold validatePlaylistInfo in Hcall.
  destruct (falsy (PlaylistInfo.name playlistInfo));
    [discriminate Hcall |].
  destruct (Z.ltb_spec (PlaylistInfo.selectedTrack playlistInfo) 0)
    as [Hneg | Hsel]; [discriminate Hcall |].
  unfold validateTracks in Hcall.
  destruct (Z.eqb_spec (Z.of_nat (List.length tracks)) 0) as [Hzero | Hn];
    [discriminate Hcall |].
  set (limited := if maxTracks (opts this) >? 0
                  then slice tracks 0 (maxTracks (opts this))
                  else tracks) in Hcall.
  assert (Hlimited : limited <> []).
  { unfold limited. destruct (Z.gtb_spec (maxTracks (opts this)) 0).
    - rewrite slice_prefix by lia.
      destruct tracks; [cbn [List.length] in Hn; lia |].
      destruct (Z.to_nat (maxTracks (opts this))) eqn:E; [lia |].
      discriminate.
    - destruct tracks; [cbn [List.length] in Hn; lia | discriminate]. }
  assert (Hmap : exists encodedTracks,
    mapM (encodeIfNeeded this) limited = Ok encodedTracks /\
    playlist =
    LavalinkPlaylist.mk
      (PlaylistInfo.mk
         (PlaylistInfo.name playlistInfo)
         (Z.min (PlaylistInfo.selectedTrack playlistInfo)
                (Z.of_nat (List.length encodedTracks) - 1)))
      [] encodedTracks).
  { destruct (mapM (encodeIfNeeded this) limited) as [encodedTracks | e].
    - exists encodedTracks. split; [reflexivity |].
      destruct ((maxTracks (opts this) >? 0) && _) in Hcall;
        unfold warn, ret, lift in Hcall; congruence.
    - destruct ((maxTracks (opts this) >? 0) && _) in Hcall;
        unfold warn, ret, lift in Hcall; discriminate Hcall. }
  destruct Hmap as (encodedTracks & Hmap & ->). clear Hcall.
  assert (Hshape : List.length encodedTracks = List.length limited /\
                   Spec.tokened encodedTracks).
  { clear Hlimited. revert encodedTracks Hmap.
    induction limited as [| track rest IH]; intros encodedTracks Hmap.
    - inversion Hmap. split; [reflexivity | constructor].
    - cbn [mapM bind] in Hmap.
      destruct (encodeIfNeeded this track) as [y |] eqn:Hy;
        [| discriminate Hmap].
      destruct (mapM (encodeIfNeeded this) rest) as [ys |];
        [| discriminate Hmap].
      inversion Hmap; subst.
      destruct (IH ys eq_refl) as [Hlen Htok].
      split; [cbn [List.length]; lia |].
      constructor; [| exact Htok].
      unfold encodeIfNeeded in Hy.
      destruct (falsy (Track.track track)) eqn:Hfalsy; cbn [negb] in Hy.
      + unfold TrackEncoder.encodeTrack in Hy.
        destruct (if TrackEncoder.validate _ then _ else _);
          cbn [bind] in Hy; [| discriminate Hy].
        inversion Hy. apply TrackEncoderFacts.encodeTrackData_truthy.
      + inversion Hy; subst. exact Hfalsy. }
  destruct Hshape as [Hlen Htok].
  split; [| exact Htok].
  cbn [LavalinkPlaylist.info PlaylistInfo.selectedTrack].
  destruct limited; [congruence |]. cbn [List.length] in Hlen. lia.
Qed.

End PlaylistEncoderFacts.

(** ** Facts on the catalogue factories *)

Module FactoryFacts.
Import TrackEncoder.

(** The record of [createTrack] when the overrides start from a source
    name. *)
Lemma createTrackInfo_spread (this : t) (identifier title author : jsstring)
  (length : Z) (uri source : jsstring) (additionalInfo : TrackInfo.partial) :
  createTrackInfo this identifier title author length uri
    (spread (sourceOnly source) additionalInfo) =
  override
    (TrackInfo.mk identifier (length >? 0) author length (length =? 0) 0
       title uri source None None)
    additionalInfo.
Proof.
  destruct additionalInfo as [i s a l st p t u sn art isrc].
  destruct i, s, a, l, st, p, t, u, sn, art, isrc; reflexivity.
Qed.

Lemma scaled_positive (duration : Z) :
  (duration * 1000 >? 0) = (duration >? 0).
Proof.
  destruct (Z.gtb_spec duration 0), (Z.gtb_spec (duration * 1000) 0);
    try reflexivity; lia.
Qed.

Lemma scaled_zero (duration : Z) : (duration * 1000 =? 0) = (duration =? 0).
Proof.
  destruct (Z.eqb_spec duration 0), (Z.eqb_spec (duration * 1000) 0);
    try reflexivity; lia.
Qed.

Lemma createYouTubeTrack_encodes (this : t) (videoId title author : jsstring)
  (duration : Z) (additionalInfo : TrackInfo.partial) :
  createYouTubeTrack this videoId title author duration additionalInfo =
  encodeTrack this
    (override
       (TrackInfo.mk videoId (duration >? 0) author (duration * 1000)
          (duration =? 0) 0 title (youtubeUri videoId) (lit "youtube")
          None None)
       additionalInfo).
Proof.
  unfold createYouTubeTrack, createTrack.
  rewrite createTrackInfo_spread, scaled_positive, scaled_zero.
  reflexivity.
Qed.

Lemma createSpotifyTrack_encodes (this : t) (trackId title author : jsstring)
  (duration : Z) (additionalInfo : TrackInfo.partial) :
  createSpotifyTrack this trackId title author duration additionalInfo =
  encodeTrack this
    (override
       (TrackInfo.mk trackId (duration >? 0) author duration
          (duration =? 0) 0 title (spotifyUri trackId) (lit "spotify")
          None None)
       additionalInfo).
Proof.
  unfold createSpotifyTrack, createTrack.
  rewrite createTrackInfo_spread. reflexivity.
Qed.

Lemma createSoundCloudTrack_encodes (this : t)
  (trackId title author : jsstring) (duration : Z)
  (additionalInfo : TrackInfo.partial) :
  createSoundCloudTrack this trackId title author duration additionalInfo =
  encodeTrack this
    (override
       (TrackInfo.mk trackId (duration >? 0) author duration
          (duration =? 0) 0 title (soundcloudUri author title)
          (lit "soundcloud") None None)
       additionalInfo).
Proof.
  unfold createSoundCloudTrack, createTrack.
  rewrite createTrackInfo_spread. reflexivity.
Qed.

Lemma override_none (r : TrackInfo.t) : override r TrackInfo.none = r.
Proof. destruct r. reflexivity. Qed.

Lemma wf_app (s t : jsstring) :
  wf_string s -> wf_string t -> wf_string (s ++ t).
Proof. intros Hs Ht. apply Forall_app. split; assumption. Qed.

(** Encoding a record that has a source of its own and no optional field,
    and decoding the token. *)
Lemma encodeTrack_plain_record (this : t)
  (identifier author title uri source : jsstring)
  (isSeekable isStream : bool) (length position : Z) :
  let r := TrackInfo.mk identifier isSeekable author length isStream
             position title uri source None None in
  wf_string identifier -> wf_string author -> wf_string title ->
  wf_string uri -> wf_string source -> falsy source = false ->
  validate (opts this) = false \/ validateTrackInfo r = Ok tt ->
  exists token,
    encodeTrack this r = Ok (Track.mk token r) /\
    falsy token = false /\
    decodeTrack token =
    Ok (JSON.JObject
          [(lit "identifier", JSON.JString identifier);
           (lit "isSeekable", JSON.JBool isSeekable);
           (lit "author", JSON.JString author);
           (lit "length", JSON.JNumber length);
           (lit "isStream", JSON.JBool isStream);
           (lit "position", JSON.JNumber position);
           (lit "title", JSON.JString title);
           (lit "uri", JSON.JString uri);
           (lit "sourceName", JSON.JString source)]).
Proof.
  intros r Hid Hau Hti Huri Hsrc Hsource Hvalid.
  assert (Hdata : trackData this r =
    [(lit "identifier", JSON.JString identifier);
     (lit "isSeekable", JSON.JBool isSeekable);
     (lit "author", JSON.JString author);
     (lit "length", JSON.JNumber length);
     (lit "isStream", JSON.JBool isStream);
     (lit "position", JSON.JNumber position);
     (lit "title", JSON.JString title);
     (lit "uri", JSON.JString uri);
     (lit "sourceName", JSON.JString source)]).
  { unfold trackData, optionalField, r.
    cbn [TrackInfo.identifier TrackInfo.isSeekable TrackInfo.author
         TrackInfo.length TrackInfo.isStream TrackInfo.position
         TrackInfo.title TrackInfo.uri TrackInfo.sourceName
         TrackInfo.artworkUrl TrackInfo.isrc].
    rewrite Hsource.
    destruct (includeArtwork (opts this)), (includeISRC (opts this));
      reflexivity. }
  exists (encodeTrackData (JSON.JObject (trackData this r))).
  split; [apply TrackEncoderFacts.encodeTrack_ok; exact Hvalid |].
  split; [apply TrackEncoderFacts.encodeTrackData_truthy |].
  unfold decodeTrack.
  rewrite TrackEncoderFacts.decodeTrackData_encodeTrackData.
  - rewrite Hdata. reflexivity.
  - rewrite Hdata.
    repeat (apply Forall_cons;
            [split; [apply TrackEncoderFacts.wf_lit | cbn; auto] |]).
    apply Forall_nil.
  - apply TrackEncoderFacts.trackData_keys.
Qed.
Lemma wf_record (identifier author title uri source : jsstring)
  (isSeekable isStream : bool) (length position : Z) :
  wf_string identifier -> wf_string author -> wf_string title ->
  wf_string uri -> wf_string source ->
  TrackInfo.wf
    (TrackInfo.mk identifier isSeekable author length isStream position
       title uri source None None).
Proof.
  intros Hid Hau Hti Huri Hsrc. unfold TrackInfo.wf.
  cbn [TrackInfo.identifier TrackInfo.author TrackInfo.title TrackInfo.uri
       TrackInfo.sourceName TrackInfo.artworkUrl TrackInfo.isrc].
  split; [exact Hid |]. split; [exact Hau |]. split; [exact Hti |].
  split; [exact Huri |]. split; [exact Hsrc |].
  split; intros x Hx; discriminate Hx.
Qed.

Lemma wf_rick : TrackInfo.wf Sample.rick.
Proof. apply wf_record; apply TrackEncoderFacts.wf_lit. Qed.

Lemma wf_rewound : TrackInfo.wf Examples.rewound.
Proof.
  apply wf_record; try apply TrackEncoderFacts.wf_lit.
  apply wf_app; apply TrackEncoderFacts.wf_lit.
Qed.

End FactoryFacts.

(** ** Facts on the playlist encoder and the facade *)

Module PlaylistFacts.
Import PlaylistEncoder.
Import Shape.

Lemma kept_slice (this : t) (tracks : list Track.t) :
  (if maxTracks (opts this) >? 0
   then slice tracks 0 (maxTracks (opts this)) else tracks)
  = kept this tracks.
Proof.
  unfold kept. destruct (Z.gtb_spec (maxTracks (opts this)) 0);
    [apply PlaylistEncoderFacts.slice_prefix; lia | reflexivity].
Qed.

Lemma encodePlaylist_cases (this : t) (playlistInfo : PlaylistInfo.t)
  (tracks : list Track.t) (c : console) :
  encodePlaylist this playlistInfo tracks c =
  if validate (opts this) then
    if falsy (PlaylistInfo.name playlistInfo) then
      (Throw (Error (Text (lit "Playlist name is required"))), c)
    else if PlaylistInfo.selectedTrack playlistInfo <? 0 then
      (Throw (Error (Text (lit "Selected track must be a non-negative number"))), c)
    else if Z.of_nat (List.length tracks) =? 0 then
      (Throw (Error (Text (lit "Playlist must contain at least one track"))), c)
    else finish this playlistInfo tracks (warned this tracks c)
  else finish this playlistInfo tracks c.
Proof.
  unfold encodePlaylist, bindIO, finish, built, warned.
  rewrite kept_slice.
  destruct (validate (opts this)).
  - unfold lift at 1, validatePlaylistInfo.
    destruct (falsy (PlaylistInfo.name playlistInfo)); [reflexivity |].
    destruct (PlaylistInfo.selectedTrack playlistInfo <? 0);
      [reflexivity |].
    unfold validateTracks.
    destruct (Z.of_nat (List.length tracks) =? 0); [reflexivity |].
    destruct ((maxTracks (opts this) >? 0) && _); unfold warn, ret, lift;
      destruct (mapM _ _); reflexivity.
  - unfold ret, lift. destruct (mapM _ _); reflexivity.
Qed.

Lemma kept_length (this : t) (tracks : list Track.t) :
  maxTracks (opts this) <= 0 \/
  Z.of_nat (List.length (kept this tracks)) <= maxTracks (opts this).
Proof.
  unfold kept. destruct (Z.gtb_spec (maxTracks (opts this)) 0);
    [right | left; lia].
  rewrite length_firstn. lia.
Qed.

Lemma kept_all (this : t) (tracks : list Track.t) :
  maxTracks (opts this) <= 0 \/
  Z.of_nat (List.length tracks) <= maxTracks (opts this) ->
  kept this tracks = tracks.
Proof.
  intros H. unfold kept.
  destruct (Z.gtb_spec (maxTracks (opts this)) 0); [| reflexivity].
  apply firstn_all2. lia.
Qed.

Lemma kept_nonempty (this : t) (tracks : list Track.t) :
  tracks <> [] -> kept this tracks <> [].
Proof.
  intros Hne. unfold kept.
  destruct (Z.gtb_spec (maxTracks (opts this)) 0); [| exact Hne].
  destruct tracks as [| track tracks]; [congruence |].
  destruct (Z.to_nat (maxTracks (opts this))) eqn:E; [lia | discriminate].
Qed.

Lemma warned_within (this : t) (tracks : list Track.t) (c : console) :
  maxTracks (opts this) <= 0 \/
  Z.of_nat (List.length tracks) <= maxTracks (opts this) ->
  warned this tracks c = c.
Proof.
  intros H. unfold warned.
  replace ((maxTracks (opts this) >? 0)
           && (Z.of_nat (List.length tracks) >? maxTracks (opts this)))
    with false; [reflexivity |].
  symmetry. apply andb_false_iff.
  destruct H; [left | right]; rewrite Z.gtb_ltb; apply Z.ltb_ge; lia.
Qed.

(** What a successful map over the kept tracks returns. *)
Lemma mapM_encodeIfNeeded_ok (this : t) (tracks encodedTracks : list Track.t) :
  mapM (encodeIfNeeded this) tracks = Ok encodedTracks ->
  List.length encodedTracks = List.length tracks /\
  Spec.tokened encodedTracks /\
  map Track.info encodedTracks = map Track.info tracks.
Proof.
  revert encodedTracks.
  induction tracks as [| track rest IH]; intros encodedTracks Hmap.
  - inversion Hmap. repeat split. constructor.
  - cbn [mapM bind] in Hmap.
    destruct (encodeIfNeeded this track) as [y |] eqn:Hy;
      [| discriminate Hmap].
    destruct (mapM (encodeIfNeeded this) rest) as [ys |];
      [| discriminate Hmap].
    inversion Hmap; subst.
    destruct (IH ys eq_refl) as (Hlen & Htok & Hinfo).
    assert (Hyy : falsy (Track.track y) = false /\
                  Track.info y = Track.info track).
    { unfold encodeIfNeeded in Hy.
      destruct (falsy (Track.track track)) eqn:Hfalsy; cbn [negb] in Hy.
      - unfold TrackEncoder.encodeTrack in Hy.
        destruct (if TrackEncoder.validate _ then _ else _);
          cbn [bind] in Hy; [| discriminate Hy].
        inversion Hy. split; [| reflexivity].
        apply TrackEncoderFacts.encodeTrackData_truthy.
      - inversion Hy; subst. split; [exact Hfalsy | reflexivity]. }
    destruct Hyy as [Hy1 Hy2].
    split; [cbn [List.length]; lia |].
    split; [constructor; assumption |].
    cbn [map]. rewrite Hy2, Hinfo. reflexivity.
Qed.

Lemma mapM_encodeIfNeeded_throw (this : t) (pre post : list Track.t)
  (bad : Track.t) (e : exn) :
  Forall (Spec.encodable this) pre ->
  encodeIfNeeded this bad = Throw e ->
  mapM (encodeIfNeeded this) (pre ++ bad :: post) = Throw e.
Proof.
  intros Hpre Hbad. induction Hpre as [| track pre Htrack _ IH].
  - cbn [app mapM bind]. rewrite Hbad. reflexivity.
  - cbn [app mapM]. rewrite IH.
    pose proof (PlaylistEncoderFacts.mapM_encodeIfNeeded this [track]
                  (Forall_cons _ Htrack (Forall_nil _))) as H1.
    cbn [mapM map] in H1.
    destruct (encodeIfNeeded this track); [reflexivity | discriminate H1].
Qed.

(** A successful call returns a playlist built from tokened tracks, within
    the cap, and not empty when the call was validated. *)
Lemma encodePlaylist_ok (this : t) (playlistInfo : PlaylistInfo.t)
  (tracks : list Track.t) (c c' : console) (p : LavalinkPlaylist.t) :
  encodePlaylist this playlistInfo tracks c = (Ok p, c') ->
  exists encodedTracks,
    mapM (encodeIfNeeded this) (kept this tracks) = Ok encodedTracks /\
    p = built playlistInfo encodedTracks /\
    (validate (opts this) = true ->
     falsy (PlaylistInfo.name playlistInfo) = false /\
     0 <= PlaylistInfo.selectedTrack playlistInfo /\ tracks <> [] /\
     c' = warned this tracks c) /\
    (validate (opts this) = false -> c' = c).
Proof.
  rewrite encodePlaylist_cases. unfold finish. intros Hcall.
  destruct (validate (opts this)).
  - destruct (falsy (PlaylistInfo.name playlistInfo)) eqn:Hname;
      [discriminate Hcall |].
    destruct (Z.ltb_spec (PlaylistInfo.selectedTrack playlistInfo) 0);
      [discriminate Hcall |].
    destruct (Z.eqb_spec (Z.of_nat (List.length tracks)) 0) as [Hz | Hn];
      [discriminate Hcall |].
    destruct (mapM _ _) as [encodedTracks |]; [| discriminate Hcall].
    exists encodedTracks. inversion Hcall; subst.
    split; [reflexivity |]. split; [reflexivity |].
    split; [| discriminate]. intros _.
    split; [reflexivity |]. split; [assumption |].
    split; [| reflexivity].
    intros ->. apply Hn. reflexivity.
  - destruct (mapM _ _) as [encodedTracks |]; [| discriminate Hcall].
    exists encodedTracks. inversion Hcall; subst.
    split; [reflexivity |]. split; [reflexivity |].
    split; [discriminate | reflexivity].
Qed.

Lemma new_coherent (o : EncoderOptions.t) : coherent (new o).
Proof. reflexivity. Qed.

Lemma updateOptions_coherent (this : t) (o : EncoderOptions.t) :
  coherent (updateOptions this o).
Proof. reflexivity. Qed.

Lemma new_aligned (o : EncoderOptions.t) :
  LavalinkEncoder.aligned (LavalinkEncoder.new o).
Proof. split; reflexivity. Qed.

Lemma updateOptions_aligned (e : LavalinkEncoder.t) (o : EncoderOptions.t) :
  LavalinkEncoder.aligned e ->
  LavalinkEncoder.aligned (LavalinkEncoder.updateOptions e o).
Proof.
  intros [Hco Heq]. split; [reflexivity |].
  unfold LavalinkEncoder.updateOptions, updateOptions, trackOptions,
    TrackEncoder.updateOptions.
  cbn [LavalinkEncoder.trackEncoder LavalinkEncoder.playlistEncoder
       trackEncoder opts TrackEncoder.opts orDefault
       EncoderOptions.includeArtwork EncoderOptions.includeISRC
       EncoderOptions.sourceName EncoderOptions.validate
       includeArtwork includeISRC sourceName validate].
  rewrite Heq, Hco. reflexivity.
Qed.

Lemma fold_aligned (updates : list EncoderOptions.t) :
  forall e, LavalinkEncoder.aligned e ->
    LavalinkEncoder.aligned
      (fold_left LavalinkEncoder.updateOptions updates e).
Proof.
  induction updates as [| o updates IH]; intros e He; [exact He |].
  cbn [fold_left]. apply IH. apply updateOptions_aligned. exact He.
Qed.
Lemma decodeTrack_encodeTrackData (this : TrackEncoder.t) (r : TrackInfo.t) :
  TrackEncoder.wf this -> TrackInfo.wf r ->
  TrackEncoder.decodeTrack
    (TrackEncoder.encodeTrackData
       (JSON.JObject (TrackEncoder.trackData this r))) =
  Ok (JSON.JObject (TrackEncoder.trackData this r)).
Proof.
  intros Hthis Hr. unfold TrackEncoder.decodeTrack.
  rewrite TrackEncoderFacts.decodeTrackData_encodeTrackData;
    [reflexivity
    | apply TrackEncoderFacts.trackData_plain; assumption
    | apply TrackEncoderFacts.trackData_keys].
Qed.

Lemma kept_map (this : t) (trackInfos : list TrackInfo.t) :
  kept this (map (Track.mk []) trackInfos) =
  map (Track.mk [])
    (if maxTracks (opts this) >? 0
     then firstn (Z.to_nat (maxTracks (opts this))) trackInfos
     else trackInfos).
Proof.
  unfold kept. destruct (_ >? 0); [| reflexivity].
  apply firstn_map.
Qed.

Lemma In_firstn (A : Type) (n : nat) (l : list A) (x : A) :
  In x (firstn n l) -> In x l.
Proof.
  intros H. rewrite <- (firstn_skipn n l). apply in_or_app. left. exact H.
Qed.

Lemma mapM_map (A B C : Type) (f : B -> result C) (g : A -> B)
  (xs : list A) :
  mapM f (map g xs) = mapM (fun x => f (g x)) xs.
Proof.
  induction xs as [| x xs IH]; [reflexivity |].
  cbn [map mapM]. rewrite IH. reflexivity.
Qed.

Lemma mapM_ext (A B : Type) (f g : A -> result B) (xs : list A) :
  (forall x, f x = g x) -> mapM f xs = mapM g xs.
Proof.
  intros H. induction xs as [| x xs IH]; [reflexivity |].
  cbn [mapM]. rewrite H, IH. reflexivity.
Qed.

Lemma kept_items (this : t) (items : list Item.t)
  (info : Item.t -> TrackInfo.t) :
  kept this (map (Track.mk []) (map info items)) =
  map (fun item => Track.mk [] (info item)) (keptItems this items).
Proof.
  rewrite map_map. unfold kept, keptItems.
  destruct (_ >? 0); [apply firstn_map | reflexivity].
Qed.

(** A playlist factory returns the tracks that the track factory gives
    for the kept items. *)
Lemma createPlaylist_itemwise (this : t) (name : jsstring)
  (items : list Item.t) (info : Item.t -> TrackInfo.t)
  (factory : Item.t -> result Track.t) (selectedTrack : Z) (c c' : console)
  (p : LavalinkPlaylist.t) :
  (forall item,
     TrackEncoder.encodeTrack (trackEncoder this) (info item)
     = factory item) ->
  createPlaylist this name (map info items) selectedTrack c = (Ok p, c') ->
  mapM factory (keptItems this items)
  = Ok (LavalinkPlaylist.tracks p).
Proof.
  intros Hfactory Hcall. unfold createPlaylist in Hcall.
  destruct (PlaylistFacts.encodePlaylist_ok _ _ _ _ _ _ Hcall)
    as (enc & Hmap & -> & _).
  rewrite kept_items, mapM_map in Hmap.
  cbn [built LavalinkPlaylist.tracks]. rewrite <- Hmap.
  apply mapM_ext. intros item. rewrite <- Hfactory. reflexivity.
Qed.
End PlaylistFacts.

(** ** Facts on the Discord encoder *)

Module DiscordFacts.
Import DiscordTrackEncoder.
Import Shape.

(** [encodeDiscordPlaylist] on records without tokens: the records pass
    the playlist encoder and come back annotated, still without tokens. *)
Lemma encodeDiscordPlaylist_untokened (this : t) (name : jsstring)
  (selectedTrack : Z) (infos : list TrackInfo.t) (requester : Requester.t)
  (guildId channelId : jsstring) (c : console) :
  falsy name = false -> 0 <= selectedTrack -> infos <> [] ->
  Forall (fun r => TrackEncoder.validateTrackInfo r = Ok tt) infos ->
  exists p c',
    encodeDiscordPlaylist this (PlaylistInfo.mk name selectedTrack)
      (map (Track.mk []) infos) requester guildId channelId c
    = (Ok p, c') /\
    DiscordPlaylist.tracks p =
    map (fun r => DiscordTrack.mk []
                    (annotate r requester guildId channelId)) infos.
Proof.
  intros Hname Hsel Hne Hinfos.
  unfold encodeDiscordPlaylist, bindIO, ret.
  rewrite (PlaylistEncoderFacts.encodePlaylist_spec (playlistEncoder this)
             (PlaylistInfo.mk name selectedTrack)
             (map (Track.mk []) infos) c).
  - eexists. eexists. split; [reflexivity |].
    cbn [DiscordPlaylist.tracks]. rewrite map_map. reflexivity.
  - intros _. cbn [PlaylistInfo.name PlaylistInfo.selectedTrack].
    split; [exact Hname |]. split; [exact Hsel |].
    destruct infos; [congruence | discriminate].
  - apply Forall_forall. intros track Htrack.
    assert (Hin : In track (map (Track.mk []) infos)).
    { destruct (_ >? 0); [apply (PlaylistFacts.In_firstn _ _ _ _ Htrack)
                         | exact Htrack]. }
    apply in_map_iff in Hin. destruct Hin as (r & <- & Hr).
    rewrite Forall_forall in Hinfos. right. right. apply Hinfos, Hr.
Qed.

Lemma youtube_valid (video : Item.t) :
  Shape.validItem video ->
  TrackEncoder.validateTrackInfo
    (TrackInfo.mk (Item.id video) (Item.duration video >? 0)
       (Item.author video) (Item.duration video * 1000)
       (Item.duration video =? 0) 0 (Item.title video)
       (youtubeUri (Item.id video)) (lit "youtube") None None) = Ok tt.
Proof.
  intros (H1 & H2 & H3 & H4). unfold TrackEncoder.validateTrackInfo. cbn.
  rewrite H1, H2, H3.
  replace (Item.duration video * 1000 <? 0) with false
    by (symmetry; apply Z.ltb_ge; lia).
  reflexivity.
Qed.

Lemma spotify_valid (track : Item.t) :
  Shape.validItem track ->
  TrackEncoder.validateTrackInfo
    (TrackInfo.mk (Item.id track) (Item.duration track >? 0)
       (Item.author track) (Item.duration track)
       (Item.duration track =? 0) 0 (Item.title track)
       (spotifyUri (Item.id track)) (lit "spotify") None None) = Ok tt.
Proof.
  intros (H1 & H2 & H3 & H4). unfold TrackEncoder.validateTrackInfo. cbn.
  rewrite H1, H2, H3.
  replace (Item.duration track <? 0) with false
    by (symmetry; apply Z.ltb_ge; lia).
  reflexivity.
Qed.

Lemma lookup_assign (A : Type) (obj : list (jsstring * A))
  (key key' : jsstring) (v : A) :
  lookup (assign obj key v) key' =
  if string_eqb key key' then Some v else lookup obj key'.
Proof.
  induction obj as [| [k w] obj IH]; cbn [assign lookup].
  - reflexivity.
  - destruct (string_eqb k key) eqn:Hk.
    + apply JSONFacts.string_eqb_eq in Hk. subst k. cbn [lookup].
      destruct (string_eqb key key'); reflexivity.
    + cbn [lookup]. rewrite IH.
      destruct (string_eqb key key') eqn:Hkey; [| reflexivity].
      apply JSONFacts.string_eqb_eq in Hkey. subst key'. rewrite Hk.
      reflexivity.
Qed.

Lemma total_assign (obj : list (jsstring * Z)) (key : jsstring) (v : Z) :
  total (map snd (assign obj key v)) =
  total (map snd obj) - orDefault (lookup obj key) 0 + v.
Proof.
  unfold total.
  induction obj as [| [k w] obj IH]; cbn [assign lookup map fold_right snd].
  - cbn [orDefault]. lia.
  - destruct (string_eqb k key); cbn [map fold_right snd orDefault].
    + lia.
    + rewrite IH. lia.
Qed.

Lemma positive_assign (obj : list (jsstring * Z)) (key : jsstring) (v : Z) :
  1 <= v -> Forall (fun kv => 1 <= snd kv) obj ->
  Forall (fun kv => 1 <= snd kv) (assign obj key v).
Proof.
  intros Hv. induction 1 as [| [k w] obj Hk Hobj IH]; cbn [assign].
  - constructor; [exact Hv | constructor].
  - destruct (string_eqb k key); constructor;
      [exact Hv | exact Hobj | exact Hk | exact IH].
Qed.

Lemma lookup_positive (obj : list (jsstring * Z)) (key : jsstring) (v : Z) :
  Forall (fun kv => 1 <= snd kv) obj -> lookup obj key = Some v -> 1 <= v.
Proof.
  induction 1 as [| [k w] obj Hk _ IH]; cbn [lookup]; [discriminate |].
  destruct (string_eqb k key); [| exact IH].
  intros [= <-]. exact Hk.
Qed.

Lemma countOf_cons (source : jsstring) (d : DiscordTrack.t)
  (tracks : list DiscordTrack.t) :
  countOf source (d :: tracks) =
  (if string_eqb (sourceOf d) source then 1 else 0) + countOf source tracks.
Proof.
  unfold countOf. cbn [filter].
  destruct (string_eqb (sourceOf d) source); cbn [List.length]; lia.
Qed.

(** The passes of [getTrackStats] over tracks whose source names are
    not inherited names. *)
Lemma fold_countTrack (tracks : list DiscordTrack.t) :
  forall stats : TrackStats.t,
    Forall (fun d => inherited (sourceOf d) = false) tracks ->
    Forall (fun kv => 1 <= snd kv) (TrackStats.sources stats) ->
    exists stats',
      fold_left countTrack tracks (Some stats) = Some stats' /\
      TrackStats.totalTracks stats' = TrackStats.totalTracks stats /\
      TrackStats.totalDuration stats' =
      TrackStats.totalDuration stats + total (map lengthOf tracks) /\
      (forall source,
         orDefault (lookup (TrackStats.sources stats') source) 0 =
         orDefault (lookup (TrackStats.sources stats) source) 0
         + countOf source tracks) /\
      total (map snd (TrackStats.sources stats')) =
      total (map snd (TrackStats.sources stats))
      + Z.of_nat (List.length tracks) /\
      Forall (fun kv => 1 <= snd kv) (TrackStats.sources stats').
Proof.
  induction tracks as [| d tracks IH]; intros stats Hsafe Hpos.
  - exists stats. cbn [fold_left map List.length]. unfold total, countOf.
    cbn [fold_right filter List.length Z.of_nat].
    repeat split; try lia; exact Hpos.
  - inversion Hsafe as [| ? ? Hd Hrest]; subst.
    cbn [fold_left]. unfold countTrack at 2.
    fold (sourceOf d). fold (lengthOf d). rewrite Hd.
    set (count := orDefault (lookup (TrackStats.sources stats) (sourceOf d)) 0).
    assert (Hcount : 0 <= count).
    { unfold count.
      destruct (lookup (TrackStats.sources stats) (sourceOf d)) eqn:E;
        cbn [orDefault]; [| lia].
      pose proof (lookup_positive _ _ _ Hpos E). lia. }
    destruct (IH (TrackStats.mk (TrackStats.totalTracks stats)
                    (TrackStats.totalDuration stats + lengthOf d)
                    (assign (TrackStats.sources stats) (sourceOf d)
                       (count + 1))) Hrest)
      as (stats' & Hfold & Hn & Hdur & Hlook & Hsum & Hpos').
    { cbn [TrackStats.sources]. apply positive_assign; [lia | exact Hpos]. }
    exists stats'. split; [exact Hfold |].
    cbn [TrackStats.totalTracks TrackStats.totalDuration TrackStats.sources]
      in *.
    split; [exact Hn |]. split.
    { rewrite Hdur. unfold total. cbn [map fold_right]. lia. }
    split.
    { intros source. rewrite Hlook, lookup_assign, countOf_cons.
      destruct (string_eqb (sourceOf d) source) eqn:E; cbn [orDefault].
      - apply JSONFacts.string_eqb_eq in E. subst source.
        fold count. lia.
      - lia. }
    split; [| exact Hpos'].
    rewrite Hsum, total_assign. fold count. cbn [List.length]. lia.
Qed.

(** An inherited source name among the tracks ends the statistics. *)
Lemma fold_countTrack_none (tracks : list DiscordTrack.t) :
  fold_left countTrack tracks None = None.
Proof. induction tracks; [reflexivity | exact IHtracks]. Qed.

Lemma fold_countTrack_inherited (tracks : list DiscordTrack.t) :
  forall stats : option TrackStats.t,
    Exists (fun d => inherited (sourceOf d) = true) tracks ->
    fold_left countTrack tracks stats = None.
Proof.
  induction tracks as [| d tracks IH]; intros stats Hex;
    [inversion Hex |].
  cbn [fold_left].
  inversion Hex as [? ? Hd | ? ? Hrest]; subst.
  - unfold countTrack at 2. destruct stats as [stats |];
      [| apply fold_countTrack_none].
    fold (sourceOf d). rewrite Hd. apply fold_countTrack_none.
  - apply IH. exact Hrest.
Qed.
End DiscordFacts.

(** ** Facts on the utilities *)

Module UtilsFacts.
Import Utils.
Import Shape.

(** A number below sixty in two digits. *)
Lemma twoDigits_spec (n : Z) :
  0 <= n < 60 -> twoDigits n = [48 + n / 10; 48 + n mod 10].
Proof.
  intros Hn. rewrite <- (Z2Nat.id n) by lia.
  assert (Hk : (Z.to_nat n < 60)%nat) by lia.
  revert Hk. generalize (Z.to_nat n). clear. intros k Hk.
  do 60 (destruct k as [| k]; [vm_compute; reflexivity |]).
  lia.
Qed.

Lemma seconds_of (milliseconds : Z) :
  (milliseconds / 1000 * 1000) / 1000 = milliseconds / 1000.
Proof. apply Z.div_mul. lia. Qed.

Lemma includes_cons (c : Z) (s p : jsstring) :
  includes (c :: s) p = startsWith (c :: s) p || includes s p.
Proof. reflexivity. Qed.

Lemma startsWith_app (s t p : jsstring) :
  startsWith s p = true -> startsWith (s ++ t) p = true.
Proof.
  revert s. induction p as [| x p IH]; intros s H;
    [destruct s, t; reflexivity |].
  destruct s as [| y s]; [discriminate H |].
  cbn [startsWith app] in *. apply andb_true_iff in H. destruct H as [H1 H2].
  rewrite H1, (IH s H2). reflexivity.
Qed.

Lemma includes_app_l (s t p : jsstring) :
  includes s p = true -> includes (s ++ t) p = true.
Proof.
  induction s as [| c s IH]; intros H.
  - cbn [includes] in H. rewrite orb_false_r in H.
    destruct p; [| discriminate H]. destruct t; reflexivity.
  - rewrite includes_cons in H. cbn [app]. rewrite includes_cons.
    apply orb_true_iff in H. apply orb_true_iff.
    destruct H as [H | H]; [left | right; apply IH, H].
    apply (startsWith_app (c :: s) t p H).
Qed.

(** Steps over a literal prefix in which the literal pattern does not
    begin. *)
Ltac skip_prefix prefix pattern :=
  let v := eval vm_compute in (lit prefix) in
  change (lit prefix) with v;
  let w := eval vm_compute in (lit pattern) in
  change (lit pattern) with w;
  cbn [app]; rewrite !includes_cons;
  cbn [startsWith Z.eqb Pos.eqb andb orb]; reflexivity.

Lemma youtube_detected (videoId : jsstring) :
  detectTrackSource (youtubeUri videoId) = lit "youtube".
Proof.
  unfold detectTrackSource, youtubeUri.
  rewrite (includes_app_l (lit "https://www.youtube.com/watch?v=") videoId
             (lit "youtube.com")); reflexivity.
Qed.

Lemma spotify_detected (trackId : jsstring) :
  detectTrackSource (spotifyUri trackId) =
  if includes trackId (lit "youtube.com") || includes trackId (lit "youtu.be")
  then lit "youtube" else lit "spotify".
Proof.
  unfold detectTrackSource, spotifyUri.
  rewrite (includes_app_l (lit "https://open.spotify.com/track/") trackId
             (lit "spotify.com")) by reflexivity.
  replace (includes (lit "https://open.spotify.com/track/" ++ trackId)
             (lit "youtube.com"))
    with (includes trackId (lit "youtube.com"))
    by (symmetry; skip_prefix "https://open.spotify.com/track/"%string "youtube.com"%string).
  replace (includes (lit "https://open.spotify.com/track/" ++ trackId)
             (lit "youtu.be"))
    with (includes trackId (lit "youtu.be"))
    by (symmetry; skip_prefix "https://open.spotify.com/track/"%string "youtu.be"%string).
  reflexivity.
Qed.

Lemma soundcloud_detected (author title : jsstring) :
  let rest := author ++ lit "/" ++ title in
  detectTrackSource (soundcloudUri author title) =
  if includes rest (lit "youtube.com") || includes rest (lit "youtu.be")
  then lit "youtube"
  else if includes rest (lit "spotify.com") then lit "spotify"
  else lit "soundcloud".
Proof.
  intros rest. unfold detectTrackSource, soundcloudUri. fold rest.
  rewrite (includes_app_l (lit "https://soundcloud.com/") rest
             (lit "soundcloud.com")) by reflexivity.
  replace (includes (lit "https://soundcloud.com/" ++ rest)
             (lit "youtube.com"))
    with (includes rest (lit "youtube.com"))
    by (symmetry; skip_prefix "https://soundcloud.com/"%string "youtube.com"%string).
  replace (includes (lit "https://soundcloud.com/" ++ rest)
             (lit "youtu.be"))
    with (includes rest (lit "youtu.be"))
    by (symmetry; skip_prefix "https://soundcloud.com/"%string "youtu.be"%string).
  replace (includes (lit "https://soundcloud.com/" ++ rest)
             (lit "spotify.com"))
    with (includes rest (lit "spotify.com"))
    by (symmetry; skip_prefix "https://soundcloud.com/"%string "spotify.com"%string).
  reflexivity.
Qed.

Lemma fold_duration (tracks : list Track.t) (start : Z) :
  fold_left (fun total track => total + TrackInfo.length (Track.info track))
    tracks start =
  start + Shape.total (map (fun track => TrackInfo.length (Track.info track))
                         tracks).
Proof.
  revert start. induction tracks as [| track tracks IH]; intros start.
  - unfold Shape.total. cbn [fold_left map fold_right]. lia.
  - cbn [fold_left map]. rewrite IH. unfold Shape.total.
    cbn [fold_right]. lia.
Qed.

Lemma calculateTotalDuration_sum (tracks : list Track.t) :
  calculateTotalDuration tracks =
  Shape.total (map (fun track => TrackInfo.length (Track.info track))
                 tracks).
Proof. unfold calculateTotalDuration. rewrite fold_duration. lia. Qed.

Lemma total_app (xs ys : list Z) :
  Shape.total (xs ++ ys) = Shape.total xs + Shape.total ys.
Proof.
  unfold Shape.total. induction xs as [| x xs IH]; cbn [app fold_right];
    [reflexivity | rewrite IH; lia].
Qed.

Lemma calculateTotalDuration_app (a b : list Track.t) :
  calculateTotalDuration (a ++ b) =
  calculateTotalDuration a + calculateTotalDuration b.
Proof. rewrite !calculateTotalDuration_sum, map_app. apply total_app. Qed.

Lemma calculateTotalDuration_concat (parts : list (list Track.t)) :
  calculateTotalDuration (List.concat parts) =
  Shape.total (map calculateTotalDuration parts).
Proof.
  induction parts as [| part parts IH]; [reflexivity |].
  cbn [List.concat map]. rewrite calculateTotalDuration_app, IH.
  reflexivity.
Qed.

(** The duration depends on the records only. *)
Lemma calculateTotalDuration_infos (a b : list Track.t) :
  map Track.info a = map Track.info b ->
  calculateTotalDuration a = calculateTotalDuration b.
Proof.
  intros H. rewrite !calculateTotalDuration_sum.
  rewrite <- (map_map Track.info TrackInfo.length a).
  rewrite <- (map_map Track.info TrackInfo.length b).
  rewrite H. reflexivity.
Qed.

Section Sorting.
Variable ascending : bool.

Let compare := byDuration ascending.

Lemma compare_order (a b : Track.t) :
  compare a b <= 0 <-> inOrder ascending a b.
Proof.
  unfold compare, byDuration, inOrder. destruct ascending; lia.
Qed.

Lemma inOrder_trans (a b c : Track.t) :
  inOrder ascending a b -> inOrder ascending b c ->
  inOrder ascending a c.
Proof. unfold inOrder. destruct ascending; lia. Qed.

Lemma insertSorted_perm (x : Track.t) (l : list Track.t) :
  Permutation (insertSorted compare x l) (x :: l).
Proof.
  induction l as [| y l IH]; cbn [insertSorted]; [reflexivity |].
  destruct (compare x y <=? 0); [reflexivity |].
  rewrite IH. apply perm_swap.
Qed.

Lemma insertSorted_in (x y : Track.t) (l : list Track.t) :
  In y (insertSorted compare x l) -> y = x \/ In y l.
Proof.
  intros H. apply (Permutation_in _ (insertSorted_perm x l)) in H.
  destruct H as [H | H]; [left; symmetry; exact H | right; exact H].
Qed.

Lemma insertSorted_sorted (x : Track.t) (l : list Track.t) :
  StronglySorted (inOrder ascending) l ->
  StronglySorted (inOrder ascending) (insertSorted compare x l).
Proof.
  induction 1 as [| y l Hl IH Hy]; cbn [insertSorted].
  - constructor; constructor.
  - destruct (Z.leb_spec (compare x y) 0) as [Hle | Hgt].
    + apply compare_order in Hle. constructor.
      * constructor; assumption.
      * constructor; [exact Hle |].
        rewrite Forall_forall in Hy |- *. intros z Hz.
        apply (inOrder_trans x y z Hle (Hy z Hz)).
    + constructor; [exact IH |].
      apply Forall_forall. intros z Hz.
      apply insertSorted_in in Hz. destruct Hz as [-> | Hz].
      * unfold compare, byDuration in Hgt. unfold inOrder.
        destruct ascending; lia.
      * rewrite Forall_forall in Hy. apply Hy, Hz.
Qed.

Lemma sort_perm (l : list Track.t) : Permutation (sort compare l) l.
Proof.
  induction l as [| x l IH]; [reflexivity |].
  unfold sort in *. cbn [fold_right].
  rewrite insertSorted_perm. constructor. exact IH.
Qed.

Lemma sort_sorted (l : list Track.t) :
  StronglySorted (inOrder ascending) (sort compare l).
Proof.
  induction l as [| x l IH]; [constructor |].
  unfold sort in *. cbn [fold_right].
  apply insertSorted_sorted. exact IH.
Qed.

(** An inserted track comes before the tracks of its own length. *)
Lemma ofLength_insertSorted (d : Z) (x : Track.t) (l : list Track.t) :
  ofLength d (insertSorted compare x l) = ofLength d (x :: l).
Proof.
  unfold ofLength.
  induction l as [| y l IH]; cbn [insertSorted]; [reflexivity |].
  destruct (Z.leb_spec (compare x y) 0) as [Hle | Hgt]; [reflexivity |].
  cbn [filter] in *. rewrite IH.
  destruct (Z.eqb_spec (TrackInfo.length (Track.info x)) d) as [Hx | Hx];
    [| reflexivity].
  destruct (Z.eqb_spec (TrackInfo.length (Track.info y)) d) as [Hy | Hy];
    [| reflexivity].
  unfold compare, byDuration in Hgt. destruct ascending; lia.
Qed.

Lemma sort_stable (d : Z) (l : list Track.t) :
  ofLength d (sort compare l) = ofLength d l.
Proof.
  induction l as [| x l IH]; [reflexivity |].
  unfold sort in *. cbn [fold_right].
  rewrite ofLength_insertSorted. unfold ofLength in *. cbn [filter].
  rewrite IH. reflexivity.
Qed.

(** Filtering a sorted list and inserting commute. *)
Lemma filter_insertSorted (keep : Track.t -> bool) (x : Track.t)
  (l : list Track.t) :
  StronglySorted (inOrder ascending) l ->
  filter keep (insertSorted compare x l) =
  if keep x then insertSorted compare x (filter keep l)
  else filter keep l.
Proof.
  induction 1 as [| y l Hl IH Hy]; cbn [insertSorted filter].
  - destruct (keep x); reflexivity.
  - destruct (Z.leb_spec (compare x y) 0) as [Hle | Hgt].
    + cbn [filter]. destruct (keep x) eqn:Hx; [| reflexivity].
      destruct (keep y) eqn:Hky.
      * cbn [insertSorted].
        replace (compare x y <=? 0) with true
          by (symmetry; apply Z.leb_le; exact Hle).
        reflexivity.
      * (* the kept tracks of [l] all come after [x] *)
        apply compare_order in Hle.
        assert (Hall : Forall (inOrder ascending x) (filter keep l)).
        { apply Forall_forall. intros z Hz. apply filter_In in Hz.
          rewrite Forall_forall in Hy.
          apply (inOrder_trans x y z Hle (Hy z (proj1 Hz))). }
        destruct (filter keep l) as [| z zs]; [reflexivity |].
        cbn [insertSorted]. inversion Hall as [| ? ? Hz _]; subst.
        apply compare_order in Hz.
        replace (compare x z <=? 0) with true
          by (symmetry; apply Z.leb_le; exact Hz).
        reflexivity.
    + cbn [filter]. rewrite IH.
      destruct (keep x), (keep y); try reflexivity.
      cbn [insertSorted].
      replace (compare x y <=? 0) with false
        by (symmetry; apply Z.leb_gt; exact Hgt).
      reflexivity.
Qed.

Lemma filter_sort (keep : Track.t -> bool) (l : list Track.t) :
  filter keep (sort compare l) = sort compare (filter keep l).
Proof.
  induction l as [| x l IH]; [reflexivity |].
  unfold sort in *. cbn [fold_right filter].
  rewrite filter_insertSorted by apply sort_sorted.
  rewrite IH. destruct (keep x); reflexivity.
Qed.
End Sorting.

Lemma existsb_string_eqb (x : jsstring) (l : list jsstring) :
  existsb (string_eqb x) l = true <-> In x l.
Proof.
  rewrite existsb_exists. split.
  - intros (y & Hy & Heq). apply JSONFacts.string_eqb_eq in Heq.
    subst. exact Hy.
  - intros H. exists x. split; [exact H | apply JSONFacts.string_eqb_refl].
Qed.

Lemma fold_setAdd (xs : list jsstring) :
  forall set,
    NoDup set ->
    NoDup (fold_left setAdd xs set) /\
    (forall x, In x (fold_left setAdd xs set) <-> In x set \/ In x xs) /\
    exists added, fold_left setAdd xs set = set ++ added.
Proof.
  induction xs as [| y xs IH]; intros set Hset.
  - cbn [fold_left]. split; [exact Hset |]. split.
    + intros x. cbn [In]. tauto.
    + exists []. rewrite app_nil_r. reflexivity.
  - cbn [fold_left]. unfold setAdd at 2 4 6.
    destruct (existsb (string_eqb y) set) eqn:Hy.
    + apply existsb_string_eqb in Hy.
      destruct (IH set Hset) as (Hnd & Hin & Hadd).
      split; [exact Hnd |]. split; [| exact Hadd].
      intros x. rewrite Hin. cbn [In]. split; [tauto |].
      intros [H | [<- | H]]; tauto.
    + assert (Hnot : ~ In y set).
      { intros H. apply existsb_string_eqb in H. congruence. }
      destruct (IH (set ++ [y])) as (Hnd & Hin & (added & Hadd)).
      { apply NoDup_app; [exact Hset | repeat constructor; intros [] |].
        intros x Hx [<- | []]. contradiction. }
      split; [exact Hnd |]. split.
      * intros x. rewrite Hin, in_app_iff. cbn [In]. tauto.
      * exists (y :: added). rewrite Hadd, <- app_assoc. reflexivity.
Qed.

Lemma unique_spec (xs : list jsstring) :
  NoDup (unique xs) /\ forall x, In x (unique xs) <-> In x xs.
Proof.
  destruct (fold_setAdd xs [] (NoDup_nil _)) as (Hnd & Hin & _).
  split; [exact Hnd |]. intros x. unfold unique. rewrite Hin.
  cbn [In]. tauto.
Qed.

(** The first element stays first. *)
Lemma unique_head (x : jsstring) (xs : list jsstring) :
  hd_error (unique (x :: xs)) = Some x.
Proof.
  unfold unique. cbn [fold_left setAdd existsb app].
  destruct (fold_setAdd xs [x]) as (_ & _ & (added & ->)).
  - repeat constructor. intros [].
  - reflexivity.
Qed.

(** One key among distinct keys is counted once. *)
Lemma total_indicator (key : jsstring) (keys : list jsstring) :
  NoDup keys -> In key keys ->
  Shape.total (map (fun k => if string_eqb key k then 1 else 0) keys) = 1.
Proof.
  unfold Shape.total.
  induction 1 as [| k keys Hk Hnd IH]; intros Hin; [destruct Hin |].
  cbn [map fold_right].
  destruct (string_eqb key k) eqn:E.
  - apply JSONFacts.string_eqb_eq in E. subst k.
    assert (Hzero : fold_right Z.add 0
              (map (fun k => if string_eqb key k then 1 else 0) keys) = 0).
    { clear IH Hnd Hin. induction keys as [| k keys IH]; [reflexivity |].
      cbn [map fold_right].
      rewrite JSONFacts.string_eqb_neq.
      - rewrite IH; [reflexivity |]. intros H. apply Hk. right. exact H.
      - intros ->. apply Hk. left. reflexivity. }
    rewrite Hzero. reflexivity.
  - destruct Hin as [-> | Hin];
      [rewrite JSONFacts.string_eqb_refl in E; discriminate |].
    rewrite IH by exact Hin. reflexivity.
Qed.

Lemma total_add (A : Type) (f g : A -> Z) (l : list A) :
  Shape.total (map (fun a => f a + g a) l) =
  Shape.total (map f l) + Shape.total (map g l).
Proof.
  unfold Shape.total. induction l as [| a l IH]; cbn [map fold_right];
    [reflexivity | rewrite IH; lia].
Qed.

(** Distinct sources that cover the tracks divide them. *)
Lemma sources_partition (keys : list jsstring) (tracks : list Track.t) :
  NoDup keys ->
  (forall track, In track tracks ->
                 In (TrackInfo.sourceName (Track.info track)) keys) ->
  Shape.total
    (map (fun source =>
            Z.of_nat (List.length (filterTracksBySource tracks source)))
         keys)
  = Z.of_nat (List.length tracks).
Proof.
  intros Hnd. induction tracks as [| track tracks IH]; intros Hcover.
  - unfold filterTracksBySource. cbn [filter List.length Z.of_nat].
    unfold Shape.total. clear. induction keys as [| k keys IH];
      cbn [map fold_right]; [reflexivity | rewrite IH; reflexivity].
  - rewrite (map_ext _
      (fun source =>
         (if string_eqb (TrackInfo.sourceName (Track.info track)) source
          then 1 else 0)
         + Z.of_nat (List.length (filterTracksBySource tracks source)))).
    + rewrite total_add, total_indicator, IH.
      * cbn [List.length]. lia.
      * intros t Ht. apply Hcover. right. exact Ht.
      * exact Hnd.
      * apply Hcover. left. reflexivity.
    + intros source. unfold filterTracksBySource. cbn [filter].
      destruct (string_eqb _ source); cbn [List.length]; lia.
Qed.

Lemma substring_prefix (s : jsstring) (stop : Z) :
  substring s 0 stop = firstn (Z.to_nat stop) s.
Proof.
  unfold substring. cbv zeta. change (Z.max 0 0) with 0.
  set (len := Z.of_nat (List.length s)).
  replace (Z.min 0 len) with 0 by lia.
  replace (Z.min 0 (Z.min (Z.max stop 0) len)) with 0 by lia.
  replace (Z.max 0 (Z.min (Z.max stop 0) len))
    with (Z.min (Z.max stop 0) len) by lia.
  rewrite Z.sub_0_r. cbn [Z.to_nat skipn].
  destruct (Z.le_gt_cases len (Z.max stop 0)) as [Hle | Hgt].
  - rewrite Z.min_r by lia. unfold len. rewrite Nat2Z.id.
    rewrite firstn_all. symmetry. apply firstn_all2. unfold len in Hle. lia.
  - rewrite Z.min_l by lia. f_equal. lia.
Qed.

Lemma sanitize_long (title : jsstring) (maxLength : Z) :
  maxLength < Z.of_nat (List.length title) ->
  sanitizeTrackTitle title maxLength =
  firstn (Z.to_nat (maxLength - 3)) title ++ lit "...".
Proof.
  intros H. unfold sanitizeTrackTitle.
  replace (Z.of_nat (List.length title) <=? maxLength) with false
    by (symmetry; apply Z.leb_gt; exact H).
  rewrite substring_prefix. reflexivity.
Qed.

Lemma decodeOfEncode_ok (this : TrackEncoder.t) (r : TrackInfo.t) :
  TrackEncoder.wf this -> TrackInfo.wf r ->
  TrackEncoder.validate (TrackEncoder.opts this) = false \/
  TrackEncoder.validateTrackInfo r = Ok tt ->
  Spec.decodeOfEncode this r =
  Ok (JSON.JObject (TrackEncoder.trackData this r)).
Proof.
  intros Hthis Hr Hvalid. unfold Spec.decodeOfEncode.
  rewrite TrackEncoderFacts.encodeTrack_ok by exact Hvalid.
  cbn [bind Track.track].
  apply PlaylistFacts.decodeTrack_encodeTrackData; assumption.
Qed.

(** The members that the helpers read from a decoded track. *)
Lemma members (this : TrackEncoder.t) (r : TrackInfo.t) :
  let t := TrackEncoder.trackData this r in
  JSON.get t (lit "identifier") = Some (JSON.JString (TrackInfo.identifier r))
  /\ JSON.get t (lit "title") = Some (JSON.JString (TrackInfo.title r))
  /\ JSON.get t (lit "author") = Some (JSON.JString (TrackInfo.author r))
  /\ JSON.get t (lit "length") = Some (JSON.JNumber (TrackInfo.length r))
  /\ JSON.get t (lit "uri") = Some (JSON.JString (TrackInfo.uri r))
  /\ JSON.get t (lit "sourceName")
     = Some (JSON.JString (effectiveSource this r))
  /\ JSON.get t (lit "isSeekable")
     = Some (JSON.JBool (TrackInfo.isSeekable r))
  /\ JSON.get t (lit "isStream") = Some (JSON.JBool (TrackInfo.isStream r))
  /\ JSON.get t (lit "position")
     = Some (JSON.JNumber (TrackInfo.position r)).
Proof.
  intros t. unfold t. rewrite !TrackEncoderFacts.get_trackData.
  repeat split.
Qed.
End UtilsFacts.

(** ** Facts on the regular expressions *)

Module RegExpFacts.
Import RegExp.
Import Shape.

Lemma literal_app (text s : jsstring) : literal text (text ++ s) = Some s.
Proof.
  induction text as [| w text IH]; [reflexivity |].
  cbn [app literal]. rewrite Z.eqb_refl. exact IH.
Qed.

Lemma many_longest (A : Type) (member : Z -> bool) (word rest : jsstring)
  (k : jsstring -> option A) (a : A) :
  Forall (fun c => member c = true) word ->
  match rest with [] => True | c :: _ => member c = false end ->
  k rest = Some a ->
  many member (word ++ rest) k = Some a.
Proof.
  intros Hword Hrest Hk. induction Hword as [| c word Hc _ IH].
  - cbn [app]. destruct rest as [| c rest]; [exact Hk |].
    cbn [many]. rewrite Hrest. exact Hk.
  - cbn [app many]. rewrite Hc, IH. reflexivity.
Qed.

(** A repeated class takes the longest run when what follows matches
    after it. *)
Lemma run_plus (A : Type) (negated : bool) (ranges : list (Z * Z))
  (word rest : jsstring) (caps : captures)
  (k : jsstring -> captures -> option A) (a : A) :
  longestRun (inClass negated ranges) word rest ->
  k rest caps = Some a ->
  run (Plus negated ranges) (word ++ rest) caps k = Some a.
Proof.
  intros (Hne & Hword & Hrest) Hk.
  destruct word as [| c word]; [congruence |].
  inversion Hword as [| ? ? Hc Hword']; subst.
  cbn [app run]. rewrite Hc.
  apply many_longest; assumption.
Qed.

Lemma run_group_plus (A : Type) (index : nat) (negated : bool)
  (ranges : list (Z * Z)) (word rest : jsstring) (caps : captures)
  (k : jsstring -> captures -> option A) (a : A) :
  longestRun (inClass negated ranges) word rest ->
  k rest ((index, word) :: caps) = Some a ->
  run (Group index (Plus negated ranges)) (word ++ rest) caps k = Some a.
Proof.
  intros Hrun Hk.
  change (run (Group index (Plus negated ranges)) (word ++ rest) caps k)
    with (run (Plus negated ranges) (word ++ rest) caps
            (fun s' caps' =>
               k s' ((index,
                      firstn (List.length (word ++ rest) - List.length s')
                        (word ++ rest)) :: caps'))).
  apply run_plus; [exact Hrun |].
  rewrite length_app, Nat.add_sub, firstn_app, Nat.sub_diag, firstn_all.
  cbn [firstn]. rewrite app_nil_r. exact Hk.
Qed.

Lemma run_seq (A : Type) (r1 r2 : t) (s : jsstring) (caps : captures)
  (k : jsstring -> captures -> option A) :
  run (Seq r1 r2) s caps k =
  run r1 s caps (fun s' caps' => run r2 s' caps' k).
Proof. reflexivity. Qed.

Lemma run_alt_left (A : Type) (r1 r2 : t) (s : jsstring) (caps : captures)
  (k : jsstring -> captures -> option A) (a : A) :
  run r1 s caps k = Some a -> run (Alt r1 r2) s caps k = Some a.
Proof. intros H. cbn [run]. rewrite H. reflexivity. Qed.

Lemma run_lit (A : Type) (text s : jsstring) (caps : captures)
  (k : jsstring -> captures -> option A) :
  run (Lit text) (text ++ s) caps k = k s caps.
Proof. cbn [run]. rewrite literal_app. reflexivity. Qed.

Lemma exec_found (r : t) (s : jsstring) (caps : captures) :
  run r s [] (fun _ caps => Some caps) = Some caps -> exec r s = Some caps.
Proof. intros H. destruct s; cbn [exec]; rewrite H; reflexivity. Qed.

Lemma exec_skip (r : t) (c : Z) (s : jsstring) :
  run r (c :: s) [] (fun _ caps => Some caps) = None ->
  exec r (c :: s) = exec r s.
Proof. intros H. cbn [exec]. rewrite H. reflexivity. Qed.
End RegExpFacts.

Module ExtractFacts.
Import Utils.
Import Shape.

Lemma extractYouTubeVideoId_uri (id rest : jsstring) :
  longestRun youtubeIdUnit id rest ->
  extractYouTubeVideoId (youtubeUri (id ++ rest)) = Some id.
Proof.
  intros Hrun. unfold extractYouTubeVideoId, youtubePatterns, youtubeUri.
  cbn [firstMatch].
  change (lit "https://www.youtube.com/watch?v=")
    with (lit "https://www." ++ lit "youtube.com/watch?v=").
  rewrite <- app_assoc.
  let v := eval vm_compute in (lit "https://www.") in
  change (lit "https://www.") with v.
  cbn [app].
  do 12 (rewrite RegExpFacts.exec_skip by reflexivity).
  rewrite (RegExpFacts.exec_found _ _ [(1%nat, id)]); [reflexivity |].
  rewrite RegExpFacts.run_seq. apply RegExpFacts.run_alt_left. rewrite RegExpFacts.run_lit.
  apply RegExpFacts.run_group_plus; [exact Hrun | reflexivity].
Qed.
Lemma extractSpotifyTrackId_uri (id rest : jsstring) :
  longestRun spotifyIdUnit id rest ->
  extractSpotifyTrackId (spotifyUri (id ++ rest)) = Some id.
Proof.
  intros Hrun. unfold extractSpotifyTrackId, spotifyPattern, spotifyUri.
  change (lit "https://open.spotify.com/track/")
    with (lit "https://open." ++ lit "spotify.com/track/").
  rewrite <- app_assoc.
  let v := eval vm_compute in (lit "https://open.") in
  change (lit "https://open.") with v.
  cbn [app].
  do 13 (rewrite RegExpFacts.exec_skip by reflexivity).
  rewrite (RegExpFacts.exec_found _ _ [(1%nat, id)]); [reflexivity |].
  rewrite RegExpFacts.run_seq, RegExpFacts.run_lit.
  apply RegExpFacts.run_group_plus; [exact Hrun | reflexivity].
Qed.

Lemma extractSoundCloudTrackId_uri (author title rest : jsstring) :
  longestRun soundcloudUserUnit author (lit "/") ->
  longestRun soundcloudTrackUnit title rest ->
  extractSoundCloudTrackId (soundcloudUri author (title ++ rest)) =
  Some (author ++ lit "/" ++ title).
Proof.
  intros Huser Htrack.
  unfold extractSoundCloudTrackId, soundcloudPattern, soundcloudUri.
  change (lit "https://soundcloud.com/")
    with (lit "https://" ++ lit "soundcloud.com/").
  rewrite <- app_assoc.
  let v := eval vm_compute in (lit "https://") in
  change (lit "https://") with v.
  cbn [app].
  do 8 (rewrite RegExpFacts.exec_skip by reflexivity).
  rewrite (RegExpFacts.exec_found _ _ [(2%nat, title); (1%nat, author)]);
    [reflexivity |].
  rewrite RegExpFacts.run_seq, RegExpFacts.run_lit, RegExpFacts.run_seq.
  apply RegExpFacts.run_group_plus.
  - destruct Huser as (Hne & Hword & _). split; [exact Hne |].
    split; [exact Hword | reflexivity].
  - rewrite RegExpFacts.run_seq, RegExpFacts.run_lit.
    apply RegExpFacts.run_group_plus; [exact Htrack | reflexivity].
Qed.
End ExtractFacts.

(** * The claims *)

(** C1 (amended): for every track record that passes validation (or with
    validation off), under any configuration, decoding the token of the
    encoded record returns exactly the projected field set: identifier,
    isSeekable, author, length, isStream, position, title, uri, sourceName
    (the record's own, or the configured default when it is empty) and
    artworkUrl / isrc exactly when the option is on and the record holds a
    non-empty value; every other name is absent. *)
Theorem roundtrip_projected (this : TrackEncoder.t) (r : TrackInfo.t) :
  TrackEncoder.wf this -> TrackInfo.wf r ->
  TrackEncoder.validate (TrackEncoder.opts this) = false \/
  TrackEncoder.validateTrackInfo r = Ok tt ->
  Spec.decodeOfEncode this r =
  Ok (JSON.JObject (TrackEncoder.trackData this r)) /\
  forall key,
    JSON.get (TrackEncoder.trackData this r) key = Spec.projected this r key.
Proof.
  intros Hthis Hr Hvalid. split.
  - unfold Spec.decodeOfEncode.
    rewrite TrackEncoderFacts.encodeTrack_ok by exact Hvalid.
    cbn [bind Track.track]. unfold TrackEncoder.decodeTrack.
    rewrite TrackEncoderFacts.decodeTrackData_encodeTrackData.
    + reflexivity.
    + apply TrackEncoderFacts.trackData_plain; assumption.
    + apply TrackEncoderFacts.trackData_keys.
  - apply TrackEncoderFacts.get_trackData.
Qed.

Lemma roundtrip_projected_witness :
  Spec.decodeOfEncode Sample.trackEncoder Sample.rickFull =
  Ok (JSON.JObject (TrackEncoder.trackData Sample.trackEncoder
                      Sample.rickFull)) /\
  forall key,
    JSON.get (TrackEncoder.trackData Sample.trackEncoder Sample.rickFull) key
    = Spec.projected Sample.trackEncoder Sample.rickFull key.
Proof.
  apply (roundtrip_projected Sample.trackEncoder Sample.rickFull).
  - apply TrackEncoderFacts.wf_lit.
  - repeat split; try apply TrackEncoderFacts.wf_lit; try constructor;
      intros x [= <-]; apply TrackEncoderFacts.wf_lit.
  - right. reflexivity.
Defined.

(** C1 as stated fails: with [includeArtwork] on and [artworkUrl] present
    but empty, the decoded record has no [artworkUrl]. *)
Lemma roundtrip_blank_artwork_dropped :
  TrackEncoder.validateTrackInfo Sample.rickBlankArtwork = Ok tt /\
  TrackEncoder.includeArtwork (TrackEncoder.opts Sample.trackEncoder) = true /\
  TrackInfo.artworkUrl Sample.rickBlankArtwork = Some [] /\
  Spec.includedWhenPresent true (TrackInfo.artworkUrl Sample.rickBlankArtwork)
  = Some (JSON.JString []) /\
  exists fields,
    Spec.decodeOfEncode Sample.trackEncoder Sample.rickBlankArtwork =
    Ok (JSON.JObject fields) /\
    JSON.get fields (lit "artworkUrl") = None.
Proof.
  repeat split; try reflexivity.
  eexists. split; [vm_compute; reflexivity | reflexivity].
Qed.

(** C2 (amended): [decodeTrack] throws [Error("Failed to decode track: " +
    cause)] when [base64-js] rejects the token, which it does exactly when
    the length is not a multiple of four ("invalid-base64-string") or the
    token begins with the padding character, and when the decoded text is
    not JSON ("dGVzdA=="); it returns a value only when the whole decoded
    text parses, and then returns that value whole. *)
Theorem decodeTrack_outcome (token : jsstring) :
  (forall e, Base64.toByteArray token = Throw e ->
             TrackEncoder.decodeTrack token =
             Throw (TrackEncoder.decodeFailure e)) /\
  (forall bytes e, Base64.toByteArray token = Ok bytes ->
                   JSON.parse (Text.decode bytes) = Throw e ->
                   e = SyntaxError /\
                   TrackEncoder.decodeTrack token =
                   Throw (TrackEncoder.decodeFailure SyntaxError)) /\
  (forall v, TrackEncoder.decodeTrack token = Ok v <->
             exists bytes, Base64.toByteArray token = Ok bytes /\
                           JSON.parse (Text.decode bytes) = Ok v) /\
  (is_ok (Base64.toByteArray token) = false <->
   Z.of_nat (List.length token) mod 4 <> 0 \/ hd 0 token = 61) /\
  (Z.of_nat (List.length token) mod 4 <> 0 ->
   TrackEncoder.decodeTrack token =
   Throw (TrackEncoder.decodeFailure Base64.invalid_length)) /\
  TrackEncoder.decodeTrack (lit "invalid-base64-string") =
  Throw (TrackEncoder.decodeFailure Base64.invalid_length) /\
  TrackEncoder.decodeTrack (lit "dGVzdA==") =
  Throw (TrackEncoder.decodeFailure SyntaxError).
Proof.
  assert (Hparse : forall text e, JSON.parse text = Throw e -> e = SyntaxError).
  { intros text e. unfold JSON.parse.
    destruct (JSON.parseValue _ text) as [[v rest] |]; [| congruence].
    destruct (JSON.skipWs rest); congruence. }
  unfold TrackEncoder.decodeTrack, TrackEncoder.decodeTrackData.
  split; [| split; [| split; [| split; [| split; [| split]]]]].
  - intros e He. rewrite He. reflexivity.
  - intros bytes e Hb Hp. pose proof (Hparse _ _ Hp) as He. subst e.
    rewrite Hb. cbn [bind]. rewrite Hp. split; reflexivity.
  - intros v. split.
    + intros Hv. destruct (Base64.toByteArray token) as [bytes | e];
        cbn [bind] in Hv; [| discriminate].
      exists bytes. split; [reflexivity |].
      destruct (JSON.parse (Text.decode bytes)); congruence.
    + intros [bytes [Hb Hp]]. rewrite Hb. cbn [bind]. rewrite Hp.
      reflexivity.
  - apply Base64Facts.toByteArray_rejects.
  - intros Hlen. unfold Base64.toByteArray, Base64.getLens.
    replace (Z.of_nat (List.length token) mod 4 >? 0) with true;
      [reflexivity |].
    symmetry. rewrite Z.gtb_ltb. apply Z.ltb_lt.
    pose proof (Z.mod_pos_bound (Z.of_nat (List.length token)) 4). lia.
  - vm_compute. reflexivity.
  - vm_compute. reflexivity.
Qed.

(** C2 as stated fails: the token "MTIz" is the base64 text of the bytes
    "123", which are not an object map, and [decodeTrack] returns the
    number 123 without raising. *)
Lemma decodeTrack_returns_non_object :
  Base64.toByteArray (lit "MTIz") = Ok (lit "123") /\
  TrackEncoder.decodeTrack (lit "MTIz") = Ok (JSON.JNumber 123).
Proof. split; vm_compute; reflexivity. Qed.

(** C4: the token of an annotated record is the token [encodeTrack] gives
    for the bare record; requester, guild and channel take no part in it,
    and encoding the annotated record again gives the same token. *)
Theorem annotation_keeps_token (this : DiscordTrackEncoder.t)
  (r : TrackInfo.t) (requester : Requester.t) (guildId channelId : jsstring) :
  fmap DiscordTrack.track
    (DiscordTrackEncoder.encodeDiscordTrack this r requester guildId
       channelId) =
  fmap Track.track
    (TrackEncoder.encodeTrack (DiscordTrackEncoder.trackEncoder this) r) /\
  (forall requester' guildId' channelId',
     fmap DiscordTrack.track
       (DiscordTrackEncoder.encodeDiscordTrack this r requester' guildId'
          channelId') =
     fmap DiscordTrack.track
       (DiscordTrackEncoder.encodeDiscordTrack this r requester guildId
          channelId)) /\
  fmap (fun d => DiscordTrackInfo.base (DiscordTrack.info d))
    (DiscordTrackEncoder.encodeDiscordTrack this r requester guildId
       channelId) =
  fmap Track.info
    (TrackEncoder.encodeTrack (DiscordTrackEncoder.trackEncoder this) r) /\
  TrackEncoder.encodeTrack (DiscordTrackEncoder.trackEncoder this)
    (DiscordTrackInfo.base
       (DiscordTrackEncoder.annotate r requester guildId channelId)) =
  TrackEncoder.encodeTrack (DiscordTrackEncoder.trackEncoder this) r /\
  fmap DiscordTrack.track
    (LavalinkEncoder.encodeDiscordTrack Sample.encoder r requester guildId
       channelId) =
  fmap Track.track (LavalinkEncoder.encodeTrack Sample.encoder r).
Proof.
  assert (Hshape : forall this' requester' guildId' channelId',
    DiscordTrackEncoder.encodeDiscordTrack this' r requester' guildId'
      channelId' =
    fmap (fun t => DiscordTrack.mk (Track.track t)
                     (DiscordTrackEncoder.annotate r requester' guildId'
                        channelId'))
         (TrackEncoder.encodeTrack (DiscordTrackEncoder.trackEncoder this')
            r)).
  { intros. unfold DiscordTrackEncoder.encodeDiscordTrack.
    destruct (TrackEncoder.encodeTrack _ r); reflexivity. }
  split; [| split; [| split; [| split]]].
  - rewrite Hshape. destruct (TrackEncoder.encodeTrack _ r); reflexivity.
  - intros requester' guildId' channelId'. rewrite !Hshape.
    destruct (TrackEncoder.encodeTrack _ r); reflexivity.
  - rewrite Hshape. unfold TrackEncoder.encodeTrack.
    destruct (TrackEncoder.validate _);
      [destruct (TrackEncoder.validateTrackInfo r) |]; reflexivity.
  - reflexivity.
  - unfold LavalinkEncoder.encodeDiscordTrack, LavalinkEncoder.encodeTrack.
    rewrite Hshape.
    change (DiscordTrackEncoder.trackEncoder
              (LavalinkEncoder.discordEncoder Sample.encoder))
      with (LavalinkEncoder.trackEncoder Sample.encoder).
    destruct (TrackEncoder.encodeTrack _ r); reflexivity.
Qed.

(** C3 (amended): for a playlist record whose tracks carry tokens and every
    chunk size from 1 up that the track cap does not cut, [splitPlaylist]
    returns the contiguous parts of the track sequence in order, each of at
    most [chunkSize] tracks and all but the last of exactly [chunkSize];
    part [k] is named with the parent name and the suffix " (Part k+1)";
    the first part's selected index is the parent's, held inside the part
    (at most its track count minus one), and every later part's is 0. *)
Theorem splitPlaylist_parts (this : PlaylistEncoder.t)
  (p : LavalinkPlaylist.t) (chunkSize : Z) (c : console) :
  1 <= chunkSize ->
  Spec.tokened (LavalinkPlaylist.tracks p) ->
  (PlaylistEncoder.validate (PlaylistEncoder.opts this) = true ->
   0 <= PlaylistInfo.selectedTrack (LavalinkPlaylist.info p)) ->
  PlaylistEncoder.maxTracks (PlaylistEncoder.opts this) <= 0 \/
  Z.min chunkSize (Z.of_nat (List.length (LavalinkPlaylist.tracks p)))
  <= PlaylistEncoder.maxTracks (PlaylistEncoder.opts this) ->
  exists chunks,
    PlaylistEncoder.splitPlaylist this p chunkSize c = Some (Ok chunks, c) /\
    List.concat (map LavalinkPlaylist.tracks chunks) =
    LavalinkPlaylist.tracks p /\
    forall k chunk, nth_error chunks k = Some chunk ->
      LavalinkPlaylist.tracks chunk = Spec.partTracks p chunkSize k /\
      (1 <= List.length (LavalinkPlaylist.tracks chunk)
       <= Z.to_nat chunkSize)%nat /\
      ((S k < List.length chunks)%nat ->
       List.length (LavalinkPlaylist.tracks chunk) = Z.to_nat chunkSize) /\
      PlaylistInfo.name (LavalinkPlaylist.info chunk) =
      PlaylistInfo.name (LavalinkPlaylist.info p)
      ++ lit " (Part " ++ JSON.numberToString (Z.of_nat k + 1) ++ lit ")" /\
      PlaylistInfo.selectedTrack (LavalinkPlaylist.info chunk) =
      match k with
      | O => Z.min (PlaylistInfo.selectedTrack (LavalinkPlaylist.info p))
                   (Z.of_nat (List.length (LavalinkPlaylist.tracks chunk)) - 1)
      | S _ => 0
      end.
Proof.
  intros Hsize Htok Hsel Hcap.
  destruct (PlaylistEncoderFacts.splitPlaylist_spec this p chunkSize c
              Hsize Htok Hsel Hcap) as (chunks & Hsplit & Hcat & _ & Hparts).
  exists chunks. split; [exact Hsplit |]. split; [exact Hcat |].
  intros k chunk Hk.
  assert (Hlt : (k < List.length chunks)%nat)
    by (apply nth_error_Some; congruence).
  destruct (Hparts k Hlt) as (Hnth & Hlen & Hfull).
  rewrite Hnth in Hk. inversion Hk; subst chunk.
  cbn [Spec.part LavalinkPlaylist.tracks LavalinkPlaylist.info
       PlaylistInfo.name PlaylistInfo.selectedTrack].
  split; [reflexivity |]. split; [exact Hlen |]. split; [exact Hfull |].
  split; [reflexivity |]. destruct k; reflexivity.
Qed.

Lemma splitPlaylist_parts_witness :
  exists chunks,
    PlaylistEncoder.splitPlaylist Sample.playlistEncoder Sample.playlist 3 []
    = Some (Ok chunks, []) /\
    List.concat (map LavalinkPlaylist.tracks chunks) =
    LavalinkPlaylist.tracks Sample.playlist /\
    forall k chunk, nth_error chunks k = Some chunk ->
      LavalinkPlaylist.tracks chunk = Spec.partTracks Sample.playlist 3 k /\
      (1 <= List.length (LavalinkPlaylist.tracks chunk) <= Z.to_nat 3)%nat /\
      ((S k < List.length chunks)%nat ->
       List.length (LavalinkPlaylist.tracks chunk) = Z.to_nat 3) /\
      PlaylistInfo.name (LavalinkPlaylist.info chunk) =
      PlaylistInfo.name (LavalinkPlaylist.info Sample.playlist)
      ++ lit " (Part " ++ JSON.numberToString (Z.of_nat k + 1) ++ lit ")" /\
      PlaylistInfo.selectedTrack (LavalinkPlaylist.info chunk) =
      match k with
      | O => Z.min (PlaylistInfo.selectedTrack
                      (LavalinkPlaylist.info Sample.playlist))
                   (Z.of_nat (List.length (LavalinkPlaylist.tracks chunk)) - 1)
      | S _ => 0
      end.
Proof.
  apply (splitPlaylist_parts Sample.playlistEncoder Sample.playlist 3 []).
  - lia.
  - repeat constructor.
  - intros _. simpl. lia.
  - right. simpl. lia.
Defined.

(** C3 as stated fails: splitting four tracks with the last one selected
    (index 3) into chunks of two gives a first chunk whose selected index
    is 1, not 3. *)
Lemma splitPlaylist_first_selected_clamped :
  PlaylistInfo.selectedTrack (LavalinkPlaylist.info Sample.playlist) = 3 /\
  exists first rest,
    PlaylistEncoder.splitPlaylist Sample.playlistEncoder Sample.playlist 2 []
    = Some (Ok (first :: rest), []) /\
    PlaylistInfo.selectedTrack (LavalinkPlaylist.info first) = 1.
Proof.
  split; [reflexivity |]. do 2 eexists.
  split; [vm_compute; reflexivity | reflexivity].
Qed.

(** C5 (code defect): a facade built with [sourceName: 'custom'] encodes a
    record without a source as "custom" through [encodeTrack] but as
    "unknown" through [encodeDiscordTrack]; built with [validate: false]
    it encodes a record with an empty identifier through [encodeTrack] but
    throws through [encodeDiscordTrack], and takes an empty track list
    through [encodePlaylist] but throws through [encodeDiscordPlaylist].
    The same options given through [updateOptions] do reach the Discord
    encoder. *)
Theorem discord_encoder_misses_constructor_options :
  Spec.sourceOfToken
    (fmap Track.track
       (LavalinkEncoder.encodeTrack Sample.custom Sample.sourceless)) =
  Ok (Some (JSON.JString (lit "custom"))) /\
  Spec.sourceOfToken
    (fmap DiscordTrack.track
       (LavalinkEncoder.encodeDiscordTrack Sample.custom Sample.sourceless
          Sample.requester Sample.guildId Sample.channelId)) =
  Ok (Some (JSON.JString (lit "unknown"))) /\
  Spec.sourceOfToken
    (fmap DiscordTrack.track
       (LavalinkEncoder.encodeDiscordTrack
          (LavalinkEncoder.updateOptions Sample.encoder Sample.customOptions)
          Sample.sourceless Sample.requester Sample.guildId
          Sample.channelId)) =
  Ok (Some (JSON.JString (lit "custom"))) /\
  is_ok (LavalinkEncoder.encodeTrack Sample.lax Sample.unnamed) = true /\
  LavalinkEncoder.encodeDiscordTrack Sample.lax Sample.unnamed
    Sample.requester Sample.guildId Sample.channelId =
  Throw (Spec.violation Spec.Identifier) /\
  is_ok (fst (LavalinkEncoder.encodePlaylist Sample.lax
                (PlaylistInfo.mk (lit "Mix") 0) [] [])) = true /\
  fst (LavalinkEncoder.encodeDiscordPlaylist Sample.lax
         (PlaylistInfo.mk (lit "Mix") 0) [] Sample.requester Sample.guildId
         Sample.channelId []) =
  Throw (Error (Text (lit "Playlist must contain at least one track"))).
Proof.
  split; [vm_compute; reflexivity |]. split; [vm_compute; reflexivity |].
  split; [vm_compute; reflexivity |]. split; [vm_compute; reflexivity |].
  split; [vm_compute; reflexivity |]. split; vm_compute; reflexivity.
Qed.

(** C6 (amended): [encodePlaylist] keeps the first [min(n, maxTracks)]
    tracks in input order when [maxTracks > 0] and all [n] tracks
    otherwise; exceeding the cap raises no error; the warning is logged
    exactly when validation is enabled and [n] exceeds a positive cap, so
    with validation off the truncation is silent. *)
Theorem encodePlaylist_cap (this : PlaylistEncoder.t)
  (playlistInfo : PlaylistInfo.t) (tracks : list Track.t) (c : console) :
  let n := Z.of_nat (List.length tracks) in
  let limit := PlaylistEncoder.maxTracks (PlaylistEncoder.opts this) in
  let kept := if limit >? 0 then firstn (Z.to_nat limit) tracks else tracks in
  (PlaylistEncoder.validate (PlaylistEncoder.opts this) = true ->
   falsy (PlaylistInfo.name playlistInfo) = false /\
   0 <= PlaylistInfo.selectedTrack playlistInfo /\ tracks <> []) ->
  Forall (Spec.encodable this) kept ->
  exists playlist,
    PlaylistEncoder.encodePlaylist this playlistInfo tracks c =
    (Ok playlist,
     c ++ (if PlaylistEncoder.validate (PlaylistEncoder.opts this)
              && (limit >? 0) && (n >? limit)
           then [PlaylistEncoder.warning n limit] else [])) /\
    LavalinkPlaylist.tracks playlist = map (Spec.encoded this) kept /\
    map Track.info (LavalinkPlaylist.tracks playlist) = map Track.info kept /\
    Z.of_nat (List.length (LavalinkPlaylist.tracks playlist)) =
    (if limit >? 0 then Z.min n limit else n).
Proof.
  intros n limit kept Hvalid Henc.
  eexists. split;
    [apply PlaylistEncoderFacts.encodePlaylist_spec; assumption |].
  cbn [LavalinkPlaylist.tracks]. fold limit. fold kept.
  split; [reflexivity |]. split.
  - rewrite map_map. apply map_ext. intros track.
    unfold Spec.encoded. destruct (falsy (Track.track track)); reflexivity.
  - rewrite length_map. unfold kept.
    destruct (Z.gtb_spec limit 0); [| reflexivity].
    rewrite length_firstn. unfold n. lia.
Qed.

Lemma encodePlaylist_cap_witness :
  exists playlist,
    PlaylistEncoder.encodePlaylist
      (PlaylistEncoder.new
         (EncoderOptions.mk None None None None (Some 3) None))
      (PlaylistInfo.mk (lit "Mix") 0) Sample.fourTracks [] =
    (Ok playlist, [lit "Playlist contains 4 tracks, but maxTracks is set to 3"])
    /\
    LavalinkPlaylist.tracks playlist = firstn 3 Sample.fourTracks /\
    map Track.info (LavalinkPlaylist.tracks playlist) =
    map Track.info (firstn 3 Sample.fourTracks) /\
    Z.of_nat (List.length (LavalinkPlaylist.tracks playlist)) = 3.
Proof.
  apply (encodePlaylist_cap
           (PlaylistEncoder.new
              (EncoderOptions.mk None None None None (Some 3) None))
           (PlaylistInfo.mk (lit "Mix") 0) Sample.fourTracks []).
  - intros _. repeat split; simpl; try lia; discriminate.
  - repeat constructor.
Defined.

(** C6 as stated fails: with validation off and [maxTracks = 1], four
    tracks are cut down to one and nothing is logged. *)
Lemma encodePlaylist_silent_truncation :
  PlaylistEncoder.maxTracks
    (PlaylistEncoder.opts (LavalinkEncoder.playlistEncoder Sample.lax)) = 1 /\
  List.length Sample.fourTracks = 4%nat /\
  exists playlist,
    LavalinkEncoder.encodePlaylist Sample.lax (PlaylistInfo.mk (lit "Mix") 0)
      Sample.fourTracks [] = (Ok playlist, []) /\
    List.length (LavalinkPlaylist.tracks playlist) = 1%nat.
Proof.
  split; [reflexivity |]. split; [reflexivity |].
  eexists. split; [vm_compute; reflexivity | reflexivity].
Qed.

(** C7: for every playlist whose tracks all carry a token, with no more
    tracks than the cap and, when validation is on, at least one track and
    a selected index that is not negative, splitting into chunks of two and
    merging the chunks gives a playlist with the same track sequence, token
    for token and in order, and nothing is logged.  The tokens are needed:
    whenever the two calls return a playlist with the token sequence of the
    original, every track of the original carried a token. *)
Theorem merge_split_tracks (this : PlaylistEncoder.t) (p : LavalinkPlaylist.t)
  (newName : option jsstring) (c : console) :
  (PlaylistEncoder.validate (PlaylistEncoder.opts this) = true ->
   0 <= PlaylistInfo.selectedTrack (LavalinkPlaylist.info p) /\
   LavalinkPlaylist.tracks p <> []) ->
  PlaylistEncoder.maxTracks (PlaylistEncoder.opts this) <= 0 \/
  Z.of_nat (List.length (LavalinkPlaylist.tracks p))
  <= PlaylistEncoder.maxTracks (PlaylistEncoder.opts this) ->
  (Spec.tokened (LavalinkPlaylist.tracks p) ->
   exists chunks merged,
     PlaylistEncoder.splitPlaylist this p 2 c = Some (Ok chunks, c) /\
     PlaylistEncoder.mergePlaylists this chunks newName c = (Ok merged, c) /\
     LavalinkPlaylist.tracks merged = LavalinkPlaylist.tracks p /\
     map Track.track (LavalinkPlaylist.tracks merged) =
     map Track.track (LavalinkPlaylist.tracks p)) /\
  (forall chunks merged c1 c2,
     PlaylistEncoder.splitPlaylist this p 2 c = Some (Ok chunks, c1) ->
     PlaylistEncoder.mergePlaylists this chunks newName c1 = (Ok merged, c2) ->
     map Track.track (LavalinkPlaylist.tracks merged) =
     map Track.track (LavalinkPlaylist.tracks p) ->
     Spec.tokened (LavalinkPlaylist.tracks p)).
Proof.
  intros Hval Hcap. split.
  - intros Htok.
    assert (Hcap2 :
      PlaylistEncoder.maxTracks (PlaylistEncoder.opts this) <= 0 \/
      Z.min 2 (Z.of_nat (List.length (LavalinkPlaylist.tracks p)))
      <= PlaylistEncoder.maxTracks (PlaylistEncoder.opts this)) by lia.
    destruct (PlaylistEncoderFacts.splitPlaylist_spec this p 2 c
                ltac:(lia) Htok (fun H => proj1 (Hval H)) Hcap2)
      as (chunks & Hsplit & Hcat & Hsome & Hparts).
    exists chunks.
    assert (Hmerge : exists merged,
      PlaylistEncoder.mergePlaylists this chunks newName c = (Ok merged, c) /\
      LavalinkPlaylist.tracks merged = LavalinkPlaylist.tracks p).
    { unfold PlaylistEncoder.mergePlaylists. rewrite Hcat.
      rewrite PlaylistEncoderFacts.encodePlaylist_tokened;
        [eexists; split; reflexivity | exact Htok | | exact Hcap].
      intros Hon. destruct (Hval Hon) as [Hsel Hne].
      cbn [PlaylistInfo.name PlaylistInfo.selectedTrack].
      split; [| split; [| exact Hne]].
      - destruct newName as [n |];
          [destruct (falsy n) eqn:Hn; [reflexivity | exact Hn] | reflexivity].
      - destruct chunks as [| first rest];
          [exfalso; apply (Hsome Hne eq_refl) |].
        destruct (Hparts 0%nat) as (Hfirst & Hlen & _);
          [cbn [List.length]; lia |].
        cbn [nth_error] in Hfirst. inversion Hfirst.
        cbn [Spec.part LavalinkPlaylist.info PlaylistInfo.selectedTrack
             Spec.partSelected].
        lia. }
    destruct Hmerge as (merged & Hmerge & Htracks).
    exists merged. split; [exact Hsplit |]. split; [exact Hmerge |].
    split; [exact Htracks | rewrite Htracks; reflexivity].
  - intros chunks merged c1 c2 _ Hmerge Hsame.
    unfold PlaylistEncoder.mergePlaylists in Hmerge.
    destruct (PlaylistFacts.encodePlaylist_ok _ _ _ _ _ _ Hmerge)
      as (enc & Hmap & -> & _).
    destruct (PlaylistFacts.mapM_encodeIfNeeded_ok _ _ _ Hmap)
      as (_ & Htok & _).
    cbn [Shape.built LavalinkPlaylist.tracks] in Hsame.
    unfold Spec.tokened in *.
    apply Forall_map with (f := Track.track) (P := fun s => falsy s = false).
    rewrite <- Hsame. apply Forall_map. exact Htok.
Qed.

Lemma merge_split_tracks_witness :
  exists chunks merged,
    PlaylistEncoder.splitPlaylist Sample.playlistEncoder Sample.threeTracks
      2 [] = Some (Ok chunks, []) /\
    PlaylistEncoder.mergePlaylists Sample.playlistEncoder chunks None [] =
    (Ok merged, []) /\
    LavalinkPlaylist.tracks merged =
    LavalinkPlaylist.tracks Sample.threeTracks /\
    map Track.track (LavalinkPlaylist.tracks merged) =
    map Track.track (LavalinkPlaylist.tracks Sample.threeTracks).
Proof.
  apply (merge_split_tracks Sample.playlistEncoder Sample.threeTracks None []).
  - intros _. split; [simpl; lia | discriminate].
  - right. simpl. lia.
  - repeat constructor.
Defined.

(** C7 as stated fails: on three tracks of which the second has no
    token, splitting by two and merging returns a second track with a
    computed token of 300 code units where the original had none; and with
    the selected index -1 under validation [splitPlaylist] throws. *)
Lemma merge_split_encodes_missing_token :
  (exists chunks merged,
     PlaylistEncoder.splitPlaylist Sample.playlistEncoder Sample.gapped 2 []
     = Some (Ok chunks, []) /\
     PlaylistEncoder.mergePlaylists Sample.playlistEncoder chunks None []
     = (Ok merged, []) /\
     map (fun track => List.length (Track.track track))
         (LavalinkPlaylist.tracks merged) = [8; 300; 8]%nat /\
     map (fun track => List.length (Track.track track))
         (LavalinkPlaylist.tracks Sample.gapped) = [8; 0; 8]%nat /\
     map Track.track (LavalinkPlaylist.tracks merged) <>
     map Track.track (LavalinkPlaylist.tracks Sample.gapped)) /\
  PlaylistEncoder.splitPlaylist Sample.playlistEncoder Sample.unselected 2 [] =
  Some (Throw (Error (Text
          (lit "Selected track must be a non-negative number"))), []).
Proof.
  split; [| vm_compute; reflexivity].
  do 2 eexists.
  split; [vm_compute; reflexivity |].
  split; [vm_compute; reflexivity |].
  split; [vm_compute; reflexivity |].
  split; [reflexivity |].
  intros H. apply (f_equal (map (@List.length Z))) in H.
  vm_compute in H. discriminate H.
Qed.

(** C8: with validation enabled, encoding a record with one or more
    invalid required fields throws the error of the first failing field in
    the order identifier, title, author, length, uri, and the message names
    that field and no other. *)
Theorem validation_reports_first_failure (this : TrackEncoder.t)
  (r : TrackInfo.t) (f : Spec.Field) (others : list Spec.Field) :
  TrackEncoder.validate (TrackEncoder.opts this) = true ->
  Spec.failing r = f :: others ->
  TrackEncoder.encodeTrack this r = Throw (Spec.violation f) /\
  forall g, Spec.names (Spec.violation f) g = Spec.Field_eqb g f.
Proof.
  intros Hval Hfail.
  assert (Hnames : forall f' g,
            Spec.names (Spec.violation f') g = Spec.Field_eqb g f')
    by (intros [] []; vm_compute; reflexivity).
  split; [| apply Hnames].
  unfold TrackEncoder.encodeTrack, TrackEncoder.validateTrackInfo.
  rewrite Hval.
  unfold Spec.failing, Spec.checkOrder, Spec.invalid in Hfail.
  cbn [filter] in Hfail.
  destruct (falsy (TrackInfo.identifier r));
    [inversion Hfail; reflexivity |].
  destruct (falsy (TrackInfo.title r)); [inversion Hfail; reflexivity |].
  destruct (falsy (TrackInfo.author r)); [inversion Hfail; reflexivity |].
  destruct (TrackInfo.length r <? 0); [inversion Hfail; reflexivity |].
  destruct (falsy (TrackInfo.uri r)); [inversion Hfail; reflexivity |].
  discriminate Hfail.
Qed.

Lemma validation_reports_first_failure_witness :
  TrackEncoder.encodeTrack Sample.trackEncoder Sample.unnamed =
  Throw (Spec.violation Spec.Identifier) /\
  forall g, Spec.names (Spec.violation Spec.Identifier) g =
            Spec.Field_eqb g Spec.Identifier.
Proof.
  apply (validation_reports_first_failure Sample.trackEncoder Sample.unnamed
           Spec.Identifier [Spec.Title]); reflexivity.
Defined.

(** C9: [decodeMultipleTracks] returns one result per token, in order; the
    result at index [i] is the decoded record when the decoder returns and
    the failure with index [i] and the error's message when it throws,
    whatever happens at the other positions. *)
Theorem decodeMultipleTracks_isolates (A : Type) (tokens : list jsstring)
  (decoder : jsstring -> result A) :
  List.length (Utils.decodeMultipleTracks tokens decoder)
  = List.length tokens /\
  forall i token,
    nth_error tokens i = Some token ->
    nth_error (Utils.decodeMultipleTracks tokens decoder) i =
    Some (match decoder token with
          | Ok track => Utils.Success track
          | Throw e => Utils.Failure (messageOf e) (Z.of_nat i)
          end).
Proof.
  unfold Utils.decodeMultipleTracks.
  assert (Hfrom : forall ts index,
    List.length (Utils.decodeFrom decoder index ts) = List.length ts /\
    forall i token,
      nth_error ts i = Some token ->
      nth_error (Utils.decodeFrom decoder index ts) i =
      Some (match decoder token with
            | Ok track => Utils.Success track
            | Throw e => Utils.Failure (messageOf e) (index + Z.of_nat i)
            end)).
  { induction ts as [| t ts IH]; intros index.
    - split; [reflexivity |]. intros [| i] token H; discriminate H.
    - destruct (IH (index + 1)) as [Hlen Hnth].
      split; [cbn [Utils.decodeFrom List.length]; rewrite Hlen; reflexivity |].
      intros [| i] token H; cbn [nth_error Utils.decodeFrom] in *.
      + inversion H; subst. rewrite Z.add_0_r. reflexivity.
      + rewrite (Hnth i token H).
        replace (index + 1 + Z.of_nat i) with (index + Z.of_nat (S i)) by lia.
        reflexivity. }
  exact (Hfrom tokens 0).
Qed.

(** The batch of the specification: three tokens, the second malformed. *)
Example decodeMultipleTracks_second_malformed :
  exists first third,
    Utils.decodeMultipleTracks
      [TrackEncoder.encodeTrackData
         (JSON.JObject (TrackEncoder.trackData Sample.trackEncoder Sample.rick));
       lit "invalid-base64-string";
       TrackEncoder.encodeTrackData
         (JSON.JObject
            (TrackEncoder.trackData Sample.trackEncoder Sample.rickFull))]
      TrackEncoder.decodeTrack =
    [Utils.Success first;
     Utils.Failure
       (Append (lit "Failed to decode track: ")
               (Text (lit "Invalid string. Length must be a multiple of 4")))
       1;
     Utils.Success third].
Proof. do 2 eexists. vm_compute. reflexivity. Qed.

(** C10: for every identifier, title, author, uri and non-negative length,
    the record of a track that [createTrack] returns without overrides
    holds the five arguments, the length among them, has [isStream] exactly
    when its length is 0 and [isSeekable] exactly when its length is
    positive, so exactly one of the two, position 0, the configured default
    source and neither artwork nor ISRC; and [createTrack] returns a track
    when validation is off or the four strings are not empty. *)
Theorem createTrack_cross_fields (this : TrackEncoder.t)
  (identifier title author : jsstring) (length : Z) (uri : jsstring) :
  0 <= length ->
  (forall created,
     TrackEncoder.createTrack this identifier title author length uri
       TrackInfo.none = Ok created ->
     let r := Track.info created in
     r = TrackInfo.mk identifier (length >? 0) author length (length =? 0) 0
           title uri (TrackEncoder.sourceName (TrackEncoder.opts this))
           None None /\
     TrackInfo.length r = length /\
     TrackInfo.isStream r = (TrackInfo.length r =? 0) /\
     TrackInfo.isSeekable r = (TrackInfo.length r >? 0) /\
     TrackInfo.isStream r = negb (TrackInfo.isSeekable r) /\
     TrackInfo.position r = 0 /\
     TrackInfo.sourceName r = TrackEncoder.sourceName (TrackEncoder.opts this))
  /\
  (TrackEncoder.validate (TrackEncoder.opts this) = false \/
   (falsy identifier = false /\ falsy title = false /\
    falsy author = false /\ falsy uri = false) ->
   exists created,
     TrackEncoder.createTrack this identifier title author length uri
       TrackInfo.none = Ok created).
Proof.
  intros Hlen.
  set (built := TrackEncoder.createTrackInfo this identifier title author
                  length uri TrackInfo.none).
  assert (Hbuilt :
    built = TrackInfo.mk identifier (length >? 0) author length (length =? 0)
              0 title uri (TrackEncoder.sourceName (TrackEncoder.opts this))
              None None) by reflexivity.
  unfold TrackEncoder.createTrack. fold built. split.
  - intros created Hcreated. cbv zeta.
    assert (Hr : Track.info created = built).
    { unfold TrackEncoder.encodeTrack in Hcreated.
      destruct (if TrackEncoder.validate _ then _ else _);
        cbn [bind] in Hcreated; [| discriminate Hcreated].
      inversion Hcreated. reflexivity. }
    rewrite Hr, Hbuilt.
    cbn [TrackInfo.length TrackInfo.isStream TrackInfo.isSeekable
         TrackInfo.position TrackInfo.sourceName].
    split; [reflexivity |]. split; [reflexivity |].
    split; [reflexivity |]. split; [reflexivity |].
    split; [| split; reflexivity].
    destruct (Z.eqb_spec length 0) as [-> | Hpos]; [reflexivity |].
    replace (length >? 0) with true
      by (symmetry; apply Z.gtb_lt; lia).
    reflexivity.
  - intros Hvalid.
    exists (Track.mk
              (TrackEncoder.encodeTrackData
                 (JSON.JObject (TrackEncoder.trackData this built))) built).
    apply TrackEncoderFacts.encodeTrack_ok.
    destruct Hvalid as [Hoff | (Hid & Hti & Hau & Huri)];
      [left; exact Hoff | right].
    rewrite Hbuilt. unfold TrackEncoder.validateTrackInfo. cbn.
    rewrite Hid, Hti, Hau, Huri.
    replace (length <? 0) with false by (symmetry; apply Z.ltb_ge; lia).
    reflexivity.
Qed.

Lemma createTrack_cross_fields_witness :
  exists created,
    TrackEncoder.createTrack Sample.trackEncoder (lit "a1b2c3")
      (lit "Morning Show") (lit "Radio One") 5000
      (lit "https://example.org/show") TrackInfo.none = Ok created /\
    TrackInfo.length (Track.info created) = 5000 /\
    TrackInfo.isStream (Track.info created) = false /\
    TrackInfo.isSeekable (Track.info created) = true /\
    TrackInfo.position (Track.info created) = 0 /\
    TrackInfo.sourceName (Track.info created) = lit "unknown".
Proof.
  destruct (createTrack_cross_fields Sample.trackEncoder (lit "a1b2c3")
              (lit "Morning Show") (lit "Radio One") 5000
              (lit "https://example.org/show") ltac:(lia))
    as [Hrecord Hreturns].
  destruct Hreturns as [created Hcreated].
  { right. repeat split; reflexivity. }
  exists created. split; [exact Hcreated |].
  destruct (Hrecord created Hcreated) as (Hr & _).
  rewrite Hr. repeat split; reflexivity.
Defined.

(** * Further properties of the code *)

(** ** The track encoder *)

(** X1: [createYouTubeTrack] without overrides, on strings and a duration
    in seconds that pass validation (or with validation off), returns a track
    whose record holds the video identifier, the duration in milliseconds,
    the watch URI and the source "youtube", and whose token decodes to
    exactly these nine fields, whatever source name the encoder is
    configured with.  The duration is one whose milliseconds are a safe
    integer, so that the product is exact. *)
Theorem createYouTubeTrack_roundtrip (this : TrackEncoder.t)
  (videoId title author : jsstring) (duration : Z) :
  wf_string videoId -> wf_string title -> wf_string author ->
  Utils.safeInteger (duration * 1000) = true ->
  TrackEncoder.validate (TrackEncoder.opts this) = false \/
  (falsy videoId = false /\ falsy title = false /\ falsy author = false /\
   0 <= duration) ->
  exists token,
    TrackEncoder.createYouTubeTrack this videoId title author duration
      TrackInfo.none =
    Ok (Track.mk token
          (TrackInfo.mk videoId (duration >? 0) author (duration * 1000)
             (duration =? 0) 0 title
             (lit "https://www.youtube.com/watch?v=" ++ videoId)
             (lit "youtube") None None)) /\
    TrackEncoder.decodeTrack token =
    Ok (JSON.JObject
          [(lit "identifier", JSON.JString videoId);
           (lit "isSeekable", JSON.JBool (duration >? 0));
           (lit "author", JSON.JString author);
           (lit "length", JSON.JNumber (duration * 1000));
           (lit "isStream", JSON.JBool (duration =? 0));
           (lit "position", JSON.JNumber 0);
           (lit "title", JSON.JString title);
           (lit "uri",
            JSON.JString (lit "https://www.youtube.com/watch?v=" ++ videoId));
           (lit "sourceName", JSON.JString (lit "youtube"))]).
Proof.
  intros Hid Hti Hau _ Hvalid.
  rewrite FactoryFacts.createYouTubeTrack_encodes, FactoryFacts.override_none.
  destruct (FactoryFacts.encodeTrack_plain_record this videoId author title
              (youtubeUri videoId) (lit "youtube") (duration >? 0)
              (duration =? 0) (duration * 1000) 0)
    as (token & Henc & _ & Hdec); try assumption.
  - apply FactoryFacts.wf_app; [apply TrackEncoderFacts.wf_lit | exact Hid].
  - apply TrackEncoderFacts.wf_lit.
  - reflexivity.
  - destruct Hvalid as [Hoff | (H1 & H2 & H3 & H4)]; [left; exact Hoff |].
    right. unfold TrackEncoder.validateTrackInfo. cbn.
    rewrite H1, H2, H3.
    replace (duration * 1000 <? 0) with false
      by (symmetry; apply Z.ltb_ge; lia).
    reflexivity.
  - exists token. split; [exact Henc | exact Hdec].
Qed.

Lemma createYouTubeTrack_roundtrip_witness :
  exists token,
    TrackEncoder.createYouTubeTrack Sample.trackEncoder Examples.videoId
      Examples.title Examples.author 212 TrackInfo.none =
    Ok (Track.mk token
          (TrackInfo.mk Examples.videoId true Examples.author 212000 false 0
             Examples.title
             (lit "https://www.youtube.com/watch?v=dQw4w9WgXcQ")
             (lit "youtube") None None)) /\
    TrackEncoder.decodeTrack token =
    Ok (JSON.JObject
          [(lit "identifier", JSON.JString Examples.videoId);
           (lit "isSeekable", JSON.JBool true);
           (lit "author", JSON.JString Examples.author);
           (lit "length", JSON.JNumber 212000);
           (lit "isStream", JSON.JBool false);
           (lit "position", JSON.JNumber 0);
           (lit "title", JSON.JString Examples.title);
           (lit "uri",
            JSON.JString (lit "https://www.youtube.com/watch?v=dQw4w9WgXcQ"));
           (lit "sourceName", JSON.JString (lit "youtube"))]).
Proof.
  apply (createYouTubeTrack_roundtrip Sample.trackEncoder Examples.videoId
           Examples.title Examples.author 212);
    try apply TrackEncoderFacts.wf_lit; [reflexivity |].
  right. split; [reflexivity |]. split; [reflexivity |].
  split; [reflexivity | lia].
Defined.

(** X2: [createSpotifyTrack] and [createSoundCloudTrack] without overrides,
    on strings and a duration in milliseconds that pass validation (or with
    validation off), return a track whose token decodes to the nine fields
    of the record they build: the track identifier, the duration as it was
    given, the source "spotify" or "soundcloud", and a URI made of the
    track identifier for Spotify but of the author and the title for
    SoundCloud. *)
Theorem spotify_and_soundcloud_tracks_roundtrip (this : TrackEncoder.t)
  (trackId title author : jsstring) (duration : Z) :
  wf_string trackId -> wf_string title -> wf_string author ->
  TrackEncoder.validate (TrackEncoder.opts this) = false \/
  (falsy trackId = false /\ falsy title = false /\ falsy author = false /\
   0 <= duration) ->
  (exists token,
     TrackEncoder.createSpotifyTrack this trackId title author duration
       TrackInfo.none =
     Ok (Track.mk token
           (TrackInfo.mk trackId (duration >? 0) author duration
              (duration =? 0) 0 title
              (lit "https://open.spotify.com/track/" ++ trackId)
              (lit "spotify") None None)) /\
     TrackEncoder.decodeTrack token =
     Ok (JSON.JObject
           [(lit "identifier", JSON.JString trackId);
            (lit "isSeekable", JSON.JBool (duration >? 0));
            (lit "author", JSON.JString author);
            (lit "length", JSON.JNumber duration);
            (lit "isStream", JSON.JBool (duration =? 0));
            (lit "position", JSON.JNumber 0);
            (lit "title", JSON.JString title);
            (lit "uri",
             JSON.JString (lit "https://open.spotify.com/track/" ++ trackId));
            (lit "sourceName", JSON.JString (lit "spotify"))])) /\
  (exists token,
     TrackEncoder.createSoundCloudTrack this trackId title author duration
       TrackInfo.none =
     Ok (Track.mk token
           (TrackInfo.mk trackId (duration >? 0) author duration
              (duration =? 0) 0 title
              (lit "https://soundcloud.com/" ++ author ++ lit "/" ++ title)
              (lit "soundcloud") None None)) /\
     TrackEncoder.decodeTrack token =
     Ok (JSON.JObject
           [(lit "identifier", JSON.JString trackId);
            (lit "isSeekable", JSON.JBool (duration >? 0));
            (lit "author", JSON.JString author);
            (lit "length", JSON.JNumber duration);
            (lit "isStream", JSON.JBool (duration =? 0));
            (lit "position", JSON.JNumber 0);
            (lit "title", JSON.JString title);
            (lit "uri",
             JSON.JString
               (lit "https://soundcloud.com/" ++ author ++ lit "/" ++ title));
            (lit "sourceName", JSON.JString (lit "soundcloud"))])).
Proof.
  intros Hid Hti Hau Hvalid.
  assert (Hrecord : forall uri source,
    TrackEncoder.validate (TrackEncoder.opts this) = false \/
    TrackEncoder.validateTrackInfo
      (TrackInfo.mk trackId (duration >? 0) author duration (duration =? 0)
         0 title (lit "https://" ++ uri) source None None) = Ok tt).
  { intros uri source.
    destruct Hvalid as [Hoff | (H1 & H2 & H3 & H4)]; [left; exact Hoff |].
    right. unfold TrackEncoder.validateTrackInfo. cbn.
    rewrite H1, H2, H3.
    replace (duration <? 0) with false by (symmetry; apply Z.ltb_ge; lia).
    reflexivity. }
  split.
  - rewrite FactoryFacts.createSpotifyTrack_encodes,
      FactoryFacts.override_none.
    destruct (FactoryFacts.encodeTrack_plain_record this trackId author title
                (spotifyUri trackId) (lit "spotify") (duration >? 0)
                (duration =? 0) duration 0)
      as (token & Henc & _ & Hdec); try assumption.
    + apply FactoryFacts.wf_app; [apply TrackEncoderFacts.wf_lit | exact Hid].
    + apply TrackEncoderFacts.wf_lit.
    + reflexivity.
    + apply (Hrecord (lit "open.spotify.com/track/" ++ trackId)).
    + exists token. split; [exact Henc | exact Hdec].
  - rewrite FactoryFacts.createSoundCloudTrack_encodes,
      FactoryFacts.override_none.
    destruct (FactoryFacts.encodeTrack_plain_record this trackId author title
                (soundcloudUri author title) (lit "soundcloud")
                (duration >? 0) (duration =? 0) duration 0)
      as (token & Henc & _ & Hdec); try assumption.
    + repeat apply FactoryFacts.wf_app; try assumption;
        apply TrackEncoderFacts.wf_lit.
    + apply TrackEncoderFacts.wf_lit.
    + reflexivity.
    + apply (Hrecord (lit "soundcloud.com/" ++ author ++ lit "/" ++ title)).
    + exists token. split; [exact Henc | exact Hdec].
Qed.

Lemma spotify_and_soundcloud_tracks_roundtrip_witness :
  (exists token,
     fmap Track.track
       (TrackEncoder.createSpotifyTrack Sample.trackEncoder
          (lit "4uLU6hMCjMI75M1A2tKUQC") Examples.title Examples.author
          212000 TrackInfo.none) = Ok token /\
     is_ok (TrackEncoder.decodeTrack token) = true) /\
  (exists token,
     fmap Track.track
       (TrackEncoder.createSoundCloudTrack Sample.trackEncoder
          (lit "4uLU6hMCjMI75M1A2tKUQC") Examples.title Examples.author
          212000 TrackInfo.none) = Ok token /\
     is_ok (TrackEncoder.decodeTrack token) = true).
Proof.
  destruct (spotify_and_soundcloud_tracks_roundtrip Sample.trackEncoder
              (lit "4uLU6hMCjMI75M1A2tKUQC") Examples.title Examples.author
              212000)
    as [(spotify & Hs1 & Hs2) (soundcloud & Hc1 & Hc2)];
    try apply TrackEncoderFacts.wf_lit.
  - right. split; [reflexivity |]. split; [reflexivity |].
    split; [reflexivity | lia].
  - split.
    + exists spotify. rewrite Hs1, Hs2. split; reflexivity.
    + exists soundcloud. rewrite Hc1, Hc2. split; reflexivity.
Defined.

(** ** The playlist encoder *)

(** X3: with validation on, [encodePlaylist] checks in a fixed order and
    throws at the first failure: an empty name, then a negative selected
    index, then an empty track list (nothing is logged in these cases),
    then the kept tracks in order, where a track without token is encoded
    and throws the error of its first failing field; by then the warning of
    a list over the cap has been logged. *)
Theorem encodePlaylist_check_order (this : PlaylistEncoder.t)
  (playlistInfo : PlaylistInfo.t) (tracks : list Track.t) (c : console) :
  PlaylistEncoder.validate (PlaylistEncoder.opts this) = true ->
  (falsy (PlaylistInfo.name playlistInfo) = true ->
   PlaylistEncoder.encodePlaylist this playlistInfo tracks c =
   (Throw (Error (Text (lit "Playlist name is required"))), c)) /\
  (falsy (PlaylistInfo.name playlistInfo) = false ->
   PlaylistInfo.selectedTrack playlistInfo < 0 ->
   PlaylistEncoder.encodePlaylist this playlistInfo tracks c =
   (Throw (Error (Text (lit "Selected track must be a non-negative number"))),
    c)) /\
  (falsy (PlaylistInfo.name playlistInfo) = false ->
   0 <= PlaylistInfo.selectedTrack playlistInfo ->
   tracks = [] ->
   PlaylistEncoder.encodePlaylist this playlistInfo tracks c =
   (Throw (Error (Text (lit "Playlist must contain at least one track"))),
    c)) /\
  (falsy (PlaylistInfo.name playlistInfo) = false ->
   0 <= PlaylistInfo.selectedTrack playlistInfo ->
   tracks <> [] ->
   forall pre bad post f others,
     Shape.kept this tracks = pre ++ bad :: post ->
     Forall (Spec.encodable this) pre ->
     falsy (Track.track bad) = true ->
     TrackEncoder.validate
       (TrackEncoder.opts (PlaylistEncoder.trackEncoder this)) = true ->
     Spec.failing (Track.info bad) = f :: others ->
     PlaylistEncoder.encodePlaylist this playlistInfo tracks c =
     (Throw (Spec.violation f), Shape.warned this tracks c)).
Proof.
  intros Hval. rewrite PlaylistFacts.encodePlaylist_cases, Hval.
  split; [intros ->; reflexivity |].
  split.
  { intros -> Hsel.
    replace (PlaylistInfo.selectedTrack playlistInfo <? 0) with true
      by (symmetry; apply Z.ltb_lt; exact Hsel).
    reflexivity. }
  split.
  { intros -> Hsel ->.
    replace (PlaylistInfo.selectedTrack playlistInfo <? 0) with false
      by (symmetry; apply Z.ltb_ge; exact Hsel).
    reflexivity. }
  intros -> Hsel Hne pre bad post f others Hkept Hpre Hbad Hv Hfail.
  replace (PlaylistInfo.selectedTrack playlistInfo <? 0) with false
    by (symmetry; apply Z.ltb_ge; exact Hsel).
  replace (Z.of_nat (List.length tracks) =? 0) with false
    by (symmetry; apply Z.eqb_neq; destruct tracks;
        [congruence | cbn [List.length]; lia]).
  unfold Shape.finish. rewrite Hkept.
  rewrite (PlaylistFacts.mapM_encodeIfNeeded_throw this pre post bad
             (Spec.violation f) Hpre); [reflexivity |].
  unfold PlaylistEncoder.encodeIfNeeded. rewrite Hbad. cbn [negb].
  unfold TrackEncoder.encodeTrack. rewrite Hv.
  unfold TrackEncoder.validateTrackInfo.
  unfold Spec.failing, Spec.checkOrder, Spec.invalid in Hfail.
  cbn [filter] in Hfail.
  destruct (falsy (TrackInfo.identifier (Track.info bad)));
    [inversion Hfail; reflexivity |].
  destruct (falsy (TrackInfo.title (Track.info bad)));
    [inversion Hfail; reflexivity |].
  destruct (falsy (TrackInfo.author (Track.info bad)));
    [inversion Hfail; reflexivity |].
  destruct (TrackInfo.length (Track.info bad) <? 0);
    [inversion Hfail; reflexivity |].
  destruct (falsy (TrackInfo.uri (Track.info bad)));
    [inversion Hfail; reflexivity |].
  discriminate Hfail.
Qed.

Lemma encodePlaylist_check_order_witness :
  PlaylistEncoder.encodePlaylist Sample.playlistEncoder
    (PlaylistInfo.mk (lit "Mix") 0) Examples.mixed [] =
  (Throw (Error (Text (lit "Track identifier is required"))), []) /\
  PlaylistEncoder.encodePlaylist Sample.playlistEncoder
    (PlaylistInfo.mk [] (-1)) [] [] =
  (Throw (Error (Text (lit "Playlist name is required"))), []).
Proof.
  destruct (encodePlaylist_check_order Sample.playlistEncoder
              (PlaylistInfo.mk (lit "Mix") 0) Examples.mixed [] eq_refl)
    as (_ & _ & _ & Htrack).
  destruct (encodePlaylist_check_order Sample.playlistEncoder
              (PlaylistInfo.mk [] (-1)) [] [] eq_refl) as (Hname & _).
  split; [| apply Hname; reflexivity].
  apply (Htrack eq_refl ltac:(cbn; lia) ltac:(discriminate)
           [Sample.tokenedTrack "dG9rZW4x"] (Track.mk [] Sample.unnamed)
           [Sample.tokenedTrack "dG9rZW4y"] Spec.Identifier [Spec.Title]);
    try reflexivity.
  constructor; [left; reflexivity | constructor].
Defined.

(** X4: with validation off, on a playlist encoder whose track encoder
    holds its options, [encodePlaylist] never throws and never logs: it
    returns the kept tracks, encoding those without token, for every name
    and every selected index; on an empty track list the selected index of
    the result is at most -1. *)
Theorem encodePlaylist_unvalidated_total (this : PlaylistEncoder.t)
  (playlistInfo : PlaylistInfo.t) (tracks : list Track.t) (c : console) :
  PlaylistEncoder.coherent this ->
  PlaylistEncoder.validate (PlaylistEncoder.opts this) = false ->
  exists playlist,
    PlaylistEncoder.encodePlaylist this playlistInfo tracks c
    = (Ok playlist, c) /\
    LavalinkPlaylist.tracks playlist =
    map (Spec.encoded this) (Shape.kept this tracks) /\
    PlaylistInfo.name (LavalinkPlaylist.info playlist) =
    PlaylistInfo.name playlistInfo /\
    PlaylistInfo.selectedTrack (LavalinkPlaylist.info playlist) =
    Z.min (PlaylistInfo.selectedTrack playlistInfo)
          (Z.of_nat (List.length (Shape.kept this tracks)) - 1) /\
    (tracks = [] ->
     PlaylistInfo.selectedTrack (LavalinkPlaylist.info playlist) <= -1).
Proof.
  intros Hco Hval.
  assert (Henc : Forall (Spec.encodable this) (Shape.kept this tracks)).
  { apply Forall_forall. intros track _. right. left.
    rewrite Hco. exact Hval. }
  exists (Shape.built playlistInfo
            (map (Spec.encoded this) (Shape.kept this tracks))).
  split.
  - rewrite PlaylistFacts.encodePlaylist_cases, Hval. unfold Shape.finish.
    rewrite PlaylistEncoderFacts.mapM_encodeIfNeeded by exact Henc.
    reflexivity.
  - cbn [Shape.built LavalinkPlaylist.tracks LavalinkPlaylist.info
         PlaylistInfo.name PlaylistInfo.selectedTrack].
    rewrite length_map.
    split; [reflexivity |]. split; [reflexivity |].
    split; [reflexivity |].
    intros ->. unfold Shape.kept.
    destruct (_ >? 0); rewrite ?firstn_nil; cbn [List.length]; lia.
Qed.

Lemma encodePlaylist_unvalidated_total_witness :
  exists playlist,
    PlaylistEncoder.encodePlaylist
      (LavalinkEncoder.playlistEncoder Sample.lax)
      (PlaylistInfo.mk [] 0) [] []
    = (Ok playlist, []) /\
    LavalinkPlaylist.tracks playlist = [] /\
    PlaylistInfo.name (LavalinkPlaylist.info playlist) = [] /\
    PlaylistInfo.selectedTrack (LavalinkPlaylist.info playlist) = -1 /\
    (@nil Track.t = [] ->
     PlaylistInfo.selectedTrack (LavalinkPlaylist.info playlist) <= -1).
Proof.
  apply (encodePlaylist_unvalidated_total
           (LavalinkEncoder.playlistEncoder Sample.lax)
           (PlaylistInfo.mk [] 0) [] []); reflexivity.
Defined.

(** X5: [encodePlaylist] is idempotent: encoding the info and the tracks of
    a playlist that [encodePlaylist] returned gives the same playlist back
    and logs nothing, under the same encoder, with validation on or off. *)
Theorem encodePlaylist_idempotent (this : PlaylistEncoder.t)
  (playlistInfo : PlaylistInfo.t) (tracks : list Track.t)
  (c c' c2 : console) (playlist : LavalinkPlaylist.t) :
  PlaylistEncoder.encodePlaylist this playlistInfo tracks c
  = (Ok playlist, c') ->
  PlaylistEncoder.encodePlaylist this (LavalinkPlaylist.info playlist)
    (LavalinkPlaylist.tracks playlist) c2 = (Ok playlist, c2).
Proof.
  intros Hcall.
  destruct (PlaylistFacts.encodePlaylist_ok _ _ _ _ _ _ Hcall)
    as (enc & Hmap & -> & Hvalid & _).
  destruct (PlaylistFacts.mapM_encodeIfNeeded_ok _ _ _ Hmap)
    as (Hlen & Htok & _).
  pose proof (PlaylistFacts.kept_length this tracks) as Hcap.
  rewrite <- Hlen in Hcap.
  cbn [Shape.built LavalinkPlaylist.info LavalinkPlaylist.tracks].
  rewrite PlaylistEncoderFacts.encodePlaylist_tokened.
  - cbn [PlaylistInfo.name PlaylistInfo.selectedTrack].
    rewrite <- Z.min_assoc, Z.min_id. reflexivity.
  - exact Htok.
  - intros Hval. destruct (Hvalid Hval) as (Hname & Hsel & Hne & _).
    cbn [PlaylistInfo.name PlaylistInfo.selectedTrack].
    pose proof (PlaylistFacts.kept_nonempty this tracks Hne) as Hk.
    assert (Henc : enc <> []).
    { intros ->. cbn [List.length] in Hlen.
      destruct (Shape.kept this tracks); [congruence | discriminate]. }
    split; [exact Hname |]. split; [| exact Henc].
    destruct enc; [congruence |]. cbn [List.length]. lia.
  - exact Hcap.
Qed.

Lemma encodePlaylist_idempotent_witness :
  PlaylistEncoder.encodePlaylist
    (LavalinkEncoder.playlistEncoder Sample.lax)
    (PlaylistInfo.mk (lit "Mix") 0) [Sample.tokenedTrack "dG9rZW4x"]
    [lit "earlier line"] =
  (Ok (LavalinkPlaylist.mk (PlaylistInfo.mk (lit "Mix") 0) []
         [Sample.tokenedTrack "dG9rZW4x"]), [lit "earlier line"]).
Proof.
  apply (encodePlaylist_idempotent
           (LavalinkEncoder.playlistEncoder Sample.lax)
           (PlaylistInfo.mk (lit "Mix") 3) Sample.fourTracks [] []
           [lit "earlier line"]
           (LavalinkPlaylist.mk (PlaylistInfo.mk (lit "Mix") 0) []
              [Sample.tokenedTrack "dG9rZW4x"])).
  reflexivity.
Defined.

(** X6: a playlist that [encodePlaylist] returns holds the records of the
    kept input tracks, in order and unchanged; every track of it carries a
    token, a kept track that came with a token is passed through as it is,
    the total duration is the one of the kept input tracks and the plugin
    info is empty. *)
Theorem encodePlaylist_keeps_records (this : PlaylistEncoder.t)
  (playlistInfo : PlaylistInfo.t) (tracks : list Track.t) (c c' : console)
  (playlist : LavalinkPlaylist.t) :
  PlaylistEncoder.encodePlaylist this playlistInfo tracks c
  = (Ok playlist, c') ->
  map Track.info (LavalinkPlaylist.tracks playlist) =
  map Track.info (Shape.kept this tracks) /\
  Forall (fun track => falsy (Track.track track) = false)
         (LavalinkPlaylist.tracks playlist) /\
  (forall i track, nth_error (Shape.kept this tracks) i = Some track ->
                   falsy (Track.track track) = false ->
                   nth_error (LavalinkPlaylist.tracks playlist) i
                   = Some track) /\
  Utils.calculatePlaylistDuration playlist =
  Utils.calculateTotalDuration (Shape.kept this tracks) /\
  LavalinkPlaylist.pluginInfo playlist = [].
Proof.
  intros Hcall.
  destruct (PlaylistFacts.encodePlaylist_ok _ _ _ _ _ _ Hcall)
    as (enc & Hmap & -> & _).
  destruct (PlaylistFacts.mapM_encodeIfNeeded_ok _ _ _ Hmap)
    as (Hlen & Htok & Hinfo).
  cbn [Shape.built LavalinkPlaylist.tracks LavalinkPlaylist.pluginInfo].
  split; [exact Hinfo |]. split; [exact Htok |].
  split; [| split; [| reflexivity]].
  - clear Hlen Htok Hinfo Hcall. revert enc Hmap.
    induction (Shape.kept this tracks) as [| t ts IH];
      intros enc Hmap i track Hi Ht.
    + destruct i; discriminate Hi.
    + cbn [mapM bind] in Hmap.
      destruct (PlaylistEncoder.encodeIfNeeded this t) as [y |] eqn:Hy;
        [| discriminate Hmap].
      destruct (mapM _ ts) as [ys |]; [| discriminate Hmap].
      inversion Hmap; subst. destruct i as [| i]; cbn [nth_error] in *.
      * inversion Hi; subst.
        unfold PlaylistEncoder.encodeIfNeeded in Hy. rewrite Ht in Hy.
        cbn [negb] in Hy. congruence.
      * apply (IH ys eq_refl i track Hi Ht).
  - unfold Utils.calculatePlaylistDuration.
    cbn [LavalinkPlaylist.tracks].
    apply UtilsFacts.calculateTotalDuration_infos. exact Hinfo.
Qed.

Lemma encodePlaylist_keeps_records_witness :
  map Track.info Sample.fourTracks =
  map Track.info (Shape.kept Sample.playlistEncoder Sample.fourTracks) /\
  Forall (fun track => falsy (Track.track track) = false) Sample.fourTracks /\
  (forall i track,
     nth_error (Shape.kept Sample.playlistEncoder Sample.fourTracks) i
     = Some track ->
     falsy (Track.track track) = false ->
     nth_error Sample.fourTracks i = Some track) /\
  Utils.calculatePlaylistDuration
    (LavalinkPlaylist.mk (PlaylistInfo.mk (lit "Mix") 0) [] Sample.fourTracks)
  = Utils.calculateTotalDuration
      (Shape.kept Sample.playlistEncoder Sample.fourTracks) /\
  @nil (jsstring * JSON.value) = [].
Proof.
  apply (encodePlaylist_keeps_records Sample.playlistEncoder
           (PlaylistInfo.mk (lit "Mix") 0) Sample.fourTracks [] []
           (LavalinkPlaylist.mk (PlaylistInfo.mk (lit "Mix") 0) []
              Sample.fourTracks)).
  reflexivity.
Defined.

(** X7: [createPlaylist] on records that the track encoder accepts returns
    the kept records in order, each under a non-empty token that decodes to
    the fields which [encodeTrack] writes for it; the name is the one given
    and the selected index is the smaller of the one given and the last
    index. *)
Theorem createPlaylist_tokens_decode (this : PlaylistEncoder.t)
  (name : jsstring) (trackInfos : list TrackInfo.t) (selectedTrack : Z)
  (c : console) :
  let limit := PlaylistEncoder.maxTracks (PlaylistEncoder.opts this) in
  let keptInfos :=
    if limit >? 0 then firstn (Z.to_nat limit) trackInfos else trackInfos in
  TrackEncoder.wf (PlaylistEncoder.trackEncoder this) ->
  Forall TrackInfo.wf trackInfos ->
  (TrackEncoder.validate
     (TrackEncoder.opts (PlaylistEncoder.trackEncoder this)) = true ->
   Forall (fun r => TrackEncoder.validateTrackInfo r = Ok tt) trackInfos) ->
  (PlaylistEncoder.validate (PlaylistEncoder.opts this) = true ->
   falsy name = false /\ 0 <= selectedTrack /\ trackInfos <> []) ->
  exists playlist c',
    PlaylistEncoder.createPlaylist this name trackInfos selectedTrack c
    = (Ok playlist, c') /\
    map Track.info (LavalinkPlaylist.tracks playlist) = keptInfos /\
    PlaylistInfo.name (LavalinkPlaylist.info playlist) = name /\
    PlaylistInfo.selectedTrack (LavalinkPlaylist.info playlist) =
    Z.min selectedTrack (Z.of_nat (List.length keptInfos) - 1) /\
    Forall (fun track =>
              falsy (Track.track track) = false /\
              TrackEncoder.decodeTrack (Track.track track) =
              Ok (JSON.JObject
                    (TrackEncoder.trackData
                       (PlaylistEncoder.trackEncoder this)
                       (Track.info track))))
           (LavalinkPlaylist.tracks playlist).
Proof.
  intros limit keptInfos Hwf Hinfos Htracks Hvalid.
  unfold PlaylistEncoder.createPlaylist.
  pose proof (PlaylistEncoderFacts.encodePlaylist_spec this
                (PlaylistInfo.mk name selectedTrack)
                (map (Track.mk []) trackInfos) c) as Hspec.
  cbn zeta in Hspec.
  change (if PlaylistEncoder.maxTracks (PlaylistEncoder.opts this) >? 0
          then firstn (Z.to_nat (PlaylistEncoder.maxTracks
                                   (PlaylistEncoder.opts this)))
                 (map (Track.mk []) trackInfos)
          else map (Track.mk []) trackInfos)
    with (Shape.kept this (map (Track.mk []) trackInfos)) in Hspec.
  rewrite PlaylistFacts.kept_map in Hspec.
  fold limit in Hspec. fold keptInfos in Hspec.
  assert (Hkept : Forall (fun r => In r trackInfos) keptInfos).
  { apply Forall_forall. intros r Hr. unfold keptInfos in Hr.
    destruct (limit >? 0);
      [apply (PlaylistFacts.In_firstn _ _ _ _ Hr) | exact Hr]. }
  eexists. eexists. split.
  { apply Hspec.
    - intros Hval. destruct (Hvalid Hval) as (Hname & Hsel & Hne).
      cbn [PlaylistInfo.name PlaylistInfo.selectedTrack].
      split; [exact Hname |]. split; [exact Hsel |].
      destruct trackInfos; [congruence | discriminate].
    - apply Forall_map. apply Forall_forall. intros r Hr.
      right. destruct (TrackEncoder.validate _) eqn:Hv;
        [right | left; reflexivity].
      pose proof (Htracks eq_refl) as Hall.
      rewrite Forall_forall in Hall, Hkept. apply Hall, Hkept, Hr. }
  cbn [LavalinkPlaylist.tracks LavalinkPlaylist.info PlaylistInfo.name
       PlaylistInfo.selectedTrack].
  rewrite !map_map. cbn [Spec.encoded Track.track falsy Track.info].
  split; [apply map_id |]. split; [reflexivity |].
  rewrite length_map. split; [reflexivity |].
  apply Forall_map. apply Forall_forall. intros r Hr.
  cbn [Track.track Track.info].
  split; [apply TrackEncoderFacts.encodeTrackData_truthy |].
  apply PlaylistFacts.decodeTrack_encodeTrackData; [exact Hwf |].
  rewrite Forall_forall in Hinfos, Hkept. apply Hinfos, Hkept, Hr.
Qed.

Lemma createPlaylist_tokens_decode_witness :
  exists playlist c',
    PlaylistEncoder.createPlaylist Sample.playlistEncoder (lit "x")
      [Sample.rick; Sample.rick] 5 [] = (Ok playlist, c') /\
    map Track.info (LavalinkPlaylist.tracks playlist)
    = [Sample.rick; Sample.rick] /\
    PlaylistInfo.name (LavalinkPlaylist.info playlist) = lit "x" /\
    PlaylistInfo.selectedTrack (LavalinkPlaylist.info playlist) = 1 /\
    Forall (fun track =>
              falsy (Track.track track) = false /\
              TrackEncoder.decodeTrack (Track.track track) =
              Ok (JSON.JObject
                    (TrackEncoder.trackData
                       (PlaylistEncoder.trackEncoder Sample.playlistEncoder)
                       (Track.info track))))
           (LavalinkPlaylist.tracks playlist).
Proof.
  apply (createPlaylist_tokens_decode Sample.playlistEncoder (lit "x")
           [Sample.rick; Sample.rick] 5 []).
  - apply TrackEncoderFacts.wf_lit.
  - apply Forall_cons; [apply FactoryFacts.wf_rick |].
    apply Forall_cons; [apply FactoryFacts.wf_rick | apply Forall_nil].
  - intros _. apply Forall_cons; [reflexivity |].
    apply Forall_cons; [reflexivity | apply Forall_nil].
  - intros _. split; [reflexivity |]. split; [lia | discriminate].
Defined.

(** X8: the playlist factories make their tracks as the track factories
    do: the tracks of a playlist returned by [createYouTubePlaylist],
    [createSpotifyPlaylist] or [createSoundCloudPlaylist] are what
    [createYouTubeTrack], [createSpotifyTrack] or [createSoundCloudTrack]
    of the playlist encoder's track encoder return for the kept items, in
    order. *)
Theorem playlist_factories_itemwise (this : PlaylistEncoder.t)
  (playlistId name : jsstring) (items : list Item.t) (selectedTrack : Z)
  (c c' : console) (p : LavalinkPlaylist.t) :
  let te := PlaylistEncoder.trackEncoder this in
  (PlaylistEncoder.createYouTubePlaylist this playlistId name items
     selectedTrack c = (Ok p, c') ->
   mapM (fun video =>
           TrackEncoder.createYouTubeTrack te (Item.id video)
             (Item.title video) (Item.author video) (Item.duration video)
             TrackInfo.none)
        (Shape.keptItems this items) = Ok (LavalinkPlaylist.tracks p)) /\
  (PlaylistEncoder.createSpotifyPlaylist this playlistId name items
     selectedTrack c = (Ok p, c') ->
   mapM (fun track =>
           TrackEncoder.createSpotifyTrack te (Item.id track)
             (Item.title track) (Item.author track) (Item.duration track)
             TrackInfo.none)
        (Shape.keptItems this items) = Ok (LavalinkPlaylist.tracks p)) /\
  (PlaylistEncoder.createSoundCloudPlaylist this playlistId name items
     selectedTrack c = (Ok p, c') ->
   mapM (fun track =>
           TrackEncoder.createSoundCloudTrack te (Item.id track)
             (Item.title track) (Item.author track) (Item.duration track)
             TrackInfo.none)
        (Shape.keptItems this items) = Ok (LavalinkPlaylist.tracks p)).
Proof.
  intros te. split; [| split]; intros Hcall.
  - apply (PlaylistFacts.createPlaylist_itemwise this name items
             PlaylistEncoder.youtubeInfo _ selectedTrack c c' p);
      [| exact Hcall].
    intros item. rewrite FactoryFacts.createYouTubeTrack_encodes,
      FactoryFacts.override_none. reflexivity.
  - apply (PlaylistFacts.createPlaylist_itemwise this name items
             PlaylistEncoder.spotifyInfo _ selectedTrack c c' p);
      [| exact Hcall].
    intros item. rewrite FactoryFacts.createSpotifyTrack_encodes,
      FactoryFacts.override_none. reflexivity.
  - apply (PlaylistFacts.createPlaylist_itemwise this name items
             PlaylistEncoder.soundcloudInfo _ selectedTrack c c' p);
      [| exact Hcall].
    intros item. rewrite FactoryFacts.createSoundCloudTrack_encodes,
      FactoryFacts.override_none. reflexivity.
Qed.

Lemma playlist_factories_itemwise_witness :
  exists p c',
    PlaylistEncoder.createYouTubePlaylist Sample.playlistEncoder (lit "PL1")
      (lit "Mix") Examples.items 0 [] = (Ok p, c') /\
    mapM (fun video =>
            TrackEncoder.createYouTubeTrack
              (PlaylistEncoder.trackEncoder Sample.playlistEncoder)
              (Item.id video) (Item.title video) (Item.author video)
              (Item.duration video) TrackInfo.none)
         (Shape.keptItems Sample.playlistEncoder Examples.items)
    = Ok (LavalinkPlaylist.tracks p).
Proof.
  destruct (PlaylistEncoder.createYouTubePlaylist Sample.playlistEncoder
              (lit "PL1") (lit "Mix") Examples.items 0 [])
    as [[p | e] c'] eqn:Hcall.
  - exists p, c'. split; [reflexivity |].
    apply (playlist_factories_itemwise Sample.playlistEncoder (lit "PL1")
             (lit "Mix") Examples.items 0 [] c' p).
    exact Hcall.
  - vm_compute in Hcall. discriminate Hcall.
Defined.

(** X9: [mergePlaylists] on playlists whose tracks carry tokens, at least
    one track in all and not more than the cap, returns the tracks of the
    playlists one after the other, in order, and logs nothing; the selected
    index is the one of the first playlist, at most the last index; the
    name is the one given when it is not empty and "Merged Playlist (n
    playlists)" otherwise. *)
Theorem mergePlaylists_concatenates (this : PlaylistEncoder.t)
  (playlists : list LavalinkPlaylist.t) (newName : option jsstring)
  (c : console) :
  let allTracks := List.concat (map LavalinkPlaylist.tracks playlists) in
  let first := hd 0 (map (fun p => PlaylistInfo.selectedTrack
                                     (LavalinkPlaylist.info p)) playlists) in
  Spec.tokened allTracks ->
  allTracks <> [] ->
  PlaylistEncoder.maxTracks (PlaylistEncoder.opts this) <= 0 \/
  Z.of_nat (List.length allTracks)
  <= PlaylistEncoder.maxTracks (PlaylistEncoder.opts this) ->
  (PlaylistEncoder.validate (PlaylistEncoder.opts this) = true ->
   0 <= first) ->
  exists merged,
    PlaylistEncoder.mergePlaylists this playlists newName c = (Ok merged, c) /\
    LavalinkPlaylist.tracks merged = allTracks /\
    PlaylistInfo.selectedTrack (LavalinkPlaylist.info merged) =
    Z.min first (Z.of_nat (List.length allTracks) - 1) /\
    (forall n, newName = Some n -> falsy n = false ->
               PlaylistInfo.name (LavalinkPlaylist.info merged) = n) /\
    (newName = None \/ newName = Some [] ->
     PlaylistInfo.name (LavalinkPlaylist.info merged) =
     lit "Merged Playlist ("
     ++ JSON.numberToString (Z.of_nat (List.length playlists))
     ++ lit " playlists)").
Proof.
  intros allTracks first Htok Hne Hcap Hsel.
  unfold PlaylistEncoder.mergePlaylists. fold allTracks.
  replace (match playlists with
           | [] => 0
           | p :: _ => PlaylistInfo.selectedTrack (LavalinkPlaylist.info p)
           end) with first by (destruct playlists; reflexivity).
  eexists. split.
  - apply PlaylistEncoderFacts.encodePlaylist_tokened;
      [exact Htok | | exact Hcap].
    intros Hval. cbn [PlaylistInfo.name PlaylistInfo.selectedTrack].
    split; [| split; [apply Hsel, Hval | exact Hne]].
    destruct newName as [n |];
      [destruct (falsy n) eqn:Hn; [reflexivity | exact Hn] | reflexivity].
  - cbn [LavalinkPlaylist.tracks LavalinkPlaylist.info PlaylistInfo.name
         PlaylistInfo.selectedTrack].
    split; [reflexivity |]. split; [reflexivity |]. split.
    + intros n -> ->. reflexivity.
    + intros [-> | ->]; reflexivity.
Qed.

Lemma mergePlaylists_concatenates_witness :
  exists merged,
    PlaylistEncoder.mergePlaylists Sample.playlistEncoder
      Examples.twoPlaylists None [] = (Ok merged, []) /\
    LavalinkPlaylist.tracks merged =
    [Sample.tokenedTrack "dG9rZW4x"; Sample.tokenedTrack "dG9rZW4y";
     Sample.tokenedTrack "dG9rZW4z"] /\
    PlaylistInfo.selectedTrack (LavalinkPlaylist.info merged) = 1 /\
    (forall n, @None jsstring = Some n -> falsy n = false ->
               PlaylistInfo.name (LavalinkPlaylist.info merged) = n) /\
    (@None jsstring = None \/ @None jsstring = Some [] ->
     PlaylistInfo.name (LavalinkPlaylist.info merged) =
     lit "Merged Playlist (2 playlists)").
Proof.
  apply (mergePlaylists_concatenates Sample.playlistEncoder
           Examples.twoPlaylists None []).
  - repeat constructor.
  - discriminate.
  - right. cbn. lia.
  - intros _. cbn. lia.
Defined.

(** X10: [mergePlaylists] on no playlist at all throws "Playlist must
    contain at least one track" with validation on; with validation off it
    returns a playlist without tracks whose selected index is -1, under the
    name given when it is not empty and "Merged Playlist (0 playlists)"
    otherwise. *)
Theorem mergePlaylists_of_nothing (this : PlaylistEncoder.t)
  (newName : option jsstring) (c : console) :
  PlaylistEncoder.mergePlaylists this [] newName c =
  if PlaylistEncoder.validate (PlaylistEncoder.opts this) then
    (Throw (Error (Text (lit "Playlist must contain at least one track"))), c)
  else
    (Ok (LavalinkPlaylist.mk
           (PlaylistInfo.mk
              (match newName with
               | Some (u :: n) => u :: n
               | _ => lit "Merged Playlist (0 playlists)"
               end) (-1)) [] []), c).
Proof.
  unfold PlaylistEncoder.mergePlaylists.
  rewrite PlaylistFacts.encodePlaylist_cases.
  cbn [map List.concat List.length PlaylistInfo.name
       PlaylistInfo.selectedTrack Z.of_nat].
  destruct (PlaylistEncoder.validate (PlaylistEncoder.opts this)).
  - destruct newName as [[| u n] |]; reflexivity.
  - unfold Shape.finish, Shape.kept.
    destruct (_ >? 0); rewrite ?firstn_nil; cbn [mapM];
      destruct newName as [[| u n] |]; reflexivity.
Qed.

(** X11: for every chunk size from 1 up, splitting a playlist record with
    at least one track and not more tracks than the cap, and merging the
    chunks, gives the track sequence of the playlist back; the durations of
    the chunks add up to the duration of the playlist, which is also the
    duration of the merged playlist.  The lengths of the tracks are such
    that their sums are exact. *)
Theorem split_and_merge_keep_duration (this : PlaylistEncoder.t)
  (p : LavalinkPlaylist.t) (chunkSize : Z) (newName : option jsstring)
  (c : console) :
  1 <= chunkSize ->
  Spec.playlistRecord p ->
  LavalinkPlaylist.tracks p <> [] ->
  Shape.exactSum
    (map (fun track => TrackInfo.length (Track.info track))
       (LavalinkPlaylist.tracks p)) ->
  PlaylistEncoder.maxTracks (PlaylistEncoder.opts this) <= 0 \/
  Z.of_nat (List.length (LavalinkPlaylist.tracks p))
  <= PlaylistEncoder.maxTracks (PlaylistEncoder.opts this) ->
  exists chunks merged,
    PlaylistEncoder.splitPlaylist this p chunkSize c = Some (Ok chunks, c) /\
    Shape.total (map Utils.calculatePlaylistDuration chunks) =
    Utils.calculatePlaylistDuration p /\
    PlaylistEncoder.mergePlaylists this chunks newName c = (Ok merged, c) /\
    LavalinkPlaylist.tracks merged = LavalinkPlaylist.tracks p /\
    Utils.calculatePlaylistDuration merged =
    Utils.calculatePlaylistDuration p.
Proof.
  intros Hsize [Hsel Htok] Hne _ Hcap.
  destruct (PlaylistEncoderFacts.splitPlaylist_spec this p chunkSize c Hsize
              Htok (fun _ => Hsel))
    as (chunks & Hsplit & Hcat & Hsome & Hparts); [lia |].
  assert (Hmerge : exists merged,
    PlaylistEncoder.mergePlaylists this chunks newName c = (Ok merged, c) /\
    LavalinkPlaylist.tracks merged = LavalinkPlaylist.tracks p).
  { unfold PlaylistEncoder.mergePlaylists. rewrite Hcat.
    rewrite PlaylistEncoderFacts.encodePlaylist_tokened;
      [eexists; split; reflexivity | exact Htok | | exact Hcap].
    intros _. cbn [PlaylistInfo.name PlaylistInfo.selectedTrack].
    split; [| split; [| exact Hne]].
    - destruct newName as [n |];
        [destruct (falsy n) eqn:Hn; [reflexivity | exact Hn] | reflexivity].
    - destruct chunks as [| first rest]; [lia |].
      destruct (Hparts 0%nat) as (Hfirst & _); [cbn [List.length]; lia |].
      cbn [nth_error] in Hfirst. inversion Hfirst.
      cbn [Spec.part LavalinkPlaylist.info PlaylistInfo.selectedTrack
           Spec.partSelected].
      destruct (Hparts 0%nat) as (_ & Hlen & _); [cbn [List.length]; lia |].
      lia. }
  destruct Hmerge as (merged & Hmerge & Htracks).
  exists chunks, merged. split; [exact Hsplit |]. split.
  - unfold Utils.calculatePlaylistDuration. rewrite <- Hcat.
    rewrite UtilsFacts.calculateTotalDuration_concat, map_map. reflexivity.
  - split; [exact Hmerge |]. split; [exact Htracks |].
    unfold Utils.calculatePlaylistDuration. rewrite Htracks. reflexivity.
Qed.

Lemma split_and_merge_keep_duration_witness :
  exists chunks merged,
    PlaylistEncoder.splitPlaylist Sample.playlistEncoder Sample.playlist 3 []
    = Some (Ok chunks, []) /\
    Shape.total (map Utils.calculatePlaylistDuration chunks) =
    Utils.calculatePlaylistDuration Sample.playlist /\
    PlaylistEncoder.mergePlaylists Sample.playlistEncoder chunks None []
    = (Ok merged, []) /\
    LavalinkPlaylist.tracks merged = LavalinkPlaylist.tracks Sample.playlist /\
    Utils.calculatePlaylistDuration merged =
    Utils.calculatePlaylistDuration Sample.playlist.
Proof.
  apply (split_and_merge_keep_duration Sample.playlistEncoder Sample.playlist
           3 None []).
  - lia.
  - split; [cbn; lia | repeat constructor].
  - discriminate.
  - reflexivity.
  - right. cbn. lia.
Defined.

(** ** The facade *)

(** X12: whatever options the facade is built with and whatever updates it
    then takes, its track encoder, its playlist encoder and the track
    encoder inside the playlist encoder hold the same [includeArtwork],
    [includeISRC], [sourceName] and [validate]; [getOptions] therefore
    shows the options of the track encoder too, and the playlist encoder
    encodes a record without token as [encodeTrack] of the facade does. *)
Theorem updateOptions_keeps_encoders_aligned (o : EncoderOptions.t)
  (updates : list EncoderOptions.t) (r : TrackInfo.t) :
  let this := fold_left LavalinkEncoder.updateOptions updates
                (LavalinkEncoder.new o) in
  LavalinkEncoder.aligned this /\
  TrackEncoder.getOptions (LavalinkEncoder.trackEncoder this) =
  TrackEncoder.mkOptions
    (PlaylistEncoder.includeArtwork (LavalinkEncoder.getOptions this))
    (PlaylistEncoder.includeISRC (LavalinkEncoder.getOptions this))
    (PlaylistEncoder.sourceName (LavalinkEncoder.getOptions this))
    (PlaylistEncoder.validate (LavalinkEncoder.getOptions this)) /\
  PlaylistEncoder.encodeIfNeeded (LavalinkEncoder.playlistEncoder this)
    (Track.mk [] r) =
  LavalinkEncoder.encodeTrack this r.
Proof.
  intros this.
  assert (Hal : LavalinkEncoder.aligned this)
    by (apply PlaylistFacts.fold_aligned, PlaylistFacts.new_aligned).
  split; [exact Hal |]. destruct Hal as [Hco Heq]. split.
  - unfold TrackEncoder.getOptions, LavalinkEncoder.getOptions,
      PlaylistEncoder.getOptions. rewrite Heq. exact Hco.
  - unfold PlaylistEncoder.encodeIfNeeded, LavalinkEncoder.encodeTrack,
      TrackEncoder.encodeTrack, TrackEncoder.trackData.
    cbn [Track.track Track.info falsy negb]. rewrite Heq. reflexivity.
Qed.

(** ** The Discord encoder *)

(** X13: the Discord track factories build the record and the token that
    the track factories of the same name build: leaving the annotation
    aside, [createDiscordYouTubeTrack], [createDiscordSpotifyTrack] and
    [createDiscordSoundCloudTrack] return, and throw, what
    [createYouTubeTrack], [createSpotifyTrack] and [createSoundCloudTrack]
    of the Discord encoder's track encoder do, for every input and every
    override. *)
Theorem discord_factories_agree (this : DiscordTrackEncoder.t)
  (id title author : jsstring) (duration : Z) (requester : Requester.t)
  (guildId channelId : jsstring) (additionalInfo : TrackInfo.partial) :
  let bare := fun d =>
    Track.mk (DiscordTrack.track d)
             (DiscordTrackInfo.base (DiscordTrack.info d)) in
  fmap bare
    (DiscordTrackEncoder.createDiscordYouTubeTrack this id title author
       duration requester guildId channelId additionalInfo) =
  TrackEncoder.createYouTubeTrack (DiscordTrackEncoder.trackEncoder this) id
    title author duration additionalInfo /\
  fmap bare
    (DiscordTrackEncoder.createDiscordSpotifyTrack this id title author
       duration requester guildId channelId additionalInfo) =
  TrackEncoder.createSpotifyTrack (DiscordTrackEncoder.trackEncoder this) id
    title author duration additionalInfo /\
  fmap bare
    (DiscordTrackEncoder.createDiscordSoundCloudTrack this id title author
       duration requester guildId channelId additionalInfo) =
  TrackEncoder.createSoundCloudTrack (DiscordTrackEncoder.trackEncoder this)
    id title author duration additionalInfo.
Proof.
  intros bare.
  assert (Hbare : forall r,
    fmap bare (DiscordTrackEncoder.encodeDiscordTrack this r requester
                 guildId channelId) =
    TrackEncoder.encodeTrack (DiscordTrackEncoder.trackEncoder this) r).
  { intros r. unfold DiscordTrackEncoder.encodeDiscordTrack,
      TrackEncoder.encodeTrack.
    destruct (if TrackEncoder.validate _ then _ else _); reflexivity. }
  unfold DiscordTrackEncoder.createDiscordYouTubeTrack,
    DiscordTrackEncoder.createDiscordSpotifyTrack,
    DiscordTrackEncoder.createDiscordSoundCloudTrack.
  rewrite !Hbare, FactoryFacts.createYouTubeTrack_encodes,
    FactoryFacts.createSpotifyTrack_encodes,
    FactoryFacts.createSoundCloudTrack_encodes.
  split; [reflexivity |]. split; reflexivity.
Qed.

(** X14: the tracks of a playlist that [encodeDiscordPlaylist] returns are
    the input tracks with the annotation, all of them and with the tokens
    they came with: they are neither encoded nor cut at the cap, while the
    selected index is held under the number of tracks that the cap keeps.
    Filtering the tracks by the requester's id or by the guild returns
    them all. *)
Theorem encodeDiscordPlaylist_keeps_input (this : DiscordTrackEncoder.t)
  (playlistInfo : PlaylistInfo.t) (tracks : list Track.t)
  (requester : Requester.t) (guildId channelId : jsstring) (c c' : console)
  (p : DiscordPlaylist.t) :
  DiscordTrackEncoder.encodeDiscordPlaylist this playlistInfo tracks
    requester guildId channelId c = (Ok p, c') ->
  map DiscordTrack.track (DiscordPlaylist.tracks p) = map Track.track tracks /\
  map (fun d => DiscordTrackInfo.base (DiscordTrack.info d))
      (DiscordPlaylist.tracks p) = map Track.info tracks /\
  List.length (DiscordPlaylist.tracks p) = List.length tracks /\
  PlaylistInfo.name (DiscordPlaylist.info p) = PlaylistInfo.name playlistInfo /\
  PlaylistInfo.selectedTrack (DiscordPlaylist.info p) =
  Z.min (PlaylistInfo.selectedTrack playlistInfo)
        (Z.of_nat
           (List.length
              (Shape.kept (DiscordTrackEncoder.playlistEncoder this) tracks))
         - 1) /\
  DiscordTrackEncoder.filterTracksByRequester this (DiscordPlaylist.tracks p)
    (Requester.id requester) = DiscordPlaylist.tracks p /\
  DiscordTrackEncoder.filterTracksByGuild this (DiscordPlaylist.tracks p)
    guildId = DiscordPlaylist.tracks p.
Proof.
  unfold DiscordTrackEncoder.encodeDiscordPlaylist, bindIO, ret.
  destruct (PlaylistEncoder.encodePlaylist _ playlistInfo tracks c)
    as [[encoded | e] c1] eqn:Hcall; [| discriminate].
  intros Hp. inversion Hp; subst. clear Hp.
  destruct (PlaylistFacts.encodePlaylist_ok _ _ _ _ _ _ Hcall)
    as (enc & Hmap & -> & _).
  destruct (PlaylistFacts.mapM_encodeIfNeeded_ok _ _ _ Hmap) as (Hlen & _).
  cbn [DiscordPlaylist.tracks DiscordPlaylist.info Shape.built
       LavalinkPlaylist.info PlaylistInfo.name PlaylistInfo.selectedTrack].
  rewrite !map_map, length_map, Hlen.
  cbn [DiscordTrack.track DiscordTrack.info DiscordTrackEncoder.annotate
       DiscordTrackInfo.base].
  split; [reflexivity |]. split; [reflexivity |]. split; [reflexivity |].
  split; [reflexivity |]. split; [reflexivity |].
  unfold DiscordTrackEncoder.filterTracksByRequester,
    DiscordTrackEncoder.filterTracksByGuild.
  split; apply forallb_filter_id; apply forallb_forall; intros d Hd;
    apply in_map_iff in Hd; destruct Hd as (track & <- & _);
    unfold DiscordTrackEncoder.requestedBy, DiscordTrackEncoder.inGuild;
    cbn [DiscordTrack.info DiscordTrackEncoder.annotate
         DiscordTrackInfo.requester DiscordTrackInfo.guildId];
    apply JSONFacts.string_eqb_refl.
Qed.

Lemma encodeDiscordPlaylist_keeps_input_witness :
  exists p,
    fst (DiscordTrackEncoder.encodeDiscordPlaylist DiscordTrackEncoder.new
           (PlaylistInfo.mk (lit "Mix") 0)
           [Track.mk [] Sample.rick; Sample.tokenedTrack "dG9rZW4x"]
           Sample.requester Sample.guildId Sample.channelId []) = Ok p /\
    map DiscordTrack.track (DiscordPlaylist.tracks p)
    = [[]; lit "dG9rZW4x"] /\
    PlaylistInfo.selectedTrack (DiscordPlaylist.info p) = 0.
Proof.
  destruct (DiscordTrackEncoder.encodeDiscordPlaylist DiscordTrackEncoder.new
              (PlaylistInfo.mk (lit "Mix") 0)
              [Track.mk [] Sample.rick; Sample.tokenedTrack "dG9rZW4x"]
              Sample.requester Sample.guildId Sample.channelId [])
    as [[p | e] c'] eqn:Hcall; [| vm_compute in Hcall; discriminate Hcall].
  exists p. split; [reflexivity |].
  destruct (encodeDiscordPlaylist_keeps_input _ _ _ _ _ _ _ _ _ Hcall)
    as (Htokens & _ & _ & _ & Hselected & _).
  split; [exact Htokens | exact Hselected].
Defined.

(** X15: the Discord playlist factories return playlists whose tracks have
    no token: on a name that is not empty, a selected index that is not
    negative and at least one item, all items valid,
    [createDiscordYouTubePlaylist] and [createDiscordSpotifyPlaylist]
    return one track for each item, in order, the [track] string of each
    of them is empty, and [decodeTrack] throws on it. *)
Theorem discord_playlist_factories_leave_tokens_empty
  (this : DiscordTrackEncoder.t) (playlistId name : jsstring)
  (items : list Item.t) (requester : Requester.t)
  (guildId channelId : jsstring) (selectedTrack : Z) (c : console) :
  falsy name = false -> 0 <= selectedTrack -> items <> [] ->
  Forall Shape.validItem items ->
  (exists p c',
     DiscordTrackEncoder.createDiscordYouTubePlaylist this playlistId name
       items requester guildId channelId selectedTrack c = (Ok p, c') /\
     map (fun d => TrackInfo.identifier
                     (DiscordTrackInfo.base (DiscordTrack.info d)))
         (DiscordPlaylist.tracks p) = map Item.id items /\
     Forall (fun d => DiscordTrack.track d = [] /\
                      is_ok (TrackEncoder.decodeTrack (DiscordTrack.track d))
                      = false)
            (DiscordPlaylist.tracks p)) /\
  (exists p c',
     DiscordTrackEncoder.createDiscordSpotifyPlaylist this playlistId name
       items requester guildId channelId selectedTrack c = (Ok p, c') /\
     map (fun d => TrackInfo.identifier
                     (DiscordTrackInfo.base (DiscordTrack.info d)))
         (DiscordPlaylist.tracks p) = map Item.id items /\
     Forall (fun d => DiscordTrack.track d = [] /\
                      is_ok (TrackEncoder.decodeTrack (DiscordTrack.track d))
                      = false)
            (DiscordPlaylist.tracks p)).
Proof.
  intros Hname Hsel Hne Hitems.
  assert (Hmap : forall (info : Item.t -> TrackInfo.t),
    map (fun item => Track.mk [] (info item)) items
    = map (Track.mk []) (map info items))
    by (intros info; rewrite map_map; reflexivity).
  assert (Hshape : forall (info : Item.t -> TrackInfo.t) p,
    (forall item, TrackInfo.identifier (info item) = Item.id item) ->
    DiscordPlaylist.tracks p =
    map (fun r => DiscordTrack.mk []
                    (DiscordTrackEncoder.annotate r requester guildId
                       channelId)) (map info items) ->
    map (fun d => TrackInfo.identifier
                    (DiscordTrackInfo.base (DiscordTrack.info d)))
        (DiscordPlaylist.tracks p) = map Item.id items /\
    Forall (fun d => DiscordTrack.track d = [] /\
                     is_ok (TrackEncoder.decodeTrack (DiscordTrack.track d))
                     = false)
           (DiscordPlaylist.tracks p)).
  { intros info p Hid ->. rewrite !map_map. split.
    - apply map_ext. intros item. apply Hid.
    - apply Forall_forall. intros d Hd. apply in_map_iff in Hd.
      destruct Hd as (item & <- & _). split; reflexivity. }
  split.
  - unfold DiscordTrackEncoder.createDiscordYouTubePlaylist.
    rewrite Hmap.
    destruct (DiscordFacts.encodeDiscordPlaylist_untokened this name
                selectedTrack
                (map (fun video =>
                        TrackInfo.mk (Item.id video)
                          (Item.duration video >? 0) (Item.author video)
                          (Item.duration video * 1000)
                          (Item.duration video =? 0) 0 (Item.title video)
                          (youtubeUri (Item.id video)) (lit "youtube")
                          None None) items)
                requester guildId channelId c Hname Hsel)
      as (p & c' & Hcall & Htracks).
    + destruct items; [congruence | discriminate].
    + apply Forall_map. revert Hitems. apply Forall_impl.
      apply DiscordFacts.youtube_valid.
    + exists p, c'. split; [exact Hcall |].
      eapply Hshape; [| exact Htracks]. intros item. reflexivity.
  - unfold DiscordTrackEncoder.createDiscordSpotifyPlaylist.
    rewrite Hmap.
    destruct (DiscordFacts.encodeDiscordPlaylist_untokened this name
                selectedTrack
                (map (fun track =>
                        TrackInfo.mk (Item.id track)
                          (Item.duration track >? 0) (Item.author track)
                          (Item.duration track)
                          (Item.duration track =? 0) 0 (Item.title track)
                          (spotifyUri (Item.id track)) (lit "spotify")
                          None None) items)
                requester guildId channelId c Hname Hsel)
      as (p & c' & Hcall & Htracks).
    + destruct items; [congruence | discriminate].
    + apply Forall_map. revert Hitems. apply Forall_impl.
      apply DiscordFacts.spotify_valid.
    + exists p, c'. split; [exact Hcall |].
      eapply Hshape; [| exact Htracks]. intros item. reflexivity.
Qed.

Lemma discord_playlist_factories_leave_tokens_empty_witness :
  exists p c',
    DiscordTrackEncoder.createDiscordYouTubePlaylist DiscordTrackEncoder.new
      (lit "PL1") (lit "Mix") Examples.items Sample.requester Sample.guildId
      Sample.channelId 0 [] = (Ok p, c') /\
    map (fun d => TrackInfo.identifier
                    (DiscordTrackInfo.base (DiscordTrack.info d)))
        (DiscordPlaylist.tracks p) = map Item.id Examples.items /\
    Forall (fun d => DiscordTrack.track d = [] /\
                     is_ok (TrackEncoder.decodeTrack (DiscordTrack.track d))
                     = false)
           (DiscordPlaylist.tracks p).
Proof.
  apply (discord_playlist_factories_leave_tokens_empty
           DiscordTrackEncoder.new (lit "PL1") (lit "Mix") Examples.items
           Sample.requester Sample.guildId Sample.channelId 0 []).
  - reflexivity.
  - lia.
  - discriminate.
  - apply Forall_cons;
      [split; [reflexivity |]; split; [reflexivity |];
       split; [reflexivity | cbn; lia] |].
    apply Forall_cons;
      [split; [reflexivity |]; split; [reflexivity |];
       split; [reflexivity | cbn; lia] | apply Forall_nil].
Defined.

(** X16: on a track that [encodeDiscordTrack] returned, [getRequester]
    gives the requester back, [getGuildInfo] gives the guild and the channel
    back unless one of the two is the empty string, in which case it gives
    null, and the filters keep the track exactly for the requester's id and
    for the guild. *)
Theorem discord_annotation_lookup (this : DiscordTrackEncoder.t)
  (trackInfo : TrackInfo.t) (requester : Requester.t)
  (guildId channelId : jsstring) (track : DiscordTrack.t) :
  DiscordTrackEncoder.encodeDiscordTrack this trackInfo requester guildId
    channelId = Ok track ->
  DiscordTrackEncoder.getRequester this track = Some requester /\
  DiscordTrackEncoder.getGuildInfo this track =
  (if falsy guildId || falsy channelId then None
   else Some (GuildInfo.mk guildId channelId)) /\
  (forall requesterId,
     DiscordTrackEncoder.filterTracksByRequester this [track] requesterId =
     if string_eqb (Requester.id requester) requesterId then [track] else [])
  /\
  (forall guild,
     DiscordTrackEncoder.filterTracksByGuild this [track] guild =
     if string_eqb guildId guild then [track] else []).
Proof.
  unfold DiscordTrackEncoder.encodeDiscordTrack.
  destruct (TrackEncoder.encodeTrack _ trackInfo) as [encoded | e];
    cbn [bind]; [| discriminate].
  intros [= <-].
  unfold DiscordTrackEncoder.getRequester, DiscordTrackEncoder.getGuildInfo,
    DiscordTrackEncoder.filterTracksByRequester,
    DiscordTrackEncoder.filterTracksByGuild,
    DiscordTrackEncoder.requestedBy, DiscordTrackEncoder.inGuild.
  cbn [DiscordTrack.info DiscordTrackEncoder.annotate
       DiscordTrackInfo.requester DiscordTrackInfo.guildId
       DiscordTrackInfo.channelId filter].
  split; [reflexivity |]. split; [reflexivity |].
  split; intros x; destruct (string_eqb _ x); reflexivity.
Qed.

Lemma discord_annotation_lookup_witness :
  exists track,
    DiscordTrackEncoder.encodeDiscordTrack DiscordTrackEncoder.new
      Sample.rick Sample.requester Sample.guildId [] = Ok track /\
    DiscordTrackEncoder.getRequester DiscordTrackEncoder.new track
    = Some Sample.requester /\
    DiscordTrackEncoder.getGuildInfo DiscordTrackEncoder.new track = None.
Proof.
  destruct (DiscordTrackEncoder.encodeDiscordTrack DiscordTrackEncoder.new
              Sample.rick Sample.requester Sample.guildId [])
    as [track | e] eqn:Hcall; [| vm_compute in Hcall; discriminate Hcall].
  exists track. split; [reflexivity |].
  destruct (discord_annotation_lookup _ _ _ _ _ _ Hcall)
    as (Hrequester & Hguild & _).
  split; [exact Hrequester | exact Hguild].
Defined.

(** X17: when no track of the requester has a source name that
    [Object.prototype] defines, [getTrackStats] counts the requester's
    tracks: [totalTracks] is their number, [totalDuration] the sum of their
    lengths, [sources] maps each source name to the number of the
    requester's tracks that carry it and holds no other name, and the
    counts add up to [totalTracks].  The lengths of the requester's tracks
    are such that their sums are exact. *)
Theorem getTrackStats_counts (this : DiscordTrackEncoder.t)
  (tracks : list DiscordTrack.t) (requesterId : jsstring) :
  let mine :=
    DiscordTrackEncoder.filterTracksByRequester this tracks requesterId in
  Forall (fun d => inherited (Shape.sourceOf d) = false) mine ->
  Shape.exactSum (map Shape.lengthOf mine) ->
  exists stats,
    DiscordTrackEncoder.getTrackStats this tracks requesterId = Some stats /\
    TrackStats.totalTracks stats = Z.of_nat (List.length mine) /\
    TrackStats.totalDuration stats = Shape.total (map Shape.lengthOf mine) /\
    (forall source,
       lookup (TrackStats.sources stats) source =
       if Shape.countOf source mine =? 0 then None
       else Some (Shape.countOf source mine)) /\
    Shape.total (map snd (TrackStats.sources stats))
    = TrackStats.totalTracks stats.
Proof.
  intros mine Hsafe _. unfold DiscordTrackEncoder.getTrackStats. fold mine.
  destruct (DiscordFacts.fold_countTrack mine
              (TrackStats.mk (Z.of_nat (List.length mine)) 0 []) Hsafe)
    as (stats & Hfold & Hn & Hdur & Hlook & Hsum & Hpos);
    [constructor |].
  cbn [TrackStats.totalTracks TrackStats.totalDuration TrackStats.sources
       lookup orDefault map] in *.
  exists stats. split; [exact Hfold |]. split; [exact Hn |].
  split; [rewrite Hdur; lia |]. split.
  - intros source. specialize (Hlook source).
    destruct (lookup (TrackStats.sources stats) source) as [v |] eqn:E;
      cbn [orDefault] in Hlook.
    + pose proof (DiscordFacts.lookup_positive _ _ _ Hpos E) as Hv.
      replace (Shape.countOf source mine =? 0) with false
        by (symmetry; apply Z.eqb_neq; lia).
      f_equal. lia.
    + replace (Shape.countOf source mine =? 0) with true
        by (symmetry; apply Z.eqb_eq; lia).
      reflexivity.
  - rewrite Hsum, Hn. unfold Shape.total. cbn [fold_right]. lia.
Qed.

Lemma getTrackStats_counts_witness :
  exists stats,
    DiscordTrackEncoder.getTrackStats DiscordTrackEncoder.new
      [Examples.annotated; Examples.annotated]
      (Requester.id Sample.requester) = Some stats /\
    TrackStats.totalTracks stats = 2 /\
    TrackStats.totalDuration stats = 424000 /\
    (forall source,
       lookup (TrackStats.sources stats) source =
       if Shape.countOf source [Examples.annotated; Examples.annotated] =? 0
       then None
       else Some (Shape.countOf source
                    [Examples.annotated; Examples.annotated])) /\
    Shape.total (map snd (TrackStats.sources stats))
    = TrackStats.totalTracks stats.
Proof.
  apply (getTrackStats_counts DiscordTrackEncoder.new
           [Examples.annotated; Examples.annotated]
           (Requester.id Sample.requester)).
  - apply Forall_cons; [reflexivity |].
    apply Forall_cons; [reflexivity | apply Forall_nil].
  - reflexivity.
Defined.

(** ** The utilities *)

(** X18: for a duration from 0 up to the largest safe integer,
    [formatDuration] prints the whole seconds: under one hour the minutes,
    a colon and the seconds in exactly two digits; from one hour on the
    hours, a colon, the minutes of the hour in exactly two digits, a colon
    and the seconds in exactly two digits. *)
Theorem formatDuration_shape (milliseconds : Z) :
  0 <= milliseconds <= 9007199254740991 ->
  let seconds := milliseconds / 1000 in
  let two := fun n => [48 + n / 10; 48 + n mod 10] in
  Utils.formatDuration milliseconds =
  if milliseconds <? 3600000 then
    JSON.numberToString (seconds / 60) ++ lit ":" ++ two (seconds mod 60)
  else
    JSON.numberToString (seconds / 3600) ++ lit ":"
    ++ two (seconds / 60 mod 60) ++ lit ":" ++ two (seconds mod 60).
Proof.
  intros Hms seconds two. unfold Utils.formatDuration. fold seconds.
  assert (Hs : 0 <= seconds) by (unfold seconds; apply Z.div_pos; lia).
  assert (Hm : 0 <= seconds / 60) by (apply Z.div_pos; lia).
  rewrite !Z.rem_mod_nonneg by lia.
  rewrite !UtilsFacts.twoDigits_spec by (apply Z.mod_pos_bound; lia).
  rewrite Z.div_div by lia. change (60 * 60) with 3600.
  destruct (Z.ltb_spec milliseconds 3600000) as [Hlt | Hge].
  - replace (seconds / 3600 >? 0) with false; [reflexivity |].
    symmetry. rewrite Z.gtb_ltb. apply Z.ltb_ge.
    unfold seconds. rewrite Z.div_div by lia.
    change (1000 * 3600) with 3600000.
    rewrite Z.div_small by lia. lia.
  - replace (seconds / 3600 >? 0) with true; [reflexivity |].
    symmetry. rewrite Z.gtb_ltb. apply Z.ltb_lt.
    unfold seconds. rewrite Z.div_div by lia.
    change (1000 * 3600) with 3600000.
    apply Z.div_str_pos. lia.
Qed.

Lemma formatDuration_shape_witness :
  Utils.formatDuration 3725999 = lit "1:02:05".
Proof.
  rewrite (formatDuration_shape 3725999); [reflexivity | lia].
Defined.

(** X19: the duration helpers work on whole seconds: for milliseconds
    and seconds within the safe integers, negative ones included,
    [formatDuration] prints a number of milliseconds as
    [formatDurationFromSeconds] prints its seconds, turning seconds into
    milliseconds and back gives the seconds, and turning milliseconds into
    seconds and back gives the milliseconds rounded down to a whole
    second. *)
Theorem durations_truncate_to_seconds (milliseconds seconds : Z) :
  Utils.safeInteger milliseconds = true ->
  Utils.safeInteger (seconds * 1000) = true ->
  Utils.formatDuration milliseconds =
  Utils.formatDurationFromSeconds (Utils.millisecondsToSeconds milliseconds)
  /\
  Utils.millisecondsToSeconds (Utils.secondsToMilliseconds seconds) = seconds
  /\
  Utils.secondsToMilliseconds (Utils.millisecondsToSeconds milliseconds)
  <= milliseconds
  < Utils.secondsToMilliseconds (Utils.millisecondsToSeconds milliseconds)
    + 1000.
Proof.
  intros _ _.
  unfold Utils.formatDurationFromSeconds, Utils.millisecondsToSeconds,
    Utils.secondsToMilliseconds, Utils.formatDuration.
  rewrite UtilsFacts.seconds_of. split; [reflexivity |].
  split; [apply Z.div_mul; lia |].
  pose proof (Z.div_mod milliseconds 1000 ltac:(lia)).
  pose proof (Z.mod_pos_bound milliseconds 1000 ltac:(lia)). lia.
Qed.

Lemma durations_truncate_to_seconds_witness :
  Utils.formatDuration (-1500) = Utils.formatDurationFromSeconds (-2) /\
  Utils.millisecondsToSeconds (Utils.secondsToMilliseconds 212) = 212 /\
  -2000 <= -1500 < -2000 + 1000.
Proof.
  apply (durations_truncate_to_seconds (-1500) 212); reflexivity.
Defined.

(** X20: [detectTrackSource] on the URIs that the factories build: the
    watch URI of a video is always "youtube", and a track returned by
    [createYouTubeTrack] without overrides has the source that its URI
    shows; a Spotify URI is "spotify" unless the track identifier contains
    "youtube.com" or "youtu.be", and a SoundCloud URI is "soundcloud" unless
    author and title contain one of these or "spotify.com", the earlier
    test winning. *)
Theorem detectTrackSource_of_factory_uris (id title author : jsstring) :
  Utils.detectTrackSource (lit "https://www.youtube.com/watch?v=" ++ id)
  = lit "youtube" /\
  Utils.detectTrackSource (lit "https://open.spotify.com/track/" ++ id) =
  (if includes id (lit "youtube.com") || includes id (lit "youtu.be")
   then lit "youtube" else lit "spotify") /\
  Utils.detectTrackSource
    (lit "https://soundcloud.com/" ++ author ++ lit "/" ++ title) =
  (if includes (author ++ lit "/" ++ title) (lit "youtube.com")
      || includes (author ++ lit "/" ++ title) (lit "youtu.be")
   then lit "youtube"
   else if includes (author ++ lit "/" ++ title) (lit "spotify.com")
        then lit "spotify"
        else lit "soundcloud") /\
  (forall this duration track,
     TrackEncoder.createYouTubeTrack this id title author duration
       TrackInfo.none = Ok track ->
     Utils.detectTrackSource (TrackInfo.uri (Track.info track)) =
     TrackInfo.sourceName (Track.info track)).
Proof.
  split; [apply UtilsFacts.youtube_detected |].
  split; [apply UtilsFacts.spotify_detected |].
  split; [apply UtilsFacts.soundcloud_detected |].
  intros this duration track.
  rewrite FactoryFacts.createYouTubeTrack_encodes, FactoryFacts.override_none.
  unfold TrackEncoder.encodeTrack.
  destruct (if TrackEncoder.validate _ then _ else _); cbn [bind];
    [| discriminate].
  intros [= <-]. apply UtilsFacts.youtube_detected.
Qed.

Lemma detectTrackSource_of_factory_uris_witness :
  exists track,
    TrackEncoder.createYouTubeTrack Sample.trackEncoder Examples.videoId
      Examples.title Examples.author 212 TrackInfo.none = Ok track /\
    Utils.detectTrackSource (TrackInfo.uri (Track.info track)) =
    TrackInfo.sourceName (Track.info track).
Proof.
  destruct (TrackEncoder.createYouTubeTrack Sample.trackEncoder
              Examples.videoId Examples.title Examples.author 212
              TrackInfo.none) as [track | e] eqn:Hcall.
  - exists track. split; [reflexivity |].
    apply (detectTrackSource_of_factory_uris Examples.videoId Examples.title
             Examples.author) with (this := Sample.trackEncoder)
             (duration := 212).
    exact Hcall.
  - vm_compute in Hcall. discriminate Hcall.
Defined.

(** X21: [sortTracksByDuration] returns the input tracks rearranged by
    length, not decreasing when [ascending] and not increasing otherwise;
    tracks of the same length keep the order of the input in both
    directions; filtering by duration range or by source and sorting give
    the same list in either order. *)
Theorem sortTracksByDuration_sorts (tracks : list Track.t) (ascending : bool) :
  Permutation (Utils.sortTracksByDuration tracks ascending) tracks /\
  StronglySorted (Shape.inOrder ascending)
    (Utils.sortTracksByDuration tracks ascending) /\
  (forall d, Shape.ofLength d (Utils.sortTracksByDuration tracks ascending)
             = Shape.ofLength d tracks) /\
  (forall minDuration maxDuration,
     Utils.filterTracksByDuration
       (Utils.sortTracksByDuration tracks ascending) minDuration maxDuration
     = Utils.sortTracksByDuration
         (Utils.filterTracksByDuration tracks minDuration maxDuration)
         ascending) /\
  (forall source,
     Utils.filterTracksBySource
       (Utils.sortTracksByDuration tracks ascending) source
     = Utils.sortTracksByDuration (Utils.filterTracksBySource tracks source)
         ascending).
Proof.
  unfold Utils.sortTracksByDuration.
  split; [apply UtilsFacts.sort_perm |]. split; [apply UtilsFacts.sort_sorted |].
  split; [intros d; apply UtilsFacts.sort_stable |].
  split; intros; apply UtilsFacts.filter_sort.
Qed.

(** X22: [getUniqueSources] lists each source name of the tracks once, in
    the order of first occurrence, and nothing else; [filterTracksBySource]
    is empty exactly for the names that are not listed, and the tracks
    filtered by the listed names add up to all tracks. *)
Theorem unique_sources_partition (tracks : list Track.t) :
  let sources := Utils.getUniqueSources tracks in
  NoDup sources /\
  (forall source,
     In source sources <->
     exists track, In track tracks /\
                   TrackInfo.sourceName (Track.info track) = source) /\
  (forall source,
     Utils.filterTracksBySource tracks source = [] <-> ~ In source sources) /\
  Shape.total
    (map (fun source =>
            Z.of_nat (List.length (Utils.filterTracksBySource tracks source)))
         sources)
  = Z.of_nat (List.length tracks) /\
  hd_error sources =
  option_map (fun track => TrackInfo.sourceName (Track.info track))
    (hd_error tracks).
Proof.
  intros sources.
  destruct (UtilsFacts.unique_spec
              (map (fun track => TrackInfo.sourceName (Track.info track))
                 tracks)) as [Hnd Hin].
  fold (Utils.getUniqueSources tracks) in Hnd, Hin. fold sources in Hnd, Hin.
  assert (Hmem : forall source,
    In source sources <->
    exists track, In track tracks /\
                  TrackInfo.sourceName (Track.info track) = source).
  { intros source. rewrite Hin, in_map_iff. split.
    - intros (track & Heq & Ht). exists track. split; assumption.
    - intros (track & Ht & Heq). exists track. split; assumption. }
  split; [exact Hnd |]. split; [exact Hmem |]. split; [| split].
  - intros source. rewrite Hmem. unfold Utils.filterTracksBySource. split.
    + intros Hnil (track & Ht & Heq).
      assert (Hf : In track (filter (fun t => string_eqb
                   (TrackInfo.sourceName (Track.info t)) source) tracks)).
      { apply filter_In. split; [exact Ht |].
        apply JSONFacts.string_eqb_eq. exact Heq. }
      rewrite Hnil in Hf. destruct Hf.
    + intros Hnone.
      destruct (filter _ tracks) as [| track rest] eqn:E; [reflexivity |].
      exfalso. apply Hnone. exists track.
      assert (Hf : In track (filter (fun t => string_eqb
                   (TrackInfo.sourceName (Track.info t)) source) tracks))
        by (rewrite E; left; reflexivity).
      apply filter_In in Hf. destruct Hf as [Ht Heq].
      apply JSONFacts.string_eqb_eq in Heq. split; assumption.
  - apply UtilsFacts.sources_partition; [exact Hnd |].
    intros track Ht. apply Hmem. exists track. split; [exact Ht | reflexivity].
  - unfold sources, Utils.getUniqueSources.
    destruct tracks as [| track tracks]; [reflexivity |].
    cbn [map hd_error option_map]. apply UtilsFacts.unique_head.
Qed.

(** X23: the validator of the utilities collects what the track encoder
    checks: for every way of judging URLs, its errors are the messages of
    the failing fields in check order, followed by the URL message when the
    URI is judged invalid; an empty list means that [encodeTrack] accepts
    the record; when the encoder throws, its message is the first of the
    list; an empty URI is reported twice when the empty string is no valid
    URL. *)
Theorem validateTrackInfo_collects (isValidUrl : jsstring -> bool)
  (trackInfo : TrackInfo.t) :
  let errors := Utils.validateTrackInfo isValidUrl trackInfo in
  map (fun text => Error (Text text)) errors =
  map Spec.violation (Spec.failing trackInfo)
  ++ (if isValidUrl (TrackInfo.uri trackInfo) then []
      else [Error (Text (lit "Track URI must be a valid URL"))]) /\
  (errors = [] -> TrackEncoder.validateTrackInfo trackInfo = Ok tt) /\
  (forall e, TrackEncoder.validateTrackInfo trackInfo = Throw e ->
             exists text rest, errors = text :: rest /\ e = Error (Text text))
  /\
  (falsy (TrackInfo.uri trackInfo) = true -> isValidUrl [] = false ->
   exists before,
     errors = before ++ [lit "Track URI is required";
                         lit "Track URI must be a valid URL"]).
Proof.
  intros errors. unfold errors, Utils.validateTrackInfo,
    TrackEncoder.validateTrackInfo, Spec.failing, Spec.checkOrder,
    Spec.invalid.
  cbn [filter].
  assert (Huri : falsy (TrackInfo.uri trackInfo) = true ->
                 TrackInfo.uri trackInfo = [])
    by (destruct (TrackInfo.uri trackInfo); [reflexivity | discriminate]).
  destruct (falsy (TrackInfo.identifier trackInfo));
    destruct (falsy (TrackInfo.title trackInfo));
    destruct (falsy (TrackInfo.author trackInfo));
    destruct (TrackInfo.length trackInfo <? 0);
    destruct (falsy (TrackInfo.uri trackInfo));
    try rewrite (Huri eq_refl);
    destruct (isValidUrl _) eqn:Hvalid;
    cbn [app map Spec.violation negb];
    (split; [reflexivity |]);
    (split; [intros H; first [reflexivity | discriminate H] |]);
    (split; [intros e He; first [discriminate He
                                | inversion He; eexists; eexists;
                                  split; reflexivity] |]);
    intros Hf Hv; try discriminate Hf; try discriminate Hv;
    eexists; match goal with
             | |- ?l = _ ++ [_; _] =>
                 instantiate (1 := removelast (removelast l)); reflexivity
             end.
Qed.

(** X24: [sanitizeTrackTitle] and [sanitizeAuthorName] are the same
    function; a text within [maxLength] comes back unchanged; a longer one
    is cut to its first [maxLength - 3] code units followed by "..." and
    has [max(maxLength, 3)] code units, so for [maxLength] below 3 the
    result is longer than [maxLength]; from 3 on the result is within
    [maxLength] and sanitizing it again changes nothing. *)
Theorem sanitizeTrackTitle_bounds (title : jsstring) (maxLength : Z) :
  Utils.sanitizeAuthorName title maxLength =
  Utils.sanitizeTrackTitle title maxLength /\
  (Z.of_nat (List.length title) <= maxLength ->
   Utils.sanitizeTrackTitle title maxLength = title) /\
  (maxLength < Z.of_nat (List.length title) ->
   Utils.sanitizeTrackTitle title maxLength =
   firstn (Z.to_nat (maxLength - 3)) title ++ lit "..." /\
   Z.of_nat (List.length (Utils.sanitizeTrackTitle title maxLength)) =
   Z.max maxLength 3) /\
  (3 <= maxLength ->
   Z.of_nat (List.length (Utils.sanitizeTrackTitle title maxLength))
   <= maxLength /\
   Utils.sanitizeTrackTitle (Utils.sanitizeTrackTitle title maxLength)
     maxLength = Utils.sanitizeTrackTitle title maxLength).
Proof.
  split; [reflexivity |].
  assert (Hshort : Z.of_nat (List.length title) <= maxLength ->
                   Utils.sanitizeTrackTitle title maxLength = title).
  { intros H. unfold Utils.sanitizeTrackTitle.
    replace (Z.of_nat (List.length title) <=? maxLength) with true
      by (symmetry; apply Z.leb_le; exact H).
    reflexivity. }
  assert (Hlong : maxLength < Z.of_nat (List.length title) ->
    Utils.sanitizeTrackTitle title maxLength =
    firstn (Z.to_nat (maxLength - 3)) title ++ lit "..." /\
    Z.of_nat (List.length (Utils.sanitizeTrackTitle title maxLength)) =
    Z.max maxLength 3).
  { intros H. rewrite UtilsFacts.sanitize_long by exact H.
    split; [reflexivity |].
    rewrite length_app, length_firstn. cbn [lit List.length
      list_ascii_of_string map]. lia. }
  split; [exact Hshort |]. split; [exact Hlong |].
  intros Hmax.
  destruct (Z.le_gt_cases (Z.of_nat (List.length title)) maxLength)
    as [Hle | Hgt].
  - rewrite !(Hshort Hle). split; [exact Hle |].
    reflexivity.
  - destruct (Hlong Hgt) as [Heq Hlen]. split; [lia |].
    unfold Utils.sanitizeTrackTitle at 1.
    replace (Z.of_nat (List.length (Utils.sanitizeTrackTitle title maxLength))
             <=? maxLength) with true
      by (symmetry; apply Z.leb_le; lia).
    reflexivity.
Qed.

(** X25: a record that passes the validation of the track encoder decodes,
    after encoding, to a track on which [validateDecodedTrack] reports
    exactly this: "Missing source name" when the record and the encoder
    both have an empty source name, and "Invalid position" when the
    position is negative; it is valid when neither is the case. *)
Theorem validateDecodedTrack_of_encoded (this : TrackEncoder.t)
  (r : TrackInfo.t) :
  TrackEncoder.wf this -> TrackInfo.wf r ->
  TrackEncoder.validateTrackInfo r = Ok tt ->
  exists decoded,
    Spec.decodeOfEncode this r = Ok decoded /\
    Utils.Validation.errors (Utils.validateDecodedTrack decoded) =
    (if falsy (Shape.effectiveSource this r) then [lit "Missing source name"]
     else [])
    ++ (if TrackInfo.position r <? 0
        then [lit "Invalid position (must be non-negative number)"]
        else []) /\
    Utils.Validation.valid (Utils.validateDecodedTrack decoded) =
    negb (falsy (Shape.effectiveSource this r)) && (0 <=? TrackInfo.position r).
Proof.
  intros Hthis Hr Hvalid.
  exists (JSON.JObject (TrackEncoder.trackData this r)).
  split; [apply UtilsFacts.decodeOfEncode_ok; auto |].
  unfold Utils.validateDecodedTrack, Utils.member.
  cbn [Utils.truthy negb].
  destruct (UtilsFacts.members this r)
    as (H1 & H2 & H3 & H4 & H5 & H6 & H7 & H8 & H9).
  rewrite H1, H2, H3, H4, H5, H6, H7, H8, H9.
  unfold Utils.missing, Utils.notNonNegative, Utils.notBoolean, Utils.truthy.
  unfold TrackEncoder.validateTrackInfo in Hvalid.
  destruct (falsy (TrackInfo.identifier r)); [discriminate Hvalid |].
  destruct (falsy (TrackInfo.title r)); [discriminate Hvalid |].
  destruct (falsy (TrackInfo.author r)); [discriminate Hvalid |].
  destruct (TrackInfo.length r <? 0); [discriminate Hvalid |].
  destruct (falsy (TrackInfo.uri r)); [discriminate Hvalid |].
  cbn [negb app].
  destruct (falsy (Shape.effectiveSource this r));
    destruct (Z.ltb_spec (TrackInfo.position r) 0) as [Hp | Hp];
    cbn [negb app List.length Z.of_nat Z.eqb andb Utils.Validation.errors
         Utils.Validation.valid];
    (split; [reflexivity |]);
    try reflexivity;
    symmetry; first [apply Z.leb_gt; lia | apply Z.leb_le; lia].
Qed.

Lemma validateDecodedTrack_of_encoded_witness :
  exists decoded,
    Spec.decodeOfEncode Sample.trackEncoder Examples.rewound = Ok decoded /\
    Utils.Validation.errors (Utils.validateDecodedTrack decoded) =
    [lit "Invalid position (must be non-negative number)"] /\
    Utils.Validation.valid (Utils.validateDecodedTrack decoded) = false.
Proof.
  apply (validateDecodedTrack_of_encoded Sample.trackEncoder Examples.rewound).
  - apply TrackEncoderFacts.wf_lit.
  - apply FactoryFacts.wf_rewound.
  - reflexivity.
Defined.

(** X26: two records that pass the validation of the track encoder and
    whose lengths are safe integers decode, after encoding under any two
    encoders, to tracks that [compareTracks] holds equal exactly when the
    records agree on identifier, title, author, length and URI and on the
    source name that was written (the record's own, or the encoder's when
    it is empty); seekable, stream, position, artwork and ISRC play no
    part. *)
Theorem compareTracks_of_encoded (this1 this2 : TrackEncoder.t)
  (r1 r2 : TrackInfo.t) :
  TrackEncoder.wf this1 -> TrackEncoder.wf this2 ->
  TrackInfo.wf r1 -> TrackInfo.wf r2 ->
  TrackEncoder.validateTrackInfo r1 = Ok tt ->
  TrackEncoder.validateTrackInfo r2 = Ok tt ->
  Utils.safeInteger (TrackInfo.length r1) = true ->
  Utils.safeInteger (TrackInfo.length r2) = true ->
  exists track1 track2,
    Spec.decodeOfEncode this1 r1 = Ok (JSON.JObject track1) /\
    Spec.decodeOfEncode this2 r2 = Ok (JSON.JObject track2) /\
    Utils.compareTracks track1 track2 =
    Some (string_eqb (TrackInfo.identifier r1) (TrackInfo.identifier r2)
          && string_eqb (TrackInfo.title r1) (TrackInfo.title r2)
          && string_eqb (TrackInfo.author r1) (TrackInfo.author r2)
          && (TrackInfo.length r1 =? TrackInfo.length r2)
          && string_eqb (TrackInfo.uri r1) (TrackInfo.uri r2)
          && string_eqb (Shape.effectiveSource this1 r1)
               (Shape.effectiveSource this2 r2)).
Proof.
  intros Hthis1 Hthis2 Hr1 Hr2 Hv1 Hv2 Hs1 Hs2.
  exists (TrackEncoder.trackData this1 r1), (TrackEncoder.trackData this2 r2).
  split; [apply UtilsFacts.decodeOfEncode_ok; auto |].
  split; [apply UtilsFacts.decodeOfEncode_ok; auto |].
  unfold Utils.compareTracks, Utils.everyEqual.
  destruct (UtilsFacts.members this1 r1) as (A1 & A2 & A3 & A4 & A5 & A6 & _).
  destruct (UtilsFacts.members this2 r2) as (B1 & B2 & B3 & B4 & B5 & B6 & _).
  rewrite A1, A2, A3, A4, A5, A6, B1, B2, B3, B4, B5, B6.
  unfold Utils.strictEquals. rewrite Hs1, Hs2. cbn [andb].
  destruct (string_eqb (TrackInfo.identifier r1) (TrackInfo.identifier r2));
    [| reflexivity].
  destruct (string_eqb (TrackInfo.title r1) (TrackInfo.title r2));
    [| reflexivity].
  destruct (string_eqb (TrackInfo.author r1) (TrackInfo.author r2));
    [| reflexivity].
  destruct (TrackInfo.length r1 =? TrackInfo.length r2); [| reflexivity].
  destruct (string_eqb (TrackInfo.uri r1) (TrackInfo.uri r2));
    [| reflexivity].
  destruct (string_eqb (Shape.effectiveSource this1 r1) (Shape.effectiveSource this2 r2));
    reflexivity.
Qed.

Lemma compareTracks_of_encoded_witness :
  exists track1 track2,
    Spec.decodeOfEncode Sample.trackEncoder Sample.rick
    = Ok (JSON.JObject track1) /\
    Spec.decodeOfEncode (LavalinkEncoder.trackEncoder Sample.custom)
      Examples.rewound = Ok (JSON.JObject track2) /\
    Utils.compareTracks track1 track2 = Some true.
Proof.
  apply (compareTracks_of_encoded Sample.trackEncoder
           (LavalinkEncoder.trackEncoder Sample.custom) Sample.rick
           Examples.rewound);
    try reflexivity; try apply TrackEncoderFacts.wf_lit;
    [apply FactoryFacts.wf_rick | apply FactoryFacts.wf_rewound].
Defined.

(** X27: [extractYouTubeVideoId] inverts the watch URI: on
    "https://www.youtube.com/watch?v=" followed by an identifier and more
    text, where the identifier is not empty and has none of the characters
    ampersand, line feed, question mark and hash, and the text after it is
    empty or starts with one of them, it returns the identifier. *)
Theorem extractYouTubeVideoId_inverts_uri (id rest : jsstring) :
  Shape.longestRun Shape.youtubeIdUnit id rest ->
  Utils.extractYouTubeVideoId
    (lit "https://www.youtube.com/watch?v=" ++ id ++ rest) = Some id.
Proof. apply ExtractFacts.extractYouTubeVideoId_uri. Qed.

Lemma extractYouTubeVideoId_inverts_uri_witness :
  Utils.extractYouTubeVideoId
    (lit "https://www.youtube.com/watch?v=" ++ Examples.videoId ++ lit "&t=42")
  = Some Examples.videoId.
Proof.
  apply (extractYouTubeVideoId_inverts_uri Examples.videoId (lit "&t=42")).
  split; [discriminate |]. split; [| reflexivity].
  unfold Examples.videoId.
  let v := eval vm_compute in (lit "dQw4w9WgXcQ") in
  change (lit "dQw4w9WgXcQ") with v.
  repeat (apply Forall_cons; [reflexivity |]). apply Forall_nil.
Defined.

(** X28: [extractSpotifyTrackId] inverts the track URI: on
    "https://open.spotify.com/track/" followed by an identifier and more
    text, where the identifier is not empty and made of ASCII letters and
    digits, and the text after it is empty or starts with another
    character, it returns the identifier. *)
Theorem extractSpotifyTrackId_inverts_uri (id rest : jsstring) :
  Shape.longestRun Shape.spotifyIdUnit id rest ->
  Utils.extractSpotifyTrackId
    (lit "https://open.spotify.com/track/" ++ id ++ rest) = Some id.
Proof. apply ExtractFacts.extractSpotifyTrackId_uri. Qed.

Lemma extractSpotifyTrackId_inverts_uri_witness :
  Utils.extractSpotifyTrackId
    (lit "https://open.spotify.com/track/" ++ lit "4uLU6hMC" ++ lit "?si=1")
  = Some (lit "4uLU6hMC").
Proof.
  apply (extractSpotifyTrackId_inverts_uri (lit "4uLU6hMC") (lit "?si=1")).
  split; [discriminate |]. split; [| reflexivity].
  let v := eval vm_compute in (lit "4uLU6hMC") in
  change (lit "4uLU6hMC") with v.
  repeat (apply Forall_cons; [reflexivity |]). apply Forall_nil.
Defined.

(** X29: on the URI that [createSoundCloudTrack] builds,
    "https://soundcloud.com/" followed by the author, a slash and the
    title, [extractSoundCloudTrackId] returns the author, a slash and the
    title (not the track identifier of the record), provided the author is
    not empty and has no slash and the title is not empty and has neither
    slash nor question mark up to the end or up to the first of them. *)
Theorem extractSoundCloudTrackId_inverts_uri (author title rest : jsstring) :
  author <> [] -> Forall (fun c => c <> 47) author ->
  Shape.longestRun Shape.soundcloudTrackUnit title rest ->
  Utils.extractSoundCloudTrackId
    (lit "https://soundcloud.com/" ++ author ++ lit "/" ++ title ++ rest) =
  Some (author ++ lit "/" ++ title).
Proof.
  intros Hne Hauthor Htrack.
  apply ExtractFacts.extractSoundCloudTrackId_uri; [| exact Htrack].
  split; [exact Hne |]. split; [| reflexivity].
  revert Hauthor. apply Forall_impl. intros c Hc.
  unfold Shape.soundcloudUserUnit, RegExp.inClass. cbn [existsb fst snd xorb].
  rewrite orb_false_r.
  destruct (Z.leb_spec 47 c), (Z.leb_spec c 47); try reflexivity. lia.
Qed.

Lemma extractSoundCloudTrackId_inverts_uri_witness :
  Utils.extractSoundCloudTrackId
    (lit "https://soundcloud.com/" ++ lit "rick" ++ lit "/" ++ lit "never"
     ++ lit "?in=mix")
  = Some (lit "rick" ++ lit "/" ++ lit "never").
Proof.
  apply (extractSoundCloudTrackId_inverts_uri (lit "rick") (lit "never")
           (lit "?in=mix")).
  - discriminate.
  - let v := eval vm_compute in (lit "rick") in change (lit "rick") with v.
    repeat (apply Forall_cons; [discriminate |]). apply Forall_nil.
  - split; [discriminate |]. split; [| reflexivity].
    let v := eval vm_compute in (lit "never") in change (lit "never") with v.
    repeat (apply Forall_cons; [reflexivity |]). apply Forall_nil.
Defined.
